(** * nf-core component update: a shallow embedding of
      [nf_core/components/update.py] (class [ComponentUpdate])

    The Python methods are written as computations in a state-and-exception
    monad over an explicit [World]: the fields of [self], the in-memory and
    the on-disk [modules.json], the file system, the log and the answers the
    user gives to the interactive prompts.  A raised exception keeps the
    mutations made before it, as in Python. *)

From Stdlib Require Import String List Bool Arith Lia Ascii.
Import ListNotations.
Open Scope string_scope.
Open Scope list_scope.

Set Implicit Arguments.

(* ===================================================================== *)
(** ** Python dictionaries as insertion-ordered association lists *)
(* ===================================================================== *)

Section Dict.
Variable V : Type.

Definition dict := list (string * V).

(** [d.get(k)] / [k in d] *)
Fixpoint dict_get (k : string) (d : dict) : option V :=
  match d with
  | [] => None
  | (k', v) :: d' => if String.eqb k k' then Some v else dict_get k d'
  end.

Definition dict_mem (k : string) (d : dict) : bool :=
  match dict_get k d with Some _ => true | None => false end.

(** [d[k] = v]: an existing key keeps its position, a new key goes last. *)
Fixpoint dict_set (k : string) (v : V) (d : dict) : dict :=
  match d with
  | [] => [(k, v)]
  | (k', v') :: d' =>
      if String.eqb k k' then (k', v) :: d' else (k', v') :: dict_set k v d'
  end.

(** [del d[k]] *)
Definition dict_del (k : string) (d : dict) : dict :=
  filter (fun kv => negb (String.eqb k (fst kv))) d.

Definition dict_keys (d : dict) : list string := map fst d.

End Dict.

Arguments dict_get {V} k d.
Arguments dict_mem {V} k d.
Arguments dict_set {V} k v d.
Arguments dict_del {V} k d.
Arguments dict_keys {V} d.

(* ===================================================================== *)
(** ** Python values found in the [update:] block of [.nf-core.yml] *)
(* ===================================================================== *)

(** What the YAML loader can produce for an override entry. *)
#[local] Unset Elimination Schemes.
Inductive pyval :=
| VNone
| VBool (b : bool)
| VStr (s : string)
| VInt (n : nat)
| VList (l : list pyval)
| VDict (d : list (string * pyval)).
#[local] Set Elimination Schemes.

(** [s1 in s2] for two strings: substring test. *)
Fixpoint is_prefix_str (p s : string) : bool :=
  match p, s with
  | EmptyString, _ => true
  | String a p', String b s' => Ascii.eqb a b && is_prefix_str p' s'
  | String _ _, EmptyString => false
  end.

Fixpoint is_substring (p s : string) : bool :=
  is_prefix_str p s ||
  match s with
  | EmptyString => false
  | String _ s' => is_substring p s'
  end.

Definition is_VStr (v : pyval) (s : string) : bool :=
  match v with VStr s' => String.eqb s s' | _ => false end.

(* ===================================================================== *)
(** ** Paths and the file system *)
(* ===================================================================== *)

(** A path is its list of segments, resolved against one root. *)
Definition path := list string.

(** [Path(s)]: split at ['/'], dropping empty and ['.'] segments. *)
Fixpoint split_slash (s cur : string) : list string :=
  match s with
  | EmptyString => [cur]
  | String c s' =>
      if Ascii.eqb c "/"%char then cur :: split_slash s' EmptyString
      else split_slash s' (cur ++ String c EmptyString)%string
  end.

Definition keep_segment (x : string) : bool :=
  negb (String.eqb x "" || String.eqb x ".").

Definition Path (s : string) : path := filter keep_segment (split_slash s "").

Fixpoint path_eqb (p q : path) : bool :=
  match p, q with
  | [], [] => true
  | x :: p', y :: q' => String.eqb x y && path_eqb p' q'
  | _, _ => false
  end.

(** [p.relative_to(base)]: [None] stands for Python's [ValueError]. *)
Fixpoint relative_to (p base : path) {struct base} : option path :=
  match base with
  | [] => Some p
  | b :: base' =>
      match p with
      | x :: p' => if String.eqb x b then relative_to p' base' else None
      | [] => None
      end
  end.

(** Two paths are apart when neither lies at or below the other. *)
Definition apart (p q : path) : Prop :=
  relative_to p q = None /\ relative_to q p = None.

(** Files hold text; a directory lists its entries by name. *)
#[local] Unset Elimination Schemes.
Inductive node :=
| File (content : string)
| Dir (entries : list (string * node)).
#[local] Set Elimination Schemes.

Definition is_nil {A} (l : list A) : bool :=
  match l with [] => true | _ => false end.

Fixpoint fs_get (t : node) (p : path) : option node :=
  match p with
  | [] => Some t
  | x :: p' =>
      match t with
      | File _ => None
      | Dir es =>
          match dict_get x es with
          | Some c => fs_get c p'
          | None => None
          end
      end
  end.

(** Replace or create the node at [p].  The parent of [p] has to be a
    directory; with [mk] the missing ancestors are created on the way. *)
Fixpoint fs_put (mk : bool) (t : node) (p : path) (n : node) : option node :=
  match p with
  | [] => Some n
  | x :: p' =>
      match t with
      | File _ => None
      | Dir es =>
          let child :=
            match dict_get x es with
            | Some c => Some c
            | None => if mk || is_nil p' then Some (Dir []) else None
            end in
          match child with
          | None => None
          | Some c =>
              match fs_put mk c p' n with
              | Some c' => Some (Dir (dict_set x c' es))
              | None => None
              end
          end
      end
  end.

(** Unlink the node at [p]; [None] when there is nothing at [p]. *)
Fixpoint fs_del (t : node) (p : path) : option node :=
  match p with
  | [] => None
  | x :: p' =>
      match t with
      | File _ => None
      | Dir es =>
          match dict_get x es with
          | None => None
          | Some c =>
              if is_nil p' then Some (Dir (dict_del x es))
              else match fs_del c p' with
                   | Some c' => Some (Dir (dict_set x c' es))
                   | None => None
                   end
          end
      end
  end.

Definition fs_exists (t : node) (p : path) : bool :=
  match fs_get t p with Some _ => true | None => false end.

Definition fs_is_file (t : node) (p : path) : bool :=
  match fs_get t p with Some (File _) => true | _ => false end.

Definition fs_is_dir (t : node) (p : path) : bool :=
  match fs_get t p with Some (Dir _) => true | _ => false end.

(* ===================================================================== *)
(** ** Exceptions, log records *)
(* ===================================================================== *)

(** The exception classes the code raises or meets. *)
Inductive exn_class :=
| LookupError | IndexError | KeyError
| TypeError | AttributeError | ValueError
| UserWarning
| OSError | FileNotFoundError | FileExistsError
| IsADirectoryError | NotADirectoryError | ShutilError
| KeyboardInterrupt | RecursionError.

Definition exn_class_eqb (a b : exn_class) : bool :=
  match a, b with
  | LookupError, LookupError | IndexError, IndexError | KeyError, KeyError
  | TypeError, TypeError | AttributeError, AttributeError
  | ValueError, ValueError | UserWarning, UserWarning
  | OSError, OSError | FileNotFoundError, FileNotFoundError
  | FileExistsError, FileExistsError | IsADirectoryError, IsADirectoryError
  | NotADirectoryError, NotADirectoryError | ShutilError, ShutilError
  | KeyboardInterrupt, KeyboardInterrupt
  | RecursionError, RecursionError => true
  | _, _ => false
  end.

(** Python's class hierarchy: [isinstance(e, c)] for [e] of class [a].
    [IndexError] and [KeyError] derive from [LookupError]; the file errors
    (and [shutil.Error]) from [OSError]. *)
Definition isinstance (a c : exn_class) : bool :=
  exn_class_eqb a c ||
  match c, a with
  | LookupError, (IndexError | KeyError) => true
  | OSError, (FileNotFoundError | FileExistsError | IsADirectoryError
             | NotADirectoryError | ShutilError) => true
  | _, _ => false
  end.

(** What [skipped_components] collects: line 494 appends
    [f"{component_dir}/{component}"], line 440 interpolates the whole
    [components] list instead. *)
Inductive skip_item :=
| SkipComponent (component_dir component : string)
| SkipListing (component_dir : string) (components : list (string * string)).

(** The texts of the log calls and of the raised exceptions, one constructor
    per f-string of the source, carrying the interpolated values. *)
Inductive text :=
(* _parameter_checks *)
| TxtPreviewAndSaveDiff
| TxtComponentAndAll (component_type : string)
| TxtCloneOfModules (component_type : string)
| TxtShaAndPrompt
| TxtInvalidPipelineDir
(* update *)
| TxtShaMissing (sha remote_url : string)
| TxtAlreadyInstalledAt (component_fullname : path) (version : string)
| TxtAlreadyUpToDate (component_fullname : path)
| TxtPatchedOk (component_type : string) (component_fullname : path)
| TxtPatchFailedProceed (component_type : string) (component_fullname : path)
| TxtComparedPatched
| TxtComparedUnpatched
| TxtWritingDiff (component_type : string) (component_fullname file : path)
| TxtDiff (diff : string)
| TxtTipGitApply (file : path)
| TxtCompleteApplyManually
| TxtComplete
(* get_single_component_info *)
| TxtNoneInstalledFrom (component_type remote_url : string)
| TxtNotInstalled (component_type component : string)
| TxtNotAvailable (component_type component : string)
| TxtEntryFalse (component_type : string)
| TxtEntryWrongType (component_type : string)
| TxtEntryOverridesSha (component_type component : string)
| TxtEntryFound (component_type component : string)
| TxtUpdatingTo (sha : string)
| TxtBranchDiffers (install_dir component component_type new_branch : string)
                   (current_branch : option string)
(* get_all_components_info *)
| TxtInvalidComponentEntry (component_type component component_dir : string)
| TxtInvalidRepoEntry (repo_name : string)
| TxtSkippingRepos (component_type : string) (skipped_repos : list string)
| TxtSkippingComponents (component_type : string)
                        (skipped_components : list skip_item)
| TxtOverridingRepos (component_type : string) (overridden_repos : list string)
| TxtOverridingComponents (component_type : string)
                          (overridden_components : list string)
| TxtRepoUnreachable (remote_url : string) (branch : option string)
| TxtSkippingRepo (component_type remote_url : string)
| TxtComponentMissing (component_type component remote_url : string)
| TxtShaNotOnBranch (sha branch remote_url component_type component : string)
(* move_files_from_tmp_dir *)
| TxtRemovingOld (component_type component : string)
| TxtUpdating (repo_path component : string)
| TxtUpdatingToVersion (component_type component new_version repo_path : string)
(* try_apply_patch *)
| TxtFoundPatch (component_type : string) (component_fullname : path)
| TxtStalePatch (component : string)
| TxtFailedApplyPatch (component_type : string) (component_fullname : path)
| TxtWritingPatched
| TxtRegenerating
| TxtOverwriting
(* raised by the interpreter or the standard library *)
| TxtBuiltin.

Inductive exn := Exn (cls : exn_class) (msg : text).

Definition exn_cls (e : exn) : exn_class := let 'Exn c _ := e in c.

Inductive level := DEBUG | INFO | WARNING | ERROR | CONSOLE.

Definition log_record := (level * text)%type.

(* ===================================================================== *)
(** ** The objects the command works on *)
(* ===================================================================== *)

(** [ModulesRepo]: the Registry Source for one (url, branch). *)
Record ModulesRepo := {
  remote_url : string;
  branch : string;
  repo_path : string
}.

(** One record of [modules.json]. *)
Record comp_record := {
  git_sha : option string;
  rec_branch : option string;
  patch : option path;
  installed_by : list string
}.

(** [modules_json["repos"]]: url, component type, install directory, name. *)
Definition modules_json := dict (dict (dict (dict comp_record))).

(** The values [self.save_diff_fn] takes: [None], a boolean from the mode
    prompt, the string of [--save-diff], a [Path] after [setup_diff_file]. *)
Inductive save_diff :=
| SDNone
| SDBool (b : bool)
| SDStr (s : string)
| SDPath (p : path).

(** Attributes set by [__init__] and never assigned again. *)
Record Args := {
  dir : path;
  repo_type : string;
  valid_directory : bool;
  force : bool;
  prompt : bool;
  sha : option string
}.

(** The answers the user will give, one queue per kind of prompt. *)
Record Inputs := {
  confirms : list bool;
  filenames : list string;
  selects : list nat;
  autocompletes : list string;
  versions : list string
}.

Record World := {
  args : Args;
  component_type : string;
  modules_repo : ModulesRepo;
  update_all : bool;
  show_diff : option bool;
  save_diff_fn : save_diff;
  component : option string;
  update_config : dict pyval;
  (** [self.modules_json]: the loaded dictionary, the file on disk, and the
      [pipeline_components] attribute. *)
  mj : modules_json;
  mj_disk : modules_json;
  pipeline_components : option (dict (list (string * string)));
  fs : node;
  tmp_counter : nat;
  logs : list log_record;
  inputs : Inputs;
  (** Ghost: the nested [self.update] calls made by the current activation,
      as (active component type at the call, name). *)
  calls : list (string * string)
}.

Definition set_component_type (v : string) (w : World) : World :=
  Build_World (args w) v (modules_repo w) (update_all w) (show_diff w)
    (save_diff_fn w) (component w) (update_config w) (mj w) (mj_disk w)
    (pipeline_components w) (fs w) (tmp_counter w) (logs w) (inputs w)
    (calls w).

Definition set_modules_repo (v : ModulesRepo) (w : World) : World :=
  Build_World (args w) (component_type w) v (update_all w) (show_diff w)
    (save_diff_fn w) (component w) (update_config w) (mj w) (mj_disk w)
    (pipeline_components w) (fs w) (tmp_counter w) (logs w) (inputs w)
    (calls w).

Definition set_update_all (v : bool) (w : World) : World :=
  Build_World (args w) (component_type w) (modules_repo w) v (show_diff w)
    (save_diff_fn w) (component w) (update_config w) (mj w) (mj_disk w)
    (pipeline_components w) (fs w) (tmp_counter w) (logs w) (inputs w)
    (calls w).

Definition set_show_diff (v : option bool) (w : World) : World :=
  Build_World (args w) (component_type w) (modules_repo w) (update_all w) v
    (save_diff_fn w) (component w) (update_config w) (mj w) (mj_disk w)
    (pipeline_components w) (fs w) (tmp_counter w) (logs w) (inputs w)
    (calls w).

Definition set_save_diff_fn (v : save_diff) (w : World) : World :=
  Build_World (args w) (component_type w) (modules_repo w) (update_all w)
    (show_diff w) v (component w) (update_config w) (mj w) (mj_disk w)
    (pipeline_components w) (fs w) (tmp_counter w) (logs w) (inputs w)
    (calls w).

Definition set_component (v : option string) (w : World) : World :=
  Build_World (args w) (component_type w) (modules_repo w) (update_all w)
    (show_diff w) (save_diff_fn w) v (update_config w) (mj w) (mj_disk w)
    (pipeline_components w) (fs w) (tmp_counter w) (logs w) (inputs w)
    (calls w).

Definition set_update_config (v : dict pyval) (w : World) : World :=
  Build_World (args w) (component_type w) (modules_repo w) (update_all w)
    (show_diff w) (save_diff_fn w) (component w) v (mj w) (mj_disk w)
    (pipeline_components w) (fs w) (tmp_counter w) (logs w) (inputs w)
    (calls w).

Definition set_mj (v : modules_json) (w : World) : World :=
  Build_World (args w) (component_type w) (modules_repo w) (update_all w)
    (show_diff w) (save_diff_fn w) (component w) (update_config w) v
    (mj_disk w) (pipeline_components w) (fs w) (tmp_counter w) (logs w)
    (inputs w) (calls w).

Definition set_mj_disk (v : modules_json) (w : World) : World :=
  Build_World (args w) (component_type w) (modules_repo w) (update_all w)
    (show_diff w) (save_diff_fn w) (component w) (update_config w) (mj w) v
    (pipeline_components w) (fs w) (tmp_counter w) (logs w) (inputs w)
    (calls w).

Definition set_pipeline_components (v : option (dict (list (string * string)))) (w : World) : World :=
  Build_World (args w) (component_type w) (modules_repo w) (update_all w)
    (show_diff w) (save_diff_fn w) (component w) (update_config w) (mj w)
    (mj_disk w) v (fs w) (tmp_counter w) (logs w) (inputs w) (calls w).

Definition set_fs (v : node) (w : World) : World :=
  Build_World (args w) (component_type w) (modules_repo w) (update_all w)
    (show_diff w) (save_diff_fn w) (component w) (update_config w) (mj w)
    (mj_disk w) (pipeline_components w) v (tmp_counter w) (logs w) (inputs
    w) (calls w).

Definition set_tmp_counter (v : nat) (w : World) : World :=
  Build_World (args w) (component_type w) (modules_repo w) (update_all w)
    (show_diff w) (save_diff_fn w) (component w) (update_config w) (mj w)
    (mj_disk w) (pipeline_components w) (fs w) v (logs w) (inputs w) (calls
    w).

Definition set_logs (v : list log_record) (w : World) : World :=
  Build_World (args w) (component_type w) (modules_repo w) (update_all w)
    (show_diff w) (save_diff_fn w) (component w) (update_config w) (mj w)
    (mj_disk w) (pipeline_components w) (fs w) (tmp_counter w) v (inputs w)
    (calls w).

Definition set_inputs (v : Inputs) (w : World) : World :=
  Build_World (args w) (component_type w) (modules_repo w) (update_all w)
    (show_diff w) (save_diff_fn w) (component w) (update_config w) (mj w)
    (mj_disk w) (pipeline_components w) (fs w) (tmp_counter w) (logs w) v
    (calls w).

Definition set_calls (v : list (string * string)) (w : World) : World :=
  Build_World (args w) (component_type w) (modules_repo w) (update_all w)
    (show_diff w) (save_diff_fn w) (component w) (update_config w) (mj w)
    (mj_disk w) (pipeline_components w) (fs w) (tmp_counter w) (logs w)
    (inputs w) v.

(* ===================================================================== *)
(** ** The monad: state, with exceptions that keep the state *)
(* ===================================================================== *)

Inductive Res (A : Type) :=
| Ok (a : A)
| Err (e : exn).
Arguments Ok {A} a.
Arguments Err {A} e.

Definition M (A : Type) := World -> Res A * World.

Definition ret {A} (a : A) : M A := fun w => (Ok a, w).

Definition bind {A B} (m : M A) (f : A -> M B) : M B :=
  fun w => match m w with
           | (Ok a, w') => f a w'
           | (Err e, w') => (Err e, w')
           end.

Definition raise {A} (c : exn_class) (t : text) : M A :=
  fun w => (Err (Exn c t), w).

Definition gets {A} (f : World -> A) : M A := fun w => (Ok (f w), w).

Definition modify (f : World -> World) : M unit := fun w => (Ok tt, f w).

(** [try: m except c: h] *)
Definition try_except {A} (m : M A) (c : exn_class) (h : exn -> M A) : M A :=
  fun w => match m w with
           | (Ok a, w') => (Ok a, w')
           | (Err e, w') =>
               if isinstance (exn_cls e) c then h e w' else (Err e, w')
           end.

Declare Scope monad_scope.
Delimit Scope monad_scope with monad.
Notation "x <- c1 ;; c2" := (bind c1 (fun x => c2))
  (at level 61, c1 at next level, right associativity) : monad_scope.
Notation "' pat <- c1 ;; c2" :=
  (bind c1 (fun x => match x with pat => c2 end))
  (at level 61, pat pattern, c1 at next level, right associativity)
  : monad_scope.
Notation "c1 ;; c2" := (bind c1 (fun _ => c2))
  (at level 61, right associativity) : monad_scope.
Open Scope monad_scope.

(** [for x in xs: body] over a state monad. *)
Fixpoint for_each {A} (xs : list A) (body : A -> M unit) : M unit :=
  match xs with
  | [] => ret tt
  | x :: xs' => body x ;; for_each xs' body
  end.

(** A loop that carries its local variables. *)
Fixpoint fold_M {A S} (xs : list A) (body : S -> A -> M S) (s : S) : M S :=
  match xs with
  | [] => ret s
  | x :: xs' => s' <- body s x ;; fold_M xs' body s'
  end.

Definition when (b : bool) (m : M unit) : M unit := if b then m else ret tt.

Definition log (l : level) (t : text) : M unit :=
  modify (fun w => set_logs (logs w ++ [(l, t)]) w).

(* ===================================================================== *)
(** ** Interactive prompts ([questionary]) *)
(* ===================================================================== *)

(** Each prompt takes the next answer of its queue; a user who gives no
    answer interrupts the program, as [unsafe_ask] does on Ctrl-C. *)
Definition set_confirms (v : list bool) (i : Inputs) : Inputs :=
  Build_Inputs v (filenames i) (selects i) (autocompletes i) (versions i).
Definition set_filenames (v : list string) (i : Inputs) : Inputs :=
  Build_Inputs (confirms i) v (selects i) (autocompletes i) (versions i).
Definition set_selects (v : list nat) (i : Inputs) : Inputs :=
  Build_Inputs (confirms i) (filenames i) v (autocompletes i) (versions i).
Definition set_autocompletes (v : list string) (i : Inputs) : Inputs :=
  Build_Inputs (confirms i) (filenames i) (selects i) v (versions i).
Definition set_versions (v : list string) (i : Inputs) : Inputs :=
  Build_Inputs (confirms i) (filenames i) (selects i) (autocompletes i) v.

Definition ask {A} (queue : Inputs -> list A)
    (set : list A -> Inputs -> Inputs) : M A :=
  fun w => match queue (inputs w) with
           | a :: rest => (Ok a, set_inputs (set rest (inputs w)) w)
           | [] => (Err (Exn KeyboardInterrupt TxtBuiltin), w)
           end.

Definition questionary_confirm : M bool := ask confirms set_confirms.
Definition questionary_path : M string := ask filenames set_filenames.
Definition questionary_select : M nat := ask selects set_selects.
Definition questionary_autocomplete : M string :=
  ask autocompletes set_autocompletes.

(* ===================================================================== *)
(** ** File-system calls of the standard library *)
(* ===================================================================== *)

Definition io_error {A} (c : exn_class) : M A := raise c TxtBuiltin.

(** Run a partial update of the tree; failure raises [c] and changes
    nothing. *)
Definition fs_update (f : node -> option node) (c : exn_class) : M unit :=
  fun w => match f (fs w) with
           | Some t => (Ok tt, set_fs t w)
           | None => (Err (Exn c TxtBuiltin), w)
           end.

Definition os_path_exists (p : path) : M bool :=
  gets (fun w => fs_exists (fs w) p).

(** [open(p, "w")] followed by writing [s]. *)
Definition open_write (p : path) (s : string) : M unit :=
  d <- gets (fun w => fs_is_dir (fs w) p) ;;
  if d then io_error IsADirectoryError
  else fs_update (fun t => fs_put false t p (File s)) FileNotFoundError.

(** [open(p, "a")] followed by writing [s]. *)
Definition open_append (p : path) (s : string) : M unit :=
  n <- gets (fun w => fs_get (fs w) p) ;;
  match n with
  | Some (Dir _) => io_error IsADirectoryError
  | Some (File c) =>
      fs_update (fun t => fs_put false t p (File (c ++ s)%string))
                FileNotFoundError
  | None => fs_update (fun t => fs_put false t p (File s)) FileNotFoundError
  end.

(** [open(p).read()] *)
Definition read_file (p : path) : M string :=
  n <- gets (fun w => fs_get (fs w) p) ;;
  match n with
  | Some (File c) => ret c
  | Some (Dir _) => io_error IsADirectoryError
  | None => io_error FileNotFoundError
  end.

Fixpoint unary (n : nat) : string :=
  match n with O => "" | S n' => String "i"%char (unary n') end.

(** [tempfile.mkdtemp()]: a new directory under the temporary root. *)
Definition tmp_root : path := ["tmp"].

Definition tmp_name (n : nat) : string := ("tmp" ++ unary n)%string.

Definition tempfile_mkdtemp : M path :=
  n <- gets tmp_counter ;;
  modify (set_tmp_counter (S n)) ;;
  let p := tmp_root ++ [tmp_name n] in
  e <- os_path_exists p ;;
  if e then io_error FileExistsError
  else fs_update (fun t => fs_put false t p (Dir [])) FileNotFoundError ;;
       ret p.

(** [shutil.copytree(src, dst)]: [dst] must not exist; its missing parents
    are created. *)
Definition shutil_copytree (src dst : path) : M unit :=
  s <- gets (fun w => fs_get (fs w) src) ;;
  match s with
  | None => io_error FileNotFoundError
  | Some (File _) => io_error NotADirectoryError
  | Some (Dir es) =>
      e <- os_path_exists dst ;;
      if e then io_error FileExistsError
      else fs_update (fun t => fs_put true t dst (Dir es)) NotADirectoryError
  end.

(** [shutil.rmtree(p)] *)
Definition shutil_rmtree (p : path) : M unit :=
  s <- gets (fun w => fs_get (fs w) p) ;;
  match s with
  | None => io_error FileNotFoundError
  | Some (File _) => io_error NotADirectoryError
  | Some (Dir _) => fs_update (fun t => fs_del t p) OSError
  end.

(** [shutil.move(src, dst)]: into [dst] when that is a directory, else a
    rename onto [dst]. *)
Definition shutil_move (src dst : path) : M unit :=
  s <- gets (fun w => fs_get (fs w) src) ;;
  match s with
  | None => io_error FileNotFoundError
  | Some n =>
      d <- gets (fun w => fs_is_dir (fs w) dst) ;;
      let real_dst := if d then dst ++ [last src ""] else dst in
      e <- os_path_exists real_dst ;;
      if d && e then io_error ShutilError
      else fs_update
             (fun t => match fs_del t src with
                       | Some t1 => fs_put false t1 real_dst n
                       | None => None
                       end) FileNotFoundError
  end.

(** [os.remove(p)] *)
Definition os_remove (p : path) : M unit :=
  s <- gets (fun w => fs_get (fs w) p) ;;
  match s with
  | None => io_error FileNotFoundError
  | Some (Dir _) => io_error IsADirectoryError
  | Some (File _) => fs_update (fun t => fs_del t p) OSError
  end.

(** [Path.touch()] *)
Definition Path_touch (p : path) : M unit :=
  e <- os_path_exists p ;;
  if e then ret tt
  else fs_update (fun t => fs_put false t p (File "")) FileNotFoundError.

(** [os.listdir(p)] *)
Definition os_listdir (p : path) : M (list string) :=
  s <- gets (fun w => fs_get (fs w) p) ;;
  match s with
  | None => io_error FileNotFoundError
  | Some (File _) => io_error NotADirectoryError
  | Some (Dir es) => ret (dict_keys es)
  end.

(** [os.makedirs(p)] *)
Definition os_makedirs (p : path) : M unit :=
  e <- os_path_exists p ;;
  if e then io_error FileExistsError
  else fs_update (fun t => fs_put true t p (Dir [])) NotADirectoryError.

(* ===================================================================== *)
(** ** Collaborators outside this file *)
(* ===================================================================== *)

(** The arguments [write_diff_file] and [print_diff] pass on to the diff
    engine besides the two directories. *)
Record diff_header := {
  dh_component : string;
  dh_repo_path : string;
  dh_current_version : option string;
  dh_new_version : option string;
  dh_for_git : bool;
  dh_dsp_from_dir : path;
  dh_dsp_to_dir : path
}.

(** The remote registry, the textual diff/patch algorithm and the checks
    [update] runs before it starts are not part of this file; they are
    taken as parameters. *)
Record Env := {
  (** [ModulesRepo.sha_exists_on_branch(sha)] *)
  sha_exists_on_branch : ModulesRepo -> string -> bool;
  (** [ModulesRepo.get_avail_components(component_type)] *)
  get_avail_components : ModulesRepo -> string -> list string;
  (** [ModulesRepo.component_exists(component, component_type)] *)
  component_exists : ModulesRepo -> string -> string -> bool;
  (** [ModulesRepo.get_latest_component_version(component, component_type)] *)
  get_latest_component_version : ModulesRepo -> string -> string -> string;
  (** The tree the registry holds for (component type, component, version);
      [None] when it cannot be fetched. *)
  registry_fetch :
    ModulesRepo -> string -> string -> string -> option (list (string * node));
  (** [ModulesRepo(remote_url, branch)]: the branch and the install
      directory of a reachable repository. *)
  registry_probe : string -> option string -> option (string * string);
  (** The diff of two directories ([None]: no such directory). *)
  differ_diff : diff_header -> option node -> option node -> string;
  (** Applying a patch text to a directory: the new lines of each patched
      file, or [None] when a hunk fails. *)
  differ_apply : string -> node -> option (list (path * list string));
  (** Whether the paths named in a patch text are those of the component. *)
  patch_paths_ok : string -> string -> string -> bool;
  (** The diff of two states of [modules.json]. *)
  differ_json_diff : modules_json -> modules_json -> path -> string;
  (** [nf_core.utils.load_tools_config(dir).get("update", {})] *)
  tools_update_config : dict pyval;
  (** The order in which the interpreter iterates over [set(l)]. *)
  set_iteration : list string -> list string;
  (** [ComponentCommand.check_modules_structure] *)
  check_modules_structure : M unit;
  (** [ModulesJson.check_up_to_date] *)
  check_up_to_date : M unit
}.

(** Modelled from the spec: the constructor of [ModulesRepo] (the Registry
    Source of section 3, one instance per (url, branch)); it raises
    [LookupError] when the repository cannot be set up. *)
Definition ModulesRepo_init (E : Env) (url : string) (br : option string)
  : M ModulesRepo :=
  match registry_probe E url br with
  | Some (b, rp) => ret {| remote_url := url; branch := b; repo_path := rp |}
  | None => raise LookupError (TxtRepoUnreachable url br)
  end.

(** Modelled from the spec: [ModulesRepo.setup_branch], section 6
    [switchBranch(branch)]: the shared source now serves that branch (with
    no branch on record it keeps the one it has). *)
Definition setup_branch (b : option string) : M unit :=
  modify (fun w =>
    set_modules_repo
      {| remote_url := remote_url (modules_repo w);
         branch := match b with
                   | Some b' => b'
                   | None => branch (modules_repo w)
                   end;
         repo_path := repo_path (modules_repo w) |} w).

(** *** Persisted State ([ModulesJson]) *)

Definition mj_lookup (m : modules_json) (url ctype install_dir name : string)
  : option comp_record :=
  match dict_get url m with
  | None => None
  | Some r =>
      match dict_get ctype r with
      | None => None
      | Some t =>
          match dict_get install_dir t with
          | None => None
          | Some d => dict_get name d
          end
      end
  end.

Definition or_empty {V} (o : option (dict V)) : dict V :=
  match o with Some d => d | None => [] end.

(** Write one record, creating the levels above it as needed. *)
Definition mj_store (m : modules_json) (url ctype install_dir name : string)
    (r : comp_record) : modules_json :=
  let repo := or_empty (dict_get url m) in
  let typ := or_empty (dict_get ctype repo) in
  let d := or_empty (dict_get install_dir typ) in
  dict_set url (dict_set ctype (dict_set install_dir (dict_set name r d) typ)
                  repo) m.

Definition empty_record : comp_record :=
  {| git_sha := None; rec_branch := None; patch := None; installed_by := [] |}.

Definition mj_record (m : modules_json) (url ctype install_dir name : string)
  : comp_record :=
  match mj_lookup m url ctype install_dir name with
  | Some r => r
  | None => empty_record
  end.

(** Modelled from the spec: [ModulesJson.get_all_components], section 6
    [allComponents(type)]: for each repository holding components of that
    type, its (install directory, name) pairs. *)
Definition all_components_of (m : modules_json) (ctype : string)
  : dict (list (string * string)) :=
  flat_map (fun '(url, repo) =>
    match dict_get ctype repo with
    | None => []
    | Some t =>
        [(url, flat_map (fun '(d, comps) =>
                           map (fun '(n, _) => (d, n)) comps) t)]
    end) m.

Definition get_all_components (ctype : string)
  : M (dict (list (string * string))) :=
  gets (fun w => all_components_of (mj w) ctype).

(** Modelled from the spec: [ModulesJson.get_component_version],
    [get_component_branch] and [get_patch_fn], section 6
    [getVersion/getBranch/getPatchPath]: the attribute of the record, [None]
    when there is none.  The source calls [get_patch_fn] without a component
    type; patches are looked up among the modules. *)
Definition get_component_version (ctype name url install_dir : string)
  : M (option string) :=
  gets (fun w => match mj_lookup (mj w) url ctype install_dir name with
                 | Some r => git_sha r
                 | None => None
                 end).

Definition get_component_branch (ctype name url install_dir : string)
  : M (option string) :=
  gets (fun w => match mj_lookup (mj w) url ctype install_dir name with
                 | Some r => rec_branch r
                 | None => None
                 end).

Definition patch_component_type : string := "modules".

Definition get_patch_fn (name url install_dir : string) : M (option path) :=
  gets (fun w =>
    match mj_lookup (mj w) url patch_component_type install_dir name with
    | Some r => patch r
    | None => None
    end).

(** Modelled from the spec: [ModulesJson.dump], the flush of the in-memory
    state to the file on disk. *)
Definition mj_dump : M unit := modify (fun w => set_mj_disk (mj w) w).

(** Modelled from the spec: [ModulesJson.update], sections 4.8 and 6
    [update(type, repo, name, version, patchInfo, flush)]: record the new
    version under (type, repo url, install directory, name), and write the
    file unless [write_file] is false.  The fifth argument is the active
    component type at both call sites; the model keeps the rest of the
    record as it is. *)
Definition modules_json_update (ctype : string) (repo : ModulesRepo)
    (name version fifth : string) (write_file : bool) : M unit :=
  modify (fun w =>
    let r := mj_record (mj w) (remote_url repo) ctype (repo_path repo) name in
    set_mj (mj_store (mj w) (remote_url repo) ctype (repo_path repo) name
              {| git_sha := Some version; rec_branch := rec_branch r;
                 patch := patch r; installed_by := installed_by r |}) w) ;;
  when write_file mj_dump.

(** Modelled from the spec: [ModulesJson.add_patch_entry], section 6
    [addPatchEntry(name, repo, dir, patchPath, flush)]. *)
Definition add_patch_entry (name url install_dir : string) (patch_relpath : path)
    (write_file : bool) : M unit :=
  modify (fun w =>
    let r := mj_record (mj w) url patch_component_type install_dir name in
    set_mj (mj_store (mj w) url patch_component_type install_dir name
              {| git_sha := git_sha r; rec_branch := rec_branch r;
                 patch := Some patch_relpath;
                 installed_by := installed_by r |}) w) ;;
  when write_file mj_dump.

(** Modelled from the spec: [ModulesJson.get_modules_json], section 6
    [snapshot()]: a copy of the in-memory state. *)
Definition get_modules_json : M modules_json := gets mj.

(** *** Diff/patch engine ([ModulesDiffer]) *)

Inductive file_action := ActionAppend | ActionWrite.

(** Modelled from the spec: [ModulesDiffer.write_diff_file], section 6
    [writeDiffFile]: the diff from [from_dir] to [to_dir] is computed, then
    appended to the file (section 4.6) or, with [file_action="w"], written
    over it. *)
Definition write_diff_file (E : Env) (diff_path : path) (h : diff_header)
    (from_dir to_dir : path) (a : file_action) : M unit :=
  d <- gets (fun w => differ_diff E h (fs_get (fs w) from_dir)
                                      (fs_get (fs w) to_dir)) ;;
  match a with
  | ActionAppend => open_append diff_path d
  | ActionWrite => open_write diff_path d
  end.

(** Modelled from the spec: [ModulesDiffer.print_diff], section 6
    [printDiff]: the same diff, shown on the terminal. *)
Definition print_diff (E : Env) (h : diff_header) (from_dir to_dir : path)
  : M unit :=
  d <- gets (fun w => differ_diff E h (fs_get (fs w) from_dir)
                                      (fs_get (fs w) to_dir)) ;;
  log CONSOLE (TxtDiff d).

(** Modelled from the spec: [ModulesDiffer.append_modules_json_diff],
    section 6 [appendStateDiff]. *)
Definition append_modules_json_diff (E : Env) (diff_path : path)
    (old new : modules_json) (modules_json_path : path) : M unit :=
  open_append diff_path (differ_json_diff E old new modules_json_path).

(** Modelled from the spec: [ModulesDiffer.try_apply_patch], section 6
    [applyPatch(patchFile, targetDir)]: the patched files, [LookupError]
    when any hunk fails. *)
Definition ModulesDiffer_try_apply_patch (E : Env) (patch_path target : path)
  : M (list (path * list string)) :=
  p <- read_file patch_path ;;
  t <- gets (fun w => fs_get (fs w) target) ;;
  match t with
  | None => io_error FileNotFoundError
  | Some tree =>
      match differ_apply E p tree with
      | Some new_files => ret new_files
      | None => raise LookupError TxtBuiltin
      end
  end.

(** *** [ComponentCommand] *)

(** Modelled from the spec: [check_patch_paths], section 4.5: a patch whose
    paths are not those of the installed component is rejected before any
    attempt to apply it. *)
Definition check_patch_paths (E : Env) (patch_path : path) (name : string)
  : M unit :=
  p <- read_file patch_path ;;
  ctype <- gets component_type ;;
  if patch_paths_ok E ctype name p then ret tt
  else raise UserWarning (TxtStalePatch name).

(** Modelled from the spec: [install_component_files], section 4.4 and
    section 6 [fetch(name, type, version, destDir)]: the tree of the wanted
    version is put under the staging directory; [False] on failure. *)
Definition install_component_files (E : Env) (name version : string)
    (repo : ModulesRepo) (install_dir : path) : M bool :=
  ctype <- gets component_type ;;
  match registry_fetch E repo ctype name version with
  | None => ret false
  | Some es =>
      fs_update (fun t => fs_put true t (install_dir ++ Path name) (Dir es))
                NotADirectoryError ;;
      ret true
  end.

(** Modelled from the spec: [clear_component_dir], section 4.7: the
    installed directory is removed recursively if present. *)
Definition clear_component_dir (name : string) (component_dir : path)
  : M bool :=
  d <- gets (fun w => fs_is_dir (fs w) component_dir) ;;
  if d then fs_update (fun t => fs_del t component_dir) OSError ;; ret true
  else ret false.

(** Modelled from the spec: [prompt_component_version_sha], section 4.4: the
    user picks a version, the installed one being the default. *)
Definition prompt_component_version_sha (name ctype : string)
    (repo : ModulesRepo) (installed_sha : option string) : M string :=
  ask versions set_versions.

(* ===================================================================== *)
(** ** Operations of Python on the values of the configuration *)
(* ===================================================================== *)

(** [v.get(k, default)]: only a dict has [get]. *)
Definition py_get (v : pyval) (k : string) (default : pyval) : M pyval :=
  match v with
  | VDict d => ret (match dict_get k d with Some x => x | None => default end)
  | _ => raise AttributeError TxtBuiltin
  end.

(** [k in v] for a string [k]: key of a dict, substring of a string, element
    of a list; the other values are not iterable. *)
Definition py_in (k : string) (v : pyval) : M bool :=
  match v with
  | VDict d => ret (dict_mem k d)
  | VStr s => ret (is_substring k s)
  | VList l => ret (existsb (fun x => is_VStr x k) l)
  | _ => raise TypeError TxtBuiltin
  end.

(** [v[k]] for a string [k]. *)
Definition py_index (v : pyval) (k : string) : M pyval :=
  match v with
  | VDict d =>
      match dict_get k d with
      | Some x => ret x
      | None => raise KeyError TxtBuiltin
      end
  | _ => raise TypeError TxtBuiltin
  end.

Definition opt_str_eqb (a b : option string) : bool :=
  match a, b with
  | Some x, Some y => String.eqb x y
  | None, None => true
  | _, _ => false
  end.

Definition is_some {A} (o : option A) : bool :=
  match o with Some _ => true | None => false end.

Definition str_truthy (s : string) : bool := negb (String.eqb s "").

Definition opt_truthy (o : option string) : bool :=
  match o with Some s => str_truthy s | None => false end.

Definition str_mem (x : string) (l : list string) : bool :=
  existsb (String.eqb x) l.

(** Truthiness of [self.save_diff_fn] and [self.show_diff]. *)
Definition save_diff_truthy (s : save_diff) : bool :=
  match s with
  | SDNone => false
  | SDBool b => b
  | SDStr x => str_truthy x
  | SDPath _ => true
  end.

Definition show_diff_truthy (s : option bool) : bool :=
  match s with Some true => true | _ => false end.

(** An Update-Plan Entry: [(modules_repo, component, sha, patch_relpath)]. *)
Definition plan_entry :=
  (ModulesRepo * string * option string * option path)%type.

(* ===================================================================== *)
(** ** [ComponentUpdate] *)
(* ===================================================================== *)

Section ComponentUpdate.
Variable E : Env.

(** Lines 48-68. *)
Definition _parameter_checks : M unit :=
  w <- gets (fun w => w) ;;
  if save_diff_truthy (save_diff_fn w) && show_diff_truthy (show_diff w)
  then raise UserWarning TxtPreviewAndSaveDiff
  else if update_all w && opt_truthy (component w)
  then raise UserWarning (TxtComponentAndAll (component_type w))
  else if String.eqb (repo_type (args w)) "modules"
  then raise UserWarning (TxtCloneOfModules (component_type w))
  else if prompt (args w) && is_some (sha (args w))
  then raise UserWarning TxtShaAndPrompt
  else if negb (valid_directory (args w))
  then raise UserWarning TxtInvalidPipelineDir
  else ret tt.

(** The name offered for, and expected of, an installed component
    (line 287). *)
Definition choice_name (dc : string * string) : string :=
  let '(d, c) := dc in
  if String.eqb d "nf-core" then c else (d ++ "/" ++ c)%string.

(** Lines 314-336: the override entry of the component. *)
Definition single_config_sha (name install_dir : string)
  : M (option string) :=
  w <- gets (fun w => w) ;;
  let url := remote_url (modules_repo w) in
  let ctype := component_type w in
  let repo_cfg := match dict_get url (update_config w) with
                  | Some v => v
                  | None => VDict []
                  end in
  dir_cfg <- py_get repo_cfg install_dir (VDict []) ;;
  present <- py_in name dir_cfg ;;
  if present then
    r <- match dict_get url (update_config w) with
         | Some v => ret v
         | None => raise KeyError TxtBuiltin
         end ;;
    d <- py_index r install_dir ;;
    config_entry <- py_get d name VNone ;;
    match config_entry with
    | VNone | VBool true => ret (sha (args w))
    | VBool false => raise UserWarning (TxtEntryFalse ctype)
    | VStr s =>
        (if is_some (sha (args w))
         then log WARNING (TxtEntryOverridesSha ctype name)
         else log INFO (TxtEntryFound ctype name)) ;;
        log INFO (TxtUpdatingTo s) ;;
        ret (Some s)
    | _ => raise UserWarning (TxtEntryWrongType ctype)
    end
  else ret (sha (args w)).

(** Lines 338-356: the branch check and the patch on record. *)
Definition single_finish (name install_dir : string) (sha' : option string)
  : M plan_entry :=
  repo_url <- gets (fun w => remote_url (modules_repo w)) ;;
  ctype <- gets component_type ;;
  current_branch <- get_component_branch ctype name repo_url install_dir ;;
  new_branch <- gets (fun w => branch (modules_repo w)) ;;
  (if negb (opt_str_eqb current_branch (Some new_branch))
   then
     log WARNING (TxtBranchDiffers install_dir name ctype new_branch
                                   current_branch) ;;
     switch <- questionary_confirm ;;
     when switch (setup_branch current_branch)
   else ret tt) ;;
  patch_fn <- get_patch_fn name repo_url install_dir ;;
  repo <- gets modules_repo ;;
  ret (repo, name, sha', patch_fn).

(** Lines 267-356. *)
Definition get_single_component_info (component : option string)
  : M plan_entry :=
  repo_url <- gets (fun w => remote_url (modules_repo w)) ;;
  ctype <- gets component_type ;;
  all <- get_all_components ctype ;;
  match dict_get repo_url all with
  | None => raise TypeError TxtBuiltin            (* line 287 *)
  | Some components =>
    let choices := map choice_name components in
    all' <- get_all_components ctype ;;
    if negb (dict_mem repo_url all')
    then raise LookupError (TxtNoneInstalledFrom ctype repo_url)
    else
    name <- match component with
            | Some c => ret c
            | None => questionary_autocomplete
            end ;;
    match filter (fun dm => String.eqb name (snd dm)) components with
    | [] => raise IndexError TxtBuiltin           (* line 299 *)
    | (install_dir, _) :: _ =>
      if negb (str_mem name choices)
      then raise LookupError (TxtNotInstalled ctype name)
      else
      avail <- gets (fun w => get_avail_components E (modules_repo w) ctype) ;;
      if str_truthy name && negb (str_mem name avail)
      then raise LookupError (TxtNotAvailable ctype name)
      else
      sha' <- single_config_sha name install_dir ;;
      single_finish name install_dir sha'
    end
  end.

(** *** The bulk path *)

(** One planned component: [(component, sha, branch)]. *)
Definition comp_item := (string * option string * option string)%type.

(** The local variables of [get_all_components_info] (lines 374-378). *)
Record bulk := {
  skipped_repos : list string;
  skipped_components : list skip_item;
  overridden_repos : list string;
  overridden_components : list string;
  components_info : dict (dict (list comp_item))
}.

Definition bulk_init : bulk :=
  {| skipped_repos := []; skipped_components := []; overridden_repos := [];
     overridden_components := []; components_info := [] |}.

Definition set_components_info (v : dict (dict (list comp_item))) (b : bulk)
  : bulk :=
  {| skipped_repos := skipped_repos b;
     skipped_components := skipped_components b;
     overridden_repos := overridden_repos b;
     overridden_components := overridden_components b;
     components_info := v |}.

Definition add_skipped_repo (r : string) (b : bulk) : bulk :=
  {| skipped_repos := skipped_repos b ++ [r];
     skipped_components := skipped_components b;
     overridden_repos := overridden_repos b;
     overridden_components := overridden_components b;
     components_info := components_info b |}.

Definition add_skipped_component (i : skip_item) (b : bulk) : bulk :=
  {| skipped_repos := skipped_repos b;
     skipped_components := skipped_components b ++ [i];
     overridden_repos := overridden_repos b;
     overridden_components := overridden_components b;
     components_info := components_info b |}.

Definition add_overridden_repo (r : string) (b : bulk) : bulk :=
  {| skipped_repos := skipped_repos b;
     skipped_components := skipped_components b;
     overridden_repos := overridden_repos b ++ [r];
     overridden_components := overridden_components b;
     components_info := components_info b |}.

Definition add_overridden_component (c : string) (b : bulk) : bulk :=
  {| skipped_repos := skipped_repos b;
     skipped_components := skipped_components b;
     overridden_repos := overridden_repos b;
     overridden_components := overridden_components b ++ [c];
     components_info := components_info b |}.

(** [components_info[repo_name] = {}] *)
Definition reset_repo (repo_name : string) (b : bulk) : bulk :=
  set_components_info (dict_set repo_name [] (components_info b)) b.

(** The [try: components_info[repo_name][component_dir].append(...)]
    [except KeyError: components_info[repo_name][component_dir] = [...]]
    block that occurs five times between lines 386 and 523. *)
Definition record_component (repo_name component_dir name : string)
    (sha' : option string) (b : bulk) : M bulk :=
  ctype <- gets component_type ;;
  br <- get_component_branch ctype name repo_name component_dir ;;
  match dict_get repo_name (components_info b) with
  | None => raise KeyError TxtBuiltin
  | Some r =>
      let l := match dict_get component_dir r with
               | Some l => l ++ [(name, sha', br)]
               | None => [(name, sha', br)]
               end in
      ret (set_components_info
             (dict_set repo_name (dict_set component_dir l r)
                (components_info b)) b)
  end.

(** Lines 445-498: one component under a directory-level mapping. *)
Definition bulk_component (repo_name : string) (dir_config : dict pyval)
    (b : bulk) (dc : string * string) : M bulk :=
  let '(component_dir, name) := dc in
  cli_sha <- gets (fun w => sha (args w)) ;;
  ctype <- gets component_type ;;
  match dict_get name dir_config with
  | None | Some (VBool true) =>
      record_component repo_name component_dir name cli_sha b
  | Some (VStr custom_sha) =>
      b1 <- record_component repo_name component_dir name (Some custom_sha) b ;;
      ret (if is_some cli_sha then add_overridden_component name b1 else b1)
  | Some (VBool false) =>
      ret (add_skipped_component (SkipComponent component_dir name) b)
  | Some _ =>
      raise UserWarning (TxtInvalidComponentEntry ctype name component_dir)
  end.

(** Lines 408-498: one install directory under a repo-level mapping. *)
Definition bulk_dir (repo_name : string) (components : list (string * string))
    (repo_config : dict pyval) (b : bulk) (component_dir : string) : M bulk :=
  cli_sha <- gets (fun w => sha (args w)) ;;
  match dict_get component_dir repo_config with
  | None => raise KeyError TxtBuiltin
  | Some (VStr custom_sha) =>
      b1 <- fold_M components
              (fun b dc =>
                 if String.eqb component_dir (fst dc)
                 then record_component repo_name component_dir (snd dc)
                        (Some custom_sha) b
                 else ret b)
              (reset_repo repo_name b) ;;
      ret (if is_some cli_sha then add_overridden_repo repo_name b1 else b1)
  | Some (VBool false) =>
      ret (fold_left
             (fun b dc =>
                if String.eqb (fst dc) component_dir
                then add_skipped_component
                       (SkipListing component_dir components) b
                else b)
             components b)
  | Some (VDict dir_config) =>
      fold_M components (bulk_component repo_name dir_config)
             (reset_repo repo_name b)
  | Some _ => ret b
  end.

(** Lines 381-529: one repository of [modules.json]. *)
Definition bulk_repo (b : bulk) (rc : string * list (string * string))
  : M bulk :=
  let '(repo_name, components) := rc in
  cli_sha <- gets (fun w => sha (args w)) ;;
  cfg <- gets update_config ;;
  match dict_get repo_name cfg with
  | None | Some (VBool true) =>
      fold_M components
        (fun b dc => record_component repo_name (fst dc) (snd dc) cli_sha b)
        (reset_repo repo_name b)
  | Some (VDict repo_config) =>
      fold_M (set_iteration E (map fst components))
        (bulk_dir repo_name components repo_config) b
  | Some (VStr custom_sha) =>
      b1 <- fold_M components
              (fun b dc =>
                 record_component repo_name (fst dc) (snd dc)
                   (Some custom_sha) b)
              (reset_repo repo_name b) ;;
      ret (if is_some cli_sha then add_overridden_repo repo_name b1 else b1)
  | Some (VBool false) => ret (add_skipped_repo repo_name b)
  | Some _ => raise UserWarning (TxtInvalidRepoEntry repo_name)
  end.

(** Lines 531-551: the four summaries. *)
Definition bulk_summaries (b : bulk) : M unit :=
  ctype <- gets component_type ;;
  when (negb (is_nil (skipped_repos b)))
       (log INFO (TxtSkippingRepos ctype (skipped_repos b))) ;;
  when (negb (is_nil (skipped_components b)))
       (log INFO (TxtSkippingComponents ctype (skipped_components b))) ;;
  when (negb (is_nil (overridden_repos b)))
       (log INFO (TxtOverridingRepos ctype (overridden_repos b))) ;;
  when (negb (is_nil (overridden_components b)))
       (log INFO (TxtOverridingComponents ctype (overridden_components b))).

(** Lines 553-561: [repos_and_branches], keyed by (repo_name, branch). *)
Definition rb_key := (string * option string)%type.

Definition rb_key_eqb (a b : rb_key) : bool :=
  String.eqb (fst a) (fst b) && opt_str_eqb (snd a) (snd b).

Fixpoint rb_add (k : rb_key) (x : string * option string)
    (g : list (rb_key * list (string * option string)))
  : list (rb_key * list (string * option string)) :=
  match g with
  | [] => [(k, [x])]
  | (k', l) :: g' =>
      if rb_key_eqb k k' then (k', l ++ [x]) :: g'
      else (k', l) :: rb_add k x g'
  end.

(** The triples of [components_info] in iteration order, with the name of
    their repository. *)
Definition components_info_items (ci : dict (dict (list comp_item)))
  : list (string * comp_item) :=
  flat_map (fun '(repo_name, repo_content) =>
    flat_map (fun '(_, comps) => map (fun c => (repo_name, c)) comps)
             repo_content) ci.

Definition repos_and_branches (branch' : option string)
    (ci : dict (dict (list comp_item)))
  : list (rb_key * list (string * option string)) :=
  fold_left
    (fun g '(repo_name, (comp, sha', comp_branch)) =>
       let comp_branch' := if is_some branch' then branch' else comp_branch in
       rb_add (repo_name, comp_branch') (comp, sha') g)
    (components_info_items ci) [].

(** Lines 563-572: one [ModulesRepo] per key; a repository that cannot be
    set up is reported and left out. *)
Definition create_repo
    (acc : list (ModulesRepo * list (string * option string)))
    (kc : rb_key * list (string * option string))
  : M (list (ModulesRepo * list (string * option string))) :=
  let '((repo_url, br), comps_shas) := kc in
  ctype <- gets component_type ;;
  try_except
    (r <- ModulesRepo_init E repo_url br ;; ret (acc ++ [(r, comps_shas)]))
    LookupError
    (fun e =>
       log WARNING (let 'Exn _ t := e in t) ;;
       log INFO (TxtSkippingRepo ctype repo_url) ;;
       ret acc).

(** Lines 579-593: the [while] loop that pops the entries whose component or
    sha the repository does not have. *)
Fixpoint verify_entries (l : list (ModulesRepo * string * option string))
  : M (list (ModulesRepo * string * option string)) :=
  match l with
  | [] => ret []
  | (repo, name, sha') :: l' =>
      ctype <- gets component_type ;;
      if negb (component_exists E repo name ctype) then
        log WARNING (TxtComponentMissing ctype name (remote_url repo)) ;;
        verify_entries l'
      else if match sha' with
              | Some s => negb (sha_exists_on_branch E repo s)
              | None => false
              end then
        log WARNING (TxtShaNotOnBranch (match sha' with Some s => s | None => "" end)
                       (branch repo) (remote_url repo) ctype name) ;;
        verify_entries l'
      else
        rest <- verify_entries l' ;;
        ret ((repo, name, sha') :: rest)
  end.

(** Lines 596-599. *)
Fixpoint attach_patches (l : list (ModulesRepo * string * option string))
  : M (list plan_entry) :=
  match l with
  | [] => ret []
  | (repo, name, sha') :: l' =>
      p <- get_patch_fn name (remote_url repo) (repo_path repo) ;;
      rest <- attach_patches l' ;;
      ret ((repo, name, sha', p) :: rest)
  end.

(** Lines 358-601.  The confirmation of lines 368-371 is built but never
    asked ([unsafe_ask] is not called on it), so the object is truthy and
    [branch] is kept. *)
Definition get_all_components_info (branch' : option string)
  : M (list plan_entry) :=
  ctype <- gets component_type ;;
  all <- get_all_components ctype ;;
  b <- fold_M all bulk_repo bulk_init ;;
  bulk_summaries b ;;
  let rb := repos_and_branches branch' (components_info b) in
  repo_objs_comps <- fold_M rb create_repo [] ;;
  let flat :=
    flat_map (fun '(repo, comps_shas) =>
                map (fun '(comp, sha') => (repo, comp, sha')) comps_shas)
             repo_objs_comps in
  kept <- verify_entries flat ;;
  attach_patches kept.

(** *** The diff file *)

(** [self.save_diff_fn] where a path is expected. *)
Definition diff_path : M path :=
  s <- gets save_diff_fn ;;
  match s with
  | SDPath p => ret p
  | SDStr x => ret (Path x)
  | SDNone | SDBool _ => raise TypeError TxtBuiltin
  end.

(** Lines 619-627: the [while] loop.  Every turn but the last takes one
    answer from the confirmations, so [fuel] above their number is never
    used up. *)
Fixpoint setup_diff_loop (fuel : nat) : M unit :=
  match fuel with
  | O => raise RecursionError TxtBuiltin
  | S fuel' =>
      p <- diff_path ;;
      e <- os_path_exists p ;;
      if e then
        c <- questionary_confirm ;;
        if c then os_remove p
        else
          fn <- questionary_path ;;
          modify (set_save_diff_fn (SDPath (Path fn))) ;;
          setup_diff_loop fuel'
      else ret tt
  end.

(** Lines 603-630. *)
Definition setup_diff_file : M unit :=
  s <- gets save_diff_fn ;;
  match s with
  | SDBool true =>
      fn <- questionary_path ;; modify (set_save_diff_fn (SDStr fn))
  | _ => ret tt
  end ;;
  p <- diff_path ;;
  modify (set_save_diff_fn (SDPath p)) ;;
  n <- gets (fun w => length (confirms (inputs w))) ;;
  setup_diff_loop (S n) ;;
  p' <- diff_path ;;
  Path_touch p'.

(** *** Installing and patching *)

(** [os.path.join(self.dir, self.component_type, repo_path, component)] *)
Definition component_dir_of (w : World) (repo_path' name : string) : path :=
  dir (args w) ++ [component_type w] ++ Path repo_path' ++ Path name.

(** Lines 632-655. *)
Definition move_files_from_tmp_dir (name : string) (install_folder : path)
    (repo_path' new_version : string) : M unit :=
  let temp_component_dir := install_folder ++ Path name in
  files <- os_listdir temp_component_dir ;;
  pipeline_path <- gets (fun w => component_dir_of w repo_path' name) ;;
  ctype <- gets component_type ;;
  log DEBUG (TxtRemovingOld ctype name) ;;
  _ <- clear_component_dir name pipeline_path ;;
  os_makedirs pipeline_path ;;
  for_each files (fun file =>
    let p := temp_component_dir ++ [file] in
    e <- os_path_exists p ;;
    when e (shutil_move p (pipeline_path ++ [file]))) ;;
  log INFO (TxtUpdating repo_path' name) ;;
  log DEBUG (TxtUpdatingToVersion ctype name new_version repo_path').

(** [Path.relative_to], raising [ValueError]. *)
Definition relative_to_M (p base : path) : M path :=
  match relative_to p base with
  | Some r => ret r
  | None => raise ValueError TxtBuiltin
  end.

(** What line 706 tells the diff engine besides the two directories. *)
Definition patch_diff_header (ctype name repo_path' : string) : diff_header :=
  let component_relpath := [ctype] ++ Path repo_path' ++ Path name in
  {| dh_component := name; dh_repo_path := repo_path';
     dh_current_version := None; dh_new_version := None;
     dh_for_git := false;
     dh_dsp_from_dir := component_relpath;
     dh_dsp_to_dir := component_relpath |}.

(** Lines 697-728: the patch went through; [new_files] holds the new lines
    of the patched files. *)
Definition regenerate_patch (new_files : list (path * list string))
    (name repo_path' : string) (patch_relpath patch_path : path)
    (component_dir component_install_dir temp_component_dir : path) : M bool :=
  ctype <- gets component_type ;;
  log DEBUG TxtWritingPatched ;;
  for_each new_files (fun fc =>
    open_write (temp_component_dir ++ fst fc)
               (String.concat "" (snd fc))) ;;
  log DEBUG TxtRegenerating ;;
  rel <- relative_to_M patch_path component_dir ;;
  write_diff_file E (temp_component_dir ++ rel)
    (patch_diff_header ctype name repo_path')
    component_install_dir temp_component_dir ActionWrite ;;
  log DEBUG TxtOverwriting ;;
  shutil_rmtree component_install_dir ;;
  shutil_copytree temp_component_dir component_install_dir ;;
  url <- gets (fun w => remote_url (modules_repo w)) ;;
  add_patch_entry name url repo_path' patch_relpath true ;;
  ret true.

(** Lines 687-728: the attempt on the scratch copy. *)
Definition apply_patch_in (name repo_path' : string)
    (patch_relpath patch_path : path)
    (component_dir component_install_dir temp_component_dir : path) : M bool :=
  ctype <- gets component_type ;;
  let component_fullname := Path repo_path' ++ Path name in
  r <- try_except
         (new_files <- ModulesDiffer_try_apply_patch E patch_path
                         temp_component_dir ;;
          ret (Some new_files))
         LookupError
         (fun _ =>
            rel <- relative_to_M patch_path component_dir ;;
            shutil_move patch_path (component_install_dir ++ rel) ;;
            log WARNING (TxtFailedApplyPatch ctype component_fullname) ;;
            ret None) ;;
  match r with
  | None => ret false
  | Some new_files =>
      regenerate_patch new_files name repo_path' patch_relpath patch_path
        component_dir component_install_dir temp_component_dir
  end.

(** Lines 657-728. *)
Definition try_apply_patch (name repo_path' : string) (patch_relpath : path)
    (component_dir component_install_dir : path) : M bool :=
  let component_fullname := Path repo_path' ++ Path name in
  ctype <- gets component_type ;;
  log INFO (TxtFoundPatch ctype component_fullname) ;;
  patch_path <- gets (fun w => dir (args w) ++ patch_relpath) ;;
  check_patch_paths E patch_path name ;;
  temp_dir <- tempfile_mkdtemp ;;
  let temp_component_dir := temp_dir ++ Path name in
  shutil_copytree component_install_dir temp_component_dir ;;
  apply_patch_in name repo_path' patch_relpath patch_path component_dir
    component_install_dir temp_component_dir.

(** *** The cascade *)

(** [d[k]], raising [KeyError]. *)
Definition dict_index {V} (k : string) (d : dict V) : M V :=
  match dict_get k d with
  | Some v => ret v
  | None => raise KeyError TxtBuiltin
  end.

(** Lines 744-755: every record whose [installed_by] names [name], split by
    the component type it is filed under. *)
Definition dependents_of (mods_json : modules_json) (name : string)
  : list string * list string :=
  fold_left
    (fun acc '(ctype', comp) =>
       if String.eqb ctype' "modules" then (fst acc ++ [comp], snd acc)
       else if String.eqb ctype' "subworkflows" then (fst acc, snd acc ++ [comp])
       else acc)
    (flat_map (fun '(_, repo_content) =>
       flat_map (fun '(ctype', dir_content) =>
         flat_map (fun '(_, components) =>
           flat_map (fun '(comp, comp_content) =>
             if str_mem name (installed_by comp_content)
             then [(ctype', comp)] else [])
           components) dir_content) repo_content) mods_json)
    ([], []).

(** Lines 730-757. *)
Definition get_modules_subworkflows_to_update (name install_dir : string)
  : M (list string * list string) :=
  mods_json <- get_modules_json ;;
  url <- gets (fun w => remote_url (modules_repo w)) ;;
  ctype <- gets component_type ;;
  r <- dict_index url mods_json ;;
  t <- dict_index ctype r ;;
  d <- dict_index install_dir t ;;
  c <- dict_index name d ;;
  let installed_by' := installed_by c in
  if String.eqb ctype "modules" then
    ret ([], filter (fun s => negb (String.eqb s ctype)) installed_by')
  else if String.eqb ctype "subworkflows" then
    ret (dependents_of mods_json name)
  else ret ([], []).

(** Lines 773-777. *)
Definition _change_component_type (new_component_type : string) : M string :=
  original_component_type <- gets component_type ;;
  modify (set_component_type new_component_type) ;;
  modify (set_pipeline_components None) ;;
  ret original_component_type.

(** Lines 779-781. *)
Definition _reset_component_type (original_component_type : string)
  : M unit :=
  modify (set_component_type original_component_type) ;;
  modify (set_pipeline_components None).

(** [update] calls itself through [update_linked_components]; the methods
    below take the nested call as [self_update]. *)
Section Recursion.
Variable self_update : option string -> M bool.

(** The call [self.update(name)], noted in the ghost list of the calls of
    the current activation. *)
Definition call_update (name : string) : M bool :=
  fun w =>
    let '(r, w') := self_update (Some name) w in
    (r, set_calls (calls w ++ [(component_type w, name)]) w').

(** Lines 759-771. *)
Definition update_linked_components (name install_dir : string) : M unit :=
  '(modules_to_update, subworkflows_to_update) <-
     get_modules_subworkflows_to_update name install_dir ;;
  for_each subworkflows_to_update (fun s_update =>
    original_component_type <- _change_component_type "subworkflows" ;;
    _ <- call_update s_update ;;
    _reset_component_type original_component_type) ;;
  for_each modules_to_update (fun m_update =>
    original_component_type <- _change_component_type "modules" ;;
    _ <- call_update m_update ;;
    _reset_component_type original_component_type).

(** Lines 157-164: the version an entry is moved to. *)
Definition resolve_version (repo : ModulesRepo) (name : string)
    (sha' current_version : option string) : M string :=
  ctype <- gets component_type ;;
  ask_user <- gets (fun w => prompt (args w)) ;;
  match sha' with
  | Some s => ret s
  | None =>
      if ask_user
      then prompt_component_version_sha name ctype repo current_version
      else ret (get_latest_component_version E repo name ctype)
  end.

(** Lines 191-231: the diff of a dry run; the result is the new value of
    [dry_run]. *)
Definition present_diff (repo : ModulesRepo) (name version : string)
    (current_version : option string) (patch_successful : option bool)
    (component_dir component_install_dir : path) : M bool :=
  ctype <- gets component_type ;;
  let component_fullname := [ctype] ++ Path (repo_path repo) ++ Path name in
  match patch_successful with
  | Some true => log INFO TxtComparedPatched
  | Some false => log WARNING TxtComparedUnpatched
  | None => ret tt
  end ;;
  save <- gets save_diff_fn ;;
  show <- gets show_diff ;;
  let h := {| dh_component := name; dh_repo_path := repo_path repo;
              dh_current_version := current_version;
              dh_new_version := Some version;
              dh_for_git := true;
              dh_dsp_from_dir := component_dir;
              dh_dsp_to_dir := component_dir |} in
  if save_diff_truthy save then
    file <- diff_path ;;
    log INFO (TxtWritingDiff ctype component_fullname file) ;;
    write_diff_file E file h component_dir component_install_dir
      ActionAppend ;;
    ret true
  else if show_diff_truthy show then
    print_diff E h component_dir component_install_dir ;;
    answer <- questionary_confirm ;;
    ret (negb answer)
  else ret true.

(** Lines 179-244: the new files are staged under [install_tmp_dir]. *)
Definition update_staged (acc : bool * bool) (entry : plan_entry)
    (dry_run : bool) (current_version : option string)
    (install_tmp_dir : path) (version : string) : M (bool * bool) :=
  let '(exit_value, all_patches_successful) := acc in
  let '(repo, name, sha', patch_relpath) := entry in
  ctype <- gets component_type ;;
  let component_fullname := [ctype] ++ Path (repo_path repo) ++ Path name in
  let component_install_dir := install_tmp_dir ++ Path name in
  component_dir <- gets (fun w => component_dir_of w (repo_path repo) name) ;;
  patch_successful <-
    match patch_relpath with
    | Some pr =>
        ok <- try_apply_patch name (repo_path repo) pr component_dir
                component_install_dir ;;
        (if ok then log INFO (TxtPatchedOk ctype component_fullname)
         else log WARNING (TxtPatchFailedProceed ctype component_fullname)) ;;
        ret (Some ok)
    | None => ret None
    end ;;
  let all_patches_successful' :=
    match patch_successful with
    | Some ok => all_patches_successful && ok
    | None => all_patches_successful
    end in
  dry_run' <- (if dry_run
               then present_diff repo name version current_version
                      patch_successful component_dir component_install_dir
               else ret false) ;;
  (if negb dry_run' then
     move_files_from_tmp_dir name install_tmp_dir (repo_path repo) version ;;
     modules_json_update ctype repo name version ctype true ;;
     update_linked_components name (repo_path repo)
   else
     modules_json_update ctype repo name version ctype false) ;;
  ret (exit_value, all_patches_successful').

(** Lines 166-244: the target version is known. *)
Definition update_resolved (acc : bool * bool) (entry : plan_entry)
    (dry_run : bool) (current_version : option string)
    (install_tmp_dir : path) (version : string) : M (bool * bool) :=
  let '(exit_value, all_patches_successful) := acc in
  let '(repo, name, sha', patch_relpath) := entry in
  w <- gets (fun w => w) ;;
  let component_fullname :=
    [component_type w] ++ Path (repo_path repo) ++ Path name in
  if is_some current_version && negb (force (args w))
     && opt_str_eqb current_version (Some version)
  then
    (if opt_truthy (sha (args w)) || prompt (args w)
     then log INFO (TxtAlreadyInstalledAt component_fullname version)
     else log INFO (TxtAlreadyUpToDate component_fullname)) ;;
    ret (exit_value, all_patches_successful)
  else
    staged <- install_component_files E name version repo install_tmp_dir ;;
    if negb staged then ret (false, all_patches_successful)
    else update_staged acc entry dry_run current_version install_tmp_dir
           version.

(** Lines 141-244: one turn of the loop over the plan; [exit_value] and
    [all_patches_successful] are carried along. *)
Definition update_entry (acc : bool * bool) (entry : plan_entry)
  : M (bool * bool) :=
  let '(repo, name, sha', patch_relpath) := entry in
  ctype <- gets component_type ;;
  dry_run <- gets (fun w => show_diff_truthy (show_diff w)
                            || save_diff_truthy (save_diff_fn w)) ;;
  current_version <- get_component_version ctype name (remote_url repo)
                       (repo_path repo) ;;
  install_tmp_dir <- tempfile_mkdtemp ;;
  version <- resolve_version repo name sha' current_version ;;
  update_resolved acc entry dry_run current_version install_tmp_dir version.

(** Lines 139-265: the loop and what follows it. *)
Definition update_entries (components_info : list plan_entry)
    (old_modules_json : modules_json) : M bool :=
  '(exit_value, all_patches_successful) <-
     fold_M components_info update_entry (true, true) ;;
  save <- gets save_diff_fn ;;
  (if save_diff_truthy save then
     file <- diff_path ;;
     new <- get_modules_json ;;
     d <- gets (fun w => dir (args w)) ;;
     append_modules_json_diff E file old_modules_json new
       (d ++ ["modules.json"]) ;;
     when exit_value (log INFO (TxtTipGitApply file))
   else if negb all_patches_successful then log INFO TxtCompleteApplyManually
   else log INFO TxtComplete) ;;
  ret exit_value.

(** Lines 111-265: building the plan, choosing the mode, running it. *)
Definition update_plan (component' : option string) : M bool :=
  all <- gets update_all ;;
  components_info <-
    (if all then get_all_components_info None
     else e <- get_single_component_info component' ;; ret [e]) ;;
  old_modules_json <- get_modules_json ;;
  save <- gets save_diff_fn ;;
  show <- gets show_diff ;;
  (if negb (save_diff_truthy save) && negb (is_some show)
   then diff_type <- questionary_select ;;
        modify (set_show_diff (Some (Nat.eqb diff_type 1))) ;;
        modify (set_save_diff_fn (SDBool (Nat.eqb diff_type 2)))
   else ret tt) ;;
  save' <- gets save_diff_fn ;;
  when (save_diff_truthy save') setup_diff_file ;;
  update_entries components_info old_modules_json.

(** Lines 70-265. *)
Definition update_body (component' : option string) : M bool :=
  modify (set_component component') ;;
  modify (set_update_config (tools_update_config E)) ;;
  _parameter_checks ;;
  check_modules_structure E ;;
  check_up_to_date E ;;
  all <- gets update_all ;;
  (if negb all && negb (is_some component')
   then choice <- questionary_select ;;
        modify (set_update_all (Nat.eqb choice 0))
   else ret tt) ;;
  w <- gets (fun w => w) ;;
  match sha (args w) with
  | Some s =>
      if negb (sha_exists_on_branch E (modules_repo w) s)
      then log ERROR (TxtShaMissing s (remote_url (modules_repo w))) ;;
           ret false
      else update_plan component'
  | None => update_plan component'
  end.

End Recursion.

End ComponentUpdate.

(** [ComponentUpdate.update]: the interpreter allows only so many nested
    calls; [fuel] is that depth. *)
Fixpoint update (E : Env) (fuel : nat) (component' : option string) : M bool :=
  match fuel with
  | O => raise RecursionError TxtBuiltin
  | S fuel' => update_body E (update E fuel') component'
  end.

(* ===================================================================== *)
(** ** Vocabulary of the statements *)
(* ===================================================================== *)

(** The name the single-component planner works on: the argument of
    [update], or the answer to the autocomplete prompt. *)
Definition requested (component : option string) (w : World)
  : option (string * World) :=
  match component with
  | Some c => Some (c, w)
  | None =>
      match autocompletes (inputs w) with
      | a :: rest => Some (a, set_inputs (set_autocompletes rest (inputs w)) w)
      | [] => None
      end
  end.

(** The override entry of one component in the [update:] block,
    [update[url][install_dir][name]], when both levels above are mappings. *)
Definition override_entry (cfg : dict pyval) (url install_dir name : string)
  : option pyval :=
  match dict_get url cfg with
  | Some (VDict rd) =>
      match dict_get install_dir rd with
      | Some (VDict dd) => dict_get name dd
      | _ => None
      end
  | _ => None
  end.

(** The repository and the directory level are absent or mappings. *)
Definition upper_levels_ok (cfg : dict pyval) (url install_dir : string)
  : bool :=
  match dict_get url cfg with
  | None => true
  | Some (VDict rd) =>
      match dict_get install_dir rd with
      | None | Some (VDict _) => true
      | _ => false
      end
  | _ => false
  end.

(** The branch [modules.json] records for a component of the active type. *)
Definition branch_on_record (w : World) (name install_dir : string)
  : option string :=
  match mj_lookup (mj w) (remote_url (modules_repo w)) (component_type w)
          install_dir name with
  | Some r => rec_branch r
  | None => None
  end.

(** Section 4.2 in the words of the spec: override entry (string sha), then
    the sha of the command line, then the prompt, then the latest version. *)
Definition spec_target_version (entry : option pyval) (cli_sha : option string)
    (ask_user : bool) (answer latest : string) : string :=
  match entry with
  | Some (VStr s) => s
  | _ =>
      match cli_sha with
      | Some c => c
      | None => if ask_user then answer else latest
      end
  end.

(** An entry that is absent, null, [true] or a string. *)
Definition entry_pins_or_inherits (entry : option pyval) : bool :=
  match entry with
  | None | Some VNone | Some (VBool true) | Some (VStr _) => true
  | _ => false
  end.

(** An entry that is neither null, nor a boolean, nor a string. *)
Definition entry_malformed (v : pyval) : bool :=
  match v with
  | VInt _ | VList _ | VDict _ => true
  | _ => false
  end.

(** The step from [b] to [b'] adds at most the repository [rn] to the plan
    and to the overridden repositories, and skips no repository. *)
Definition touches (rn : string) (b b' : bulk) : Prop :=
  skipped_repos b' = skipped_repos b
  /\ (forall x, In x (dict_keys (components_info b')) ->
                x = rn \/ In x (dict_keys (components_info b)))
  /\ (forall x, In x (overridden_repos b') ->
                x = rn \/ In x (overridden_repos b)).

(** Neither planned nor overridden: what holds of a repository whose entry
    is [false] all along the loop of lines 381-529. *)
Definition untouched (repo : string) (b : bulk) : Prop :=
  ~ In repo (dict_keys (components_info b))
  /\ ~ In repo (overridden_repos b).

(** The repository a plan entry is fetched from. *)
Definition entry_repo (e : plan_entry) : ModulesRepo :=
  let '(r, _, _, _) := e in r.

(** Whether a log text names the repository [repo]. *)
Definition mentions_repo (repo : string) (t : text) : bool :=
  match t with
  | TxtSkippingRepos _ l | TxtOverridingRepos _ l => str_mem repo l
  | TxtShaMissing _ u | TxtNoneInstalledFrom _ u | TxtInvalidRepoEntry u
  | TxtRepoUnreachable u _ | TxtSkippingRepo _ u
  | TxtComponentMissing _ _ u | TxtShaNotOnBranch _ _ u _ _ =>
      String.eqb repo u
  | _ => false
  end.

Definition quiet (repo : string) (r : log_record) : Prop :=
  mentions_repo repo (snd r) = false.

(** [w'] is [w] with more log records, all satisfying [P]. *)
Definition logs_grow (P : log_record -> Prop) (w w' : World) : Prop :=
  exists l, w' = set_logs (logs w ++ l) w /\ Forall P l.

(* ===================================================================== *)
(** ** An example pipeline *)
(* ===================================================================== *)

(** The pipeline of the examples has one module, [fastqc], used by one
    subworkflow, [align], both installed from nf-core/modules. *)
Definition ex_url : string := "https://github.com/nf-core/modules.git".

Definition ex_repo : ModulesRepo :=
  {| remote_url := ex_url; branch := "master"; repo_path := "nf-core" |}.

Definition ex_args (cli_sha : option string) : Args :=
  {| dir := ["pipeline"]; repo_type := "pipeline"; valid_directory := true;
     force := false; prompt := false; sha := cli_sha |}.

Definition ex_inputs (answers : list bool) (choices : list nat) : Inputs :=
  {| confirms := answers; filenames := []; selects := choices;
     autocompletes := []; versions := [] |}.

Definition ex_patch : path := ["modules"; "nf-core"; "fastqc"; "fastqc.diff"].

Definition ex_fastqc (p : option path) : comp_record :=
  {| git_sha := Some "1a2b3c"; rec_branch := Some "master"; patch := p;
     installed_by := ["modules"; "align"] |}.

Definition ex_align : comp_record :=
  {| git_sha := Some "4d5e6f"; rec_branch := Some "master"; patch := None;
     installed_by := ["subworkflows"] |}.

Definition ex_modules_json (p : option path) : modules_json :=
  [(ex_url,
    [("modules", [("nf-core", [("fastqc", ex_fastqc p)])]);
     ("subworkflows", [("nf-core", [("align", ex_align)])])])].

Definition ex_fs : node :=
  Dir [("tmp", Dir []);
       ("pipeline",
        Dir [("modules",
              Dir [("nf-core",
                    Dir [("fastqc",
                          Dir [("main.nf", File "process FASTQC v1");
                               ("fastqc.diff", File "local changes")])])]);
             ("subworkflows",
              Dir [("nf-core",
                    Dir [("align",
                          Dir [("main.nf", File "workflow ALIGN v1")])])])])].

Definition ex_world (cli_sha : option string) (cfg : dict pyval)
    (p : option path) (show : option bool) (save : save_diff) (ins : Inputs)
  : World :=
  {| args := ex_args cli_sha; component_type := "modules";
     modules_repo := ex_repo; update_all := false; show_diff := show;
     save_diff_fn := save; component := None; update_config := cfg;
     mj := ex_modules_json p; mj_disk := ex_modules_json p;
     pipeline_components := None; fs := ex_fs; tmp_counter := 0; logs := [];
     inputs := ins; calls := [] |}.

(** A registry that holds the components listed by [catalog], all at one
    version, and a patch engine whose answers are given by [apply]. *)
Definition ex_env (catalog : string -> list string)
    (apply : string -> node -> option (list (path * list string))) : Env :=
  {| sha_exists_on_branch := fun _ _ => true;
     get_avail_components := fun _ ctype => catalog ctype;
     component_exists := fun _ name ctype => str_mem name (catalog ctype);
     get_latest_component_version := fun _ _ _ => "9f8e7d";
     registry_fetch := fun _ _ name _ =>
       Some [("main.nf", File ("process " ++ name ++ " v2")%string)];
     registry_probe := fun _ b =>
       Some (match b with Some b' => b' | None => "master" end, "nf-core");
     differ_diff := fun _ _ _ => "regenerated";
     differ_apply := apply;
     patch_paths_ok := fun _ _ _ => true;
     differ_json_diff := fun _ _ _ => "modules.json changes";
     tools_update_config := [];
     set_iteration := fun l => nodup string_dec l;
     check_modules_structure := ret tt;
     check_up_to_date := ret tt |}.

Definition ex_catalog (ctype : string) : list string :=
  if String.eqb ctype "modules" then ["fastqc"] else ["align"].

Definition ex_pin (v : pyval) : dict pyval :=
  [(ex_url, VDict [("nf-core", VDict [("fastqc", v)])])].

(** A second repository, with one module of its own. *)
Definition ex_lab_url : string := "https://gitlab.com/lab/modules.git".

Definition ex_two_repos : modules_json :=
  ex_modules_json None
  ++ [(ex_lab_url, [("modules", [("nf-core", [("trim", ex_fastqc None)])])])].

(** The bulk update of the two repositories under a given [update:] block. *)
Definition ex_bulk_world (cfg : dict pyval) : World :=
  set_mj ex_two_repos
    (ex_world None cfg None None SDNone (ex_inputs [] [])).

Definition ex_lab_repo : ModulesRepo :=
  {| remote_url := ex_lab_url; branch := "master"; repo_path := "nf-core" |}.

Definition ex_bulk_catalog (ctype : string) : list string :=
  if String.eqb ctype "modules" then ["fastqc"; "trim"] else ["align"].

(** The pipeline with a file [changes.diff] left by an earlier run, for a
    user who asked for [--save-diff changes.diff], declines to remove the
    file and then names [update.diff]. *)
Definition ex_diff_world : World :=
  set_fs (match ex_fs with
          | Dir es => Dir (es ++ [("changes.diff", File "an older diff")])
          | f => f
          end)
    (set_inputs {| confirms := [false]; filenames := ["update.diff"];
                   selects := []; autocompletes := []; versions := [] |}
       (ex_world None [] None None (SDStr "changes.diff") (ex_inputs [] []))).

(** The pipeline updated in place, without previews. *)
Definition ex_silent : World :=
  ex_world None [] None (Some false) SDNone (ex_inputs [] []).

(** A registry that no longer lists the subworkflow [align]. *)
Definition ex_catalog_without_align (ctype : string) : list string :=
  if String.eqb ctype "modules" then ["fastqc"] else [].

(* ===================================================================== *)
(** ** Trees of files *)
(* ===================================================================== *)

(** [open(f, "w")] inside the tree [c]: not onto a directory, and only
    where the parent directory exists. *)
Definition tree_write (c : node) (f : path) (s : string) : option node :=
  if fs_is_dir c f then None else fs_put false c f (File s).

(** The loop of lines 699-702 inside the tree [c]. *)
Fixpoint tree_write_all (new_files : list (path * list string)) (c : node)
  : option node :=
  match new_files with
  | [] => Some c
  | fc :: rest =>
      match tree_write c (fst fc) (String.concat "" (snd fc)) with
      | Some c' => tree_write_all rest c'
      | None => None
      end
  end.

(** The record of a module once [patch_relpath] is filed for it. *)
Definition with_patch (m : modules_json) (url install_dir name : string)
    (patch_relpath : path) : comp_record :=
  let r := mj_record m url patch_component_type install_dir name in
  {| git_sha := git_sha r; rec_branch := rec_branch r;
     patch := Some patch_relpath; installed_by := installed_by r |}.

(** [w'] differs from [w] in the file system and the log at most. *)
Definition fs_logs_only (w w' : World) : Prop :=
  w' = set_logs (logs w') (set_fs (fs w') w).

(** The name of the component of a plan entry. *)
Definition entry_name (e : plan_entry) : string :=
  let '(_, n, _, _) := e in n.

(** A patch engine for which the patch on record and the regenerated one
    both rewrite [main.nf]. *)
Definition ex_apply_ok (patch_text : string) (target : node)
  : option (list (path * list string)) :=
  Some [(["main.nf"], ["process fastqc v2"; " with local changes"])].

(** The pipeline with a patch on record for [fastqc], in the middle of a
    turn of the loop: the new files of [fastqc] are staged. *)
Definition ex_staged_world (E : Env) : World :=
  snd (install_component_files E "fastqc" "9f8e7d" ex_repo
         (tmp_root ++ [tmp_name 0])
         (snd (tempfile_mkdtemp
                 (ex_world None [] (Some ex_patch) (Some false) SDNone
                    (ex_inputs [] []))))).

Definition ex_component_dir : path :=
  ["pipeline"; "modules"; "nf-core"; "fastqc"].

Definition ex_install_dir : path := tmp_root ++ [tmp_name 0] ++ ["fastqc"].

(* ===================================================================== *)
(** ** Dry runs *)
(* ===================================================================== *)

(** The two ways a run stays dry: diffs are saved to [file] (the state
    after [setup_diff_file]), or diffs are previewed and the user declines
    every confirmation still to come. *)
Definition dry_mode (file : option path) (w : World) : Prop :=
  match file with
  | Some f => save_diff_fn w = SDPath f
  | None =>
      save_diff_truthy (save_diff_fn w) = false
      /\ show_diff w = Some true
      /\ Forall (fun c => c = false) (confirms (inputs w))
  end.

(** The paths a dry run may write to are those at or below the temporary
    root and the diff file; [q] is none of them nor above them. *)
Definition outside (file : option path) (q : path) : Prop :=
  apart tmp_root q
  /\ match file with Some f => apart f q | None => True end.

(** What a step of a dry run may change: not the attributes set by the
    command line, not the mode, not [modules.json] on disk, not the files
    outside the temporary root and the diff file; it starts no nested
    update and only consumes confirmations. *)
Definition dry_step (file : option path) (w w' : World) : Prop :=
  args w' = args w
  /\ component_type w' = component_type w
  /\ show_diff w' = show_diff w
  /\ save_diff_fn w' = save_diff_fn w
  /\ (exists k, confirms (inputs w) = k ++ confirms (inputs w'))
  /\ mj_disk w' = mj_disk w
  /\ calls w' = calls w
  /\ forall q, outside file q -> fs_get (fs w') q = fs_get (fs w) q.

(** A computation started in a state satisfying [P] relates the state it
    starts in to the state it ends in by [R], whether it returns or
    raises, and returns only values satisfying [Q]. *)
Definition triple {A} (P : World -> Prop) (m : M A)
    (R : World -> World -> Prop) (Q : A -> Prop) : Prop :=
  forall w r w',
    P w -> m w = (r, w') -> R w w' /\ forall a, r = Ok a -> Q a.

Definition entry_patch (e : plan_entry) : option path :=
  let '(_, _, _, p) := e in p.

Definition entry_sha (e : plan_entry) : option string :=
  let '(_, _, s, _) := e in s.

Definition dry (file : option path) {A} (m : M A) (Q : A -> Prop) : Prop :=
  triple (dry_mode file) m (dry_step file) Q.

(** A computation that leaves the record of the installed components in
    memory as it is, whatever it returns. *)
Definition keeps_mj {A} (m : M A) : Prop :=
  forall w r w', m w = (r, w') -> mj w' = mj w.

(* ===================================================================== *)
(** ** The checks before the plan *)
(* ===================================================================== *)

(** The five conditions of lines 55-68, all passed. *)
Definition parameters_ok (w : World) : bool :=
  negb (save_diff_truthy (save_diff_fn w) && show_diff_truthy (show_diff w))
  && negb (update_all w && opt_truthy (component w))
  && negb (String.eqb (repo_type (args w)) "modules")
  && negb (prompt (args w) && is_some (sha (args w)))
  && valid_directory (args w).

(** The object after lines 82-85 of [update]. *)
Definition update_entered (E : Env) (component' : option string) (w : World)
  : World :=
  set_update_config (tools_update_config E) (set_component component' w).

(** A registry that knows no commit. *)
Definition ex_env_without_shas : Env :=
  let E := ex_env ex_catalog (fun _ _ => None) in
  {| sha_exists_on_branch := fun _ _ => false;
     get_avail_components := get_avail_components E;
     component_exists := component_exists E;
     get_latest_component_version := get_latest_component_version E;
     registry_fetch := registry_fetch E;
     registry_probe := registry_probe E;
     differ_diff := differ_diff E;
     differ_apply := differ_apply E;
     patch_paths_ok := patch_paths_ok E;
     differ_json_diff := differ_json_diff E;
     tools_update_config := tools_update_config E;
     set_iteration := set_iteration E;
     check_modules_structure := check_modules_structure E;
     check_up_to_date := check_up_to_date E |}.

(* ===================================================================== *)
(** ** What a computation leaves alone *)
(* ===================================================================== *)

(** Every run of [m], returning or raising, takes the state along [R]. *)
Definition preserves {A} (R : World -> World -> Prop) (m : M A) : Prop :=
  forall w r w', m w = (r, w') -> R w w'.

(** Only the log differs. *)
Definition logs_only (w w' : World) : Prop := w' = set_logs (logs w') w.

(** What building a plan may change: the log, the answers still to come,
    and the branch of the shared [modules_repo]. *)
Definition planning_step (w w' : World) : Prop :=
  w' = set_logs (logs w')
         (set_inputs (inputs w')
            (set_modules_repo
               {| remote_url := remote_url (modules_repo w);
                  branch := branch (modules_repo w');
                  repo_path := repo_path (modules_repo w) |} w)).

(** A pipeline whose only module was installed into the directory [lab]. *)
Definition ex_outside_world : World :=
  set_mj [(ex_url, [("modules", [("lab", [("fastqc", ex_fastqc None)])])])]
    ex_silent.

(** The patch [modules.json] records for a module. *)
Definition patch_on_record (w : World) (name install_dir : string)
  : option path :=
  match mj_lookup (mj w) (remote_url (modules_repo w)) patch_component_type
          install_dir name with
  | Some r => patch r
  | None => None
  end.

(** The shared registry object, serving the branch [b]. *)
Definition on_branch (b : string) (r : ModulesRepo) : ModulesRepo :=
  {| remote_url := remote_url r; branch := b; repo_path := repo_path r |}.

(** A pipeline whose module [fastqc] was installed from the branch [dev]. *)
Definition ex_dev_world (answers : list bool) : World :=
  set_mj [(ex_url,
           [("modules",
             [("nf-core",
               [("fastqc",
                 {| git_sha := Some "1a2b3c"; rec_branch := Some "dev";
                    patch := None; installed_by := ["modules"] |})])])])]
    (ex_world None [] None (Some false) SDNone (ex_inputs answers [])).

(* ===================================================================== *)
(** ** Where the entries of a bulk plan come from *)
(* ===================================================================== *)

(** The planned items of [b'] that [b] did not have all satisfy [Q]. *)
Definition adds (Q : string * comp_item -> Prop) (b b' : bulk) : Prop :=
  forall x, In x (components_info_items (components_info b')) ->
            In x (components_info_items (components_info b)) \/ Q x.

(** A planned item of the repository [rn]: one of its installed components
    [comps], with the sha that the [entry] of the repository in the
    [update:] block asks for (a string pins it; without an entry, or with
    [true], it is the [--sha] of the command line). *)
Definition item_of (rn : string) (comps : list (string * string))
    (entry : option pyval) (cli : option string) (x : string * comp_item)
  : Prop :=
  exists d n s br,
    In (d, n) comps /\ x = (rn, (n, s, br))
    /\ (forall c, entry = Some (VStr c) -> s = Some c)
    /\ (entry = None \/ entry = Some (VBool true) -> s = cli).

Definition planned_from (cfg : dict pyval) (cli : option string)
    (all : dict (list (string * string))) (x : string * comp_item) : Prop :=
  exists comps,
    In (fst x, comps) all /\ item_of (fst x) comps (dict_get (fst x) cfg) cli x.

(** The patch [modules.json] records for the component of a plan entry. *)
Definition entry_patch_of (w : World) (e : plan_entry) : option path :=
  match mj_lookup (mj w) (remote_url (entry_repo e)) patch_component_type
          (repo_path (entry_repo e)) (entry_name e) with
  | Some r => patch r
  | None => None
  end.

(** The bulk update of the two repositories, started with [--sha]. *)
Definition ex_bulk_world_sha (cli_sha : string) (cfg : dict pyval) : World :=
  set_mj ex_two_repos
    (ex_world (Some cli_sha) cfg None None SDNone (ex_inputs [] [])).

(** A value that line 529 rejects as the entry of a repository: neither a
    boolean, nor a string, nor a mapping. *)
Definition repo_entry_malformed (v : pyval) : bool :=
  match v with
  | VNone | VInt _ | VList _ => true
  | _ => false
  end.

(* ===================================================================== *)
(** ** Installing an entry *)
(* ===================================================================== *)

(** The version [modules.json] holds in memory for a component of the
    active type. *)
Definition version_on_record (w : World) (repo : ModulesRepo) (name : string)
  : option string :=
  match mj_lookup (mj w) (remote_url repo) (component_type w)
          (repo_path repo) name with
  | Some r => git_sha r
  | None => None
  end.

(** Lines 166-167: the entry is recorded at [version] and [--force] is not
    set. *)
Definition up_to_date (w : World) (repo : ModulesRepo) (name version : string)
  : bool :=
  is_some (version_on_record w repo name)
  && negb (force (args w))
  && opt_str_eqb (version_on_record w repo name) (Some version).

(** The subworkflows that use a module, by its record. *)
Definition using_subworkflows (w : World) (repo : ModulesRepo) (name : string)
  : list string :=
  filter (fun s => negb (String.eqb s "modules"))
    (installed_by (mj_record (mj w) (remote_url repo) "modules"
                     (repo_path repo) name)).

(** What staging may change: the files, the counter of temporary names, the
    answers still to come and the log. *)
Definition staging_step (w w' : World) : Prop :=
  w' = set_logs (logs w')
         (set_inputs (inputs w')
            (set_fs (fs w') (set_tmp_counter (tmp_counter w') w))).

(** The module [fastqc] recorded as installed on its own, with its new
    files staged. *)
Definition ex_alone_world : World :=
  set_mj [(ex_url,
           [("modules",
             [("nf-core",
               [("fastqc",
                 {| git_sha := Some "1a2b3c"; rec_branch := Some "master";
                    patch := None; installed_by := ["modules"] |})])])])]
    ex_silent.

(** A registry whose files cannot be fetched. *)
Definition ex_env_offline : Env :=
  let E := ex_env ex_catalog (fun _ _ => None) in
  {| sha_exists_on_branch := sha_exists_on_branch E;
     get_avail_components := get_avail_components E;
     component_exists := component_exists E;
     get_latest_component_version := get_latest_component_version E;
     registry_fetch := fun _ _ _ _ => None;
     registry_probe := registry_probe E;
     differ_diff := differ_diff E;
     differ_apply := differ_apply E;
     patch_paths_ok := patch_paths_ok E;
     differ_json_diff := differ_json_diff E;
     tools_update_config := tools_update_config E;
     set_iteration := set_iteration E;
     check_modules_structure := check_modules_structure E;
     check_up_to_date := check_up_to_date E |}.

(* ===================================================================== *)
(** ** Linked components *)
(* ===================================================================== *)

(** Some record of [m], filed under the component type [ctype] with the
    name [comp], lists [name] in its [installed_by]. *)
Definition used_by (m : modules_json) (ctype comp name : string) : Prop :=
  exists url repo_content dir_content d components rec,
    In (url, repo_content) m /\ In (ctype, dir_content) repo_content
    /\ In (d, components) dir_content /\ In (comp, rec) components
    /\ In name (installed_by rec).

(** A pipeline whose subworkflow [align] uses the module [fastqc] and the
    subworkflow [prepare]. *)
Definition ex_nested_world : World :=
  set_component_type "subworkflows"
    (set_mj [(ex_url,
              [("modules", [("nf-core", [("fastqc", ex_fastqc None)])]);
               ("subworkflows",
                [("nf-core",
                  [("align", ex_align);
                   ("prepare",
                    {| git_sha := Some "777777"; rec_branch := Some "master";
                       patch := None;
                       installed_by := ["align"] |})])])])]
       ex_silent).

(* ===================================================================== *)
(** ** The turns of the loop *)
(* ===================================================================== *)

(** Lines 157-164 as a function of the state a turn starts in: the sha of
    the plan entry, else the next answer of the user under [--prompt], else
    the latest version the registry has. *)
Definition target_version (E : Env) (w : World) (e : plan_entry)
  : option string :=
  let '(repo, name, sha', _) := e in
  match sha' with
  | Some s => Some s
  | None =>
      if prompt (args w) then hd_error (versions (inputs w))
      else Some (get_latest_component_version E repo name (component_type w))
  end.

(** [modules.json] once [version] is filed for a component of the active
    type [ctype] (lines 237 and 242). *)
Definition mj_at_version (m : modules_json) (ctype : string)
    (repo : ModulesRepo) (name version : string) : modules_json :=
  let r := mj_record m (remote_url repo) ctype (repo_path repo) name in
  mj_store m (remote_url repo) ctype (repo_path repo) name
    {| git_sha := Some version; rec_branch := rec_branch r;
       patch := patch r; installed_by := installed_by r |}.

(** A pipeline with two modules of the first repository: [trim], and
    [fastqc] with a patch on record. *)
Definition ex_patched_pair : modules_json :=
  [(ex_url,
    [("modules",
      [("nf-core",
        [("trim",
          {| git_sha := Some "1a2b3c"; rec_branch := Some "master";
             patch := None; installed_by := ["modules"] |});
         ("fastqc", ex_fastqc (Some ex_patch))])])])].

(** What a turn returns once the patch of its entry has failed, from what
    the rest of the turn returns: [all_patches_successful] is cleared
    (line 189), [exit_value] and an exception are passed on. *)
Definition patch_failed_result (r : Res (bool * bool)) : Res (bool * bool) :=
  match r with
  | Ok (exit_value, _) => Ok (exit_value, false)
  | Err e => Err e
  end.

(** The module [fastqc] recorded as installed on its own, with a patch on
    record. *)
Definition ex_alone_patched_world : World :=
  set_mj [(ex_url,
           [("modules",
             [("nf-core",
               [("fastqc",
                 {| git_sha := Some "1a2b3c"; rec_branch := Some "master";
                    patch := Some ex_patch; installed_by := ["modules"] |})])])])]
    ex_silent.



(* ===================================================================== *)
(** ** A diff and patch engine *)
(* ===================================================================== *)

(** Modelled from the spec: the Diff/Patch Engine of section 6
    ([ModulesDiffer], which is not in this file).  The spec gives its
    interface and leaves the textual algorithm open; here a diff has one
    hunk per changed file.  A hunk names a file of the component, the text
    the file has in the baseline ([None]: no such file) and the text it is
    given; a patch is a list of hunks, kept in a file as text. *)
Definition hunk := (path * option string * string)%type.

(** The text of a patch: every string is written after its length (in
    unary, closed by a colon), every list after the number of its
    elements. *)
Definition enc_nat (n : nat) : string := (unary n ++ ":")%string.

Definition enc_str (s : string) : string :=
  (enc_nat (String.length s) ++ s)%string.

Fixpoint enc_all {A} (f : A -> string) (l : list A) : string :=
  match l with
  | [] => ""
  | x :: l' => (f x ++ enc_all f l')%string
  end.

Definition enc_list {A} (f : A -> string) (l : list A) : string :=
  (enc_nat (length l) ++ enc_all f l)%string.

Definition enc_old (o : option string) : string :=
  match o with
  | None => "-"
  | Some s => ("+" ++ enc_str s)%string
  end.

Definition enc_hunk (h : hunk) : string :=
  let '(p, old, new) := h in
  (enc_list enc_str p ++ enc_old old ++ enc_str new)%string.

Definition enc_patch (hs : list hunk) : string := enc_list enc_hunk hs.

(** Reading it back; each reader returns what it read and the text left. *)
Fixpoint dec_nat (t : string) : option (nat * string) :=
  match t with
  | EmptyString => None
  | String c t' =>
      if Ascii.eqb c ":"%char then Some (0, t')
      else if Ascii.eqb c "i"%char then
             match dec_nat t' with
             | Some (n, r) => Some (S n, r)
             | None => None
             end
           else None
  end.

Fixpoint take_str (n : nat) (t : string) : option (string * string) :=
  match n with
  | O => Some ("", t)
  | S n' =>
      match t with
      | EmptyString => None
      | String c t' =>
          match take_str n' t' with
          | Some (a, r) => Some (String c a, r)
          | None => None
          end
      end
  end.

Definition dec_str (t : string) : option (string * string) :=
  match dec_nat t with
  | Some (n, r) => take_str n r
  | None => None
  end.

Fixpoint dec_all {A} (f : string -> option (A * string)) (n : nat)
    (t : string) : option (list A * string) :=
  match n with
  | O => Some ([], t)
  | S n' =>
      match f t with
      | Some (x, r) =>
          match dec_all f n' r with
          | Some (xs, r') => Some (x :: xs, r')
          | None => None
          end
      | None => None
      end
  end.

Definition dec_list {A} (f : string -> option (A * string)) (t : string)
  : option (list A * string) :=
  match dec_nat t with
  | Some (n, r) => dec_all f n r
  | None => None
  end.

Definition dec_old (t : string) : option (option string * string) :=
  match t with
  | EmptyString => None
  | String c t' =>
      if Ascii.eqb c "-"%char then Some (None, t')
      else if Ascii.eqb c "+"%char then
             match dec_str t' with
             | Some (s, r) => Some (Some s, r)
             | None => None
             end
           else None
  end.

Definition dec_hunk (t : string) : option (hunk * string) :=
  match dec_list dec_str t with
  | Some (p, r1) =>
      match dec_old r1 with
      | Some (old, r2) =>
          match dec_str r2 with
          | Some (new, r3) => Some ((p, old, new), r3)
          | None => None
          end
      | None => None
      end
  | None => None
  end.

Definition dec_patch (t : string) : option (list hunk) :=
  match dec_list dec_hunk t with
  | Some (hs, EmptyString) => Some hs
  | _ => None
  end.

(** The files of a tree, each with its path, in the order of the tree. *)
Fixpoint files_of (t : node) : list (path * string) :=
  match t with
  | File c => [([], c)]
  | Dir es =>
      (fix entries (es : list (string * node)) : list (path * string) :=
         match es with
         | [] => []
         | (k, c) :: es' =>
             map (fun pc => (k :: fst pc, snd pc)) (files_of c) ++ entries es'
         end) es
  end.

(** The text of the file at [p], if there is a file. *)
Definition file_at (t : node) (p : path) : option string :=
  match fs_get t p with
  | Some (File c) => Some c
  | _ => None
  end.

Definition changed (baseline : node) (pc : path * string) : bool :=
  negb (opt_str_eqb (file_at baseline (fst pc)) (Some (snd pc))).

(** The diff of two trees: a hunk for every file of the target that the
    baseline does not have with the same text. *)
Definition engine_hunks (baseline target : node) : list hunk :=
  map (fun pc => (fst pc, file_at baseline (fst pc), snd pc))
      (filter (changed baseline) (files_of target)).

Definition or_empty_dir (o : option node) : node :=
  match o with
  | Some t => t
  | None => Dir []
  end.

(** Modelled from the spec: [writeDiffFile] and [printDiff] of section 6,
    the text of the diff between two directories. *)
Definition engine_diff (h : diff_header) (from_dir to_dir : option node)
  : string :=
  enc_patch (engine_hunks (or_empty_dir from_dir) (or_empty_dir to_dir)).

(** A hunk applies when the file has the text the hunk was made against. *)
Definition hunk_applies (target : node) (h : hunk) : bool :=
  let '(p, old, _) := h in opt_str_eqb (file_at target p) old.

Definition hunk_file (h : hunk) : path * list string :=
  let '(p, _, new) := h in (p, [new]).

(** Modelled from the spec: [applyPatch(patchFile, targetDir)] of section
    6, all or nothing (section 4.5): the new lines of every patched file,
    or [None] when the text is no patch or one hunk does not apply. *)
Definition engine_apply (patch_text : string) (target : node)
  : option (list (path * list string)) :=
  match dec_patch patch_text with
  | Some hs =>
      if forallb (hunk_applies target) hs then Some (map hunk_file hs)
      else None
  | None => None
  end.

(** The diff and the patch of [E] are those of this engine. *)
Definition spec_engine (E : Env) : Prop :=
  (forall h a b, differ_diff E h a b = engine_diff h a b)
  /\ (forall p t, differ_apply E p t = engine_apply p t).

(** No directory of the tree has two entries of one name. *)
Fixpoint wf_tree (t : node) : Prop :=
  match t with
  | File _ => True
  | Dir es =>
      NoDup (dict_keys es)
      /\ (fix all (es : list (string * node)) : Prop :=
            match es with
            | [] => True
            | (_, c) :: es' => wf_tree c /\ all es'
            end) es
  end.

(** [t] is [s] with files given another text and files added to
    directories that [s] has: the directories are those of [s], the
    entries of [s] keep their places, and what is new comes after them. *)
Section Grown.
Variable R : node -> node -> Prop.

Fixpoint grown_entries (es et : list (string * node)) : Prop :=
  match es, et with
  | [], new => Forall (fun kc => exists c, snd kc = File c) new
  | (k, s) :: es', (k', t) :: et' => k = k' /\ R s t /\ grown_entries es' et'
  | _ :: _, [] => False
  end.

End Grown.

Fixpoint grown (s t : node) : Prop :=
  match s, t with
  | File _, File _ => True
  | Dir es, Dir et => grown_entries grown es et
  | _, _ => False
  end.

(** The files the hunks of a diff write, in the order of the hunks. *)
Definition hunk_writes (baseline target : node)
  : list (path * list string) :=
  map (fun pc => (fst pc, [snd pc]))
      (filter (changed baseline) (files_of target)).

(** Induction on trees, with the property at hand for every entry of a
    directory. *)
Definition node_induction (P : node -> Prop)
    (HF : forall c, P (File c))
    (HD : forall es, Forall (fun kc => P (snd kc)) es -> P (Dir es))
  : forall t, P t :=
  fix go (t : node) : P t :=
    match t with
    | File c => HF c
    | Dir es =>
        HD es
          ((fix all (es : list (string * node))
              : Forall (fun kc => P (snd kc)) es :=
              match es with
              | [] => Forall_nil _
              | kc :: es' => Forall_cons kc (go (snd kc)) (all es')
              end) es)
    end.

(** The registry of the examples with this engine for its diffs and its
    patches. *)
Definition ex_engine_env : Env :=
  let E := ex_env ex_catalog engine_apply in
  {| sha_exists_on_branch := sha_exists_on_branch E;
     get_avail_components := get_avail_components E;
     component_exists := component_exists E;
     get_latest_component_version := get_latest_component_version E;
     registry_fetch := registry_fetch E;
     registry_probe := registry_probe E;
     differ_diff := engine_diff;
     differ_apply := engine_apply;
     patch_paths_ok := patch_paths_ok E;
     differ_json_diff := differ_json_diff E;
     tools_update_config := tools_update_config E;
     set_iteration := set_iteration E;
     check_modules_structure := check_modules_structure E;
     check_up_to_date := check_up_to_date E |}.

(** The local change to [main.nf] of [fastqc] as a patch, made against the
    text the registry has for the module. *)
Definition ex_local_patch : string :=
  enc_patch [(["main.nf"], Some "process fastqc v2",
              "process fastqc v2 with local changes")].

(** The pipeline with that patch in its patch file, in the middle of a
    turn of the loop: the new files of [fastqc] are staged. *)
Definition ex_engine_world : World :=
  let w := ex_staged_world ex_engine_env in
  match fs_put false (fs w) (["pipeline"] ++ ex_patch) (File ex_local_patch)
  with
  | Some t => set_fs t w
  | None => w
  end.

(* ===================================================================== *)
(** * Facts *)
(* ===================================================================== *)

Section DictFacts.
Variable V : Type.
Implicit Types (d : dict V) (v : V) (k : string).

Lemma dict_get_set_same k v d : dict_get k (dict_set k v d) = Some v.
Proof.
induction d as [|[k' v'] d IH]; simpl.
- now rewrite String.eqb_refl.
- destruct (String.eqb k k') eqn:E; simpl; rewrite E; auto.
Qed.

Lemma dict_get_set_other k k' v d :
k <> k' -> dict_get k' (dict_set k v d) = dict_get k' d.
Proof.
intros Hne. induction d as [|[k0 v0] d IH]; simpl.
- destruct (String.eqb_spec k' k); congruence.
- destruct (String.eqb_spec k k0); simpl.
  + subst. destruct (String.eqb_spec k' k0); congruence.
  + now rewrite IH.
Qed.

Lemma dict_get_del_same k d : dict_get k (dict_del k d) = None.
Proof.
  unfold dict_del. induction d as [|[k0 v0] d IH]; simpl; auto.
  destruct (String.eqb_spec k k0); simpl; auto.
  destruct (String.eqb_spec k k0); [congruence|]. auto.
Qed.

Lemma dict_get_del_other k k' d :
  k <> k' -> dict_get k' (dict_del k d) = dict_get k' d.
Proof.
  intros Hne. unfold dict_del.
  induction d as [|[k0 v0] d IH]; simpl; auto.
  destruct (String.eqb_spec k k0); simpl.
  - subst. destruct (String.eqb_spec k' k0); congruence.
  - now rewrite IH.
Qed.

Lemma dict_keys_set k v d :
forall x, In x (dict_keys (dict_set k v d)) <-> x = k \/ In x (dict_keys d).
Proof.
intros x. induction d as [|[k0 v0] d IH]; simpl.
- intuition.
- destruct (String.eqb_spec k k0); simpl.
  + subst. intuition.
  + rewrite IH. intuition.
Qed.

Lemma dict_get_In k v d : dict_get k d = Some v -> In (k, v) d.
Proof.
induction d as [|[k0 v0] d IH]; simpl; [discriminate|].
destruct (String.eqb_spec k k0); intros H.
- inversion H; subst; auto.
- auto.
Qed.

Lemma dict_get_None_keys k d : dict_get k d = None <-> ~ In k (dict_keys d).
Proof.
induction d as [|[k0 v0] d IH]; simpl.
- intuition.
- destruct (String.eqb_spec k k0).
  + subst. split; [discriminate | intros H; exfalso; auto].
  + rewrite IH. intuition congruence.
Qed.

End DictFacts.

Lemma path_eqb_spec p q : reflect (p = q) (path_eqb p q).
Proof.
  revert q; induction p as [|x p IH]; intros [|y q]; simpl;
    try (constructor; congruence).
  destruct (String.eqb_spec x y); simpl.
  - destruct (IH q); constructor; congruence.
  - constructor; congruence.
Qed.

Lemma relative_to_app base r : relative_to (base ++ r) base = Some r.
Proof.
  induction base as [|b base IH]; cbn [relative_to app]; auto.
  now rewrite String.eqb_refl.
Qed.

Lemma relative_to_Some p base r : relative_to p base = Some r -> p = base ++ r.
Proof.
  revert p; induction base as [|b base IH]; intros p; simpl.
  - congruence.
  - destruct p as [|x p]; [discriminate|].
    destruct (String.eqb_spec x b); [|discriminate].
    intros H. apply IH in H. subst. reflexivity.
Qed.

Lemma apart_sym p q : apart p q -> apart q p.
Proof. unfold apart; tauto. Qed.

Lemma fs_get_app t p q :
  fs_get t (p ++ q) =
  match fs_get t p with Some c => fs_get c q | None => None end.
Proof.
  revert t; induction p as [|x p IH]; intros t; simpl; auto.
  destruct t as [c|es]; auto.
  destruct (dict_get x es); auto.
Qed.

Lemma fs_get_put_same mk t p n t' :
  fs_put mk t p n = Some t' -> fs_get t' p = Some n.
Proof.
  revert t t'; induction p as [|x p IH]; intros t t'; simpl.
  - congruence.
  - destruct t as [c|es]; [discriminate|].
    destruct (match dict_get x es with
              | Some c => Some c
              | None => if mk || is_nil p then Some (Dir []) else None
              end) as [c|]; [|discriminate].
    destruct (fs_put mk c p n) as [c'|] eqn:E; [|discriminate].
    intros H; inversion H; subst; simpl.
    rewrite dict_get_set_same. eauto.
Qed.

Lemma fs_get_put_under mk t p n t' r :
  fs_put mk t p n = Some t' -> fs_get t' (p ++ r) = fs_get n r.
Proof.
  intros H. rewrite fs_get_app, (fs_get_put_same _ _ _ _ H). reflexivity.
Qed.

Lemma fs_get_put_apart mk t p n t' q :
  fs_put mk t p n = Some t' -> apart p q -> fs_get t' q = fs_get t q.
Proof.
  revert t t' q; induction p as [|x p IH]; intros t t' q; simpl.
  - intros _ [_ H]. discriminate.
  - destruct t as [c|es]; [discriminate|].
    destruct (match dict_get x es with
              | Some c => Some c
              | None => if mk || is_nil p then Some (Dir []) else None
              end) as [c|] eqn:Ec; [|discriminate].
    destruct (fs_put mk c p n) as [c'|] eqn:E; [|discriminate].
    intros H [H1 H2]; inversion H; subst.
    destruct q as [|y q]; simpl in *; [discriminate|].
    destruct (String.eqb_spec x y).
    + subst y. rewrite String.eqb_refl in H2.
      rewrite dict_get_set_same.
      rewrite (IH c c' q E (conj H1 H2)).
      destruct (dict_get x es) as [c0|] eqn:G.
      * inversion Ec; subst; reflexivity.
      * destruct (mk || is_nil p); inversion Ec; subst.
        destruct q; [discriminate | reflexivity].
    + rewrite dict_get_set_other by assumption. reflexivity.
Qed.

Lemma bind_ret_l {A B} (a : A) (f : A -> M B) w : bind (ret a) f w = f a w.
Proof. reflexivity. Qed.

Lemma bind_Ok {A B} (m : M A) (f : A -> M B) w a w' :
  m w = (Ok a, w') -> bind m f w = f a w'.
Proof. unfold bind; intros ->; reflexivity. Qed.

Lemma bind_Err {A B} (m : M A) (f : A -> M B) w e w' :
  m w = (Err e, w') -> bind m f w = (Err e, w').
Proof. unfold bind; intros ->; reflexivity. Qed.

Lemma bind_inv_Ok {A B} (m : M A) (f : A -> M B) w b w2 :
  bind m f w = (Ok b, w2) ->
  exists a w1, m w = (Ok a, w1) /\ f a w1 = (Ok b, w2).
Proof.
  unfold bind. destruct (m w) as [[a|e] w1]; intros H.
  - eauto.
  - discriminate.
Qed.

(* ===================================================================== *)
(** * The single-component planner *)
(* ===================================================================== *)

Lemma single_config_sha_spec name install_dir w :
  upper_levels_ok (update_config w) (remote_url (modules_repo w)) install_dir = true ->
  single_config_sha name install_dir w =
  match override_entry (update_config w) (remote_url (modules_repo w)) install_dir name with
  | None | Some VNone | Some (VBool true) => (Ok (sha (args w)), w)
  | Some (VBool false) => (Err (Exn UserWarning (TxtEntryFalse (component_type w))), w)
  | Some (VStr s) =>
      (Ok (Some s),
       set_logs (logs w ++ [(if is_some (sha (args w)) then (WARNING, TxtEntryOverridesSha (component_type w) name) else (INFO, TxtEntryFound (component_type w) name)); (INFO, TxtUpdatingTo s)]) w)
  | Some _ => (Err (Exn UserWarning (TxtEntryWrongType (component_type w))), w)
  end.
Proof.
  unfold upper_levels_ok, override_entry, single_config_sha.
  unfold bind, gets; cbn.
  destruct (dict_get (remote_url (modules_repo w)) (update_config w)) as [[| | | | |rd]|] eqn:Hr; try discriminate; cbn.
  2:{ reflexivity. }
  destruct (dict_get install_dir rd) as [[| | | | |dd]|] eqn:Hd; try discriminate; cbn.
  2:{ reflexivity. }
  intros _. unfold dict_mem.
  destruct (dict_get name dd) as [v|] eqn:Hn; cbn; [|reflexivity].
  destruct v as [|[]|s|n|l|d]; cbn; try reflexivity.
  destruct (sha (args w)); cbn; unfold set_logs; cbn;
    rewrite <- app_assoc; reflexivity.
Qed.

Lemma get_single_reaches_config E component w name w1 components install_dir
    c0 rest :
  requested component w = Some (name, w1) ->
  dict_get (remote_url (modules_repo w)) (all_components_of (mj w) (component_type w)) = Some components ->
  filter (fun dm => String.eqb name (snd dm)) components = (install_dir, c0) :: rest ->
  str_mem name (map choice_name components) = true ->
  str_mem name (get_avail_components E (modules_repo w) (component_type w)) = true ->
  get_single_component_info E component w =
  bind (single_config_sha name install_dir) (single_finish name install_dir) w1.
Proof.
  intros Hreq Hall Hdir Hch Hav.
  unfold get_single_component_info, bind at 1 2 3, gets, get_all_components; cbn.
  rewrite Hall. unfold bind at 1; cbn. unfold dict_mem; rewrite Hall; cbn.
  unfold bind at 1.
  destruct component as [c|]; cbn in Hreq.
  - inversion Hreq; subst; cbn. rewrite Hdir, Hch; cbn.
    rewrite Hav. rewrite andb_false_r. reflexivity.
  - unfold questionary_autocomplete, ask.
    destruct (autocompletes (inputs w)) as [|a q]; [discriminate|].
    inversion Hreq; subst; cbn. rewrite Hdir, Hch; cbn.
    rewrite Hav. rewrite andb_false_r. reflexivity.
Qed.

Lemma requested_frame component w name w1 :
  requested component w = Some (name, w1) ->
  args w1 = args w /\ component_type w1 = component_type w /\
  modules_repo w1 = modules_repo w /\ update_config w1 = update_config w /\
  mj w1 = mj w /\ logs w1 = logs w /\ fs w1 = fs w /\ mj_disk w1 = mj_disk w /\
  confirms (inputs w1) = confirms (inputs w).
Proof.
  destruct component as [c|]; cbn.
  - intros H; inversion H; subst; repeat split.
  - destruct (autocompletes (inputs w)); [discriminate|].
    intros H; inversion H; subst; repeat split.
Qed.

Lemma single_finish_returns name install_dir sha' w :
  branch_on_record w name install_dir = Some (branch (modules_repo w))
  \/ confirms (inputs w) <> [] ->
  exists repo patch' w2,
    single_finish name install_dir sha' w = (Ok (repo, name, sha', patch'), w2)
    /\ args w2 = args w /\ component_type w2 = component_type w
    /\ fs w2 = fs w /\ mj w2 = mj w /\ mj_disk w2 = mj_disk w
    /\ (forall x, In x (logs w) -> In x (logs w2)).
Proof.
  intros H.
  unfold single_finish, bind, gets, get_component_branch, get_patch_fn; cbn.
  fold (branch_on_record w name install_dir).
  destruct (opt_str_eqb (branch_on_record w name install_dir)
              (Some (branch (modules_repo w)))) eqn:Eb; cbn.
  - do 3 eexists; split; [reflexivity|]. repeat split; auto.
  - destruct H as [H|H].
    + rewrite H in Eb; cbn in Eb. rewrite String.eqb_refl in Eb. discriminate.
    + unfold questionary_confirm, ask; cbn.
      destruct (confirms (inputs w)) as [|c q]; [congruence|]; cbn.
      destruct c; cbn.
      * do 3 eexists; split; [reflexivity|]. repeat split; auto.
        cbn. intros x Hx. apply in_or_app; auto.
      * do 3 eexists; split; [reflexivity|]. repeat split; auto.
        cbn. intros x Hx. apply in_or_app; auto.
Qed.

(** The precedence of section 4.2 where the code follows it.  On the
    single-component path, for a component that is installed and in the
    catalog, whose own override entry (the levels of the repository and of
    the directory being mappings, or absent) is absent, null, [true] or a
    string: the planner returns an entry whose sha is the string of the
    override entry if there is one and the sha of the command line
    otherwise, with the warning that the entry overrides [--sha] logged when
    both are given; the version the loop then moves the component to is the
    override entry, else the command-line sha, else the answer to the
    prompt, else the latest version of the registry. *)
Theorem single_target_precedence E component w name w1 components install_dir
    c0 rest :
  let url := remote_url (modules_repo w) in
  let ctype := component_type w in
  let entry := override_entry (update_config w) url install_dir name in
  requested component w = Some (name, w1) ->
  dict_get url (all_components_of (mj w) ctype) = Some components ->
  filter (fun dm => String.eqb name (snd dm)) components
    = (install_dir, c0) :: rest ->
  str_mem name (map choice_name components) = true ->
  str_mem name (get_avail_components E (modules_repo w) ctype) = true ->
  upper_levels_ok (update_config w) url install_dir = true ->
  entry_pins_or_inherits entry = true ->
  branch_on_record w name install_dir = Some (branch (modules_repo w))
  \/ confirms (inputs w) <> [] ->
  exists repo planned_sha patch' w2,
    get_single_component_info E component w
      = (Ok (repo, name, planned_sha, patch'), w2)
    /\ planned_sha = match entry with
                     | Some (VStr s) => Some s
                     | _ => sha (args w)
                     end
    /\ (forall s, entry = Some (VStr s) -> is_some (sha (args w)) = true ->
        In (WARNING, TxtEntryOverridesSha ctype name) (logs w2))
    /\ forall w3 current_version answer queue,
        args w3 = args w ->
        versions (inputs w3) = answer :: queue ->
        fst (resolve_version E repo name planned_sha current_version w3)
        = Ok (spec_target_version entry (sha (args w)) (prompt (args w))
                answer
                (get_latest_component_version E repo name (component_type w3))).
Proof.
  intros url ctype entry Hreq Hall Hdir Hch Hav Hup Hent Hbr.
  rewrite (@get_single_reaches_config E component w name w1 components
             install_dir c0 rest Hreq Hall Hdir Hch Hav).
  destruct (@requested_frame component w name w1 Hreq) as (Ha & Hc & Hm & Hu & Hj & Hl & _ & _ & Hq).
  unfold bind at 1.
  rewrite single_config_sha_spec by (rewrite Hu, Hm; exact Hup).
  rewrite Hu, Hm, Ha, Hc. fold url entry ctype.
  assert (Hbr1 : forall l, branch_on_record (set_logs l w1) name install_dir
                 = Some (branch (modules_repo (set_logs l w1)))
                 \/ confirms (inputs (set_logs l w1)) <> []).
  { intros l. unfold branch_on_record in *; cbn. rewrite Hj, Hm, Hc, Hq. exact Hbr. }
  assert (Hbr0 : branch_on_record w1 name install_dir
                 = Some (branch (modules_repo w1))
                 \/ confirms (inputs w1) <> []).
  { unfold branch_on_record in *; cbn. rewrite Hj, Hm, Hc, Hq. exact Hbr. }
  assert (Hver : forall repo planned w3 cv answer queue,
             args w3 = args w -> versions (inputs w3) = answer :: queue ->
             planned = match entry with Some (VStr s) => Some s | _ => sha (args w) end ->
             fst (resolve_version E repo name planned cv w3)
             = Ok (spec_target_version entry (sha (args w)) (prompt (args w)) answer
                     (get_latest_component_version E repo name (component_type w3)))).
  { intros repo planned w3 cv answer queue Ha3 Hv ->.
    unfold resolve_version, bind, gets, spec_target_version; cbn. rewrite Ha3.
    destruct entry as [[| |s| | |]|]; cbn; try reflexivity;
      destruct (sha (args w)); cbn; try reflexivity;
      destruct (prompt (args w)); cbn; try reflexivity;
      unfold prompt_component_version_sha, ask; rewrite Hv; reflexivity. }
  destruct entry as [[|[]|s|n|l|d]|] eqn:He; try discriminate Hent.
  - destruct (@single_finish_returns name install_dir (sha (args w)) w1 Hbr0)
      as (repo & p & w2 & Hf & Ha2 & _).
    exists repo, (sha (args w)), p, w2. rewrite Hf.
    split; [reflexivity|]. split; [reflexivity|].
    split; [discriminate|]. intros; eapply Hver; eauto.
  - destruct (@single_finish_returns name install_dir (sha (args w)) w1 Hbr0)
      as (repo & p & w2 & Hf & Ha2 & _).
    exists repo, (sha (args w)), p, w2. rewrite Hf.
    split; [reflexivity|]. split; [reflexivity|].
    split; [discriminate|]. intros; eapply Hver; eauto.
  - match goal with |- context [single_finish _ _ _ (set_logs ?l w1)] =>
      destruct (@single_finish_returns name install_dir (Some s) (set_logs l w1) (Hbr1 l))
        as (repo & p & w2 & Hf & Ha2 & _ & _ & _ & _ & Hlog) end.
    exists repo, (Some s), p, w2. rewrite Hf.
    split; [reflexivity|]. split; [reflexivity|]. split.
    + intros s' _ Hs. apply Hlog. cbn. rewrite Hs.
      apply in_or_app; right; left; reflexivity.
    + intros; eapply Hver; eauto.
  - destruct (@single_finish_returns name install_dir (sha (args w)) w1 Hbr0)
      as (repo & p & w2 & Hf & Ha2 & _).
    exists repo, (sha (args w)), p, w2. rewrite Hf.
    split; [reflexivity|]. split; [reflexivity|].
    split; [discriminate|]. intros; eapply Hver; eauto.
Qed.

(** The sha [abc123] of the command line against the pin [def456] that the
    configuration gives to the component itself. *)
Lemma single_target_precedence_witness :
  exists repo planned_sha patch' w2,
    get_single_component_info (ex_env ex_catalog (fun _ _ => None))
      (Some "fastqc")
      (ex_world (Some "abc123") (ex_pin (VStr "def456")) None None SDNone
         (ex_inputs [] []))
      = (Ok (repo, "fastqc", planned_sha, patch'), w2)
    /\ planned_sha = Some "def456"
    /\ (forall s, Some (VStr "def456") = Some (VStr s) -> true = true ->
        In (WARNING, TxtEntryOverridesSha "modules" "fastqc") (logs w2))
    /\ forall w3 current_version answer queue,
        args w3 = ex_args (Some "abc123") ->
        versions (inputs w3) = answer :: queue ->
        fst (resolve_version (ex_env ex_catalog (fun _ _ => None)) repo
               "fastqc" planned_sha current_version w3)
        = Ok "def456".
Proof.
  exact (@single_target_precedence (ex_env ex_catalog (fun _ _ => None))
           (Some "fastqc")
           (ex_world (Some "abc123") (ex_pin (VStr "def456")) None None SDNone
              (ex_inputs [] []))
           "fastqc" _ [("nf-core", "fastqc")] "nf-core" "fastqc" []
           eq_refl eq_refl eq_refl eq_refl eq_refl eq_refl eq_refl
           (or_introl eq_refl)).
Defined.

(** A pin given to the install directory is not looked at: line 315 tests
    whether the name occurs in the string, and unless it does the entry
    carries the sha of the command line and nothing is logged. *)
Lemma single_directory_pin_is_ignored name install_dir w rd pin :
  dict_get (remote_url (modules_repo w)) (update_config w) = Some (VDict rd) ->
  dict_get install_dir rd = Some (VStr pin) ->
  is_substring name pin = false ->
  single_config_sha name install_dir w = (Ok (sha (args w)), w).
Proof.
  intros Hr Hd Hsub. unfold single_config_sha, bind at 1, gets.
  rewrite Hr. cbn [py_get]. rewrite Hd. unfold bind at 1, ret at 1.
  cbn [py_in]. unfold bind at 1, ret at 1. rewrite Hsub. reflexivity.
Qed.

(** An entry of the repository that is no mapping (a pin, [true], [false])
    ends the planner in [AttributeError]: line 315 calls [.get] on it. *)
Lemma single_repository_entry_raises name install_dir w v :
  dict_get (remote_url (modules_repo w)) (update_config w) = Some v ->
  (forall d, v <> VDict d) ->
  single_config_sha name install_dir w = (Err (Exn AttributeError TxtBuiltin), w).
Proof.
  intros Hr Hv. unfold single_config_sha, bind at 1, gets. rewrite Hr.
  destruct v; try reflexivity. exfalso. eapply Hv. reflexivity.
Qed.

(** C2, at the failing inputs.  The module [fastqc] is asked for with
    [--sha abc123].  With the pin [def456] given to its install directory
    ([update: {url: {nf-core: def456}}]) the planner returns the entry at
    [abc123], logs nothing, and the loop works on [abc123]; with the pin
    given to the repository ([update: {url: def456}]), or with the entry
    [true] there, the planner ends in [AttributeError].  The bulk planner,
    under the same three configurations, plans [fastqc] at [def456],
    [def456] and [abc123]. *)
Theorem single_upper_level_pin_is_missed :
  let E := ex_env ex_catalog (fun _ _ => None) in
  let at_dir :=
    ex_world (Some "abc123") [(ex_url, VDict [("nf-core", VStr "def456")])]
      None None SDNone (ex_inputs [] []) in
  let at_repo :=
    ex_world (Some "abc123") [(ex_url, VStr "def456")] None None SDNone
      (ex_inputs [] []) in
  let inherit :=
    ex_world (Some "abc123") [(ex_url, VBool true)] None None SDNone
      (ex_inputs [] []) in
  get_single_component_info E (Some "fastqc") at_dir
  = (Ok (ex_repo, "fastqc", Some "abc123", None), at_dir)
  /\ fst (resolve_version E ex_repo "fastqc" (Some "abc123") (Some "1a2b3c")
            at_dir) = Ok "abc123"
  /\ get_single_component_info E (Some "fastqc") at_repo
     = (Err (Exn AttributeError TxtBuiltin), at_repo)
  /\ get_single_component_info E (Some "fastqc") inherit
     = (Err (Exn AttributeError TxtBuiltin), inherit)
  /\ fst (get_all_components_info E None at_dir)
     = Ok [(ex_repo, "fastqc", Some "def456", None)]
  /\ fst (get_all_components_info E None at_repo)
     = Ok [(ex_repo, "fastqc", Some "def456", None)]
  /\ fst (get_all_components_info E None inherit)
     = Ok [(ex_repo, "fastqc", Some "abc123", None)].
Proof. vm_compute. repeat split. Qed.

(** C8, as amended.  On the single-component path, for a component that is
    installed and in the catalog: an override entry that is [false] raises
    [UserWarning] (set to False), an entry that is neither null, nor a
    boolean, nor a string raises [UserWarning] (wrong type); in both cases
    the planner returns no entry and leaves the world as it found it. *)
Theorem single_entry_false_or_malformed E component w name w1 components
    install_dir c0 rest v :
  let url := remote_url (modules_repo w) in
  let ctype := component_type w in
  requested component w = Some (name, w1) ->
  dict_get url (all_components_of (mj w) ctype) = Some components ->
  filter (fun dm => String.eqb name (snd dm)) components
    = (install_dir, c0) :: rest ->
  str_mem name (map choice_name components) = true ->
  str_mem name (get_avail_components E (modules_repo w) ctype) = true ->
  override_entry (update_config w) url install_dir name = Some v ->
  (v = VBool false ->
   get_single_component_info E component w
     = (Err (Exn UserWarning (TxtEntryFalse ctype)), w1))
  /\ (entry_malformed v = true ->
      get_single_component_info E component w
        = (Err (Exn UserWarning (TxtEntryWrongType ctype)), w1)).
Proof.
  intros url ctype Hreq Hall Hdir Hch Hav Hent.
  rewrite (@get_single_reaches_config E component w name w1 components
             install_dir c0 rest Hreq Hall Hdir Hch Hav).
  destruct (@requested_frame component w name w1 Hreq)
    as (Ha & Hc & Hm & Hu & _).
  assert (Hup : upper_levels_ok (update_config w1)
                  (remote_url (modules_repo w1)) install_dir = true).
  { rewrite Hu, Hm. fold url. revert Hent.
    unfold override_entry, upper_levels_ok.
    destruct (dict_get url (update_config w)) as [[| | | | |rd]|];
      try discriminate.
    destruct (dict_get install_dir rd) as [[| | | | |dd]|];
      try discriminate; reflexivity. }
  unfold bind. rewrite (single_config_sha_spec name install_dir w1 Hup).
  rewrite Hu, Hm, Hc. fold url ctype. rewrite Hent.
  split.
  - intros ->. reflexivity.
  - destruct v as [|[]| | | |]; try discriminate; reflexivity.
Qed.

Lemma single_entry_false_or_malformed_witness :
  get_single_component_info (ex_env ex_catalog (fun _ _ => None))
    (Some "fastqc")
    (ex_world None (ex_pin (VBool false)) None None SDNone (ex_inputs [] []))
  = (Err (Exn UserWarning (TxtEntryFalse "modules")),
     ex_world None (ex_pin (VBool false)) None None SDNone (ex_inputs [] [])).
Proof.
  exact (proj1 (@single_entry_false_or_malformed
                  (ex_env ex_catalog (fun _ _ => None)) (Some "fastqc")
                  (ex_world None (ex_pin (VBool false)) None None SDNone
                     (ex_inputs [] []))
                  "fastqc" _ [("nf-core", "fastqc")] "nf-core" "fastqc" []
                  (VBool false)
                  eq_refl eq_refl eq_refl eq_refl eq_refl eq_refl) eq_refl).
Defined.

(** Counterexample to C8 as stated: a null entry is neither a boolean nor a
    string, and the planner returns a plan entry for the component. *)
Lemma single_null_entry_is_accepted :
  override_entry (ex_pin VNone) ex_url "nf-core" "fastqc" = Some VNone
  /\ fst (get_single_component_info (ex_env ex_catalog (fun _ _ => None))
            (Some "fastqc")
            (ex_world None (ex_pin VNone) None None SDNone (ex_inputs [] [])))
     = Ok (ex_repo, "fastqc", None, None).
Proof. split; reflexivity. Qed.

(** C9, at the failing input: no module of the pipeline comes from the
    repository of the command, and the request for [fastqc] ends in a
    [TypeError] (line 287 iterates over [None]), which is no [LookupError];
    the check of line 288 is never reached. *)
Theorem single_nothing_installed_raises_TypeError :
  let w := set_mj [("https://gitlab.com/lab/modules.git",
                    [("modules", [("lab", [("fastqc", ex_fastqc None)])])])]
             (ex_world None [] None None SDNone (ex_inputs [] [])) in
  get_single_component_info (ex_env ex_catalog (fun _ _ => None))
    (Some "fastqc") w
  = (Err (Exn TypeError TxtBuiltin), w)
  /\ isinstance TypeError LookupError = false.
Proof. split; reflexivity. Qed.

(** What the planner does for the other requests C9 speaks of: a name none
    of the installed components bears ends in the [IndexError] of line 299,
    a subclass of [LookupError]; an installed name the catalog lacks ends in
    the [LookupError] of line 309.  Neither changes the world. *)
Lemma single_unknown_name_raises_IndexError E component w name w1 components :
  requested component w = Some (name, w1) ->
  dict_get (remote_url (modules_repo w))
    (all_components_of (mj w) (component_type w)) = Some components ->
  filter (fun dm => String.eqb name (snd dm)) components = [] ->
  get_single_component_info E component w
    = (Err (Exn IndexError TxtBuiltin), w1)
  /\ isinstance IndexError LookupError = true.
Proof.
  intros Hreq Hall Hdir. split; [|reflexivity].
  unfold get_single_component_info, bind at 1 2 3, gets, get_all_components;
    cbn.
  rewrite Hall. unfold bind at 1; cbn. unfold dict_mem; rewrite Hall; cbn.
  unfold bind at 1.
  destruct component as [c|]; cbn in Hreq.
  - inversion Hreq; subst; cbn. rewrite Hdir. reflexivity.
  - unfold questionary_autocomplete, ask.
    destruct (autocompletes (inputs w)) as [|a q]; [discriminate|].
    inversion Hreq; subst; cbn. rewrite Hdir. reflexivity.
Qed.

Lemma single_not_in_catalog_raises_LookupError E component w name w1
    components install_dir c0 rest :
  requested component w = Some (name, w1) ->
  dict_get (remote_url (modules_repo w))
    (all_components_of (mj w) (component_type w)) = Some components ->
  filter (fun dm => String.eqb name (snd dm)) components
    = (install_dir, c0) :: rest ->
  str_mem name (map choice_name components) = true ->
  str_truthy name = true ->
  str_mem name (get_avail_components E (modules_repo w) (component_type w))
    = false ->
  get_single_component_info E component w
    = (Err (Exn LookupError (TxtNotAvailable (component_type w) name)), w1).
Proof.
  intros Hreq Hall Hdir Hch Hne Hav.
  unfold get_single_component_info, bind at 1 2 3, gets, get_all_components;
    cbn.
  rewrite Hall. unfold bind at 1; cbn. unfold dict_mem; rewrite Hall; cbn.
  unfold bind at 1.
  destruct component as [c|]; cbn in Hreq.
  - inversion Hreq; subst; cbn. rewrite Hdir, Hch; cbn.
    rewrite Hav, Hne. reflexivity.
  - unfold questionary_autocomplete, ask.
    destruct (autocompletes (inputs w)) as [|a q]; [discriminate|].
    inversion Hreq; subst; cbn. rewrite Hdir, Hch; cbn.
    rewrite Hav, Hne. reflexivity.
Qed.

(* ===================================================================== *)
(** * The bulk planner *)
(* ===================================================================== *)

Lemma fold_M_pure_inv {A S} (R : S -> S -> Prop) (xs : list A)
    (body : S -> A -> M S) :
  (forall s, R s s) ->
  (forall a b c, R a b -> R b c -> R a c) ->
  (forall s x w s' w', In x xs -> body s x w = (Ok s', w') -> w' = w /\ R s s') ->
  forall s w s' w',
    fold_M xs body s w = (Ok s', w') -> w' = w /\ R s s'.
Proof.
  intros Hrefl Htrans. induction xs as [|x xs IH]; intros Hbody s w s' w' H.
  - cbn in H. inversion H; subst. auto.
  - cbn in H. apply bind_inv_Ok in H. destruct H as (s1 & w1 & H1 & H2).
    apply Hbody in H1; [|left; reflexivity]. destruct H1 as [Hw1 HR1].
    subst w1.
    apply IH in H2; [|intros; eapply Hbody; eauto; right; assumption].
    destruct H2 as [Hw2 HR2]. split; eauto.
Qed.

Lemma touches_refl rn b : touches rn b b.
Proof. unfold touches; auto. Qed.

Lemma touches_trans rn a b c : touches rn a b -> touches rn b c -> touches rn a c.
Proof.
  intros (H1 & H2 & H3) (H4 & H5 & H6). repeat split.
  - congruence.
  - intros x Hx. apply H5 in Hx. destruct Hx; auto.
  - intros x Hx. apply H6 in Hx. destruct Hx; auto.
Qed.

Lemma touches_reset rn b : touches rn b (reset_repo rn b).
Proof.
  unfold touches, reset_repo; cbn. repeat split; auto.
  intros x Hx. apply dict_keys_set in Hx. exact Hx.
Qed.

Lemma touches_add_overridden_repo rn b : touches rn b (add_overridden_repo rn b).
Proof.
  unfold touches; cbn. repeat split; auto.
  intros x Hx. apply in_app_or in Hx. destruct Hx as [|[|[]]]; auto.
Qed.

Lemma touches_add_skipped_component rn i b :
  touches rn b (add_skipped_component i b).
Proof. unfold touches; cbn. auto. Qed.

Lemma touches_add_overridden_component rn c b :
  touches rn b (add_overridden_component c b).
Proof. unfold touches; cbn. auto. Qed.

Lemma record_component_touches rn d n s b w b' w' :
  record_component rn d n s b w = (Ok b', w') -> w' = w /\ touches rn b b'.
Proof.
  unfold record_component, bind, gets, get_component_branch; cbn.
  destruct (dict_get rn (components_info b)) as [r|]; cbn; [|discriminate].
  intros H; inversion H; subst. split; [reflexivity|].
  unfold touches; cbn. repeat split; auto.
  intros x Hx. apply dict_keys_set in Hx. exact Hx.
Qed.

Lemma bulk_component_touches rn dc b x w b' w' :
  bulk_component rn dc b x w = (Ok b', w') -> w' = w /\ touches rn b b'.
Proof.
  destruct x as [d n]. unfold bulk_component, bind at 1 2, gets; cbn.
  destruct (dict_get n dc) as [[|[]|s| | |]|]; cbn; try discriminate;
    try apply record_component_touches.
  - intros H; inversion H; subst. split; [reflexivity|].
    apply touches_add_skipped_component.
  - intros H. apply bind_inv_Ok in H. destruct H as (b1 & w1 & H1 & H2).
    apply record_component_touches in H1. destruct H1 as [Hw HT]. subst w1.
    cbn in H2. injection H2 as Hb Hw. subst b' w'. split; [reflexivity|].
    destruct (is_some (sha (args w)));
      [eapply touches_trans;
         [exact HT|apply touches_add_overridden_component]
      |exact HT].
Qed.

Lemma fold_left_touches rn (f : bulk -> string * string -> bulk) xs :
  (forall b x, touches rn b (f b x)) ->
  forall b, touches rn b (fold_left f xs b).
Proof.
  intros Hf. induction xs as [|x xs IH]; intros b; cbn.
  - apply touches_refl.
  - eapply touches_trans; [apply Hf|apply IH].
Qed.

Lemma bulk_dir_touches rn comps rc b d w b' w' :
  bulk_dir rn comps rc b d w = (Ok b', w') -> w' = w /\ touches rn b b'.
Proof.
  unfold bulk_dir, bind at 1, gets; cbn.
  destruct (dict_get d rc) as [[|[]|s| | |dc]|]; cbn; try discriminate;
    try (intros H; inversion H; subst; split; [reflexivity|apply touches_refl]).
  - intros H; inversion H; subst. split; [reflexivity|].
    apply fold_left_touches. intros b0 x.
    destruct (String.eqb (fst x) d);
      [apply touches_add_skipped_component|apply touches_refl].
  - intros H. apply bind_inv_Ok in H. destruct H as (b1 & w1 & H1 & H2).
    apply (fold_M_pure_inv (touches rn)) in H1;
      [|apply touches_refl|apply touches_trans|].
    + destruct H1 as [Hw HT]. subst w1. cbn in H2.
      injection H2 as Hb Hw. subst b' w'. split; [reflexivity|].
      eapply touches_trans; [apply touches_reset|].
      destruct (is_some (sha (args w)));
        [eapply touches_trans; [exact HT|apply touches_add_overridden_repo]
        |exact HT].
    + intros s0 x w0 s1 w2 _. destruct (String.eqb d (fst x)).
      * apply record_component_touches.
      * cbn. intros H; inversion H; subst. split; [reflexivity|apply touches_refl].
  - intros H.
    apply (fold_M_pure_inv (touches rn)) in H;
      [|apply touches_refl|apply touches_trans|].
    + destruct H as [Hw HT]. subst w'. split; [reflexivity|].
      eapply touches_trans; [apply touches_reset|exact HT].
    + intros s0 x w0 s1 w2 _. apply bulk_component_touches.
Qed.

Lemma bulk_repo_step E b rn comps w b' w' :
  bulk_repo E b (rn, comps) w = (Ok b', w') ->
  w' = w
  /\ ((dict_get rn (update_config w) = Some (VBool false)
       /\ b' = add_skipped_repo rn b)
      \/ (dict_get rn (update_config w) <> Some (VBool false)
          /\ touches rn b b')).
Proof.
  unfold bulk_repo, bind at 1 2, gets; cbn.
  destruct (dict_get rn (update_config w)) as [[|[]|s| | |rc]|]; cbn;
    try discriminate.
  - intros H.
    apply (fold_M_pure_inv (touches rn)) in H;
      [|apply touches_refl|apply touches_trans|].
    + destruct H as [Hw HT]. split; [assumption|]. right.
      split; [discriminate|].
      eapply touches_trans; [apply touches_reset|exact HT].
    + intros s0 x w0 s1 w2 _. apply record_component_touches.
  - intros H. injection H as Hb Hw. subst b' w'. split; [reflexivity|].
    left. split; reflexivity.
  - intros H. apply bind_inv_Ok in H. destruct H as (b1 & w1 & H1 & H2).
    apply (fold_M_pure_inv (touches rn)) in H1;
      [|apply touches_refl|apply touches_trans|].
    + destruct H1 as [Hw HT]. subst w1. cbn in H2.
      injection H2 as Hb Hw. subst b' w'. split; [reflexivity|]. right.
      split; [discriminate|].
      eapply touches_trans; [apply touches_reset|].
      destruct (is_some (sha (args w)));
        [eapply touches_trans; [exact HT|apply touches_add_overridden_repo]
        |exact HT].
    + intros s0 x w0 s1 w2 _. apply record_component_touches.
  - intros H.
    apply (fold_M_pure_inv (touches rn)) in H;
      [|apply touches_refl|apply touches_trans|].
    + destruct H as [Hw HT]. split; [assumption|]. right.
      split; [discriminate|exact HT].
    + intros s0 x w0 s1 w2 _. apply bulk_dir_touches.
  - intros H.
    apply (fold_M_pure_inv (touches rn)) in H;
      [|apply touches_refl|apply touches_trans|].
    + destruct H as [Hw HT]. split; [assumption|]. right.
      split; [discriminate|].
      eapply touches_trans; [apply touches_reset|exact HT].
    + intros s0 x w0 s1 w2 _. apply record_component_touches.
Qed.

Lemma bulk_repos_skip E repo all :
  forall b w b' w',
    dict_get repo (update_config w) = Some (VBool false) ->
    fold_M all (bulk_repo E) b w = (Ok b', w') ->
    untouched repo b ->
    w' = w /\ untouched repo b'
    /\ (In repo (skipped_repos b) \/ In repo (dict_keys all) ->
        In repo (skipped_repos b')).
Proof.
  induction all as [|[rn comps] all IH]; intros b w b' w' Hcfg H Hun.
  - cbn in H. injection H as Hb Hw. subst b' w'.
    split; [reflexivity|]. split; [assumption|].
    intros [Hs|[]]. assumption.
  - cbn in H. apply bind_inv_Ok in H. destruct H as (b1 & w1 & H1 & H2).
    apply bulk_repo_step in H1. destruct H1 as [Hw Hstep]. subst w1.
    assert (Hun1 : untouched repo b1
                   /\ (In repo (skipped_repos b) \/ repo = rn ->
                       In repo (skipped_repos b1))).
    { destruct Hstep as [[Hf Hb]|[Hnf (Hs & Hk & Ho)]].
      - subst b1. split.
        + exact Hun.
        + cbn. intros [Hs|Hs]; apply in_or_app; [left; assumption|].
          right; left; symmetry; exact Hs.
      - assert (Hne : repo <> rn) by (intros ->; congruence).
        split.
        + destruct Hun as [Hu1 Hu2]. split.
          * intros Hx. apply Hk in Hx. destruct Hx; auto.
          * intros Hx. apply Ho in Hx. destruct Hx; auto.
        + rewrite Hs. intros [Hi|Heq]; [assumption|contradiction]. }
    destruct Hun1 as [Hun1 Hsk1].
    destruct (IH b1 w b' w' Hcfg H2 Hun1) as (Hw & Hun' & Hsk').
    split; [assumption|]. split; [assumption|].
    intros [Hs|Hin]; apply Hsk'.
    + left. apply Hsk1. left. assumption.
    + cbn in Hin. destruct Hin as [Heq|Hin].
      * left. apply Hsk1. right. symmetry. assumption.
      * right. assumption.
Qed.

Lemma logs_grow_refl P w : logs_grow P w w.
Proof.
  exists []. split; [|constructor].
  rewrite app_nil_r. destruct w; reflexivity.
Qed.

Lemma logs_grow_trans P a b c :
  logs_grow P a b -> logs_grow P b c -> logs_grow P a c.
Proof.
  intros (l1 & -> & H1) (l2 & -> & H2). exists (l1 ++ l2). split.
  - unfold set_logs; cbn. rewrite app_assoc. reflexivity.
  - apply Forall_app; auto.
Qed.

Lemma logs_grow_log P lv t w :
  P (lv, t) -> logs_grow P w (set_logs (logs w ++ [(lv, t)]) w).
Proof. intros H. exists [(lv, t)]. split; auto. Qed.

Lemma str_mem_In x l : str_mem x l = true <-> In x l.
Proof.
  unfold str_mem. rewrite existsb_exists. split.
  - intros (y & Hy & He). apply String.eqb_eq in He. subst. assumption.
  - intros H. exists x. split; [assumption|apply String.eqb_refl].
Qed.

Lemma str_mem_false x l : ~ In x l -> str_mem x l = false.
Proof.
  intros H. destruct (str_mem x l) eqn:E; [|reflexivity].
  apply str_mem_In in E. contradiction.
Qed.

Lemma bulk_summaries_logs repo b w :
  In repo (skipped_repos b) -> untouched repo b ->
  exists rest,
    bulk_summaries b w
    = (Ok tt,
       set_logs (logs w ++ (INFO, TxtSkippingRepos (component_type w)
                                    (skipped_repos b)) :: rest) w)
    /\ Forall (quiet repo) rest.
Proof.
  intros Hin [_ Hov].
  unfold bulk_summaries, bind, gets, when, log, modify; cbn.
  destruct (skipped_repos b) as [|s0 ss] eqn:Es; [destruct Hin|]; cbn.
  pose proof (str_mem_false _ _ Hov) as Hq.
  destruct (skipped_components b) as [|c0 cs]; cbn;
    destruct (overridden_repos b) as [|o0 os]; cbn;
    destruct (overridden_components b) as [|p0 ps]; cbn;
    eexists; (split;
      [unfold set_logs; cbn; rewrite <- ?app_assoc; cbn; reflexivity
      |repeat constructor; assumption]).
Qed.

Lemma rb_add_keys k x g k' l' :
  In (k', l') (rb_add k x g) -> k' = k \/ exists l'', In (k', l'') g.
Proof.
  induction g as [|[k0 l0] g IH]; cbn.
  - intros [H|[]]. injection H as <- _. left; reflexivity.
  - destruct (rb_key_eqb k k0).
    + intros [H|H].
      * injection H as <- _. right. exists l0. left; reflexivity.
      * right. exists l'. right; assumption.
    + intros [H|H].
      * injection H as <- <-. right. exists l0. left; reflexivity.
      * apply IH in H. destruct H as [H|(l'' & H)]; [left; assumption|].
        right. exists l''. right; assumption.
Qed.

Lemma components_info_items_keys ci rn c :
  In (rn, c) (components_info_items ci) -> In rn (dict_keys ci).
Proof.
  unfold components_info_items. intros H.
  apply in_flat_map in H. destruct H as ([rn' content] & Hin & H).
  apply in_flat_map in H. destruct H as ([d comps] & _ & H).
  apply in_map_iff in H. destruct H as (c' & Heq & _).
  injection Heq as <- _.
  apply (in_map fst) in Hin. exact Hin.
Qed.

Lemma repos_and_branches_keys br ci k l :
  In (k, l) (repos_and_branches br ci) -> In (fst k) (dict_keys ci).
Proof.
  unfold repos_and_branches.
  assert (G : forall items g,
             (forall rn c, In (rn, c) items -> In rn (dict_keys ci)) ->
             (forall k l, In (k, l) g -> In (fst k) (dict_keys ci)) ->
             forall k l,
               In (k, l)
                 (fold_left
                    (fun g '(repo_name, (comp, sha', comp_branch)) =>
                       let comp_branch' :=
                         if is_some br then br else comp_branch in
                       rb_add (repo_name, comp_branch') (comp, sha') g)
                    items g) ->
               In (fst k) (dict_keys ci)).
  { induction items as [|[rn [[comp s0] cb]] items IH]; intros g Hi Hg k0 l0;
      cbn.
    - apply Hg.
    - apply IH.
      + intros rn' c' H'. apply (Hi rn' c'). right; assumption.
      + intros k1 l1 H1. apply rb_add_keys in H1.
        destruct H1 as [->|(l'' & H1)].
        * cbn. apply (Hi rn (comp, s0, cb)). left; reflexivity.
        * apply (Hg k1 l''). assumption. }
  apply G.
  - apply components_info_items_keys.
  - intros k0 l0 [].
Qed.

Lemma create_repos_spec E repo rb :
  (forall k l, In (k, l) rb -> fst k <> repo) ->
  forall acc w objs w',
    fold_M rb (create_repo E) acc w = (Ok objs, w') ->
    (forall r cs, In (r, cs) acc -> remote_url r <> repo) ->
    logs_grow (quiet repo) w w'
    /\ (forall r cs, In (r, cs) objs -> remote_url r <> repo).
Proof.
  induction rb as [|[[u br] cs] rb IH]; intros Hk acc w objs w' H Hacc.
  - cbn in H. injection H as Hb Hw. subst objs w'.
    split; [apply logs_grow_refl|assumption].
  - cbn in H. apply bind_inv_Ok in H. destruct H as (acc1 & w1 & H1 & H2).
    assert (Hu : u <> repo) by (apply (Hk (u, br) cs); left; reflexivity).
    assert (Hu' : String.eqb repo u = false)
      by (apply String.eqb_neq; congruence).
    assert (Hstep : logs_grow (quiet repo) w w1
                    /\ (forall r cs, In (r, cs) acc1 -> remote_url r <> repo)).
    { revert H1. unfold create_repo, bind at 1, gets, try_except; cbn.
      unfold ModulesRepo_init, bind.
      destruct (registry_probe E u br) as [[b rp]|]; cbn.
      - intros H1. injection H1 as Ha Hw. subst acc1 w1.
        split; [apply logs_grow_refl|].
        intros r cs0 Hin. apply in_app_or in Hin.
        destruct Hin as [Hin|[Hin|[]]]; [eapply Hacc; eassumption|].
        injection Hin as <- _. cbn. assumption.
      - unfold log, modify; cbn. intros H1. injection H1 as Ha Hw.
        subst acc1 w1. split; [|assumption].
        eexists. split.
        + unfold set_logs; cbn. rewrite <- app_assoc. reflexivity.
        + repeat constructor; unfold quiet; cbn; assumption. }
    destruct Hstep as [Hg1 Hacc1].
    destruct (IH (fun k l Hin => Hk k l (or_intror Hin)) acc1 w1 objs w' H2
                Hacc1) as [Hg2 Hobjs].
    split; [eapply logs_grow_trans; eassumption|assumption].
Qed.

Lemma verify_entries_spec E repo l :
  (forall r n s, In (r, n, s) l -> remote_url r <> repo) ->
  forall w kept w',
    verify_entries E l w = (Ok kept, w') ->
    logs_grow (quiet repo) w w' /\ (forall e, In e kept -> In e l).
Proof.
  induction l as [|[[r n] s] l IH]; intros Hl w kept w' H.
  - cbn in H. injection H as Hb Hw. subst kept w'.
    split; [apply logs_grow_refl|auto].
  - assert (Hr : String.eqb repo (remote_url r) = false).
    { apply String.eqb_neq. intros Heq.
      apply (Hl r n s); [left; reflexivity|congruence]. }
    assert (IH' := IH (fun r n s Hin => Hl r n s (or_intror Hin))).
    cbn in H. unfold bind at 1, gets in H; cbn in H.
    destruct (component_exists E r n (component_type w)); cbn in H.
    + destruct (match s with
                | Some s0 => negb (sha_exists_on_branch E r s0)
                | None => false
                end).
      * unfold bind, log, modify in H; cbn in H.
        apply IH' in H. destruct H as [Hg Hin]. split.
        -- eapply logs_grow_trans; [|exact Hg].
           apply logs_grow_log. unfold quiet; cbn. assumption.
        -- intros e He. right. auto.
      * apply bind_inv_Ok in H. destruct H as (rest & w1 & H1 & H2).
        apply IH' in H1. destruct H1 as [Hg Hin].
        cbn in H2. injection H2 as Hb Hw. subst kept w'. split; [assumption|].
        intros e [He|He]; [left; assumption|right; auto].
    + unfold bind, log, modify in H; cbn in H.
      apply IH' in H. destruct H as [Hg Hin]. split.
      * eapply logs_grow_trans; [|exact Hg].
        apply logs_grow_log. unfold quiet; cbn. assumption.
      * intros e He. right. auto.
Qed.

Lemma attach_patches_spec l :
  forall w plan w',
    attach_patches l w = (Ok plan, w') ->
    w' = w /\ (forall e, In e plan ->
                 exists n s, In (entry_repo e, n, s) l).
Proof.
  induction l as [|[[r n] s] l IH]; intros w plan w' H.
  - cbn in H. injection H as Hb Hw. subst plan w'. split; [reflexivity|].
    intros e [].
  - cbn in H. unfold bind at 1, get_patch_fn, gets in H; cbn in H.
    apply bind_inv_Ok in H. destruct H as (rest & w1 & H1 & H2).
    apply IH in H1. destruct H1 as [Hw Hin]. subst w1.
    cbn in H2. injection H2 as Hb Hw. subst plan w'. split; [reflexivity|].
    intros e [He|He].
    + subst e. cbn. exists n, s. left; reflexivity.
    + destruct (Hin e He) as (n' & s' & H'). exists n', s'. right; assumption.
Qed.

(** C7.  On the bulk path, when the override entry of a repository with
    installed components is [false] and the planner returns a plan: no
    entry of the plan is fetched from that repository, and of the records
    the planner logs, the first is the one summary of the skipped
    repositories, which names it, and no later record names it. *)
Theorem bulk_false_repo_is_skipped E br w repo plan w' :
  dict_get repo (update_config w) = Some (VBool false) ->
  In repo (dict_keys (all_components_of (mj w) (component_type w))) ->
  get_all_components_info E br w = (Ok plan, w') ->
  (forall e, In e plan -> remote_url (entry_repo e) <> repo)
  /\ exists skipped rest,
       logs w' = logs w ++ (INFO, TxtSkippingRepos (component_type w) skipped)
                           :: rest
       /\ In repo skipped
       /\ Forall (quiet repo) rest.
Proof.
  intros Hcfg Hinst H.
  unfold get_all_components_info, bind at 1 2, gets, get_all_components in H;
    cbn in H.
  apply bind_inv_Ok in H. destruct H as (b & w1 & H1 & H).
  apply (@bulk_repos_skip E repo) in H1; [|assumption|split; intros []].
  destruct H1 as (Hw1 & Hun & Hsk). subst w1.
  assert (Hskipped : In repo (skipped_repos b)) by (apply Hsk; right; assumption).
  apply bind_inv_Ok in H. destruct H as ([] & w2 & H2 & H).
  destruct (@bulk_summaries_logs repo b w Hskipped Hun) as (rest & Hsum & Hrest).
  rewrite Hsum in H2. injection H2 as Hw2.
  apply bind_inv_Ok in H. destruct H as (objs & w3 & H3 & H).
  apply (@create_repos_spec E repo) in H3.
  2:{ intros k l Hin. apply repos_and_branches_keys in Hin.
      destruct Hun as [Hun _]. intros Heq. apply Hun. congruence. }
  2:{ intros r cs []. }
  destruct H3 as [Hg3 Hobjs].
  apply bind_inv_Ok in H. destruct H as (kept & w4 & H4 & H5).
  apply (@verify_entries_spec E repo) in H4.
  2:{ intros r n s Hin. apply in_flat_map in Hin.
      destruct Hin as ([r' cs] & Hin & Hin').
      apply in_map_iff in Hin'. destruct Hin' as ([c s'] & Heq & _).
      injection Heq as <- _ _. eapply Hobjs. eassumption. }
  destruct H4 as [Hg4 Hkept].
  apply attach_patches_spec in H5. destruct H5 as [Hw5 Hplan]. subst w'.
  split.
  - intros e He. destruct (Hplan e He) as (n & s & Hin).
    apply Hkept in Hin. apply in_flat_map in Hin.
    destruct Hin as ([r' cs] & Hin & Hin').
    apply in_map_iff in Hin'. destruct Hin' as ([c s'] & Heq & _).
    injection Heq as Hr _ _. rewrite <- Hr. eapply Hobjs. eassumption.
  - destruct (logs_grow_trans Hg3 Hg4) as (l & Hw4 & Hl).
    exists (skipped_repos b), (rest ++ l). subst w4 w2. cbn.
    split; [|split; [assumption|apply Forall_app; auto]].
    rewrite <- app_assoc. reflexivity.
Qed.

Lemma bulk_false_repo_is_skipped_witness :
  let E := ex_env ex_bulk_catalog (fun _ _ => None) in
  let w := ex_bulk_world [(ex_url, VBool false)] in
  let w' := snd (get_all_components_info E None w) in
  (forall e, In e [(ex_lab_repo, "trim", None, None)] ->
             remote_url (entry_repo e) <> ex_url)
  /\ exists skipped rest,
       logs w' = logs w ++ (INFO, TxtSkippingRepos "modules" skipped) :: rest
       /\ In ex_url skipped
       /\ Forall (quiet ex_url) rest.
Proof.
  intros E w w'.
  apply (@bulk_false_repo_is_skipped E None w ex_url
           [(ex_lab_repo, "trim", None, None)] w').
  - reflexivity.
  - left; reflexivity.
  - reflexivity.
Defined.

(** C5, at the failing inputs.  Under a repo-level mapping, a directory
    entry [true] plans nothing, skips nothing and raises nothing for the
    components of the directory: the plan holds only the module of the
    other repository and no record is logged.  An absent directory entry
    ends in a [KeyError] (line 409), and a directory entry of another shape
    (here a number) is passed over in silence like [true]. *)
Theorem bulk_directory_level_misses_cases :
  let E := ex_env ex_bulk_catalog (fun _ _ => None) in
  let run cfg := get_all_components_info E None (ex_bulk_world cfg) in
  run [(ex_url, VDict [("nf-core", VBool true)])]
    = (Ok [(ex_lab_repo, "trim", None, None)],
       ex_bulk_world [(ex_url, VDict [("nf-core", VBool true)])])
  /\ run [(ex_url, VDict [])]
     = (Err (Exn KeyError TxtBuiltin), ex_bulk_world [(ex_url, VDict [])])
  /\ run [(ex_url, VDict [("nf-core", VInt 3)])]
     = (Ok [(ex_lab_repo, "trim", None, None)],
        ex_bulk_world [(ex_url, VDict [("nf-core", VInt 3)])]).
Proof. cbv zeta. repeat split. Qed.

(* ===================================================================== *)
(** * The diff file *)
(* ===================================================================== *)

Lemma fs_get_del_same t p t' : fs_del t p = Some t' -> fs_get t' p = None.
Proof.
  revert t t'; induction p as [|x p IH]; intros t t' H.
  - discriminate.
  - destruct t as [c|es]; simpl in H; [discriminate|].
    destruct (dict_get x es) as [c|] eqn:G; [|discriminate].
    destruct (is_nil p) eqn:N.
    + injection H as <-. destruct p; [|discriminate]. simpl.
      now rewrite dict_get_del_same.
    + destruct (fs_del c p) as [c'|] eqn:D; [|discriminate].
      injection H as <-. simpl. rewrite dict_get_set_same.
      apply (IH c c' D).
Qed.

Lemma fs_get_del_apart t p t' q :
  fs_del t p = Some t' -> apart p q -> fs_get t' q = fs_get t q.
Proof.
  revert t t' q; induction p as [|x p IH]; intros t t' q H [H1 H2].
  - discriminate.
  - destruct t as [c|es]; simpl in H; [discriminate|].
    destruct (dict_get x es) as [c|] eqn:G; [|discriminate].
    destruct q as [|y q]; [discriminate|]. simpl in H1, H2.
    destruct (String.eqb_spec x y) as [Heq|Hne].
    + subst y. rewrite String.eqb_refl in H2.
      destruct (is_nil p) eqn:N.
      * destruct p; [|discriminate]. destruct q; discriminate.
      * destruct (fs_del c p) as [c'|] eqn:D; [|discriminate].
        injection H as <-. simpl. rewrite dict_get_set_same, G.
        apply (IH c c' q D). split; assumption.
    + destruct (is_nil p) eqn:N.
      * injection H as <-. simpl. now rewrite dict_get_del_other.
      * destruct (fs_del c p) as [c'|] eqn:D; [|discriminate].
        injection H as <-. simpl. now rewrite dict_get_set_other.
Qed.

(** What the loop of lines 619-627 leaves behind when it ends normally:
    a path with nothing at it, reached after the confirmations [declined]
    were all answered with no; either nothing was there to begin with or
    a file was there and its removal was confirmed. *)
Ltac mrun_in H :=
  unfold io_error, when, log in H;
  unfold bind, gets, modify, raise, ret, ask, fs_update in H;
  cbn in H.

Ltac mrun :=
  unfold io_error, when, log;
  unfold bind, gets, modify, raise, ret, ask, fs_update;
  cbn.

Lemma setup_diff_loop_ok fuel :
  forall w p0 w',
    save_diff_fn w = SDPath p0 ->
    setup_diff_loop fuel w = (Ok tt, w') ->
    exists p declined,
      save_diff_fn w' = SDPath p
      /\ fs_exists (fs w') p = false
      /\ Forall (fun c => c = false) declined
      /\ ((fs_exists (fs w) p = false /\ fs w' = fs w
           /\ confirms (inputs w) = declined ++ confirms (inputs w'))
          \/ (fs_is_file (fs w) p = true /\ fs_del (fs w) p = Some (fs w')
              /\ confirms (inputs w)
                 = declined ++ true :: confirms (inputs w'))).
Proof.
  induction fuel as [|fuel IH]; intros w p w' Es H; [cbv in H; discriminate|].
  cbn [setup_diff_loop] in H.
  apply bind_inv_Ok in H. destruct H as (p1 & w1 & Hp & H).
  unfold diff_path in Hp. mrun_in Hp. rewrite Es in Hp.
  injection Hp as Hp1 Hw1. subst p1 w1.
  apply bind_inv_Ok in H. destruct H as (e & w1 & He & H).
  unfold os_path_exists in He. mrun_in He. injection He as He Hw1. subst w1.
  destruct e.
  - apply bind_inv_Ok in H. destruct H as (c & w1 & Hc & H).
    unfold questionary_confirm in Hc. mrun_in Hc.
    destruct (confirms (inputs w)) as [|c0 q] eqn:Ec; [discriminate|].
    injection Hc as Hc Hw1. subst c0 w1.
    destruct c.
    + unfold os_remove in H. mrun_in H.
      destruct (fs_get (fs w) p) as [[c|es]|] eqn:G; cbn in H;
        try discriminate.
      destruct (fs_del (fs w) p) as [t'|] eqn:D; [|discriminate].
      injection H as <-. exists p, []. cbn.
      split; [assumption|]. split.
      { unfold fs_exists. now rewrite (fs_get_del_same _ _ D). }
      split; [constructor|]. right. unfold fs_is_file. rewrite G.
      repeat split; auto.
    + apply bind_inv_Ok in H. destruct H as (f & w1 & Hf & H).
      unfold questionary_path in Hf. mrun_in Hf.
      destruct (filenames (inputs w)) as [|f0 fq]; [discriminate|].
      injection Hf as Hf Hw1. subst f0 w1.
      apply bind_inv_Ok in H. destruct H as ([] & w1 & Hm & H).
      mrun_in Hm. injection Hm as Hw1. subst w1.
      apply (IH _ (Path f)) in H; [|reflexivity].
      destruct H as (p' & d & H1 & H2 & H3 & H4).
      exists p', (false :: d). cbn in H4.
      split; [assumption|]. split; [assumption|].
      split; [constructor; auto|].
      destruct H4 as [(Ha & Hb & Hc)|(Ha & Hb & Hc)];
        [left|right]; repeat split; auto; cbn; congruence.
  - mrun_in H. injection H as <-. exists p, []. cbn.
    split; [assumption|]. split; [assumption|].
    split; [constructor|].
    left. repeat split; auto.
Qed.

(** With more fuel than confirmations left, the loop of lines 619-627 ends
    before the fuel does. *)
Lemma setup_diff_loop_fuel fuel :
  forall w,
    length (confirms (inputs w)) < fuel ->
    fst (setup_diff_loop fuel w) <> Err (Exn RecursionError TxtBuiltin).
Proof.
  induction fuel as [|fuel IH]; intros w Hlt; [lia|].
  cbn [setup_diff_loop]. unfold diff_path, os_path_exists. mrun.
  destruct (save_diff_fn w) as [| |s|p]; cbn; try discriminate;
    match goal with |- context [fs_exists (fs w) ?q] =>
      destruct (fs_exists (fs w) q) end; cbn; try discriminate;
    unfold questionary_confirm; mrun;
    destruct (confirms (inputs w)) as [|c q] eqn:Ec; cbn; try discriminate;
    (destruct c;
     [unfold os_remove; mrun;
      match goal with |- context [fs_get (fs w) ?q] =>
        destruct (fs_get (fs w) q) as [[?|?]|] end; cbn; try discriminate;
      match goal with |- context [fs_del (fs w) ?q] =>
        destruct (fs_del (fs w) q) end; cbn; discriminate
     |unfold questionary_path; mrun;
      destruct (filenames (inputs w)) as [|f fq]; cbn; try discriminate;
      apply IH; cbn; cbn in Hlt; lia]).
Qed.

Lemma Path_touch_creates p w w' :
  fs_exists (fs w) p = false ->
  Path_touch p w = (Ok tt, w') ->
  fs_get (fs w') p = Some (File "") /\ w' = set_fs (fs w') w.
Proof.
  intros He H. unfold Path_touch, os_path_exists in H. mrun_in H.
  rewrite He in H.
  destruct (fs_put false (fs w) p (File "")) as [t|] eqn:Ep; [|discriminate].
  injection H as <-. cbn. split; [|reflexivity].
  apply (fs_get_put_same _ _ _ _ Ep).
Qed.

Lemma bind_not_overflow {A B} (m : M A) (f : A -> M B) w :
  fst (m w) <> Err (Exn RecursionError TxtBuiltin) ->
  (forall a w1, m w = (Ok a, w1) ->
                fst (f a w1) <> Err (Exn RecursionError TxtBuiltin)) ->
  fst (bind m f w) <> Err (Exn RecursionError TxtBuiltin).
Proof.
  unfold bind. destruct (m w) as [[a|e] w1]; cbn; intros H1 H2.
  - apply (H2 a w1). reflexivity.
  - intros Heq. apply H1. congruence.
Qed.

(** Lines 610-616: after them [self.save_diff_fn] is a path, and neither
    the file system nor the confirmations have been touched. *)
Lemma setup_diff_prefix w wa p wb :
  match save_diff_fn w with
  | SDBool true =>
      fn <- questionary_path ;; modify (set_save_diff_fn (SDStr fn))
  | _ => ret tt
  end w = (Ok tt, wa) ->
  diff_path wa = (Ok p, wb) ->
  fs wb = fs w /\ confirms (inputs wb) = confirms (inputs w).
Proof.
  intros H1 H2. unfold diff_path in H2. unfold questionary_path in H1.
  mrun_in H1. mrun_in H2.
  destruct (save_diff_fn w) as [|[]|s|q] eqn:Es; cbn in H1.
  - injection H1 as <-. rewrite Es in H2. discriminate.
  - destruct (filenames (inputs w)) as [|f fq]; cbn in H1; [discriminate|].
    injection H1 as <-. cbn in H2. injection H2 as _ <-. split; reflexivity.
  - injection H1 as <-. rewrite Es in H2. discriminate.
  - injection H1 as <-. rewrite Es in H2. injection H2 as _ <-.
    split; reflexivity.
  - injection H1 as <-. rewrite Es in H2. injection H2 as _ <-.
    split; reflexivity.
Qed.

(** C10.  [setup_diff_file] never runs out of the fuel it gives its loop,
    and when it returns, [self.save_diff_fn] is a path at which an empty
    file stands; either nothing existed at that path when the function was
    called, or a file existed there and its removal was confirmed by the
    user, after every earlier confirmation had been declined and a new
    filename asked for. *)
Theorem setup_diff_file_fresh w :
  fst (setup_diff_file w) <> Err (Exn RecursionError TxtBuiltin)
  /\ forall w',
       setup_diff_file w = (Ok tt, w') ->
       exists p declined,
         save_diff_fn w' = SDPath p
         /\ fs_get (fs w') p = Some (File "")
         /\ Forall (fun c => c = false) declined
         /\ ((fs_exists (fs w) p = false
              /\ confirms (inputs w) = declined ++ confirms (inputs w'))
             \/ (fs_is_file (fs w) p = true
                 /\ confirms (inputs w)
                    = declined ++ true :: confirms (inputs w'))).
Proof.
  split.
  - unfold setup_diff_file.
    apply bind_not_overflow; [cbv; discriminate|]. intros s w1 _.
    apply bind_not_overflow.
    { destruct s as [|[]| |]; try (cbv; discriminate).
      unfold questionary_path. mrun.
      destruct (filenames (inputs w1)); cbn; discriminate. }
    intros _ w2 _.
    apply bind_not_overflow.
    { unfold diff_path. mrun. destruct (save_diff_fn w2); cbn; discriminate. }
    intros p w3 _.
    apply bind_not_overflow; [cbv; discriminate|]. intros _ w4 _.
    apply bind_not_overflow; [cbv; discriminate|]. intros n w5 Hn.
    mrun_in Hn. injection Hn as Hn Hw. subst n w5.
    apply bind_not_overflow; [apply setup_diff_loop_fuel; lia|].
    intros _ w6 _.
    apply bind_not_overflow.
    { unfold diff_path. mrun. destruct (save_diff_fn w6); cbn; discriminate. }
    intros p' w7 _.
    unfold Path_touch, os_path_exists. mrun.
    destruct (fs_exists (fs w7) p'); cbn; [discriminate|].
    destruct (fs_put false (fs w7) p' (File "")); cbn; discriminate.
  - intros w' H. unfold setup_diff_file in H.
    apply bind_inv_Ok in H. destruct H as (s & w0 & Hs & H).
    mrun_in Hs. injection Hs as Hs Hw0. subst s w0.
    apply bind_inv_Ok in H. destruct H as ([] & wa & Ha & H).
    apply bind_inv_Ok in H. destruct H as (p0 & wb & Hb & H).
    destruct (setup_diff_prefix w Ha Hb) as [Hfs Hc].
    apply bind_inv_Ok in H. destruct H as ([] & w1 & Hm & Hrest).
    mrun_in Hm. injection Hm as Hw1.
    assert (Hp0 : save_diff_fn w1 = SDPath p0) by (subst w1; reflexivity).
    assert (Hfs1 : fs w1 = fs w) by (subst w1; exact Hfs).
    assert (Hc1 : confirms (inputs w1) = confirms (inputs w))
      by (subst w1; exact Hc).
    clear Hw1 Ha Hb Hfs Hc.
    apply bind_inv_Ok in Hrest. destruct Hrest as (n & w2 & Hn & Hrest).
    mrun_in Hn. injection Hn as Hn Hw2. subst n w2.
    apply bind_inv_Ok in Hrest. destruct Hrest as ([] & w2 & Hloop & Hrest).
    apply (@setup_diff_loop_ok _ w1 p0 w2 Hp0) in Hloop.
    destruct Hloop as (p & declined & Hsave & Hnone & Hdecl & Hcase).
    apply bind_inv_Ok in Hrest. destruct Hrest as (p' & w3 & Hp' & Htouch).
    unfold diff_path in Hp'. mrun_in Hp'. rewrite Hsave in Hp'.
    injection Hp' as Hp' Hw3. subst p' w3.
    destruct (@Path_touch_creates p w2 w' Hnone Htouch) as [Hfile Hw'].
    exists p, declined. rewrite Hw'. cbn. rewrite <- Hfs1, <- Hc1.
    split; [assumption|]. split; [assumption|]. split; [assumption|].
    destruct Hcase as [(Ha & Hb & Hcc)|(Ha & Hb & Hcc)]; [left|right]; auto.
Qed.

Lemma setup_diff_file_fresh_witness :
  let w' := snd (setup_diff_file ex_diff_world) in
  exists p declined,
    save_diff_fn w' = SDPath p
    /\ fs_get (fs w') p = Some (File "")
    /\ Forall (fun c => c = false) declined
    /\ ((fs_exists (fs ex_diff_world) p = false
         /\ confirms (inputs ex_diff_world) = declined ++ confirms (inputs w'))
        \/ (fs_is_file (fs ex_diff_world) p = true
            /\ confirms (inputs ex_diff_world)
               = declined ++ true :: confirms (inputs w'))).
Proof.
  intros w'.
  apply (proj2 (setup_diff_file_fresh ex_diff_world) w'). reflexivity.
Defined.

(* ===================================================================== *)
(** * The cascade *)
(* ===================================================================== *)

Lemma get_modules_subworkflows_of_module name install_dir w rec :
  component_type w = "modules" ->
  mj_lookup (mj w) (remote_url (modules_repo w)) "modules" install_dir name
    = Some rec ->
  get_modules_subworkflows_to_update name install_dir w
  = (Ok ([], filter (fun s => negb (String.eqb s "modules")) (installed_by rec)),
     w).
Proof.
  intros Ht Hl. unfold get_modules_subworkflows_to_update, get_modules_json,
    dict_index.
  mrun. rewrite Ht. unfold mj_lookup in Hl.
  destruct (dict_get (remote_url (modules_repo w)) (mj w)) as [r|];
    [|discriminate]; cbn.
  destruct (dict_get "modules" r) as [t|]; [|discriminate]; cbn.
  destruct (dict_get install_dir t) as [d|]; [|discriminate]; cbn.
  rewrite Hl; cbn. reflexivity.
Qed.

(** The loop of lines 764-767 when every nested call returns. *)
Lemma subworkflow_loop_restores self_update subs :
  forall w w',
    for_each subs (fun s_update =>
      original_component_type <- _change_component_type "subworkflows" ;;
      _ <- call_update self_update s_update ;;
      _reset_component_type original_component_type) w = (Ok tt, w') ->
    component_type w' = component_type w
    /\ calls w' = calls w ++ map (fun s => ("subworkflows", s)) subs.
Proof.
  induction subs as [|s subs IH]; intros w w' H.
  - cbn in H. injection H as <-. rewrite app_nil_r. auto.
  - cbn [for_each] in H.
    apply bind_inv_Ok in H. destruct H as ([] & w1 & Hbody & H).
    apply IH in H. destruct H as [Ht Hc].
    assert (Hstep : component_type w1 = component_type w
                    /\ calls w1 = calls w ++ [("subworkflows", s)]).
    { revert Hbody.
      unfold _change_component_type, _reset_component_type, call_update.
      mrun.
      destruct (self_update (Some s) _) as [[b|e] w2]; cbn; [|discriminate].
      intros Hb. injection Hb as <-. cbn. auto. }
    destruct Hstep as [Ht1 Hc1]. split; [congruence|].
    rewrite Hc, Hc1, <- app_assoc. reflexivity.
Qed.

(** The same loop when it ends in an exception: one of the nested calls
    raised it, and the world is the one that call left. *)
Lemma subworkflow_loop_raises self_update subs :
  forall w e w',
    for_each subs (fun s_update =>
      original_component_type <- _change_component_type "subworkflows" ;;
      _ <- call_update self_update s_update ;;
      _reset_component_type original_component_type) w = (Err e, w') ->
    exists s w1 w2,
      In s subs /\ component_type w1 = "subworkflows"
      /\ self_update (Some s) w1 = (Err e, w2)
      /\ w' = set_calls (calls w1 ++ [("subworkflows", s)]) w2.
Proof.
  induction subs as [|s subs IH]; intros w e w' H.
  - cbn in H. discriminate.
  - cbn [for_each] in H. unfold bind at 1 in H.
    match type of H with
    | context [match ?body w with _ => _ end] =>
        destruct (body w) as [[[]|e1] w1] eqn:Hbody
    end.
    + apply IH in H. destruct H as (s' & wa & wb & Hin & H).
      exists s', wa, wb. split; [right; assumption|exact H].
    + injection H as <- <-. revert Hbody.
      unfold _change_component_type, _reset_component_type, call_update.
      mrun.
      destruct (self_update (Some s)
                  (set_pipeline_components None
                     (set_component_type "subworkflows" w)))
        as [[b|e2] w2] eqn:Hs; cbn; [discriminate|].
      intros Hb. injection Hb as <- <-.
      eexists s, _, w2. split; [left; reflexivity|].
      split; [|split; [exact Hs|reflexivity]]. reflexivity.
Qed.

(** C4, as amended.  After the update of a module of the repository the
    command works on (line 735 looks the record up under the url of
    [self.modules_repo], which is then the url of the entry): when every
    nested call returns, [update] has been called once for each name in the
    module's [installed_by] other than the marker ["modules"], in order and
    with ["subworkflows"] as the active component type, and the active type
    is ["modules"] again at the end; when [update_linked_components] ends in
    an exception, a nested call made with the active type ["subworkflows"]
    raised it and the world is left as that call left it, the active type
    not being reset. *)
Theorem module_cascade_when_nested_returns self_update repo name w rec r w' :
  component_type w = "modules" ->
  remote_url repo = remote_url (modules_repo w) ->
  mj_lookup (mj w) (remote_url repo) "modules" (repo_path repo) name
    = Some rec ->
  update_linked_components self_update name (repo_path repo) w = (r, w') ->
  let subs := filter (fun s => negb (String.eqb s "modules"))
                (installed_by rec) in
  (r = Ok tt ->
   component_type w' = "modules"
   /\ calls w' = calls w ++ map (fun s => ("subworkflows", s)) subs)
  /\ (forall e, r = Err e ->
      exists s w1 w2,
        In s subs /\ component_type w1 = "subworkflows"
        /\ self_update (Some s) w1 = (Err e, w2)
        /\ w' = set_calls (calls w1 ++ [("subworkflows", s)]) w2).
Proof.
  intros Ht Hurl Hl H subs. rewrite Hurl in Hl.
  unfold update_linked_components in H. unfold bind at 1 in H.
  rewrite (get_modules_subworkflows_of_module name (repo_path repo) w Ht Hl)
    in H.
  fold subs in H. unfold bind at 1 in H.
  match type of H with
  | context [for_each subs ?body w] =>
      destruct (for_each subs body w) as [[[]|e1] w1] eqn:Hloop
  end.
  - cbn in H. injection H as <- <-. split; [|discriminate].
    intros _. apply subworkflow_loop_restores in Hloop.
    destruct Hloop as [H1 H2]. split; congruence.
  - injection H as <- <-. split; [discriminate|].
    intros e He. injection He as <-.
    apply subworkflow_loop_raises in Hloop. exact Hloop.
Qed.

Lemma module_cascade_when_nested_returns_witness :
  let E := ex_env ex_catalog (fun _ _ => None) in
  let w' := snd (update_linked_components (update E 6) "fastqc"
                   (repo_path ex_repo) ex_silent) in
  component_type w' = "modules"
  /\ calls w'
     = calls ex_silent
       ++ map (fun s => ("subworkflows", s))
            (filter (fun s => negb (String.eqb s "modules"))
               (installed_by (ex_fastqc None))).
Proof.
  intros E w'.
  apply (@module_cascade_when_nested_returns (update E 6) ex_repo "fastqc"
           ex_silent (ex_fastqc None) (Ok tt) w');
    vm_compute; reflexivity.
Defined.

(** Counterexample to C4 as stated, on its two counts.  First, the registry
    no longer lists [align]: the nested update of [align] raises
    [LookupError], the exception leaves [update_linked_components] between
    lines 765 and 767, and the active component type stays
    ["subworkflows"].  Second, the module [trim] of the second repository,
    whose [installed_by] names [align], is updated in a bulk run of a
    command that works on the first repository: its files are installed
    and its version recorded, then line 735 finds no record of [trim] under
    the url of the command's repository and raises [KeyError], so no nested
    update of [align] is started. *)
Lemma module_cascade_breaks :
  let E := ex_env ex_catalog_without_align (fun _ _ => None) in
  let run := update_linked_components (update E 6) "fastqc" "nf-core"
               ex_silent in
  let E2 := ex_env ex_bulk_catalog (fun _ _ => None) in
  let w2 := ex_bulk_world [] in
  let linked := update_linked_components (update E2 6) "trim"
                  (repo_path ex_lab_repo) w2 in
  let turn := update_entry E2 (update E2 6) (true, true)
                (ex_lab_repo, "trim", None, None) w2 in
  (component_type ex_silent = "modules"
   /\ fst run = Err (Exn LookupError (TxtNotAvailable "subworkflows" "align"))
   /\ component_type (snd run) = "subworkflows")
  /\ (component_type w2 = "modules"
      /\ remote_url (modules_repo w2) = ex_url
      /\ mj_lookup (mj w2) (remote_url ex_lab_repo) "modules"
           (repo_path ex_lab_repo) "trim"
         = Some {| git_sha := Some "1a2b3c"; rec_branch := Some "master";
                   patch := None; installed_by := ["modules"; "align"] |}
      /\ fst linked = Err (Exn KeyError TxtBuiltin)
      /\ calls (snd linked) = []
      /\ fst turn = Err (Exn KeyError TxtBuiltin)
      /\ version_on_record (snd turn) ex_lab_repo "trim" = Some "9f8e7d"
      /\ calls (snd turn) = []).
Proof. vm_compute. repeat split. Qed.

(* ===================================================================== *)
(** * Staging and patching *)
(* ===================================================================== *)

Lemma fs_put_in_subtree mk t p r n c :
  fs_get t p = Some c ->
  fs_put mk t (p ++ r) n =
  match fs_put mk c r n with
  | Some c' => fs_put mk t p c'
  | None => None
  end.
Proof.
  revert t c; induction p as [|x p IH]; intros t c H.
  - simpl in H. injection H as <-. simpl. destruct (fs_put mk t r n); auto.
  - destruct t as [s|es]; simpl in H; [discriminate|].
    destruct (dict_get x es) as [c0|] eqn:G; [|discriminate].
    simpl. rewrite G. rewrite (IH c0 c H).
    destruct (fs_put mk c r n) as [c'|]; reflexivity.
Qed.

Lemma fs_put_replace mk t p n c :
  fs_get t p = Some c -> exists t', fs_put mk t p n = Some t'.
Proof.
  revert t c; induction p as [|x p IH]; intros t c H.
  - simpl. eauto.
  - destruct t as [s|es]; simpl in H; [discriminate|].
    destruct (dict_get x es) as [c0|] eqn:G; [|discriminate].
    simpl. rewrite G. destruct (IH c0 c H) as [c' ->]. eauto.
Qed.

Lemma fs_put_into_empty r n : exists t', fs_put true (Dir []) r n = Some t'.
Proof.
  induction r as [|x r IH]; simpl; [eauto|].
  destruct IH as [c' ->]. eauto.
Qed.

Lemma fs_del_exists t p c :
  fs_get t p = Some c -> p <> [] -> exists t', fs_del t p = Some t'.
Proof.
  revert t c; induction p as [|x p IH]; intros t c H Hne; [congruence|].
  destruct t as [s|es]; simpl in H; [discriminate|].
  destruct (dict_get x es) as [c0|] eqn:G; [|discriminate].
  simpl. rewrite G. destruct p as [|y p]; simpl is_nil; cbv iota; [eauto|].
  destruct (IH c0 c H) as [c' Hc']; [discriminate|].
  rewrite Hc'. eauto.
Qed.

Lemma fs_put_after_del mk t p t' n :
  fs_del t p = Some t' -> exists t'', fs_put mk t' p n = Some t''.
Proof.
  revert t t'; induction p as [|x p IH]; intros t t' H; [discriminate|].
  destruct t as [s|es]; simpl in H; [discriminate|].
  destruct (dict_get x es) as [c0|] eqn:G; [|discriminate].
  destruct (is_nil p) eqn:N.
  - injection H as <-. destruct p; [|discriminate]. simpl.
    rewrite dict_get_del_same. rewrite orb_true_r. eauto.
  - destruct (fs_del c0 p) as [c'|] eqn:D; [|discriminate].
    injection H as <-. simpl. rewrite dict_get_set_same.
    destruct (IH c0 c' D) as [c'' ->]. eauto.
Qed.

Lemma relative_to_app_None p q r :
  relative_to p q = None -> relative_to p (q ++ r) = None.
Proof.
  revert p; induction q as [|b q IH]; intros p; simpl; [discriminate|].
  destruct p as [|x p]; auto.
  destruct (String.eqb x b); auto.
Qed.

Lemma apart_app_l p q r : apart p q -> apart (p ++ r) q.
Proof.
  intros [H1 H2]. split.
  - revert q H1 H2; induction p as [|x p IH]; intros q H1 H2.
    + destruct q; simpl in H2; discriminate.
    + destruct q as [|b q]; [discriminate|]. simpl in *.
      destruct (String.eqb x b) eqn:E1; [|reflexivity].
      assert (E2 : String.eqb b x = true)
        by (rewrite String.eqb_sym; exact E1).
      rewrite E2 in H2. apply IH; assumption.
  - apply relative_to_app_None. assumption.
Qed.

Lemma apart_app_r p q r : apart p q -> apart p (q ++ r).
Proof. intros H. apply apart_sym, apart_app_l, apart_sym, H. Qed.

Lemma apart_nonempty p q : apart p q -> p <> [] /\ q <> [].
Proof.
  intros [H1 H2]. split; intros ->.
  - destruct q; discriminate.
  - discriminate.
Qed.

(** Writing below an existing node replaces that node and leaves the
    paths apart from it alone. *)
Lemma fs_put_below mk t base c r n c' :
  fs_get t base = Some c ->
  fs_put mk c r n = Some c' ->
  exists t',
    fs_put mk t (base ++ r) n = Some t'
    /\ fs_get t' base = Some c'
    /\ forall q, apart base q -> fs_get t' q = fs_get t q.
Proof.
  intros Hg Hp. rewrite (fs_put_in_subtree mk t base r n Hg), Hp.
  destruct (fs_put_replace mk t base c' Hg) as [t' Ht']. exists t'.
  split; [assumption|]. split.
  - eapply fs_get_put_same; eassumption.
  - intros q Hq. eapply fs_get_put_apart; eassumption.
Qed.

Lemma bind_gets {A B} (f : World -> A) (k : A -> M B) w :
  bind (gets f) k w = k (f w) w.
Proof. reflexivity. Qed.

Lemma bind_log {B} l t (k : unit -> M B) w :
  bind (log l t) k w = k tt (set_logs (logs w ++ [(l, t)]) w).
Proof. reflexivity. Qed.

Lemma bind_modify {B} f (k : unit -> M B) w :
  bind (modify f) k w = k tt (f w).
Proof. reflexivity. Qed.

Lemma fs_logs_only_refl w : fs_logs_only w w.
Proof. unfold fs_logs_only. destruct w; reflexivity. Qed.

Lemma fs_logs_only_trans a b c :
  fs_logs_only a b -> fs_logs_only b c -> fs_logs_only a c.
Proof.
  unfold fs_logs_only, set_logs, set_fs.
  destruct a, b, c; cbn. intros H1 H2.
  injection H1 as -> -> -> -> -> -> -> -> -> -> -> -> -> ->.
  injection H2 as -> -> -> -> -> -> -> -> -> -> -> -> -> ->.
  reflexivity.
Qed.

Lemma fs_logs_only_set_fs t w : fs_logs_only w (set_fs t w).
Proof. unfold fs_logs_only. destruct w; reflexivity. Qed.

Lemma fs_logs_only_set_logs l w : fs_logs_only w (set_logs l w).
Proof. unfold fs_logs_only. destruct w; reflexivity. Qed.

Lemma open_write_below base c f s c' w :
  fs_get (fs w) base = Some c ->
  tree_write c f s = Some c' ->
  exists t',
    open_write (base ++ f) s w = (Ok tt, set_fs t' w)
    /\ fs_get t' base = Some c'
    /\ forall q, apart base q -> fs_get t' q = fs_get (fs w) q.
Proof.
  intros Hg Hw. unfold tree_write in Hw.
  destruct (fs_is_dir c f) eqn:Hd; [discriminate|].
  destruct (@fs_put_below false (fs w) base c f (File s) c' Hg Hw)
    as (t' & Hp & H1 & H2).
  exists t'. split; [|split; assumption].
  unfold open_write. rewrite bind_gets.
  unfold fs_is_dir. rewrite fs_get_app, Hg. fold (fs_is_dir c f).
  rewrite Hd. unfold fs_update. rewrite Hp. reflexivity.
Qed.

Ltac step H := erewrite bind_Ok; [|exact H].

Lemma set_fs_same w : set_fs (fs w) w = w.
Proof. destruct w; reflexivity. Qed.

Lemma write_files_below base nf :
  forall c T w,
    fs_get (fs w) base = Some c ->
    tree_write_all nf c = Some T ->
    exists t',
      for_each nf (fun fc =>
        open_write (base ++ fst fc) (String.concat "" (snd fc))) w
      = (Ok tt, set_fs t' w)
      /\ fs_get t' base = Some T
      /\ forall q, apart base q -> fs_get t' q = fs_get (fs w) q.
Proof.
  induction nf as [|[f lines] nf IH]; intros c T w Hg Hw.
  - simpl in Hw. injection Hw as <-. exists (fs w). simpl.
    rewrite set_fs_same. auto.
  - simpl in Hw.
    destruct (tree_write c f (String.concat "" lines)) as [c1|] eqn:H1;
      [|discriminate].
    destruct (@open_write_below base c f _ c1 w Hg H1)
      as (t1 & Ho & Hg1 & Hf1).
    destruct (IH c1 T (set_fs t1 w) Hg1 Hw) as (t2 & Hr & Hg2 & Hf2).
    exists t2. cbn [for_each fst snd].
    step Ho. rewrite Hr. cbn.
    split; [reflexivity|]. split; [assumption|].
    intros q Hq. rewrite (Hf2 q Hq). cbn. apply Hf1. assumption.
Qed.

Lemma shutil_rmtree_ok p es w :
  fs_get (fs w) p = Some (Dir es) -> p <> [] ->
  exists t',
    shutil_rmtree p w = (Ok tt, set_fs t' w) /\ fs_del (fs w) p = Some t'.
Proof.
  intros Hg Hne. destruct (@fs_del_exists (fs w) p (Dir es) Hg Hne) as [t' Hd].
  exists t'. split; [|assumption].
  unfold shutil_rmtree. rewrite bind_gets, Hg. unfold fs_update.
  rewrite Hd. reflexivity.
Qed.

Lemma shutil_copytree_ok src dst es t' w :
  fs_get (fs w) src = Some (Dir es) ->
  fs_get (fs w) dst = None ->
  fs_put true (fs w) dst (Dir es) = Some t' ->
  shutil_copytree src dst w = (Ok tt, set_fs t' w).
Proof.
  intros Hs Hd Hp. unfold shutil_copytree. rewrite bind_gets, Hs.
  unfold os_path_exists. rewrite bind_gets. unfold fs_exists. rewrite Hd.
  unfold fs_update. rewrite Hp. reflexivity.
Qed.

(** [tempfile.mkdtemp()] when the temporary root is a directory that has
    no entry of the next name. *)
Arguments tmp_name : simpl never.

Lemma tempfile_mkdtemp_ok ts w :
  fs_get (fs w) tmp_root = Some (Dir ts) ->
  dict_get (tmp_name (tmp_counter w)) ts = None ->
  let D := tmp_root ++ [tmp_name (tmp_counter w)] in
  exists t',
    tempfile_mkdtemp w
    = (Ok D, set_fs t' (set_tmp_counter (S (tmp_counter w)) w))
    /\ fs_get t' D = Some (Dir [])
    /\ forall q, apart D q -> fs_get t' q = fs_get (fs w) q.
Proof.
  intros Hr Hn D.
  assert (Hex : fs_get (fs w) D = None).
  { unfold D. rewrite fs_get_app, Hr. simpl. rewrite Hn. reflexivity. }
  assert (Hp : exists t', fs_put false (fs w) D (Dir []) = Some t').
  { assert (Hin : fs_put false (Dir ts) [tmp_name (tmp_counter w)] (Dir [])
                   = Some (Dir (dict_set (tmp_name (tmp_counter w)) (Dir [])
                                  ts)))
      by (simpl; rewrite Hn; reflexivity).
    unfold D. erewrite fs_put_in_subtree by exact Hr. rewrite Hin.
    eapply fs_put_replace. eassumption. }
  destruct Hp as [t' Hp]. exists t'. split; [|split].
  - unfold tempfile_mkdtemp. rewrite bind_gets, bind_modify.
    fold D. unfold os_path_exists. rewrite bind_gets.
    unfold fs_exists. cbn [fs set_tmp_counter]. rewrite Hex.
    unfold fs_update at 1. unfold bind at 1. cbn [fs set_tmp_counter].
    rewrite Hp. reflexivity.
  - eapply fs_get_put_same; eassumption.
  - intros q Hq. eapply fs_get_put_apart; eassumption.
Qed.

Lemma write_diff_file_below E base h from to rel c c' w :
  fs_get (fs w) base = Some c ->
  tree_write c rel (differ_diff E h (fs_get (fs w) from) (fs_get (fs w) to))
    = Some c' ->
  exists t',
    write_diff_file E (base ++ rel) h from to ActionWrite w
    = (Ok tt, set_fs t' w)
    /\ fs_get t' base = Some c'
    /\ forall q, apart base q -> fs_get t' q = fs_get (fs w) q.
Proof.
  intros Hg Hw.
  destruct (@open_write_below base c rel _ c' w Hg Hw) as (t' & H & H1 & H2).
  exists t'. split; [|split; assumption].
  unfold write_diff_file. rewrite bind_gets. exact H.
Qed.

Lemma regenerate_patch_ok E nf name rp pr P cd C tcd w es T rel es' :
  fs_get (fs w) tcd = Some (Dir es) ->
  fs_get (fs w) C = Some (Dir es) ->
  apart tcd C ->
  tree_write_all nf (Dir es) = Some T ->
  relative_to P cd = Some rel ->
  tree_write T rel
    (differ_diff E (patch_diff_header (component_type w) name rp)
       (Some (Dir es)) (Some T)) = Some (Dir es') ->
  exists w',
    regenerate_patch E nf name rp pr P cd C tcd w = (Ok true, w')
    /\ fs_get (fs w') C = Some (Dir es')
    /\ (forall q, apart tcd q -> apart C q ->
                  fs_get (fs w') q = fs_get (fs w) q)
    /\ mj w' = mj_store (mj w) (remote_url (modules_repo w))
                 patch_component_type rp name
                 (with_patch (mj w) (remote_url (modules_repo w)) rp name pr)
    /\ mj_disk w' = mj w'
    /\ component_type w' = component_type w.
Proof.
  intros Hscratch Hstaged Hap Hwrite Hrel Hpatch.
  unfold regenerate_patch. rewrite bind_gets, bind_log.
  match goal with |- context [bind (for_each nf _) _ ?w1] =>
    destruct (@write_files_below tcd nf (Dir es) T w1 Hscratch Hwrite)
      as (t1 & H1 & Hg1 & Hf1) end.
  step H1. rewrite bind_log. unfold relative_to_M. rewrite Hrel.
  rewrite bind_ret_l.
  match goal with |- context [bind (write_diff_file E _ ?h _ _ _) _ ?w2] =>
    destruct (@write_diff_file_below E tcd h C tcd rel T (Dir es') w2)
      as (t2 & H2 & Hg2 & Hf2) end.
  { exact Hg1. }
  { cbn [fs set_fs set_logs]. rewrite Hg1, (Hf1 C Hap). cbn [fs set_logs].
    rewrite Hstaged. exact Hpatch. }
  step H2. rewrite bind_log.
  assert (HC2 : fs_get t2 C = Some (Dir es)).
  { rewrite (Hf2 C Hap). cbn. rewrite (Hf1 C Hap). exact Hstaged. }
  destruct (apart_nonempty Hap) as [_ HCne].
  match goal with |- context [bind (shutil_rmtree C) _ ?w3] =>
    destruct (@shutil_rmtree_ok C es w3 HC2 HCne) as (t3 & H3 & Hd3) end.
  step H3. cbn [fs set_fs set_logs] in Hd3.
  assert (Hs3 : fs_get t3 tcd = Some (Dir es')).
  { rewrite (@fs_get_del_apart t2 C t3 tcd Hd3 (apart_sym Hap)). exact Hg2. }
  assert (Hn3 : fs_get t3 C = None) by (eapply fs_get_del_same; eassumption).
  destruct (@fs_put_after_del true t2 C t3 (Dir es') Hd3) as [t4 Hp4].
  match goal with |- context [bind (shutil_copytree tcd C) _ ?w4] =>
    pose proof (@shutil_copytree_ok tcd C es' t4 w4 Hs3 Hn3 Hp4) as H4 end.
  step H4. rewrite bind_gets. unfold add_patch_entry.
  eexists. split; [reflexivity|]. cbn.
  split; [eapply fs_get_put_same; eassumption|].
  split; [|auto].
  intros q Hq1 Hq2.
  rewrite (@fs_get_put_apart true t3 C (Dir es') t4 q Hp4 Hq2).
  rewrite (@fs_get_del_apart t2 C t3 q Hd3 Hq2).
  rewrite (Hf2 q Hq1). cbn. apply Hf1. assumption.
Qed.

Lemma shutil_move_below src base rel n c c' w :
  fs_get (fs w) src = Some n ->
  fs_get (fs w) base = Some c ->
  apart src base ->
  fs_is_dir c rel = false ->
  fs_put false c rel n = Some c' ->
  exists t',
    shutil_move src (base ++ rel) w = (Ok tt, set_fs t' w)
    /\ fs_get t' base = Some c'
    /\ fs_get t' src = None
    /\ forall q, apart src q -> apart base q -> fs_get t' q = fs_get (fs w) q.
Proof.
  intros Hs Hb Hap Hd Hp.
  destruct (apart_nonempty Hap) as [Hne _].
  destruct (@fs_del_exists (fs w) src n Hs Hne) as [t1 Hd1].
  assert (Hb1 : fs_get t1 base = Some c).
  { rewrite (@fs_get_del_apart (fs w) src t1 base Hd1 Hap). exact Hb. }
  destruct (@fs_put_below false t1 base c rel n c' Hb1 Hp)
    as (t' & Hp' & Hg' & Hf').
  exists t'. split; [|split; [assumption|split]].
  - assert (Hd' : fs_is_dir (fs w) (base ++ rel) = false).
    { unfold fs_is_dir. rewrite fs_get_app, Hb. exact Hd. }
    unfold shutil_move. rewrite bind_gets, Hs. rewrite bind_gets, Hd'.
    unfold os_path_exists. rewrite bind_gets.
    cbn [andb]. unfold fs_update. rewrite Hd1, Hp'. reflexivity.
  - rewrite (Hf' src (apart_sym Hap)).
    eapply fs_get_del_same; eassumption.
  - intros q Hq1 Hq2. rewrite (Hf' q Hq2).
    apply (@fs_get_del_apart (fs w) src t1 q Hd1 Hq1).
Qed.

Lemma ModulesDiffer_try_apply_patch_eq E P target ptxt tree w :
  fs_get (fs w) P = Some (File ptxt) ->
  fs_get (fs w) target = Some tree ->
  ModulesDiffer_try_apply_patch E P target w
  = match differ_apply E ptxt tree with
    | Some nf => (Ok nf, w)
    | None => (Err (Exn LookupError TxtBuiltin), w)
    end.
Proof.
  intros HP Ht. unfold ModulesDiffer_try_apply_patch, read_file.
  unfold bind at 1. rewrite bind_gets, HP. cbn [ret].
  rewrite bind_gets, Ht. destruct (differ_apply E ptxt tree); reflexivity.
Qed.

Lemma apply_patch_in_ok E name rp pr P cd C tcd w ptxt es nf T rel es' :
  fs_get (fs w) P = Some (File ptxt) ->
  fs_get (fs w) tcd = Some (Dir es) ->
  fs_get (fs w) C = Some (Dir es) ->
  apart tcd C ->
  differ_apply E ptxt (Dir es) = Some nf ->
  tree_write_all nf (Dir es) = Some T ->
  relative_to P cd = Some rel ->
  tree_write T rel
    (differ_diff E (patch_diff_header (component_type w) name rp)
       (Some (Dir es)) (Some T)) = Some (Dir es') ->
  exists w',
    apply_patch_in E name rp pr P cd C tcd w = (Ok true, w')
    /\ fs_get (fs w') C = Some (Dir es')
    /\ (forall q, apart tcd q -> apart C q ->
                  fs_get (fs w') q = fs_get (fs w) q)
    /\ mj w' = mj_store (mj w) (remote_url (modules_repo w))
                 patch_component_type rp name
                 (with_patch (mj w) (remote_url (modules_repo w)) rp name pr)
    /\ mj_disk w' = mj w'
    /\ component_type w' = component_type w.
Proof.
  intros HP Hscratch Hstaged Hap Happly Hwrite Hrel Hpatch.
  unfold apply_patch_in. rewrite bind_gets.
  unfold bind at 1, try_except, bind at 1.
  rewrite (@ModulesDiffer_try_apply_patch_eq E P tcd ptxt (Dir es) w HP
             Hscratch), Happly.
  cbn [ret].
  apply (@regenerate_patch_ok E nf name rp pr P cd C tcd w es T rel es');
    assumption.
Qed.

Lemma apply_patch_in_fails E name rp pr P cd C tcd w ptxt tree es rel es' :
  fs_get (fs w) P = Some (File ptxt) ->
  fs_get (fs w) tcd = Some tree ->
  differ_apply E ptxt tree = None ->
  relative_to P cd = Some rel ->
  fs_get (fs w) C = Some (Dir es) ->
  apart P C ->
  fs_is_dir (Dir es) rel = false ->
  fs_put false (Dir es) rel (File ptxt) = Some (Dir es') ->
  exists w',
    apply_patch_in E name rp pr P cd C tcd w = (Ok false, w')
    /\ fs_get (fs w') C = Some (Dir es')
    /\ fs_get (fs w') P = None
    /\ (forall q, apart P q -> apart C q ->
                  fs_get (fs w') q = fs_get (fs w) q)
    /\ mj w' = mj w /\ mj_disk w' = mj_disk w
    /\ component_type w' = component_type w.
Proof.
  intros HP Hscratch Happly Hrel Hstaged Hap Hnd Hput.
  unfold apply_patch_in. rewrite bind_gets.
  unfold bind at 1, try_except, bind at 1.
  rewrite (@ModulesDiffer_try_apply_patch_eq E P tcd ptxt tree w HP
             Hscratch), Happly.
  cbn [exn_cls isinstance exn_class_eqb orb].
  unfold relative_to_M. rewrite Hrel, bind_ret_l.
  destruct (@shutil_move_below P C rel (File ptxt) (Dir es) (Dir es') w
              HP Hstaged Hap Hnd Hput) as (t' & Hm & Hg & Hn & Hf).
  step Hm. rewrite bind_log. cbn [ret].
  eexists. split; [reflexivity|]. cbn.
  repeat split; auto.
Qed.

Lemma fs_get_empty_dir r : r <> [] -> fs_get (Dir []) r = None.
Proof. destruct r; [congruence|reflexivity]. Qed.

(** Lines 673-685: the checks, the scratch directory and the copy of the
    staged files into it. *)
Lemma try_apply_patch_prefix E name rp pr cd C w ptxt ts es :
  let P := dir (args w) ++ pr in
  let D := tmp_root ++ [tmp_name (tmp_counter w)] in
  fs_get (fs w) P = Some (File ptxt) ->
  patch_paths_ok E (component_type w) name ptxt = true ->
  fs_get (fs w) tmp_root = Some (Dir ts) ->
  dict_get (tmp_name (tmp_counter w)) ts = None ->
  fs_get (fs w) C = Some (Dir es) ->
  Path name <> [] ->
  apart D C -> apart D P ->
  exists w2,
    try_apply_patch E name rp pr cd C w
    = apply_patch_in E name rp pr P cd C (D ++ Path name) w2
    /\ fs_get (fs w2) P = Some (File ptxt)
    /\ fs_get (fs w2) (D ++ Path name) = Some (Dir es)
    /\ fs_get (fs w2) C = Some (Dir es)
    /\ (forall q, apart D q -> fs_get (fs w2) q = fs_get (fs w) q)
    /\ mj w2 = mj w /\ mj_disk w2 = mj_disk w
    /\ component_type w2 = component_type w
    /\ modules_repo w2 = modules_repo w.
Proof.
  intros P D HP Hok Hroot Hfresh Hstaged Hname HDC HDP.
  unfold try_apply_patch. rewrite bind_gets, bind_log, bind_gets.
  cbn [args set_logs]. fold P.
  assert (Hcheck : forall w0, fs_get (fs w0) P = Some (File ptxt) ->
                     component_type w0 = component_type w ->
                     check_patch_paths E P name w0 = (Ok tt, w0)).
  { intros w0 H0 Hc. unfold check_patch_paths, read_file.
    unfold bind at 1. rewrite bind_gets, H0. cbn [ret].
    rewrite bind_gets, Hc, Hok. reflexivity. }
  erewrite bind_Ok; [|apply Hcheck; [exact HP|reflexivity]].
  match goal with |- context [bind tempfile_mkdtemp _ ?w1] =>
    destruct (@tempfile_mkdtemp_ok ts w1 Hroot Hfresh)
      as (t1 & H1 & Hg1 & Hf1) end.
  cbn [tmp_counter set_logs] in H1, Hg1, Hf1. fold D in H1, Hg1, Hf1.
  step H1.
  destruct (fs_put_into_empty (Path name) (Dir es)) as [c2 Hc2].
  destruct (@fs_put_below true t1 D (Dir []) (Path name) (Dir es) c2 Hg1 Hc2)
    as (t2 & Hp2 & Hg2 & Hf2).
  assert (Hsrc : fs_get t1 C = Some (Dir es)).
  { rewrite (Hf1 C HDC). exact Hstaged. }
  assert (Hdst : fs_get t1 (D ++ Path name) = None).
  { rewrite fs_get_app, Hg1. apply fs_get_empty_dir. exact Hname. }
  match goal with |- context [bind (shutil_copytree C _) _ ?w2] =>
    pose proof (@shutil_copytree_ok C (D ++ Path name) es t2 w2 Hsrc Hdst Hp2)
      as H2 end.
  step H2.
  eexists. split; [reflexivity|].
  cbn [fs mj mj_disk component_type modules_repo set_fs set_logs
       set_tmp_counter].
  split; [rewrite (Hf2 P HDP), (Hf1 P HDP); exact HP|].
  split.
  { rewrite fs_get_app, Hg2. eapply fs_get_put_same; eassumption. }
  split; [rewrite (Hf2 C HDC); exact Hsrc|].
  split; [intros q Hq; rewrite (Hf2 q Hq); apply Hf1; exact Hq|].
  repeat split.
Qed.

Lemma mj_lookup_store_same m url ctype d n r :
  mj_lookup (mj_store m url ctype d n r) url ctype d n = Some r.
Proof.
  unfold mj_lookup, mj_store. now rewrite !dict_get_set_same.
Qed.

Lemma tree_write_get c f s c' :
  tree_write c f s = Some c' ->
  fs_get c' f = Some (File s)
  /\ forall q, apart f q -> fs_get c' q = fs_get c q.
Proof.
  unfold tree_write. destruct (fs_is_dir c f); [discriminate|]. intros H.
  split.
  - eapply fs_get_put_same; eassumption.
  - intros q Hq. eapply fs_get_put_apart; eassumption.
Qed.

Lemma try_apply_patch_failure E name rp pr cd C w ptxt ts es rel es' :
  let P := dir (args w) ++ pr in
  let D := tmp_root ++ [tmp_name (tmp_counter w)] in
  fs_get (fs w) P = Some (File ptxt) ->
  patch_paths_ok E (component_type w) name ptxt = true ->
  fs_get (fs w) tmp_root = Some (Dir ts) ->
  dict_get (tmp_name (tmp_counter w)) ts = None ->
  fs_get (fs w) C = Some (Dir es) ->
  Path name <> [] ->
  apart D C -> apart D P -> apart P C ->
  relative_to P cd = Some rel ->
  differ_apply E ptxt (Dir es) = None ->
  fs_is_dir (Dir es) rel = false ->
  fs_put false (Dir es) rel (File ptxt) = Some (Dir es') ->
  exists w',
    try_apply_patch E name rp pr cd C w = (Ok false, w')
    /\ fs_get (fs w') (C ++ rel) = Some (File ptxt)
    /\ fs_get (fs w') P = None
    /\ (forall q, apart rel q -> fs_get (fs w') (C ++ q) = fs_get (Dir es) q)
    /\ mj w' = mj w /\ mj_disk w' = mj_disk w.
Proof.
  intros P D HP Hok Hroot Hfresh Hstaged Hname HDC HDP HPC Hrel Happly Hnd
    Hput.
  destruct (@try_apply_patch_prefix E name rp pr cd C w ptxt ts es HP Hok
              Hroot Hfresh Hstaged Hname HDC HDP)
    as (w2 & Heq & HP2 & Hs2 & HC2 & _ & Hmj2 & Hdisk2 & _).
  fold P D in Heq, HP2, Hs2. rewrite Heq.
  destruct (@apply_patch_in_fails E name rp pr P cd C (D ++ Path name) w2
              ptxt (Dir es) es rel es' HP2 Hs2 Happly Hrel HC2 HPC Hnd Hput)
    as (w' & Hrun & HC' & HP' & _ & Hmj' & Hdisk' & _).
  exists w'. split; [exact Hrun|].
  split.
  { rewrite fs_get_app, HC'. eapply fs_get_put_same; eassumption. }
  split; [exact HP'|].
  split.
  { intros q Hq. rewrite fs_get_app, HC'.
    eapply fs_get_put_apart; eassumption. }
  split; congruence.
Qed.

Lemma install_component_files_false E name version repo d w w' :
  install_component_files E name version repo d w = (Ok false, w') ->
  registry_fetch E repo (component_type w) name version = None.
Proof.
  unfold install_component_files. rewrite bind_gets.
  destruct (registry_fetch E repo (component_type w) name version);
    [|reflexivity].
  unfold bind, fs_update.
  destruct (fs_put true (fs w) (d ++ Path name) (Dir l)); discriminate.
Qed.

Lemma update_staged_exit E su ev aps entry dry cv d version w acc' w' :
  update_staged E su (ev, aps) entry dry cv d version w = (Ok acc', w') ->
  fst acc' = ev.
Proof.
  destruct entry as [[[repo name] sha'] p]. unfold update_staged. intros H.
  apply bind_inv_Ok in H. destruct H as (ctype & w1 & _ & H).
  apply bind_inv_Ok in H. destruct H as (cdir & w2 & _ & H).
  apply bind_inv_Ok in H. destruct H as (ps & w3 & _ & H).
  apply bind_inv_Ok in H. destruct H as (dr & w4 & _ & H).
  apply bind_inv_Ok in H. destruct H as (u & w5 & _ & H).
  injection H as <- _. reflexivity.
Qed.

(** One turn of the loop changes [exit_value] only to [False], and only
    when the registry cannot deliver the component. *)
Lemma update_entry_exit E su ev aps entry w acc' w' :
  update_entry E su (ev, aps) entry w = (Ok acc', w') ->
  fst acc' = ev
  \/ (fst acc' = false
      /\ exists ctype version,
           registry_fetch E (entry_repo entry) ctype (entry_name entry)
             version = None).
Proof.
  destruct entry as [[[repo name] sha'] p]. unfold update_entry. intros H.
  apply bind_inv_Ok in H. destruct H as (ctype & w1 & _ & H).
  apply bind_inv_Ok in H. destruct H as (dry & w2 & _ & H).
  apply bind_inv_Ok in H. destruct H as (cv & w3 & _ & H).
  apply bind_inv_Ok in H. destruct H as (d & w4 & _ & H).
  apply bind_inv_Ok in H. destruct H as (version & w5 & _ & H).
  unfold update_resolved in H. rewrite bind_gets in H.
  destruct (is_some cv && negb (force (args w5))
            && opt_str_eqb cv (Some version)).
  - apply bind_inv_Ok in H. destruct H as (u & w6 & _ & H).
    injection H as <- _. left; reflexivity.
  - apply bind_inv_Ok in H. destruct H as (staged & w6 & Hs & H).
    destruct staged; cbn [negb] in H.
    + left. eapply update_staged_exit. exact H.
    + injection H as <- _. right. split; [reflexivity|].
      apply install_component_files_false in Hs. cbn. eauto.
Qed.

Lemma update_loop_exit E su plan :
  forall acc w acc' w',
    fold_M plan (update_entry E su) acc w = (Ok acc', w') ->
    fst acc' = fst acc
    \/ (fst acc' = false
        /\ exists entry ctype version,
             In entry plan
             /\ registry_fetch E (entry_repo entry) ctype (entry_name entry)
                  version = None).
Proof.
  induction plan as [|entry plan IH]; intros acc w acc' w' H.
  - cbn in H. injection H as <- _. left; reflexivity.
  - cbn [fold_M] in H.
    apply bind_inv_Ok in H. destruct H as (acc1 & w1 & H1 & H).
    destruct acc as [ev aps]. apply update_entry_exit in H1.
    apply IH in H.
    destruct H as [H|(H & entry' & ctype & version & Hin & Hf)].
    + destruct H1 as [H1|(H1 & ctype & version & Hf)].
      * left. cbn. congruence.
      * right. split; [congruence|].
        exists entry, ctype, version. split; [left; reflexivity|exact Hf].
    + right. split; [exact H|].
      exists entry', ctype, version. split; [right; exact Hin|exact Hf].
Qed.


(** The whole run for that pipeline, updated in place: the patch fails,
    the unpatched files are installed with the patch file among them, and
    [update] returns [True]. *)
Lemma update_with_failing_patch_returns_True :
  let E := ex_env ex_catalog (fun _ _ => None) in
  let run := update E 6 (Some "fastqc")
               (ex_world None [] (Some ex_patch) (Some false) SDNone
                  (ex_inputs [] [])) in
  fst run = Ok true
  /\ fs_get (fs (snd run)) ex_component_dir
     = Some (Dir [("main.nf", File "process fastqc v2");
                  ("fastqc.diff", File "local changes")]).
Proof. vm_compute. split; reflexivity. Qed.

(* ===================================================================== *)
(** * Dry runs *)
(* ===================================================================== *)

Section DryRun.
Variable file : option path.

Lemma dry_step_refl w : dry_step file w w.
Proof.
  unfold dry_step. repeat split; auto. exists []. reflexivity.
Qed.

Lemma dry_step_trans a b c :
  dry_step file a b -> dry_step file b c -> dry_step file a c.
Proof.
  intros (A1 & A2 & A3 & A4 & (k1 & A5) & A6 & A7 & A8)
         (B1 & B2 & B3 & B4 & (k2 & B5) & B6 & B7 & B8).
  unfold dry_step. repeat split; try congruence.
  - exists (k1 ++ k2). rewrite A5, B5, app_assoc. reflexivity.
  - intros q Hq. rewrite (B8 q Hq). apply A8. exact Hq.
Qed.

Lemma dry_mode_step w w' : dry_mode file w -> dry_step file w w' -> dry_mode file w'.
Proof.
  unfold dry_mode. intros H (_ & _ & A3 & A4 & (k & A5) & _).
  destruct file as [f|].
  - congruence.
  - destruct H as (H1 & H2 & H3). rewrite A3, A4. repeat split; auto.
    rewrite A5 in H3. apply Forall_app in H3. tauto.
Qed.

Lemma dry_ret {A} (a : A) (Q : A -> Prop) : Q a -> dry file (ret a) Q.
Proof.
  unfold dry. intros HQ w r w' _ H. injection H as <- <-.
  split; [apply dry_step_refl|]. intros a' Ha. injection Ha as <-. exact HQ.
Qed.

Lemma dry_raise {A} c t (Q : A -> Prop) : dry file (raise c t) Q.
Proof.
  unfold dry. intros w r w' _ H. injection H as <- <-.
  split; [apply dry_step_refl|]. discriminate.
Qed.

Lemma dry_bind {A B} (m : M A) (f : A -> M B) (Q1 : A -> Prop)
    (Q2 : B -> Prop) :
  dry file m Q1 -> (forall a, Q1 a -> dry file (f a) Q2) -> dry file (bind m f) Q2.
Proof.
  unfold dry. intros Hm Hf w r w' HP H. unfold bind in H.
  destruct (m w) as [[a|e] w1] eqn:Em.
  - destruct (Hm w _ w1 HP Em) as [HR HQ].
    destruct (Hf a (HQ a eq_refl) w1 r w' (dry_mode_step HP HR) H)
      as [HR2 HQ2].
    split; [eapply dry_step_trans; eassumption|exact HQ2].
  - injection H as <- <-. destruct (Hm w _ w1 HP Em) as [HR _].
    split; [exact HR|discriminate].
Qed.

Lemma dry_weaken {A} (m : M A) (Q Q' : A -> Prop) :
  dry file m Q -> (forall a, Q a -> Q' a) -> dry file m Q'.
Proof.
  unfold dry. intros H HQ w r w' HP Hm. destruct (H w r w' HP Hm) as [HR Hq].
  split; [exact HR|]. intros a Ha. apply HQ, Hq, Ha.
Qed.

Lemma dry_gets {A} (f : World -> A) : dry file (gets f) (fun _ => True).
Proof.
  unfold dry. intros w r w' _ H. injection H as <- <-.
  split; [apply dry_step_refl|auto].
Qed.

(** A pure change of the state within what [dry_step] allows. *)
Lemma dry_modify f :
  (forall w, dry_step file w (f w)) -> dry file (modify f) (fun _ => True).
Proof.
  unfold dry. intros Hf w r w' _ H. injection H as <- <-.
  split; [apply Hf|auto].
Qed.

Lemma dry_log l t : dry file (log l t) (fun _ => True).
Proof.
  apply dry_modify. intros w. unfold dry_step; cbn.
  repeat split; auto. exists []. reflexivity.
Qed.

Lemma dry_if {A} (b : bool) (m1 m2 : M A) Q :
  dry file m1 Q -> dry file m2 Q -> dry file (if b then m1 else m2) Q.
Proof. destruct b; auto. Qed.

Lemma dry_when b m :
  dry file m (fun _ => True) -> dry file (when b m) (fun _ => True).
Proof. intros H. destruct b; [exact H|apply dry_ret; exact I]. Qed.

(** An update of the tree that leaves the paths outside alone. *)
Lemma dry_fs_update f c :
  (forall t t' q, f t = Some t' -> outside file q ->
                  fs_get t' q = fs_get t q) ->
  dry file (fs_update f c) (fun _ => True).
Proof.
  unfold dry. intros Hf w r w' _ H. unfold fs_update in H.
  destruct (f (fs w)) as [t'|] eqn:Ef; injection H as <- <-.
  - split; [|auto]. unfold dry_step; cbn.
    repeat split; eauto. exists []. reflexivity.
  - split; [apply dry_step_refl|discriminate].
Qed.

Lemma outside_tmp r q : outside file q -> apart (tmp_root ++ r) q.
Proof. intros [H _]. apply apart_app_l. exact H. Qed.

Lemma dry_put_tmp mk r n c :
  dry file (fs_update (fun t => fs_put mk t (tmp_root ++ r) n) c)
    (fun _ => True).
Proof.
  apply dry_fs_update. intros t t' q Hp Hq.
  eapply fs_get_put_apart; [exact Hp|apply outside_tmp; exact Hq].
Qed.

Lemma dry_tempfile_mkdtemp :
  dry file tempfile_mkdtemp (fun d => exists r, d = tmp_root ++ r).
Proof.
  unfold tempfile_mkdtemp.
  eapply dry_bind; [apply dry_gets|]. intros n _.
  eapply dry_bind.
  { apply dry_modify. intros w. unfold dry_step; cbn.
    repeat split; auto. exists []. reflexivity. }
  intros _ _.
  eapply dry_bind; [apply dry_gets|]. intros e _.
  destruct e; [apply dry_raise|].
  eapply dry_bind; [apply dry_put_tmp|]. intros _ _.
  apply dry_ret. eauto.
Qed.

Lemma dry_install_component_files E name version repo r :
  dry file (install_component_files E name version repo (tmp_root ++ r))
    (fun _ => True).
Proof.
  unfold install_component_files.
  eapply dry_bind; [apply dry_gets|]. intros ctype _.
  destruct (registry_fetch E repo ctype name version).
  - eapply dry_bind.
    + rewrite <- app_assoc. apply dry_put_tmp.
    + intros _ _. apply dry_ret. exact I.
  - apply dry_ret. exact I.
Qed.

Lemma dry_resolve_version E repo name sha' cv :
  dry file (resolve_version E repo name sha' cv) (fun _ => True).
Proof.
  unfold resolve_version.
  eapply dry_bind; [apply dry_gets|]. intros ctype _.
  eapply dry_bind; [apply dry_gets|]. intros ask_user _.
  destruct sha'; [apply dry_ret; exact I|].
  destruct ask_user; [|apply dry_ret; exact I].
  unfold dry, prompt_component_version_sha, ask. intros w r w' _ H.
  destruct (versions (inputs w)); injection H as <- <-.
  - split; [apply dry_step_refl|discriminate].
  - split; [|auto]. unfold dry_step; cbn. repeat split; auto.
    exists []. reflexivity.
Qed.

Lemma dry_modules_json_update ctype repo name version fifth :
  dry file (modules_json_update ctype repo name version fifth false)
    (fun _ => True).
Proof.
  unfold modules_json_update.
  eapply dry_bind.
  - apply dry_modify. intros w. unfold dry_step; cbn.
    repeat split; auto. exists []. reflexivity.
  - intros _ _. apply dry_ret. exact I.
Qed.

(** The confirmation of line 227: in a preview whose confirmations are all
    declined, the answer is no. *)
Lemma dry_questionary_confirm :
  dry file questionary_confirm (fun c => file = None -> c = false).
Proof.
  unfold dry, questionary_confirm, ask. intros w r w' HP H.
  destruct (confirms (inputs w)) as [|c k] eqn:Ec; injection H as <- <-.
  - split; [apply dry_step_refl|discriminate].
  - split.
    + unfold dry_step; cbn. repeat split; auto. exists [c]. exact Ec.
    + intros a Ha Hf. injection Ha as <-. unfold dry_mode in HP.
      rewrite Hf in HP. destruct HP as (_ & _ & HF). rewrite Ec in HF.
      inversion HF; assumption.
Qed.

Lemma dry_open_append f s :
  file = Some f -> dry file (open_append f s) (fun _ => True).
Proof.
  intros Hfile. unfold open_append.
  eapply dry_bind; [apply dry_gets|]. intros n _.
  assert (Hput : forall c,
             dry file (fs_update (fun t => fs_put false t f (File c))
                         FileNotFoundError) (fun _ => True)).
  { intros c. apply dry_fs_update. intros t t' q Hp [_ Hq].
    rewrite Hfile in Hq. eapply fs_get_put_apart; eassumption. }
  destruct n as [[c|es]|]; [apply Hput|apply dry_raise|apply Hput].
Qed.

Lemma dry_gets_mode {A} (f : World -> A) (Q : A -> Prop) :
  (forall w, dry_mode file w -> Q (f w)) -> dry file (gets f) Q.
Proof.
  unfold dry. intros HQ w r w' HP H. injection H as <- <-.
  split; [apply dry_step_refl|]. intros a Ha. injection Ha as <-. auto.
Qed.

Lemma dry_mode_save w :
  dry_mode file w ->
  match file with
  | Some f => save_diff_fn w = SDPath f
  | None => save_diff_truthy (save_diff_fn w) = false
  end.
Proof. unfold dry_mode. destruct file; tauto. Qed.

Lemma dry_mode_dry_run w :
  dry_mode file w ->
  show_diff_truthy (show_diff w) || save_diff_truthy (save_diff_fn w) = true.
Proof.
  unfold dry_mode. destruct file.
  - intros ->. apply orb_true_r.
  - intros (_ & -> & _). reflexivity.
Qed.

Lemma file_cases : (exists f, file = Some f) \/ file = None.
Proof. destruct file; eauto. Qed.

Lemma dry_gets_save :
  dry file (gets save_diff_fn)
    (fun s => match file with
              | Some f => s = SDPath f
              | None => save_diff_truthy s = false
              end).
Proof. apply (@dry_gets_mode _ save_diff_fn). exact dry_mode_save. Qed.

Lemma dry_gets_show :
  dry file (gets show_diff) (fun s => file = None -> s = Some true).
Proof.
  apply (@dry_gets_mode _ show_diff). intros w Hw Hf.
  unfold dry_mode in Hw. rewrite Hf in Hw. tauto.
Qed.

Lemma dry_diff_path f :
  file = Some f -> dry file diff_path (fun p => p = f).
Proof.
  intros Hf. unfold dry, diff_path. intros w r w' HP H.
  apply dry_mode_save in HP. rewrite Hf in HP.
  rewrite bind_gets, HP in H. injection H as <- <-.
  split; [apply dry_step_refl|]. intros a Ha. injection Ha as <-.
  reflexivity.
Qed.

Lemma dry_write_diff_file E f h from to :
  file = Some f ->
  dry file (write_diff_file E f h from to ActionAppend) (fun _ => True).
Proof.
  intros Hf. unfold write_diff_file.
  eapply dry_bind; [apply dry_gets|]. intros d _.
  apply dry_open_append. exact Hf.
Qed.

Lemma dry_print_diff E h from to :
  dry file (print_diff E h from to) (fun _ => True).
Proof.
  unfold print_diff.
  eapply dry_bind; [apply dry_gets|]. intros d _. apply dry_log.
Qed.

(** Lines 191-231 for an entry with no patch on record: [dry_run] stays
    true. *)
Lemma dry_present_diff E repo name version cv cd cid :
  dry file (present_diff E repo name version cv None cd cid)
    (fun b => b = true).
Proof.
  unfold present_diff.
  eapply dry_bind; [apply dry_gets|]. intros ctype _.
  eapply dry_bind; [apply (@dry_ret _ tt (fun _ => True) I)|]. intros _ _.
  eapply dry_bind; [apply dry_gets_save|]. intros save Hsave.
  eapply dry_bind; [apply dry_gets_show|].
  intros show Hshow.
  destruct file_cases as [[f Hfile]|Hfile]; rewrite Hfile in Hsave.
  - subst save. cbn [save_diff_truthy].
    eapply dry_bind; [exact (dry_diff_path Hfile)|]. intros p ->.
    eapply dry_bind; [apply dry_log|]. intros _ _.
    eapply dry_bind; [exact (@dry_write_diff_file E f _ _ _ Hfile)|].
    intros _ _. apply dry_ret. reflexivity.
  - rewrite Hsave, (Hshow Hfile). cbn [show_diff_truthy].
    eapply dry_bind; [apply dry_print_diff|]. intros _ _.
    eapply dry_bind; [apply dry_questionary_confirm|]. intros answer Ha.
    apply dry_ret. rewrite (Ha Hfile). reflexivity.
Qed.

Section DryLoop.
Variable E : Env.
Variable self_update : option string -> M bool.

(** Lines 179-244 for an entry with no patch on record: the staged files
    are recorded in memory and stay where they are. *)
Lemma dry_update_staged acc repo name sha' cv r version :
  dry file (update_staged E self_update acc (repo, name, sha', None) true cv
              (tmp_root ++ r) version) (fun _ => True).
Proof.
  unfold update_staged. destruct acc as [exit_value aps].
  eapply dry_bind; [apply dry_gets|]. intros ctype _.
  eapply dry_bind; [apply dry_gets|]. intros cd _.
  eapply dry_bind;
    [apply (@dry_ret _ (@None bool) (fun ps => ps = None) eq_refl)|].
  cbn beta. intros ps ->.
  eapply dry_bind.
  { eapply dry_weaken; [apply dry_present_diff|]. intros b Hb. exact Hb. }
  cbn beta. intros b ->. cbn [negb].
  eapply dry_bind; [apply dry_modules_json_update|]. intros _ _.
  apply dry_ret. exact I.
Qed.

Lemma dry_update_resolved acc repo name sha' cv r version :
  dry file (update_resolved E self_update acc (repo, name, sha', None) true cv
              (tmp_root ++ r) version) (fun _ => True).
Proof.
  unfold update_resolved. destruct acc as [exit_value aps].
  eapply dry_bind; [apply dry_gets|]. intros w0 _.
  match goal with |- dry _ (if ?c then _ else _) _ => destruct c end.
  - eapply dry_bind; [|intros _ _; apply dry_ret; exact I].
    apply dry_if; apply dry_log.
  - eapply dry_bind; [apply dry_install_component_files|]. intros staged _.
    destruct staged; cbn [negb].
    + apply dry_update_staged.
    + apply dry_ret. exact I.
Qed.

(** Lines 141-244: one turn of the loop in a dry run. *)
Lemma dry_update_entry acc e :
  entry_patch e = None ->
  dry file (update_entry E self_update acc e) (fun _ => True).
Proof.
  destruct e as [[[repo name] sha'] p]. cbn [entry_patch]. intros ->.
  unfold update_entry.
  eapply dry_bind; [apply dry_gets|]. intros ctype _.
  eapply dry_bind.
  { apply (@dry_gets_mode _ (fun w => show_diff_truthy (show_diff w)
                               || save_diff_truthy (save_diff_fn w))
             (fun b => b = true)).
    exact dry_mode_dry_run. }
  cbn beta. intros dr ->.
  eapply dry_bind; [apply dry_gets|]. intros cv _.
  eapply dry_bind; [apply dry_tempfile_mkdtemp|]. cbn beta.
  intros d [r ->].
  eapply dry_bind; [apply dry_resolve_version|]. intros version _.
  apply dry_update_resolved.
Qed.

Lemma dry_update_loop plan :
  Forall (fun e => entry_patch e = None) plan ->
  forall acc,
  dry file (fold_M plan (update_entry E self_update) acc) (fun _ => True).
Proof.
  induction 1 as [|e plan He _ IH]; intros acc; cbn [fold_M].
  - apply dry_ret. exact I.
  - eapply dry_bind; [apply dry_update_entry, He|]. intros acc' _. apply IH.
Qed.

(** Lines 139-265 in a dry run. *)
Lemma dry_update_entries plan old :
  Forall (fun e => entry_patch e = None) plan ->
  dry file (update_entries E self_update plan old) (fun _ => True).
Proof.
  intros Hplan. unfold update_entries.
  eapply dry_bind; [apply dry_update_loop, Hplan|]. intros [ev aps] _.
  eapply dry_bind; [apply dry_gets_save|]. intros save Hsave.
  eapply dry_bind; [|intros _ _; apply dry_ret; exact I].
  destruct file_cases as [[f Hfile]|Hfile]; rewrite Hfile in Hsave.
  - subst save. cbn [save_diff_truthy].
    eapply dry_bind; [exact (dry_diff_path Hfile)|]. intros p ->.
    eapply dry_bind; [apply dry_gets|]. intros new _.
    eapply dry_bind; [apply dry_gets|]. intros d _.
    eapply dry_bind; [apply (dry_open_append _ Hfile)|]. intros _ _.
    apply dry_when, dry_log.
  - rewrite Hsave. apply dry_if; apply dry_log.
Qed.
End DryLoop.
End DryRun.

Lemma opt_str_eqb_eq a b : opt_str_eqb a b = true -> a = b.
Proof.
  destruct a, b; cbn; try discriminate; [|reflexivity].
  intros H. apply String.eqb_eq in H. now subst.
Qed.

Lemma keeps_mj_ret {A} (a : A) : keeps_mj (ret a).
Proof. intros w r w' H. injection H as <- <-. reflexivity. Qed.

Lemma keeps_mj_raise {A} c t : keeps_mj (@raise A c t).
Proof. intros w r w' H. injection H as <- <-. reflexivity. Qed.

Lemma keeps_mj_gets {A} (f : World -> A) : keeps_mj (gets f).
Proof. intros w r w' H. injection H as <- <-. reflexivity. Qed.

Lemma keeps_mj_modify f :
  (forall w, mj (f w) = mj w) -> keeps_mj (modify f).
Proof. intros Hf w r w' H. injection H as <- <-. apply Hf. Qed.

Lemma keeps_mj_bind {A B} (m : M A) (f : A -> M B) :
  keeps_mj m -> (forall a, keeps_mj (f a)) -> keeps_mj (bind m f).
Proof.
  intros Hm Hf w r w' H. unfold bind in H.
  destruct (m w) as [[a|e] w1] eqn:Em.
  - rewrite (Hf a _ _ _ H). exact (Hm _ _ _ Em).
  - injection H as <- <-. exact (Hm _ _ _ Em).
Qed.

Lemma keeps_mj_log l t : keeps_mj (log l t).
Proof. apply keeps_mj_modify. reflexivity. Qed.

Lemma keeps_mj_fs_update f c : keeps_mj (fs_update f c).
Proof.
  intros w r w' H. unfold fs_update in H.
  destruct (f (fs w)); injection H as <- <-; reflexivity.
Qed.

Lemma keeps_mj_ask {A} (queue : Inputs -> list A) set : keeps_mj (ask queue set).
Proof.
  intros w r w' H. unfold ask in H.
  destruct (queue (inputs w)); injection H as <- <-; reflexivity.
Qed.

Lemma keeps_mj_tempfile_mkdtemp : keeps_mj tempfile_mkdtemp.
Proof.
  unfold tempfile_mkdtemp.
  apply keeps_mj_bind; [apply keeps_mj_gets|]. intros n.
  apply keeps_mj_bind; [apply keeps_mj_modify; reflexivity|]. intros _.
  apply keeps_mj_bind; [apply keeps_mj_gets|]. intros e.
  destruct e; [apply keeps_mj_raise|].
  apply keeps_mj_bind; [apply keeps_mj_fs_update|]. intros _.
  apply keeps_mj_ret.
Qed.

Lemma keeps_mj_resolve_version E repo name sha' cv :
  keeps_mj (resolve_version E repo name sha' cv).
Proof.
  unfold resolve_version.
  apply keeps_mj_bind; [apply keeps_mj_gets|]. intros ctype.
  apply keeps_mj_bind; [apply keeps_mj_gets|]. intros ask_user.
  destruct sha'; [apply keeps_mj_ret|].
  destruct ask_user; [apply keeps_mj_ask|apply keeps_mj_ret].
Qed.

(** Lines 157-164: a version given by the plan is taken as it is. *)
Lemma resolve_version_pinned E repo name s cv w v w' :
  resolve_version E repo name (Some s) cv w = (Ok v, w') -> v = s.
Proof.
  unfold resolve_version. rewrite !bind_gets.
  intros H. injection H as <- _. reflexivity.
Qed.

Lemma get_component_version_eq ctype name url d w :
  get_component_version ctype name url d w
  = (Ok (match mj_lookup (mj w) url ctype d name with
         | Some r => git_sha r
         | None => None
         end), w).
Proof. reflexivity. Qed.

Lemma tempfile_mkdtemp_keeps r w w' :
  tempfile_mkdtemp w = (r, w') ->
  args w' = args w /\ inputs w' = inputs w
  /\ component_type w' = component_type w /\ mj w' = mj w.
Proof.
  unfold tempfile_mkdtemp, os_path_exists. mrun.
  repeat match goal with
         | |- context [if ?c then _ else _] => destruct c
         | |- context [match ?c with Some _ => _ | None => _ end] =>
             destruct c
         end;
    intros H; injection H as _ <-; auto.
Qed.

(** Lines 157-164: the version [resolve_version] returns is the one
    [target_version] names. *)
Lemma resolve_version_target E repo name sha' p cv w version w' :
  resolve_version E repo name sha' cv w = (Ok version, w') ->
  target_version E w (repo, name, sha', p) = Some version
  /\ args w' = args w /\ component_type w' = component_type w
  /\ mj w' = mj w.
Proof.
  unfold resolve_version, target_version. rewrite !bind_gets.
  destruct sha' as [s|].
  - intros H. injection H as <- <-. auto.
  - destruct (prompt (args w)).
    + unfold prompt_component_version_sha, ask.
      destruct (versions (inputs w)); [discriminate|].
      intros H. injection H as <- <-. auto.
    + intros H. injection H as <- <-. auto.
Qed.

Lemma target_version_ext E w w' e :
  args w' = args w -> inputs w' = inputs w ->
  component_type w' = component_type w ->
  target_version E w' e = target_version E w e.
Proof.
  intros Ha Hi Hc. destruct e as [[[repo name] sha'] p].
  unfold target_version. rewrite Ha, Hi, Hc. reflexivity.
Qed.

Lemma keeps_mj_install_component_files E name version repo d :
  keeps_mj (install_component_files E name version repo d).
Proof.
  unfold install_component_files.
  apply keeps_mj_bind; [apply keeps_mj_gets|]. intros ctype.
  destruct (registry_fetch E repo ctype name version).
  - apply keeps_mj_bind; [apply keeps_mj_fs_update|]. intros _.
    apply keeps_mj_ret.
  - apply keeps_mj_ret.
Qed.

Lemma keeps_mj_open_append f s : keeps_mj (open_append f s).
Proof.
  unfold open_append.
  apply keeps_mj_bind; [apply keeps_mj_gets|]. intros n.
  destruct n as [[c|es]|];
    [apply keeps_mj_fs_update|apply keeps_mj_raise|apply keeps_mj_fs_update].
Qed.

Lemma keeps_mj_diff_path : keeps_mj diff_path.
Proof.
  unfold diff_path.
  apply keeps_mj_bind; [apply keeps_mj_gets|]. intros s.
  destruct s; first [apply keeps_mj_ret|apply keeps_mj_raise].
Qed.

Lemma keeps_mj_present_diff E repo name version cv ps cd cid :
  keeps_mj (present_diff E repo name version cv ps cd cid).
Proof.
  unfold present_diff.
  apply keeps_mj_bind; [apply keeps_mj_gets|]. intros ctype.
  apply keeps_mj_bind.
  { destruct ps as [[]|]; first [apply keeps_mj_log|apply keeps_mj_ret]. }
  intros _.
  apply keeps_mj_bind; [apply keeps_mj_gets|]. intros save.
  apply keeps_mj_bind; [apply keeps_mj_gets|]. intros show.
  destruct (save_diff_truthy save).
  - apply keeps_mj_bind; [apply keeps_mj_diff_path|]. intros f.
    apply keeps_mj_bind; [apply keeps_mj_log|]. intros _.
    apply keeps_mj_bind; [|intros _; apply keeps_mj_ret].
    unfold write_diff_file.
    apply keeps_mj_bind; [apply keeps_mj_gets|]. intros d.
    apply keeps_mj_open_append.
  - destruct (show_diff_truthy show); [|apply keeps_mj_ret].
    apply keeps_mj_bind.
    { unfold print_diff. apply keeps_mj_bind; [apply keeps_mj_gets|].
      intros d. apply keeps_mj_log. }
    intros _. apply keeps_mj_bind; [apply keeps_mj_ask|]. intros a.
    apply keeps_mj_ret.
Qed.

(** One turn of the loop in a dry run, for an entry without a patch: the
    turn works on the version [target_version] names; it leaves the record
    in memory as it is when the entry is at that version already or the
    files cannot be fetched, and files the version in memory otherwise. *)
Lemma dry_turn_recorded file E su acc repo name sha' w a w2 :
  dry_mode file w ->
  update_entry E su acc (repo, name, sha', None) w = (Ok a, w2) ->
  exists version,
    target_version E w (repo, name, sha', None) = Some version
    /\ component_type w2 = component_type w
    /\ ((up_to_date w repo name version = true /\ a = acc /\ mj w2 = mj w)
        \/ (up_to_date w repo name version = false
            /\ registry_fetch E repo (component_type w) name version = None
            /\ a = (false, snd acc) /\ mj w2 = mj w)
        \/ (up_to_date w repo name version = false
            /\ registry_fetch E repo (component_type w) name version <> None
            /\ a = acc
            /\ mj w2 = mj_at_version (mj w) (component_type w) repo name
                         version)).
Proof.
  intros Hm H. unfold update_entry in H. rewrite !bind_gets in H.
  rewrite (@dry_mode_dry_run file w Hm) in H.
  erewrite bind_Ok in H; [|apply get_component_version_eq].
  fold (version_on_record w repo name) in H.
  apply bind_inv_Ok in H. destruct H as (d & w1 & Hd & H).
  destruct (@dry_tempfile_mkdtemp file w _ _ Hm Hd) as [S1 Q1].
  destruct (Q1 _ eq_refl) as [r ->].
  destruct (@tempfile_mkdtemp_keeps _ _ _ Hd) as (A1 & I1 & C1 & M1).
  assert (Hm1 := @dry_mode_step file _ _ Hm S1).
  apply bind_inv_Ok in H. destruct H as (version & w3 & Hv & H).
  destruct (@dry_resolve_version file E repo name sha' _ w1 _ _ Hm1 Hv)
    as [S2 _].
  destruct (@resolve_version_target E repo name sha' None _ w1 version w3 Hv)
    as (Ht & A2 & C2 & M2).
  rewrite (@target_version_ext E w w1 _ A1 I1 C1) in Ht.
  assert (Hm2 := @dry_mode_step file _ _ Hm1 S2).
  exists version. split; [exact Ht|].
  unfold update_resolved in H. destruct acc as [ev aps].
  rewrite bind_gets in H.
  assert (Hup : is_some (version_on_record w repo name)
                && negb (force (args w3))
                && opt_str_eqb (version_on_record w repo name) (Some version)
                = up_to_date w repo name version).
  { unfold up_to_date. rewrite A2, A1. reflexivity. }
  rewrite Hup in H.
  destruct (up_to_date w repo name version) eqn:Eu.
  - apply bind_inv_Ok in H. destruct H as (u & w4 & Hl & H).
    injection H as <- <-.
    assert (M3 : mj w4 = mj w3 /\ component_type w4 = component_type w3).
    { revert Hl. destruct (_ || _); unfold log, modify; intros Hl;
        injection Hl as Hl; subst w4; split; reflexivity. }
    destruct M3 as [M3 C3].
    split; [congruence|]. left. repeat split; congruence.
  - apply bind_inv_Ok in H. destruct H as (staged & w4 & Hi & H).
    assert (M3 := @keeps_mj_install_component_files E name version repo _
                    _ _ _ Hi).
    destruct (@dry_install_component_files file E name version repo r
                w3 _ _ Hm2 Hi) as [S3 _].
    assert (C3 : component_type w4 = component_type w).
    { destruct S3 as (_ & -> & _). congruence. }
    assert (Hfetch : staged = true
                     \/ registry_fetch E repo (component_type w) name version
                        = None).
    { destruct staged; [left; reflexivity|right].
      apply install_component_files_false in Hi. congruence. }
    destruct staged; cbn [negb] in H.
    + assert (Hm3 := @dry_mode_step file _ _ Hm2 S3).
      unfold update_staged in H. rewrite !bind_gets in H.
      rewrite bind_ret_l in H.
      apply bind_inv_Ok in H. destruct H as (b & w5 & Hp & H).
      destruct (@dry_present_diff file E repo name version _ _ _
                  w4 _ _ Hm3 Hp) as [S4 Q4].
      assert (M4 := @keeps_mj_present_diff E repo name version _ _ _ _
                      _ _ _ Hp).
      rewrite (Q4 _ eq_refl) in H. cbn [negb] in H.
      apply bind_inv_Ok in H. destruct H as (u & w6 & Hu & H).
      injection H as <- <-.
      unfold modules_json_update in Hu. rewrite bind_modify in Hu.
      cbn [when] in Hu. injection Hu as _ <-.
      cbn [component_type set_mj mj].
      assert (C4 : component_type w5 = component_type w).
      { destruct S4 as (_ & -> & _). exact C3. }
      split; [exact C4|]. right. right.
      split; [reflexivity|]. split.
      { intros Hn. unfold install_component_files in Hi.
        rewrite bind_gets in Hi. rewrite C2, C1, Hn in Hi. discriminate. }
      split; [reflexivity|].
      unfold mj_at_version. rewrite C3, M4, M3, M2, M1. reflexivity.
    + injection H as <- <-. split; [exact C3|].
      right. left. destruct Hfetch as [Hf|Hf]; [discriminate|].
      repeat split; try assumption. congruence.
Qed.

Lemma fold_M_app {A S} (xs ys : list A) (body : S -> A -> M S) s w :
  fold_M (xs ++ ys) body s w = bind (fold_M xs body s) (fold_M ys body) w.
Proof.
  revert s w. induction xs as [|x xs IH]; intros s w; cbn [fold_M app].
  - reflexivity.
  - unfold bind. destruct (body s x w) as [[s'|e] w1].
    + rewrite IH. reflexivity.
    + reflexivity.
Qed.

(** C1 (amended).  A run that writes its diffs to [file], or previews them
    to a user who declines every confirmation, over a plan whose entries
    have no patch on record: the modules.json on disk is never written, no
    linked update is started, and every path outside the temporary area and
    the diff file holds what it held before, so no installed component
    directory changes.  Each turn that returns works on the version lines
    157-164 name and is recorded in memory only: the modules.json in memory
    is left as it is when the entry is at that version already, or when its
    files cannot be fetched ([exit_value] is then false), and has the
    version filed for the entry otherwise; the remaining entries are
    processed from that state. *)
Theorem dry_run_leaves_disk_alone E su file plan old w r w' :
  dry_mode file w ->
  Forall (fun e => entry_patch e = None) plan ->
  update_entries E su plan old w = (r, w') ->
  mj_disk w' = mj_disk w
  /\ calls w' = calls w
  /\ (forall q, outside file q -> fs_get (fs w') q = fs_get (fs w) q)
  /\ forall pre e post acc w1 a w2,
       plan = pre ++ e :: post ->
       fold_M pre (update_entry E su) (true, true) w = (Ok acc, w1) ->
       update_entry E su acc e w1 = (Ok a, w2) ->
       let repo := entry_repo e in
       let name := entry_name e in
       let ctype := component_type w1 in
       fold_M plan (update_entry E su) (true, true) w
       = fold_M post (update_entry E su) a w2
       /\ mj_disk w2 = mj_disk w
       /\ exists version,
            target_version E w1 e = Some version
            /\ ((up_to_date w1 repo name version = true
                 /\ a = acc /\ mj w2 = mj w1)
                \/ (up_to_date w1 repo name version = false
                    /\ registry_fetch E repo ctype name version = None
                    /\ a = (false, snd acc) /\ mj w2 = mj w1)
                \/ (up_to_date w1 repo name version = false
                    /\ registry_fetch E repo ctype name version <> None
                    /\ a = acc
                    /\ mj w2 = mj_at_version (mj w1) ctype repo name
                                 version)).
Proof.
  intros Hm Hplan Hrun.
  destruct (@dry_update_entries file E su plan old Hplan w r w' Hm Hrun)
    as [(_ & _ & _ & _ & _ & Hdisk & Hcalls & Hfs) _].
  split; [exact Hdisk|]. split; [exact Hcalls|]. split; [exact Hfs|].
  intros pre e post acc w1 a w2 -> Hpre He repo name ctype.
  apply Forall_app in Hplan. destruct Hplan as [Fpre Fpost].
  apply Forall_cons_iff in Fpost. destruct Fpost as [Fe _].
  destruct (@dry_update_loop file E su pre Fpre (true, true) w _ _ Hm Hpre)
    as [S1 _].
  assert (Hm1 := @dry_mode_step file _ _ Hm S1).
  destruct (@dry_update_entry file E su acc e Fe w1 _ _ Hm1 He) as [S2 _].
  split; [|split].
  - rewrite fold_M_app. erewrite bind_Ok; [|exact Hpre]. cbn [fold_M].
    erewrite bind_Ok; [|exact He]. reflexivity.
  - destruct S1 as (_ & _ & _ & _ & _ & <- & _).
    destruct S2 as (_ & _ & _ & _ & _ & <- & _). reflexivity.
  - unfold repo, name, ctype. clear repo name ctype.
    destruct e as [[[repo name] sha'] p]. cbn [entry_patch] in Fe. subst p.
    cbn [entry_name entry_repo].
    destruct (@dry_turn_recorded file E su acc repo name sha' w1 a w2 Hm1 He)
      as (version & Ht & _ & Hcases).
    exists version. split; [exact Ht|exact Hcases].
Qed.

Lemma dry_run_leaves_disk_alone_witness :
  let E := ex_env ex_catalog (fun _ _ => None) in
  let su := update E 5 in
  let plan := [(ex_repo, "fastqc", @None string, @None path)] in
  let w := ex_world None [] None None (SDPath ["update.diff"])
             (ex_inputs [] []) in
  let run := update_entries E su plan (ex_modules_json None) w in
  fst run = Ok true
  /\ mj (snd run) = mj_at_version (mj w) "modules" ex_repo "fastqc" "9f8e7d"
  /\ mj_disk (snd run) = mj_disk w
  /\ calls (snd run) = calls w
  /\ (forall q, outside (Some ["update.diff"]) q ->
        fs_get (fs (snd run)) q = fs_get (fs w) q)
  /\ forall pre e post acc w1 a w2,
       plan = pre ++ e :: post ->
       fold_M pre (update_entry E su) (true, true) w = (Ok acc, w1) ->
       update_entry E su acc e w1 = (Ok a, w2) ->
       let repo := entry_repo e in
       let name := entry_name e in
       let ctype := component_type w1 in
       fold_M plan (update_entry E su) (true, true) w
       = fold_M post (update_entry E su) a w2
       /\ mj_disk w2 = mj_disk w
       /\ exists version,
            target_version E w1 e = Some version
            /\ ((up_to_date w1 repo name version = true
                 /\ a = acc /\ mj w2 = mj w1)
                \/ (up_to_date w1 repo name version = false
                    /\ registry_fetch E repo ctype name version = None
                    /\ a = (false, snd acc) /\ mj w2 = mj w1)
                \/ (up_to_date w1 repo name version = false
                    /\ registry_fetch E repo ctype name version <> None
                    /\ a = acc
                    /\ mj w2 = mj_at_version (mj w1) ctype repo name
                                 version)).
Proof.
  intros E su plan w run. split; [vm_compute; reflexivity|].
  split; [vm_compute; reflexivity|].
  apply (@dry_run_leaves_disk_alone E su (Some ["update.diff"]) plan
           (ex_modules_json None) w (fst run) (snd run)).
  - reflexivity.
  - repeat constructor.
  - apply surjective_pairing.
Defined.

(** Counterexample to C1 as stated, on its two counts.  A preview in which
    the user accepts the update of [fastqc] (and declines that of the linked
    subworkflow): the module directory is replaced and modules.json is
    written.  And entries with a patch on record, in runs that only write a
    diff file: when the patch of [fastqc] does not apply, line 691 moves the
    patch file out of the installed directory; when it applies, in a bulk
    run that has already filed the new version of [trim] in memory,
    line 724 writes modules.json with that version to disk. *)
Lemma dry_runs_that_write :
  let E := ex_env ex_catalog (fun _ _ => None) in
  let preview := ex_world None [] None (Some true) SDNone
                   (ex_inputs [true; false] []) in
  let confirmed := update E 6 (Some "fastqc") preview in
  let to_file := ex_world None [] (Some ex_patch) None (SDStr "update.diff")
                   (ex_inputs [] []) in
  let failing := update E 6 (Some "fastqc") to_file in
  let E' := ex_env ex_bulk_catalog ex_apply_ok in
  let two_modules :=
    set_update_all true
      (set_mj_disk ex_patched_pair (set_mj ex_patched_pair to_file)) in
  let applying := update E' 6 None two_modules in
  (show_diff preview = Some true
   /\ fst confirmed = Ok true
   /\ fs_get (fs preview) ex_component_dir
      = Some (Dir [("main.nf", File "process FASTQC v1");
                   ("fastqc.diff", File "local changes")])
   /\ fs_get (fs (snd confirmed)) ex_component_dir
      = Some (Dir [("main.nf", File "process fastqc v2")])
   /\ mj_disk (snd confirmed) <> mj_disk preview
   /\ calls (snd confirmed) = [("subworkflows", "align")])
  /\ (fst failing = Ok true
      /\ save_diff_fn (snd failing) = SDPath ["update.diff"]
      /\ fs_get (fs to_file) (["pipeline"] ++ ex_patch)
         = Some (File "local changes")
      /\ fs_get (fs (snd failing)) (["pipeline"] ++ ex_patch) = None)
  /\ (fst applying = Ok true
      /\ save_diff_fn (snd applying) = SDPath ["update.diff"]
      /\ version_on_record two_modules ex_repo "trim" = Some "1a2b3c"
      /\ mj_disk two_modules = mj two_modules
      /\ mj_lookup (mj_disk (snd applying)) ex_url "modules" "nf-core" "trim"
         = Some {| git_sha := Some "9f8e7d"; rec_branch := Some "master";
                   patch := None; installed_by := ["modules"] |}).
Proof.
  vm_compute. repeat split; try discriminate.
Qed.

(** The same preview declined leaves the pipeline as it is. *)
Lemma preview_declined_keeps_component :
  let E := ex_env ex_catalog (fun _ _ => None) in
  let w := ex_world None [] None (Some true) SDNone (ex_inputs [false] []) in
  let run := update E 6 (Some "fastqc") w in
  fst run = Ok true
  /\ fs_get (fs (snd run)) ["pipeline"] = fs_get (fs w) ["pipeline"]
  /\ mj_disk (snd run) = mj_disk w
  /\ get_component_version "modules" "fastqc" ex_url "nf-core" (snd run)
     = (Ok (Some "9f8e7d"), snd run).
Proof. vm_compute. repeat split. Qed.


(* ===================================================================== *)
(** * The checks before the plan *)
(* ===================================================================== *)

Lemma parameter_checks_pass w :
  parameters_ok w = true -> _parameter_checks w = (Ok tt, w).
Proof.
  unfold parameters_ok, _parameter_checks. rewrite bind_gets. intros H.
  apply andb_prop in H. destruct H as [H H5].
  apply andb_prop in H. destruct H as [H H4].
  apply andb_prop in H. destruct H as [H H3].
  apply andb_prop in H. destruct H as [H1 H2].
  apply negb_true_iff in H1, H2, H3, H4.
  rewrite H1, H2, H3, H4, H5. reflexivity.
Qed.

Lemma parameter_checks_fail w :
  parameters_ok w = false ->
  exists t, _parameter_checks w = (Err (Exn UserWarning t), w).
Proof.
  unfold parameters_ok, _parameter_checks. rewrite bind_gets.
  destruct (save_diff_truthy (save_diff_fn w) && show_diff_truthy (show_diff w));
    [intros _; eexists; reflexivity|].
  destruct (update_all w && opt_truthy (component w));
    [intros _; eexists; reflexivity|].
  destruct (String.eqb (repo_type (args w)) "modules");
    [intros _; eexists; reflexivity|].
  destruct (prompt (args w) && is_some (sha (args w)));
    [intros _; eexists; reflexivity|].
  destruct (valid_directory (args w)); [discriminate|].
  intros _; eexists; reflexivity.
Qed.

(** X1.  [update] checks its parameters before anything else: when one of
    the five conditions of [_parameter_checks] fails, it raises
    [UserWarning] having only stored the component name and the [update:]
    block; no check of the pipeline is run, nothing is asked, logged or
    written.  When they all pass, [_parameter_checks] returns and leaves the
    object as it is. *)
Theorem update_rejects_bad_parameters E fuel component' w :
  let w0 := update_entered E component' w in
  (parameters_ok w0 = false ->
   exists t, update E (S fuel) component' w = (Err (Exn UserWarning t), w0))
  /\ (parameters_ok w0 = true -> _parameter_checks w0 = (Ok tt, w0)).
Proof.
  intros w0. split.
  - intros Hbad. destruct (parameter_checks_fail w0 Hbad) as [t Ht].
    exists t. cbn [update]. unfold update_body. rewrite !bind_modify.
    fold (update_entered E component' w). fold w0.
    erewrite bind_Err; [reflexivity|exact Ht].
  - apply parameter_checks_pass.
Qed.

Lemma update_rejects_bad_parameters_witness :
  let E := ex_env ex_catalog (fun _ _ => None) in
  let w := ex_world None [] None (Some true) (SDStr "update.diff")
             (ex_inputs [] []) in
  exists t,
    update E 6 (Some "fastqc") w
    = (Err (Exn UserWarning t), update_entered E (Some "fastqc") w).
Proof.
  intros E w.
  apply (proj1 (update_rejects_bad_parameters E 5 (Some "fastqc") w)).
  reflexivity.
Defined.

(** X2.  Lines 95-109: when the checks have passed and the commit given
    with [--sha] is not on the branch, [update] builds no plan: it logs one
    error and returns [False].  With [--all] or a component name nothing is
    asked and nothing else changes; with neither, the question of lines
    95-104 comes first: one answer is taken and [update_all] is set from it,
    and a user who gives no answer ends the run before the check. *)
Theorem update_unknown_sha_returns_False E fuel component' w w1 w2 s :
  let w0 := update_entered E component' w in
  let refused w3 :=
    (@Ok bool false,
     set_logs (logs w3
               ++ [(ERROR, TxtShaMissing s (remote_url (modules_repo w3)))])
       w3) in
  parameters_ok w0 = true ->
  check_modules_structure E w0 = (Ok tt, w1) ->
  check_up_to_date E w1 = (Ok tt, w2) ->
  sha (args w2) = Some s ->
  sha_exists_on_branch E (modules_repo w2) s = false ->
  update E (S fuel) component' w
  = if update_all w2 || is_some component' then refused w2
    else match selects (inputs w2) with
         | choice :: rest =>
             refused (set_update_all (Nat.eqb choice 0)
                        (set_inputs (set_selects rest (inputs w2)) w2))
         | [] => (Err (Exn KeyboardInterrupt TxtBuiltin), w2)
         end.
Proof.
  intros w0 refused Hok H1 H2 Hs Hno.
  cbn [update]. unfold update_body. rewrite !bind_modify.
  fold (update_entered E component' w). fold w0.
  erewrite bind_Ok; [|exact (parameter_checks_pass w0 Hok)].
  erewrite bind_Ok; [|exact H1]. erewrite bind_Ok; [|exact H2].
  rewrite bind_gets.
  replace (negb (update_all w2) && negb (is_some component'))
    with (negb (update_all w2 || is_some component'))
    by apply negb_orb.
  destruct (update_all w2 || is_some component'); cbn [negb].
  - rewrite bind_ret_l, bind_gets. rewrite Hs, Hno. cbn [negb].
    rewrite bind_log. reflexivity.
  - unfold questionary_select, ask. unfold bind at 1. unfold bind at 1.
    destruct (selects (inputs w2)) as [|choice rest]; [reflexivity|].
    unfold modify at 1. rewrite bind_gets.
    cbn [args set_update_all set_inputs modules_repo].
    rewrite Hs, Hno. cbn [negb]. rewrite bind_log. reflexivity.
Qed.

Lemma update_unknown_sha_returns_False_witness :
  let w := ex_world (Some "0000000") [] None (Some false) SDNone
             (ex_inputs [] [1]) in
  let w0 := update_entered ex_env_without_shas None w in
  let w3 := set_update_all false
              (set_inputs (set_selects [] (inputs w0)) w0) in
  update ex_env_without_shas 6 None w
  = (Ok false,
     set_logs (logs w3 ++ [(ERROR, TxtShaMissing "0000000"
                                     (remote_url (modules_repo w3)))]) w3).
Proof.
  intros w w0 w3.
  apply (@update_unknown_sha_returns_False ex_env_without_shas 5
           None w w0 w0 "0000000");
    reflexivity.
Defined.

(* ===================================================================== *)
(** * What planning leaves alone *)
(* ===================================================================== *)

Section Preserves.
Variable R : World -> World -> Prop.
Hypothesis R_refl : forall w, R w w.
Hypothesis R_trans : forall a b c, R a b -> R b c -> R a c.

Lemma preserves_ret {A} (a : A) : preserves R (ret a).
Proof. intros w r w' H. injection H as _ <-. apply R_refl. Qed.

Lemma preserves_raise {A} c t : preserves R (@raise A c t).
Proof. intros w r w' H. injection H as _ <-. apply R_refl. Qed.

Lemma preserves_gets {A} (f : World -> A) : preserves R (gets f).
Proof. intros w r w' H. injection H as _ <-. apply R_refl. Qed.

Lemma preserves_modify f : (forall w, R w (f w)) -> preserves R (modify f).
Proof. intros Hf w r w' H. injection H as _ <-. apply Hf. Qed.

Lemma preserves_bind {A B} (m : M A) (f : A -> M B) :
  preserves R m -> (forall a, preserves R (f a)) -> preserves R (bind m f).
Proof.
  intros Hm Hf w r w' H. unfold bind in H.
  destruct (m w) as [[a|e] w1] eqn:Em.
  - eapply R_trans; [exact (Hm _ _ _ Em)|exact (Hf a _ _ _ H)].
  - injection H as _ <-. exact (Hm _ _ _ Em).
Qed.

Lemma preserves_try_except {A} (m : M A) c h :
  preserves R m -> (forall e, preserves R (h e)) ->
  preserves R (try_except m c h).
Proof.
  intros Hm Hh w r w' H. unfold try_except in H.
  destruct (m w) as [[a|e] w1] eqn:Em.
  - injection H as _ <-. exact (Hm _ _ _ Em).
  - destruct (isinstance (exn_cls e) c).
    + eapply R_trans; [exact (Hm _ _ _ Em)|exact (Hh e _ _ _ H)].
    + injection H as _ <-. exact (Hm _ _ _ Em).
Qed.

Lemma preserves_when b m : preserves R m -> preserves R (when b m).
Proof. intros H. destruct b; [exact H|apply preserves_ret]. Qed.

Lemma preserves_fold_M {A S} (xs : list A) (body : S -> A -> M S) :
  (forall s x, preserves R (body s x)) ->
  forall s, preserves R (fold_M xs body s).
Proof.
  intros Hb. induction xs as [|x xs IH]; intros s; cbn [fold_M].
  - apply preserves_ret.
  - apply preserves_bind; [apply Hb|exact IH].
Qed.

Lemma preserves_for_each {A} (xs : list A) (body : A -> M unit) :
  (forall x, preserves R (body x)) -> preserves R (for_each xs body).
Proof.
  intros Hb. induction xs as [|x xs IH]; cbn [for_each].
  - apply preserves_ret.
  - apply preserves_bind; [apply Hb|intros _; exact IH].
Qed.

Lemma preserves_py_get v k d : preserves R (py_get v k d).
Proof. destruct v; try apply preserves_raise. apply preserves_ret. Qed.

Lemma preserves_py_in k v : preserves R (py_in k v).
Proof. destruct v; try apply preserves_raise; apply preserves_ret. Qed.

Lemma preserves_py_index v k : preserves R (py_index v k).
Proof.
  destruct v; try apply preserves_raise. cbn.
  destruct (dict_get k d); [apply preserves_ret|apply preserves_raise].
Qed.

Lemma preserves_dict_index {V} k (d : dict V) : preserves R (dict_index k d).
Proof.
  unfold dict_index.
  destruct (dict_get k d); [apply preserves_ret|apply preserves_raise].
Qed.
End Preserves.

Ltac world_eq :=
  repeat match goal with
         | H : Build_World _ _ _ _ _ _ _ _ _ _ _ _ _ _ _ _
               = Build_World _ _ _ _ _ _ _ _ _ _ _ _ _ _ _ _ |- _ =>
             injection H; clear H; intros; subst
         | H : Build_ModulesRepo _ _ _ = Build_ModulesRepo _ _ _ |- _ =>
             injection H; clear H; intros; subst
         end.

Lemma logs_only_refl w : logs_only w w.
Proof. unfold logs_only. destruct w; reflexivity. Qed.

Lemma logs_only_trans a b c : logs_only a b -> logs_only b c -> logs_only a c.
Proof.
  unfold logs_only, set_logs. destruct a, b, c; cbn. intros H1 H2.
  world_eq. reflexivity.
Qed.

Lemma logs_only_log l t : preserves logs_only (log l t).
Proof.
  apply preserves_modify. intros w. unfold logs_only. destruct w; reflexivity.
Qed.

Lemma planning_step_refl w : planning_step w w.
Proof. unfold planning_step. destruct w as [? ? [? ? ?]]; reflexivity. Qed.

Lemma planning_step_trans a b c :
  planning_step a b -> planning_step b c -> planning_step a c.
Proof.
  unfold planning_step, set_logs, set_inputs, set_modules_repo.
  destruct a as [? ? [? ? ?]], b as [? ? [? ? ?]], c as [? ? [? ? ?]]; cbn.
  intros H1 H2. world_eq. reflexivity.
Qed.

Lemma logs_only_planning w w' : logs_only w w' -> planning_step w w'.
Proof.
  unfold logs_only, planning_step, set_logs, set_inputs, set_modules_repo.
  destruct w as [? ? [? ? ?]], w' as [? ? [? ? ?]]; cbn.
  intros H. world_eq. reflexivity.
Qed.

(** One step of a proof that a computation stays within a relation. *)
Ltac frame_step refl trans :=
  match goal with
  | |- preserves _ (bind _ _) =>
      eapply preserves_bind; [exact trans| |intros ?]
  | |- preserves _ (ret _) => eapply preserves_ret; exact refl
  | |- preserves _ (raise _ _) => eapply preserves_raise; exact refl
  | |- preserves _ (io_error _) => eapply preserves_raise; exact refl
  | |- preserves _ (gets _) => eapply preserves_gets; exact refl
  | |- preserves _ (when _ _) => eapply preserves_when; [exact refl|]
  | |- preserves _ (py_get _ _ _) => eapply preserves_py_get; exact refl
  | |- preserves _ (py_in _ _) => eapply preserves_py_in; exact refl
  | |- preserves _ (py_index _ _) => eapply preserves_py_index; exact refl
  | |- preserves _ (dict_index _ _) => eapply preserves_dict_index; exact refl
  | |- preserves _ (if ?b then _ else _) => destruct b
  | |- preserves _ (match ?x with _ => _ end) => destruct x
  end.

Lemma single_config_sha_logs_only name install_dir :
  preserves logs_only (single_config_sha name install_dir).
Proof.
  unfold single_config_sha.
  repeat first [apply logs_only_log
               | frame_step logs_only_refl logs_only_trans].
Qed.

Lemma logs_only_preserves_planning {A} (m : M A) :
  preserves logs_only m -> preserves planning_step m.
Proof. intros Hm w r w' H. apply logs_only_planning. exact (Hm _ _ _ H). Qed.

Lemma planning_log l t : preserves planning_step (log l t).
Proof. apply logs_only_preserves_planning, logs_only_log. Qed.

Lemma planning_ask_confirm : preserves planning_step questionary_confirm.
Proof.
  intros w r w' H. unfold questionary_confirm, ask in H.
  destruct (confirms (inputs w)); injection H as _ <-.
  - apply planning_step_refl.
  - unfold planning_step. destruct w as [? ? [? ? ?]]; reflexivity.
Qed.

Lemma planning_ask_autocomplete :
  preserves planning_step questionary_autocomplete.
Proof.
  intros w r w' H. unfold questionary_autocomplete, ask in H.
  destruct (autocompletes (inputs w)); injection H as _ <-.
  - apply planning_step_refl.
  - unfold planning_step. destruct w as [? ? [? ? ?]]; reflexivity.
Qed.

Lemma planning_setup_branch b : preserves planning_step (setup_branch b).
Proof.
  apply preserves_modify. intros w. unfold planning_step.
  destruct w as [? ? [? ? ?]]; reflexivity.
Qed.

Lemma single_finish_planning name install_dir sha' :
  preserves planning_step (single_finish name install_dir sha').
Proof.
  unfold single_finish, get_component_branch, get_patch_fn.
  repeat first [apply planning_log | apply planning_ask_confirm
               | apply planning_setup_branch
               | frame_step planning_step_refl planning_step_trans].
Qed.

Lemma get_single_component_info_planning E component' :
  preserves planning_step (get_single_component_info E component').
Proof.
  unfold get_single_component_info, get_all_components.
  repeat first [apply single_finish_planning
               | apply planning_ask_autocomplete
               | apply logs_only_preserves_planning,
                   single_config_sha_logs_only
               | frame_step planning_step_refl planning_step_trans].
Qed.

Lemma planning_step_fields w w' :
  planning_step w w' ->
  args w' = args w /\ component_type w' = component_type w
  /\ remote_url (modules_repo w') = remote_url (modules_repo w)
  /\ repo_path (modules_repo w') = repo_path (modules_repo w)
  /\ update_config w' = update_config w
  /\ mj w' = mj w /\ mj_disk w' = mj_disk w /\ fs w' = fs w
  /\ tmp_counter w' = tmp_counter w /\ calls w' = calls w
  /\ save_diff_fn w' = save_diff_fn w /\ show_diff w' = show_diff w.
Proof.
  unfold planning_step. intros ->.
  destruct w as [? ? [? ? ?]]; cbn. repeat split.
Qed.

Lemma requested_run component' w name w1 :
  match component' with
  | Some c => ret c
  | None => questionary_autocomplete
  end w = (Ok name, w1) ->
  requested component' w = Some (name, w1).
Proof.
  unfold requested. destruct component' as [c|].
  - intros H. injection H as <- <-. reflexivity.
  - unfold questionary_autocomplete, ask.
    destruct (autocompletes (inputs w)); [discriminate|].
    intros H. injection H as <- <-. reflexivity.
Qed.

Lemma requested_planning component' w name w1 :
  requested component' w = Some (name, w1) -> planning_step w w1.
Proof.
  unfold requested. destruct component' as [c|].
  - intros H. injection H as _ <-. apply planning_step_refl.
  - destruct (autocompletes (inputs w)); [discriminate|].
    intros H. injection H as _ <-. unfold planning_step.
    destruct w as [? ? [? ? ?]]; reflexivity.
Qed.

(** X3.  Lines 267-356.  Building the plan entry of one component changes
    nothing but the log, the answers still to come and the branch of the
    shared registry object, whether it returns or raises.  What it returns
    is the requested name, which is installed from the repository of the
    command under the name offered for it and, unless empty, available in
    that repository; the repository is the shared object, and the patch is
    the one on record among the modules. *)
Theorem single_plan_entry_is_installed E component' w r w' :
  get_single_component_info E component' w = (r, w') ->
  let url := remote_url (modules_repo w) in
  let ctype := component_type w in
  planning_step w w'
  /\ forall repo name sha' patch',
       r = Ok (repo, name, sha', patch') ->
       (exists w1, requested component' w = Some (name, w1))
       /\ (exists components install_dir,
             dict_get url (all_components_of (mj w) ctype) = Some components
             /\ In (install_dir, name) components
             /\ In name (map choice_name components)
             /\ patch' = match mj_lookup (mj w) url patch_component_type
                                 install_dir name with
                         | Some rec => patch rec
                         | None => None
                         end)
       /\ (name = "" \/ In name (get_avail_components E (modules_repo w) ctype))
       /\ repo = modules_repo w'
       /\ remote_url repo = url
       /\ repo_path repo = repo_path (modules_repo w).
Proof.
  intros H url ctype.
  assert (Hfr := @get_single_component_info_planning E component' w r w' H).
  split; [exact Hfr|].
  intros repo name sha' patch' ->.
  unfold get_single_component_info, get_all_components in H.
  rewrite !bind_gets in H. fold url ctype in H.
  destruct (dict_get url (all_components_of (mj w) ctype))
    as [components|] eqn:Hc; [|discriminate].
  rewrite bind_gets in H.
  destruct (negb (dict_mem url (all_components_of (mj w) ctype)));
    [discriminate|].
  apply bind_inv_Ok in H. destruct H as (name0 & w1 & Hn & H).
  apply requested_run in Hn.
  assert (P1 := requested_planning _ _ Hn).
  destruct (requested_frame _ _ Hn) as (_ & _ & MR1 & _).
  destruct (filter (fun dm => String.eqb name0 (snd dm)) components)
    as [|[install_dir c0] rest] eqn:Hf; [discriminate|].
  assert (Hin : In (install_dir, name0) components).
  { assert (Hx : In (install_dir, c0)
                   (filter (fun dm => String.eqb name0 (snd dm)) components))
      by (rewrite Hf; left; reflexivity).
    apply filter_In in Hx. destruct Hx as [Hx He]. cbn in He.
    apply String.eqb_eq in He. now subst c0. }
  destruct (str_mem name0 (map choice_name components)) eqn:Hch;
    [|discriminate].
  cbn [negb] in H. rewrite bind_gets in H.
  match type of H with
  | (if ?c then _ else _) _ = _ => destruct c eqn:Hav; [discriminate|]
  end.
  apply bind_inv_Ok in H. destruct H as (sha0 & w2 & Hs & H).
  assert (P2 := logs_only_planning (@single_config_sha_logs_only _ _ _ _ _ Hs)).
  unfold single_finish, get_component_branch, get_patch_fn in H.
  rewrite !bind_gets in H.
  apply bind_inv_Ok in H. destruct H as (u & w3 & Hb & H).
  rewrite !bind_gets in H. unfold ret in H.
  injection H as <- <- <- <- <-.
  assert (P12 := planning_step_trans P1 P2).
  destruct (planning_step_fields P12)
    as (_ & _ & U2 & _ & _ & M2 & _).
  destruct (planning_step_fields P1) as (_ & _ & U1 & R1 & _).
  destruct (planning_step_fields Hfr) as (_ & _ & U3 & R3 & _ & M3 & _).
  split; [exists w1; exact Hn|]. split; [|split; [|split; [|split]]].
  - exists components, install_dir. split; [reflexivity|].
    split; [exact Hin|]. split; [apply str_mem_In; exact Hch|].
    rewrite U2. rewrite M3. reflexivity.
  - apply andb_false_iff in Hav. destruct Hav as [Hav|Hav].
    + left. unfold str_truthy in Hav. apply negb_false_iff in Hav.
      apply String.eqb_eq in Hav. exact Hav.
    + right. apply negb_false_iff in Hav. apply str_mem_In in Hav.
      rewrite MR1 in Hav. exact Hav.
  - reflexivity.
  - exact U3.
  - exact R3.
Qed.

Lemma single_plan_entry_is_installed_witness :
  let E := ex_env ex_catalog (fun _ _ => None) in
  let run := get_single_component_info E (Some "fastqc") ex_silent in
  fst run = Ok (ex_repo, "fastqc", None, None)
  /\ planning_step ex_silent (snd run)
  /\ forall repo name sha' patch',
       fst run = Ok (repo, name, sha', patch') ->
       (exists w1, requested (Some "fastqc") ex_silent = Some (name, w1))
       /\ (exists components install_dir,
             dict_get ex_url (all_components_of (mj ex_silent) "modules")
             = Some components
             /\ In (install_dir, name) components
             /\ In name (map choice_name components)
             /\ patch' = match mj_lookup (mj ex_silent) ex_url
                                 patch_component_type install_dir name with
                         | Some rec => patch rec
                         | None => None
                         end)
       /\ (name = ""
           \/ In name (get_avail_components E (modules_repo ex_silent)
                         "modules"))
       /\ repo = modules_repo (snd run)
       /\ remote_url repo = ex_url
       /\ repo_path repo = repo_path (modules_repo ex_silent).
Proof.
  intros E run. split; [reflexivity|].
  apply (@single_plan_entry_is_installed E (Some "fastqc") ex_silent
           (fst run) (snd run)).
  apply surjective_pairing.
Defined.

Lemma slash_name_neq_nf_core (d c : string) :
  choice_name (d, c) = c \/ choice_name (d, c) = (d ++ "/" ++ c)%string.
Proof. unfold choice_name. destruct (String.eqb d "nf-core"); auto. Qed.

(** X4.  Lines 287-305.  A component that is installed from the repository
    of the command, but in no directory named [nf-core], cannot be planned
    on its own.  Under its name the request ends in the [LookupError] of
    line 303, because the name offered for it is [dir/name]; under that
    offered name it ends in the [IndexError] of line 299, because no
    component carries it.  Nothing is changed either way. *)
Theorem single_outside_nf_core_is_refused E w components d name :
  let url := remote_url (modules_repo w) in
  let ctype := component_type w in
  let offered := (d ++ "/" ++ name)%string in
  dict_get url (all_components_of (mj w) ctype) = Some components ->
  In (d, name) components ->
  (forall d', In (d', name) components -> d' <> "nf-core") ->
  (forall d' c', In (d', c') components -> d' <> "nf-core" ->
                 (d' ++ "/" ++ c')%string <> name) ->
  (forall d' c', In (d', c') components -> c' <> offered) ->
  choice_name (d, name) = offered
  /\ get_single_component_info E (Some name) w
     = (Err (Exn LookupError (TxtNotInstalled ctype name)), w)
  /\ get_single_component_info E (Some offered) w
     = (Err (Exn IndexError TxtBuiltin), w).
Proof.
  intros url ctype offered Hc Hin Hdir Hoff Hname.
  split; [|split].
  - unfold choice_name. destruct (String.eqb d "nf-core") eqn:Hd.
    + apply String.eqb_eq in Hd. destruct (Hdir d Hin Hd).
    + reflexivity.
  - unfold get_single_component_info, get_all_components.
    rewrite !bind_gets. fold url ctype. rewrite Hc. rewrite bind_gets.
    fold url ctype. unfold dict_mem. rewrite Hc. cbn [negb].
    rewrite bind_ret_l.
    destruct (filter (fun dm => String.eqb name (snd dm)) components)
      as [|[install_dir c0] rest] eqn:Hf.
    + assert (Hx : In (d, name)
                     (filter (fun dm => String.eqb name (snd dm)) components)).
      { apply filter_In. split; [exact Hin|]. cbn. apply String.eqb_refl. }
      rewrite Hf in Hx. destruct Hx.
    + rewrite str_mem_false; [reflexivity|].
      intros Hx. apply in_map_iff in Hx. destruct Hx as ([d' c'] & He & Hi).
      unfold choice_name in He. destruct (String.eqb d' "nf-core") eqn:Hd.
      * apply String.eqb_eq in Hd. subst c' d'. exact (Hdir _ Hi eq_refl).
      * apply String.eqb_neq in Hd. exact (Hoff _ _ Hi Hd He).
  - apply (@single_unknown_name_raises_IndexError E (Some offered) w offered w
             components); [reflexivity|exact Hc|].
    destruct (filter (fun dm => String.eqb offered (snd dm)) components)
      as [|[d' c'] rest] eqn:Hf; [reflexivity|].
    assert (Hx : In (d', c')
                   (filter (fun dm => String.eqb offered (snd dm)) components))
      by (rewrite Hf; left; reflexivity).
    apply filter_In in Hx. destruct Hx as [Hx He]. cbn in He.
    apply String.eqb_eq in He. destruct (Hname _ _ Hx (eq_sym He)).
Qed.

Lemma single_outside_nf_core_is_refused_witness :
  let E := ex_env ex_catalog (fun _ _ => None) in
  choice_name ("lab", "fastqc") = "lab/fastqc"
  /\ get_single_component_info E (Some "fastqc") ex_outside_world
     = (Err (Exn LookupError (TxtNotInstalled "modules" "fastqc")),
        ex_outside_world)
  /\ get_single_component_info E (Some "lab/fastqc") ex_outside_world
     = (Err (Exn IndexError TxtBuiltin), ex_outside_world).
Proof.
  intros E.
  apply (@single_outside_nf_core_is_refused E ex_outside_world
           [("lab", "fastqc")] "lab" "fastqc").
  - reflexivity.
  - left; reflexivity.
  - intros d' [H|[]]. injection H as <-. discriminate.
  - intros d' c' [H|[]] _. injection H as <- <-. discriminate.
  - intros d' c' [H|[]]. injection H as _ <-. discriminate.
Defined.

(** X5.  Lines 338-356.  When [modules.json] records the branch the
    registry object serves, no question is asked and the entry is returned
    with nothing changed.  When it records another one, a warning is logged
    and one confirmation is taken: declined, the registry object stays on
    its branch; accepted with a branch [b] on record, the shared object is
    switched to [b] and is what the entry holds. *)
Theorem single_branch_check name install_dir sha' w :
  let recorded := branch_on_record w name install_dir in
  let current := branch (modules_repo w) in
  let patch' := patch_on_record w name install_dir in
  let warned :=
    set_logs (logs w ++ [(WARNING, TxtBranchDiffers install_dir name
                                     (component_type w) current recorded)])
      w in
  let asked rest := set_inputs (set_confirms rest (inputs w)) warned in
  (recorded = Some current ->
   single_finish name install_dir sha' w
   = (Ok (modules_repo w, name, sha', patch'), w))
  /\ (recorded <> Some current ->
      forall rest,
        confirms (inputs w) = false :: rest ->
        single_finish name install_dir sha' w
        = (Ok (modules_repo w, name, sha', patch'), asked rest))
  /\ (forall b rest,
        recorded = Some b -> b <> current ->
        confirms (inputs w) = true :: rest ->
        single_finish name install_dir sha' w
        = (Ok (on_branch b (modules_repo w), name, sha', patch'),
           set_modules_repo (on_branch b (modules_repo w)) (asked rest))).
Proof.
  intros recorded current patch' warned asked.
  unfold single_finish, get_component_branch, get_patch_fn.
  rewrite !bind_gets. fold (branch_on_record w name install_dir).
  fold recorded current.
  split; [|split].
  - intros Hr. rewrite Hr. cbn [opt_str_eqb]. rewrite String.eqb_refl.
    reflexivity.
  - intros Hr rest Hq.
    assert (Hn : opt_str_eqb recorded (Some current) = false).
    { destruct (opt_str_eqb recorded (Some current)) eqn:He; [|reflexivity].
      apply opt_str_eqb_eq in He. destruct (Hr He). }
    rewrite Hn. cbn [negb].
    unfold bind, log, modify, questionary_confirm, ask. cbn.
    rewrite Hq. reflexivity.
  - intros b rest Hr Hb Hq. rewrite Hr. cbn [opt_str_eqb].
    assert (Hn : String.eqb b current = false)
      by (apply String.eqb_neq; exact Hb).
    rewrite Hn. cbn [negb].
    unfold bind, log, modify, questionary_confirm, ask. cbn.
    rewrite Hq. unfold asked, warned. rewrite Hr. reflexivity.
Qed.

Lemma single_branch_check_witness :
  let w := ex_dev_world [true] in
  fst (single_finish "fastqc" "nf-core" None w)
  = Ok (on_branch "dev" ex_repo, "fastqc", None, None)
  /\ branch (modules_repo (snd (single_finish "fastqc" "nf-core" None w)))
     = "dev"
  /\ confirms (inputs (snd (single_finish "fastqc" "nf-core" None w))) = [].
Proof.
  intros w.
  rewrite (proj2 (proj2 (single_branch_check "fastqc" "nf-core" None w))
             "dev" []);
    [repeat split|reflexivity|discriminate|reflexivity].
Defined.

(* ===================================================================== *)
(** * Where the entries of a bulk plan come from *)
(* ===================================================================== *)

Lemma dict_set_In {V} k v (d : dict V) k' v' :
  In (k', v') (dict_set k v d) -> (k' = k /\ v' = v) \/ In (k', v') d.
Proof.
  induction d as [|[k0 v0] d IH]; cbn.
  - intros [H|[]]. injection H as <- <-. left; split; reflexivity.
  - destruct (String.eqb_spec k k0).
    + intros [H|H].
      * injection H as <- <-. left; split; [symmetry; assumption|reflexivity].
      * right; right; assumption.
    + intros [H|H].
      * right; left; assumption.
      * apply IH in H. destruct H; [left|right; right]; assumption.
Qed.

Lemma items_In ci rn c :
  In (rn, c) (components_info_items ci) <->
  exists content d comps,
    In (rn, content) ci /\ In (d, comps) content /\ In c comps.
Proof.
  unfold components_info_items. split.
  - intros H. apply in_flat_map in H. destruct H as ([rn' content] & Hin & H).
    apply in_flat_map in H. destruct H as ([d comps] & Hd & H).
    apply in_map_iff in H. destruct H as (c' & Heq & Hc).
    injection Heq as <- <-. exists content, d, comps. auto.
  - intros (content & d & comps & H1 & H2 & H3).
    apply in_flat_map. exists (rn, content). split; [exact H1|].
    apply in_flat_map. exists (d, comps). split; [exact H2|].
    apply in_map_iff. exists c. auto.
Qed.

Lemma adds_refl Q b : adds Q b b.
Proof. intros x Hx. left; exact Hx. Qed.

Lemma adds_trans Q a b c : adds Q a b -> adds Q b c -> adds Q a c.
Proof.
  intros H1 H2 x Hx. apply H2 in Hx. destruct Hx as [Hx|Hx]; [|right; exact Hx].
  apply H1 in Hx. exact Hx.
Qed.

Lemma adds_weaken (Q Q' : string * comp_item -> Prop) b b' :
  (forall x, Q x -> Q' x) -> adds Q b b' -> adds Q' b b'.
Proof. intros HQ H x Hx. apply H in Hx. destruct Hx; auto. Qed.

Lemma adds_reset Q rn b : adds Q b (reset_repo rn b).
Proof.
  intros [rn' c] Hx. left. cbn in Hx. apply items_In in Hx.
  destruct Hx as (content & d & comps & H1 & H2 & H3).
  apply dict_set_In in H1. destruct H1 as [[_ ->]|H1]; [destruct H2|].
  apply items_In. exists content, d, comps. auto.
Qed.

(** The [try]/[except KeyError] block adds one item and keeps the others. *)
Lemma record_component_adds rn d n s b w b' w' :
  record_component rn d n s b w = (Ok b', w') ->
  w' = w /\ adds (fun x => exists br, x = (rn, (n, s, br))) b b'.
Proof.
  unfold record_component, bind, gets, get_component_branch; cbn.
  destruct (dict_get rn (components_info b)) as [r|] eqn:Hr; cbn;
    [|discriminate].
  intros H; inversion H; subst. split; [reflexivity|].
  intros [rn' c] Hx. cbn in Hx. apply items_In in Hx.
  destruct Hx as (content & d' & comps & H1 & H2 & H3).
  apply dict_get_In in Hr.
  apply dict_set_In in H1. destruct H1 as [[-> ->]|H1].
  - apply dict_set_In in H2. destruct H2 as [[-> ->]|H2].
    + destruct (dict_get d r) as [l|] eqn:Hl.
      * apply in_app_or in H3. destruct H3 as [H3|[H3|[]]].
        -- left. apply items_In. exists r, d, l.
           apply dict_get_In in Hl. auto.
        -- right. subst c. eexists; reflexivity.
      * destruct H3 as [H3|[]]. right. subst c. eexists; reflexivity.
    + left. apply items_In. exists r, d', comps. auto.
  - left. apply items_In. exists content, d', comps. auto.
Qed.

Lemma adds_add_skipped_component Q i b : adds Q b (add_skipped_component i b).
Proof. intros x Hx. left; exact Hx. Qed.

Lemma adds_add_overridden_component Q c b :
  adds Q b (add_overridden_component c b).
Proof. intros x Hx. left; exact Hx. Qed.

Lemma adds_add_overridden_repo Q r b : adds Q b (add_overridden_repo r b).
Proof. intros x Hx. left; exact Hx. Qed.

Lemma adds_add_skipped_repo Q r b : adds Q b (add_skipped_repo r b).
Proof. intros x Hx. left; exact Hx. Qed.

Lemma adds_if_overridden Q (c : bool) r b b1 :
  adds Q b b1 -> adds Q b (if c then add_overridden_repo r b1 else b1).
Proof. destruct c; [|auto]. intros H x Hx. exact (H x Hx). Qed.

Lemma fold_left_adds Q (f : bulk -> string * string -> bulk) xs :
  (forall b x, adds Q b (f b x)) -> forall b, adds Q b (fold_left f xs b).
Proof.
  intros Hf. induction xs as [|x xs IH]; intros b; cbn.
  - apply adds_refl.
  - eapply adds_trans; [apply Hf|apply IH].
Qed.

(** An item of [rn] for one of [comps], whatever its sha. *)
Lemma bulk_component_adds rn dc b d n w b' w' :
  bulk_component rn dc b (d, n) w = (Ok b', w') ->
  w' = w /\ adds (fun x => exists s br, x = (rn, (n, s, br))) b b'.
Proof.
  unfold bulk_component, bind at 1 2, gets; cbn.
  assert (G : forall s b0 w0 b1 w1,
             record_component rn d n s b0 w0 = (Ok b1, w1) ->
             w1 = w0
             /\ adds (fun x => exists s br, x = (rn, (n, s, br))) b0 b1).
  { intros s b0 w0 b1 w1 H. apply record_component_adds in H.
    destruct H as [Hw H]. split; [exact Hw|].
    eapply adds_weaken; [|exact H]. intros x [br ->]. eauto. }
  destruct (dict_get n dc) as [[|[]|s| | |]|]; cbn; try discriminate;
    try apply G.
  - intros H; inversion H; subst. split; [reflexivity|].
    apply adds_add_skipped_component.
  - intros H. apply bind_inv_Ok in H. destruct H as (b1 & w1 & H1 & H2).
    apply G in H1. destruct H1 as [Hw HT]. subst w1.
    cbn in H2. injection H2 as Hb Hw. subst b' w'. split; [reflexivity|].
    destruct (is_some (sha (args w))); [|exact HT].
    intros x Hx. exact (HT x Hx).
Qed.

Lemma bulk_dir_adds rn comps rc b d w b' w' :
  bulk_dir rn comps rc b d w = (Ok b', w') ->
  w' = w
  /\ adds (fun x => exists d n s br, In (d, n) comps /\ x = (rn, (n, s, br)))
       b b'.
Proof.
  set (Q := fun x : string * comp_item =>
              exists d n s br, In (d, n) comps /\ x = (rn, (n, s, br))).
  unfold bulk_dir, bind at 1, gets; cbn.
  destruct (dict_get d rc) as [[|[]|s| | |dc]|]; cbn; try discriminate;
    try (intros H; inversion H; subst; split; [reflexivity|apply adds_refl]).
  - intros H; inversion H; subst. split; [reflexivity|].
    apply fold_left_adds. intros b0 x.
    destruct (String.eqb (fst x) d);
      [apply adds_add_skipped_component|apply adds_refl].
  - intros H. apply bind_inv_Ok in H. destruct H as (b1 & w1 & H1 & H2).
    apply (fold_M_pure_inv (adds Q)) in H1;
      [|apply adds_refl|apply adds_trans|].
    + destruct H1 as [Hw HT]. subst w1. cbn in H2.
      injection H2 as Hb Hw. subst b' w'. split; [reflexivity|].
      eapply adds_trans; [apply adds_reset|].
      apply adds_if_overridden. exact HT.
    + intros s0 [d0 n0] w0 s1 w2 Hin. cbn [fst snd].
      destruct (String.eqb d d0).
      * intros H0. apply record_component_adds in H0. destruct H0 as [Hw H0].
        split; [exact Hw|]. eapply adds_weaken; [|exact H0].
        intros x [br ->]. exists d0, n0, (Some s), br. auto.
      * cbn. intros H0; inversion H0; subst.
        split; [reflexivity|apply adds_refl].
  - intros H.
    apply (fold_M_pure_inv (adds Q)) in H;
      [|apply adds_refl|apply adds_trans|].
    + destruct H as [Hw HT]. subst w'. split; [reflexivity|].
      eapply adds_trans; [apply adds_reset|exact HT].
    + intros s0 [d0 n0] w0 s1 w2 Hin H0.
      apply bulk_component_adds in H0. destruct H0 as [Hw H0].
      split; [exact Hw|]. eapply adds_weaken; [|exact H0].
      intros x (s & br & ->). exists d0, n0, s, br. auto.
Qed.

(** Lines 381-529: what one repository adds to the plan. *)
Lemma bulk_repo_adds E b rn comps w b' w' :
  bulk_repo E b (rn, comps) w = (Ok b', w') ->
  w' = w
  /\ adds (item_of rn comps (dict_get rn (update_config w)) (sha (args w)))
       b b'.
Proof.
  unfold bulk_repo, bind at 1 2, gets; cbn.
  assert (G : forall entry s,
             (forall c, entry = Some (VStr c) -> s = Some c) ->
             (entry = None \/ entry = Some (VBool true) -> s = sha (args w)) ->
             forall b0 w0 b1 w1,
               fold_M comps
                 (fun b dc => record_component rn (fst dc) (snd dc) s b)
                 b0 w0 = (Ok b1, w1) ->
               w1 = w0 /\ adds (item_of rn comps entry (sha (args w))) b0 b1).
  { intros entry s Hpin Hcli b0 w0 b1 w1 H.
    apply (fold_M_pure_inv (adds (item_of rn comps entry (sha (args w)))))
      in H; [exact H|apply adds_refl|apply adds_trans|].
    intros s0 [d0 n0] w2 s1 w3 Hin H1. cbn [fst snd] in H1.
    apply record_component_adds in H1. destruct H1 as [Hw H1].
    split; [exact Hw|]. eapply adds_weaken; [|exact H1].
    intros x [br ->]. exists d0, n0, s, br. auto. }
  destruct (dict_get rn (update_config w)) as [[|[]|s| | |rc]|] eqn:Hcfg; cbn;
    try discriminate.
  - intros H. apply (G (Some (VBool true)) (sha (args w))) in H.
    + destruct H as [Hw HT]. split; [exact Hw|].
      eapply adds_trans; [apply adds_reset|exact HT].
    + discriminate.
    + reflexivity.
  - intros H. injection H as Hb Hw. subst b' w'. split; [reflexivity|].
    apply adds_add_skipped_repo.
  - intros H. apply bind_inv_Ok in H. destruct H as (b1 & w1 & H1 & H2).
    apply (G (Some (VStr s)) (Some s)) in H1.
    + destruct H1 as [Hw HT]. subst w1. cbn in H2.
      injection H2 as Hb Hw. subst b' w'. split; [reflexivity|].
      eapply adds_trans; [apply adds_reset|].
      apply adds_if_overridden. exact HT.
    + intros c Hc. injection Hc as ->. reflexivity.
    + intros [Hc|Hc]; discriminate.
  - intros H.
    apply (fold_M_pure_inv
             (adds (item_of rn comps (Some (VDict rc)) (sha (args w))))) in H;
      [exact H|apply adds_refl|apply adds_trans|].
    intros s0 x w0 s1 w2 _ H1. apply bulk_dir_adds in H1.
    destruct H1 as [Hw H1]. split; [exact Hw|].
    eapply adds_weaken; [|exact H1].
    intros y (d & n & s & br & Hin & ->). exists d, n, s, br.
    split; [exact Hin|]. split; [reflexivity|].
    split; [discriminate|intros [Hc|Hc]; discriminate].
  - intros H. apply (G None (sha (args w))) in H.
    + destruct H as [Hw HT]. split; [exact Hw|].
      eapply adds_trans; [apply adds_reset|exact HT].
    + discriminate.
    + reflexivity.
Qed.

(** Lines 381-529: every planned item comes from an installed component
    and carries the sha its repository's entry asks for. *)
Lemma bulk_repos_planned E all0 all :
  (forall rc, In rc all -> In rc all0) ->
  forall b w b' w',
    fold_M all (bulk_repo E) b w = (Ok b', w') ->
    (forall x, In x (components_info_items (components_info b)) ->
               planned_from (update_config w) (sha (args w)) all0 x) ->
    w' = w
    /\ forall x, In x (components_info_items (components_info b')) ->
                 planned_from (update_config w) (sha (args w)) all0 x.
Proof.
  induction all as [|[rn comps] all IH]; intros Hsub b w b' w' H Hinv.
  - cbn in H. injection H as <- <-. auto.
  - cbn in H. apply bind_inv_Ok in H. destruct H as (b1 & w1 & H1 & H2).
    apply bulk_repo_adds in H1. destruct H1 as [Hw Hadd]. subst w1.
    apply (IH (fun rc Hrc => Hsub rc (or_intror Hrc)) b1 w b' w' H2).
    intros x Hx. apply Hadd in Hx. destruct Hx as [Hx|Hx]; [auto|].
    assert (Hf : fst x = rn)
      by (destruct Hx as (d & n & s & br & _ & -> & _); reflexivity).
    exists comps. rewrite Hf. split; [|exact Hx].
    apply Hsub. left; reflexivity.
Qed.

Lemma rb_key_eqb_eq a b : rb_key_eqb a b = true -> a = b.
Proof.
  destruct a as [u x], b as [v y]. unfold rb_key_eqb; cbn. intros H.
  apply andb_prop in H. destruct H as [H1 H2].
  apply String.eqb_eq in H1. apply opt_str_eqb_eq in H2. now subst.
Qed.

Lemma rb_add_In k x g k' l' y :
  In (k', l') (rb_add k x g) -> In y l' ->
  (k' = k /\ y = x) \/ exists l'', In (k', l'') g /\ In y l''.
Proof.
  induction g as [|[k0 l0] g IH]; cbn.
  - intros [H|[]] Hy. injection H as <- <-. destruct Hy as [Hy|[]].
    left; split; [reflexivity|symmetry; exact Hy].
  - destruct (rb_key_eqb k k0) eqn:Hk.
    + apply rb_key_eqb_eq in Hk. subst k0. intros [H|H] Hy.
      * injection H as <- <-. apply in_app_or in Hy.
        destruct Hy as [Hy|[Hy|[]]].
        -- right. exists l0. split; [left; reflexivity|exact Hy].
        -- left. split; [reflexivity|symmetry; exact Hy].
      * right. exists l'. split; [right; exact H|exact Hy].
    + intros [H|H] Hy.
      * injection H as <- <-. right. exists l0.
        split; [left; reflexivity|exact Hy].
      * destruct (IH H Hy) as [Hl|(l'' & H1 & H2)]; [left; exact Hl|].
        right. exists l''. split; [right; exact H1|exact H2].
Qed.

(** Lines 553-561: each pair under a key comes from a planned item of that
    repository; the branch of the key is the [branch] argument when there
    is one, else the branch on record. *)
Lemma repos_and_branches_In br ci k cs c s :
  In (k, cs) (repos_and_branches br ci) -> In (c, s) cs ->
  exists br0,
    In (fst k, (c, s, br0)) (components_info_items ci)
    /\ snd k = if is_some br then br else br0.
Proof.
  unfold repos_and_branches.
  set (P := fun (k : rb_key) (y : string * option string) =>
              exists br0,
                In (fst k, (fst y, snd y, br0)) (components_info_items ci)
                /\ snd k = if is_some br then br else br0).
  assert (G : forall items g,
             (forall x, In x items -> In x (components_info_items ci)) ->
             (forall k l y, In (k, l) g -> In y l -> P k y) ->
             forall k l y,
               In (k, l)
                 (fold_left
                    (fun g '(repo_name, (comp, sha', comp_branch)) =>
                       let comp_branch' :=
                         if is_some br then br else comp_branch in
                       rb_add (repo_name, comp_branch') (comp, sha') g)
                    items g) ->
               In y l -> P k y).
  { induction items as [|[rn [[c0 s0] b0]] items IH]; intros g Hi Hg k0 l y.
    - cbn. apply Hg.
    - cbn [fold_left]. apply IH.
      + intros x Hx. apply Hi. right; exact Hx.
      + intros k1 l1 y1 H1 Hy1. cbv zeta in H1.
        destruct (rb_add_In _ _ _ _ _ _ H1 Hy1) as [[-> ->]|(l'' & H2 & H3)].
        * exists b0. split; [|reflexivity]. apply Hi. left; reflexivity.
        * exact (Hg _ _ _ H2 H3). }
  intros H Hy.
  exact (G (components_info_items ci) [] (fun x Hx => Hx)
           (fun k l y (H0 : In (k, l) []) => match H0 with end)
           k cs (c, s) H Hy).
Qed.

(** Lines 563-572 never raise: a repository that cannot be set up is left
    out.  Every object made serves the url of its key. *)
Lemma create_repos_total E rb :
  forall acc w,
  exists objs w',
    fold_M rb (create_repo E) acc w = (Ok objs, w')
    /\ logs_only w w'
    /\ forall r cs, In (r, cs) objs ->
         In (r, cs) acc
         \/ exists kb,
              In ((remote_url r, kb), cs) rb
              /\ registry_probe E (remote_url r) kb
                 = Some (branch r, repo_path r).
Proof.
  induction rb as [|[[url kb] cs0] rb IH]; intros acc w.
  - exists acc, w. split; [reflexivity|]. split; [apply logs_only_refl|auto].
  - cbn [fold_M].
    assert (Hstep : exists acc1 w1,
               create_repo E acc (url, kb, cs0) w = (Ok acc1, w1)
               /\ logs_only w w1
               /\ forall r cs, In (r, cs) acc1 ->
                    In (r, cs) acc
                    \/ (r = {| remote_url := url; branch := branch r;
                               repo_path := repo_path r |}
                        /\ cs = cs0
                        /\ registry_probe E url kb
                           = Some (branch r, repo_path r))).
    { unfold create_repo, try_except, ModulesRepo_init, bind, gets, log,
        modify, raise, ret; cbn.
      destruct (registry_probe E url kb) as [[b rp]|] eqn:Hp; cbn.
      - eexists _, w. split; [reflexivity|]. split; [apply logs_only_refl|].
        intros r cs Hin. apply in_app_or in Hin.
        destruct Hin as [Hin|[Hin|[]]]; [left; exact Hin|].
        injection Hin as <- <-. right. cbn. auto.
      - eexists acc, _. split; [reflexivity|].
        split; [unfold logs_only; destruct w; reflexivity|auto]. }
    destruct Hstep as (acc1 & w1 & H1 & L1 & I1).
    destruct (IH acc1 w1) as (objs & w' & H2 & L2 & I2).
    exists objs, w'. split; [erewrite bind_Ok; [exact H2|exact H1]|].
    split; [exact (logs_only_trans L1 L2)|].
    intros r cs Hin. apply I2 in Hin.
    destruct Hin as [Hin|(kb' & Hk & Hp)].
    + apply I1 in Hin. destruct Hin as [Hin|(Hr & -> & Hp)]; [left; exact Hin|].
      right. exists kb. rewrite Hr. cbn [remote_url branch repo_path].
      split; [left; reflexivity|exact Hp].
    + right. exists kb'. split; [right; exact Hk|exact Hp].
Qed.

(** Lines 579-593: the loop keeps, in order, the entries whose component
    and sha the repository has. *)
Lemma verify_entries_keeps E l :
  forall w,
  exists kept w',
    verify_entries E l w = (Ok kept, w')
    /\ logs_only w w'
    /\ forall repo name sha',
         In (repo, name, sha') kept ->
         In (repo, name, sha') l
         /\ component_exists E repo name (component_type w) = true
         /\ forall s, sha' = Some s -> sha_exists_on_branch E repo s = true.
Proof.
  induction l as [|[[repo name] sha'] l IH]; intros w.
  - exists [], w. split; [reflexivity|]. split; [apply logs_only_refl|].
    intros ? ? ? [].
  - cbn [verify_entries]. rewrite bind_gets.
    assert (Lw : forall t, logs_only w (set_logs (logs w ++ [t]) w))
      by (intros t; unfold logs_only; destruct w; reflexivity).
    destruct (component_exists E repo name (component_type w)) eqn:Hex;
      cbn [negb].
    + destruct (match sha' with
                | Some s => negb (sha_exists_on_branch E repo s)
                | None => false
                end) eqn:Hsha.
      * rewrite bind_log.
        destruct (IH (set_logs (logs w ++ [(WARNING, TxtShaNotOnBranch
                     match sha' with Some s => s | None => "" end
                     (branch repo) (remote_url repo) (component_type w) name)])
                     w)) as (kept & w' & H & L & I).
        exists kept, w'. split; [exact H|].
        split; [exact (logs_only_trans (Lw _) L)|].
        intros r n s Hin. destruct (I r n s Hin) as (H1 & H2 & H3).
        split; [right; exact H1|]. split; [exact H2|exact H3].
      * destruct (IH w) as (kept & w' & H & L & I).
        exists ((repo, name, sha') :: kept), w'.
        split; [erewrite bind_Ok; [reflexivity|exact H]|].
        split; [exact L|].
        intros r n s [Hin|Hin].
        -- injection Hin as <- <- <-. split; [left; reflexivity|].
           split; [exact Hex|]. intros s0 ->.
           apply negb_false_iff in Hsha. exact Hsha.
        -- destruct (I r n s Hin) as (H1 & H2 & H3).
           split; [right; exact H1|]. split; [exact H2|exact H3].
    + rewrite bind_log.
      destruct (IH (set_logs (logs w ++ [(WARNING, TxtComponentMissing
                   (component_type w) name (remote_url repo))]) w))
        as (kept & w' & H & L & I).
      exists kept, w'. split; [exact H|].
      split; [exact (logs_only_trans (Lw _) L)|].
      intros r n s Hin. destruct (I r n s Hin) as (H1 & H2 & H3).
      split; [right; exact H1|]. split; [exact H2|exact H3].
Qed.

(** Lines 596-599. *)
Lemma attach_patches_eq l w :
  attach_patches l w
  = (Ok (map (fun '(repo, name, sha') =>
                (repo, name, sha',
                 entry_patch_of w (repo, name, sha', None))) l), w).
Proof.
  induction l as [|[[repo name] sha'] l IH]; [reflexivity|].
  cbn [attach_patches map]. unfold get_patch_fn. rewrite bind_gets.
  erewrite bind_Ok; [|exact IH]. reflexivity.
Qed.

Ltac logs_frame :=
  repeat first [apply logs_only_log
               | frame_step logs_only_refl logs_only_trans].

Lemma record_component_logs_only rn d n s b :
  preserves logs_only (record_component rn d n s b).
Proof. unfold record_component, get_component_branch. logs_frame. Qed.

Lemma bulk_component_logs_only rn dc b x :
  preserves logs_only (bulk_component rn dc b x).
Proof.
  destruct x as [d n]. unfold bulk_component.
  repeat first [apply record_component_logs_only | logs_frame].
Qed.

Lemma bulk_dir_logs_only rn comps rc b d :
  preserves logs_only (bulk_dir rn comps rc b d).
Proof.
  unfold bulk_dir.
  repeat first
    [ apply (preserves_fold_M logs_only_refl logs_only_trans); intros ? ?
    | apply record_component_logs_only
    | apply bulk_component_logs_only
    | logs_frame ].
Qed.

Lemma bulk_repo_logs_only E b rc : preserves logs_only (bulk_repo E b rc).
Proof.
  destruct rc as [rn comps]. unfold bulk_repo.
  repeat first
    [ apply (preserves_fold_M logs_only_refl logs_only_trans); intros ? ?
    | apply record_component_logs_only
    | apply bulk_dir_logs_only
    | logs_frame ].
Qed.

Lemma bulk_summaries_logs_only b : preserves logs_only (bulk_summaries b).
Proof. unfold bulk_summaries. logs_frame. Qed.

Lemma create_repo_logs_only E acc kc : preserves logs_only (create_repo E acc kc).
Proof.
  destruct kc as [[url kb] cs]. unfold create_repo, ModulesRepo_init.
  apply (preserves_bind logs_only_trans); [logs_frame|]. intros ctype.
  apply (preserves_try_except logs_only_trans); [logs_frame|].
  intros e. logs_frame.
Qed.

Lemma verify_entries_logs_only E l : preserves logs_only (verify_entries E l).
Proof.
  induction l as [|[[repo name] sha'] l IH]; cbn [verify_entries].
  - logs_frame.
  - repeat first [exact IH | logs_frame].
Qed.

Lemma attach_patches_logs_only l : preserves logs_only (attach_patches l).
Proof.
  intros w r w' H. rewrite attach_patches_eq in H. injection H as _ <-.
  apply logs_only_refl.
Qed.

Lemma get_all_components_info_logs_only E br :
  preserves logs_only (get_all_components_info E br).
Proof.
  unfold get_all_components_info, get_all_components.
  repeat first
    [ apply (preserves_fold_M logs_only_refl logs_only_trans); intros ? ?
    | apply bulk_repo_logs_only
    | apply bulk_summaries_logs_only
    | apply create_repo_logs_only
    | apply verify_entries_logs_only
    | apply attach_patches_logs_only
    | logs_frame ].
Qed.

Lemma logs_only_fields w w' :
  logs_only w w' ->
  args w' = args w /\ component_type w' = component_type w
  /\ modules_repo w' = modules_repo w
  /\ update_config w' = update_config w
  /\ mj w' = mj w /\ mj_disk w' = mj_disk w /\ fs w' = fs w
  /\ inputs w' = inputs w /\ calls w' = calls w.
Proof. unfold logs_only. intros ->. destruct w; cbn. repeat split. Qed.

(** X6.  Lines 358-601.  Building the plan of a bulk update changes nothing
    but the log, whether it returns or raises: no file, no state of
    [modules.json], no option, and no answer of the user is taken, not even
    when a branch is given, since the confirmation of line 368 is built but
    never asked. *)
Theorem bulk_plan_only_logs E br w r w' :
  get_all_components_info E br w = (r, w') ->
  w' = set_logs (logs w') w
  /\ inputs w' = inputs w /\ fs w' = fs w
  /\ mj w' = mj w /\ mj_disk w' = mj_disk w
  /\ modules_repo w' = modules_repo w.
Proof.
  intros H. apply get_all_components_info_logs_only in H.
  split; [exact H|].
  destruct (logs_only_fields H) as (_ & _ & H3 & _ & H5 & H6 & H7 & H8 & _).
  auto.
Qed.

Lemma bulk_plan_only_logs_witness :
  let E := ex_env ex_bulk_catalog (fun _ _ => None) in
  let w := set_inputs (ex_inputs [true] []) (ex_bulk_world []) in
  let run := get_all_components_info E (Some "dev") w in
  fst run = Ok [(on_branch "dev" ex_repo, "fastqc", None, None);
                (on_branch "dev" ex_lab_repo, "trim", None, None)]
  /\ snd run = set_logs (logs (snd run)) w
  /\ inputs (snd run) = inputs w /\ fs (snd run) = fs w
  /\ mj (snd run) = mj w /\ mj_disk (snd run) = mj_disk w
  /\ modules_repo (snd run) = modules_repo w.
Proof.
  intros E w run. split; [reflexivity|].
  apply (@bulk_plan_only_logs E (Some "dev") w (fst run) (snd run)).
  apply surjective_pairing.
Defined.

(** Lines 358-601: where each entry of the plan comes from. *)
Lemma bulk_plan_entries E br w plan w' :
  get_all_components_info E br w = (Ok plan, w') ->
  forall repo name sha' patch',
    In (repo, name, sha', patch') plan ->
    exists br0,
      planned_from (update_config w) (sha (args w))
        (all_components_of (mj w) (component_type w))
        (remote_url repo, (name, sha', br0))
      /\ registry_probe E (remote_url repo) (if is_some br then br else br0)
         = Some (branch repo, repo_path repo)
      /\ component_exists E repo name (component_type w) = true
      /\ (forall s, sha' = Some s -> sha_exists_on_branch E repo s = true)
      /\ patch' = entry_patch_of w (repo, name, sha', patch').
Proof.
  intros H repo name sha' patch' Hin.
  unfold get_all_components_info, get_all_components in H.
  rewrite !bind_gets in H.
  apply bind_inv_Ok in H. destruct H as (b & w1 & Hb & H).
  apply (@bulk_repos_planned E (all_components_of (mj w) (component_type w)))
    in Hb; [|auto|intros x []].
  destruct Hb as [-> Hinv].
  apply bind_inv_Ok in H. destruct H as (u & w2 & Hs & H).
  apply bulk_summaries_logs_only in Hs.
  destruct (create_repos_total E
              (repos_and_branches br (components_info b)) [] w2)
    as (objs & w3 & Hc & L3 & I3).
  erewrite bind_Ok in H; [|exact Hc].
  match type of H with
  | bind (verify_entries E ?flat) _ _ = _ =>
      destruct (verify_entries_keeps E flat w3) as (kept & w4 & Hv & L4 & I4)
  end.
  erewrite bind_Ok in H; [|exact Hv].
  rewrite attach_patches_eq in H. injection H as <- <-.
  apply in_map_iff in Hin. destruct Hin as ([[r n] s] & Heq & Hk).
  injection Heq as <- <- <- <-.
  assert (L : logs_only w w4)
    by exact (logs_only_trans (logs_only_trans Hs L3) L4).
  destruct (logs_only_fields L) as (_ & _ & _ & _ & M4 & _).
  destruct (logs_only_fields (logs_only_trans Hs L3)) as (_ & C3 & _).
  destruct (I4 _ _ _ Hk) as (Hflat & Hex & Hsha).
  apply in_flat_map in Hflat. destruct Hflat as ([r0 cs] & Ho & Hcs).
  apply in_map_iff in Hcs. destruct Hcs as ([c0 s0] & Heq & Hcs).
  injection Heq as <- <- <-.
  destruct (I3 _ _ Ho) as [[]|(kb & Hrb & Hp)].
  destruct (repos_and_branches_In _ _ _ _ _ _ Hrb Hcs) as (br0 & Hit & Hkb).
  cbn [fst snd] in Hit, Hkb. exists br0.
  split; [exact (Hinv _ Hit)|]. split; [rewrite <- Hkb; exact Hp|].
  split; [rewrite <- C3; exact Hex|]. split; [exact Hsha|].
  unfold entry_patch_of. rewrite M4. reflexivity.
Qed.

(** X7.  Lines 358-601.  Every entry of a bulk plan is sound: its component
    is installed from the repository of the entry, that repository could be
    set up (on the [branch] argument when one is given), the component
    exists there and so does a pinned sha, and the patch is the one on
    record. *)
Theorem bulk_plan_sound E br w plan w' :
  get_all_components_info E br w = (Ok plan, w') ->
  forall e, In e plan ->
    let url := remote_url (entry_repo e) in
    let ctype := component_type w in
    (exists comps d,
        In (url, comps) (all_components_of (mj w) ctype)
        /\ In (d, entry_name e) comps)
    /\ (exists kb,
          registry_probe E url kb
          = Some (branch (entry_repo e), repo_path (entry_repo e))
          /\ forall b, br = Some b -> kb = Some b)
    /\ component_exists E (entry_repo e) (entry_name e) ctype = true
    /\ (forall s, entry_sha e = Some s ->
                  sha_exists_on_branch E (entry_repo e) s = true)
    /\ entry_patch e = entry_patch_of w e.
Proof.
  intros H [[[repo name] sha'] patch'] Hin url ctype.
  destruct (bulk_plan_entries _ _ _ H _ _ _ _ Hin)
    as (br0 & (comps & Hall & Hitem) & Hp & Hex & Hsha & Hpatch).
  cbn [entry_repo entry_name entry_sha entry_patch] in *.
  cbn [fst] in Hall, Hitem.
  destruct Hitem as (d & n & s & br1 & Hd & Heq & _).
  injection Heq as <- <- <-.
  split; [exists comps, d; auto|].
  split; [|auto].
  eexists. split; [exact Hp|]. intros b ->. reflexivity.
Qed.

Lemma bulk_plan_sound_witness :
  let E := ex_env ex_bulk_catalog (fun _ _ => None) in
  let w := ex_bulk_world [] in
  fst (get_all_components_info E None w)
  = Ok [(ex_repo, "fastqc", None, None); (ex_lab_repo, "trim", None, None)]
  /\ Forall (fun e =>
       (exists comps d,
           In (remote_url (entry_repo e), comps)
             (all_components_of (mj w) "modules")
           /\ In (d, entry_name e) comps)
       /\ (exists kb,
             registry_probe E (remote_url (entry_repo e)) kb
             = Some (branch (entry_repo e), repo_path (entry_repo e))
             /\ forall b, @None string = Some b -> kb = Some b)
       /\ component_exists E (entry_repo e) (entry_name e) "modules" = true
       /\ (forall s, entry_sha e = Some s ->
                     sha_exists_on_branch E (entry_repo e) s = true)
       /\ entry_patch e = entry_patch_of w e)
      [(ex_repo, "fastqc", @None string, @None path);
       (ex_lab_repo, "trim", None, None)].
Proof.
  intros E w. split; [reflexivity|].
  apply Forall_forall. intros e He.
  apply (@bulk_plan_sound E None w _ (snd (get_all_components_info E None w))
           eq_refl e He).
Defined.

(** X8.  Lines 381-405 and 499-525.  In a bulk plan, a string given for a
    repository in the [update:] block is the sha of every entry of that
    repository, whatever [--sha] says; for a repository without an entry,
    or with [true], every entry carries the [--sha] of the command line. *)
Theorem bulk_repo_level_pin E br w plan w' :
  get_all_components_info E br w = (Ok plan, w') ->
  forall e, In e plan ->
    let entry := dict_get (remote_url (entry_repo e)) (update_config w) in
    (forall c, entry = Some (VStr c) -> entry_sha e = Some c)
    /\ (entry = None \/ entry = Some (VBool true) ->
        entry_sha e = sha (args w)).
Proof.
  intros H [[[repo name] sha'] patch'] Hin entry.
  destruct (bulk_plan_entries _ _ _ H _ _ _ _ Hin)
    as (br0 & (comps & Hall & Hitem) & _).
  cbn [entry_repo entry_sha] in *. cbn [fst] in Hitem.
  destruct Hitem as (d & n & s & br1 & Hd & Heq & Hpin & Hcli).
  injection Heq as <- <- <-. split; [exact Hpin|exact Hcli].
Qed.

Lemma bulk_repo_level_pin_witness :
  let E := ex_env ex_bulk_catalog (fun _ _ => None) in
  let w := ex_bulk_world_sha "abc123" [(ex_url, VStr "def456")] in
  fst (get_all_components_info E None w)
  = Ok [(ex_repo, "fastqc", Some "def456", None);
        (ex_lab_repo, "trim", Some "abc123", None)]
  /\ forall e, In e [(ex_repo, "fastqc", Some "def456", @None path);
                     (ex_lab_repo, "trim", Some "abc123", None)] ->
       (forall c, dict_get (remote_url (entry_repo e)) (update_config w)
                  = Some (VStr c) -> entry_sha e = Some c)
       /\ (dict_get (remote_url (entry_repo e)) (update_config w) = None
           \/ dict_get (remote_url (entry_repo e)) (update_config w)
              = Some (VBool true) ->
           entry_sha e = sha (args w)).
Proof.
  intros E w. split; [reflexivity|].
  apply (@bulk_repo_level_pin E None w _
           (snd (get_all_components_info E None w))).
  reflexivity.
Defined.

Lemma bulk_repo_malformed E b rn comps w v :
  dict_get rn (update_config w) = Some v ->
  repo_entry_malformed v = true ->
  bulk_repo E b (rn, comps) w
  = (Err (Exn UserWarning (TxtInvalidRepoEntry rn)), w).
Proof.
  intros Hv Hm. unfold bulk_repo. rewrite !bind_gets, Hv.
  destruct v as [|[]| | | |]; try discriminate; reflexivity.
Qed.

Lemma bulk_repos_malformed E repo v all :
  forall b w,
    dict_get repo (update_config w) = Some v ->
    repo_entry_malformed v = true ->
    In repo (dict_keys all) ->
    exists e w', fold_M all (bulk_repo E) b w = (Err e, w').
Proof.
  induction all as [|[rn comps] all IH]; intros b w Hv Hm Hin; [destruct Hin|].
  cbn [fold_M]. unfold bind.
  destruct (bulk_repo E b (rn, comps) w) as [[b1|e] w1] eqn:Hstep.
  - destruct (String.eqb_spec rn repo) as [->|Hne].
    + rewrite (@bulk_repo_malformed E b repo comps w v Hv Hm) in Hstep.
      discriminate.
    + apply bulk_repo_step in Hstep. destruct Hstep as [-> _].
      apply IH; [exact Hv|exact Hm|].
      destruct Hin as [Hin|Hin]; [destruct (Hne Hin)|exact Hin].
  - eauto.
Qed.

(** X9.  Lines 381-382 and 526-529.  A bulk update does not go on with an
    entry of a wrong kind for a repository it has components of: when the
    [update:] block gives such a repository a null, a number or a list, no
    plan is returned; and when that repository is the first one in
    [modules.json], the exception is the [UserWarning] of line 529, raised
    with nothing changed. *)
Theorem bulk_malformed_repo_entry E br w repo v :
  let all := all_components_of (mj w) (component_type w) in
  In repo (dict_keys all) ->
  dict_get repo (update_config w) = Some v ->
  repo_entry_malformed v = true ->
  (exists e w', get_all_components_info E br w = (Err e, w'))
  /\ forall comps rest,
       all = (repo, comps) :: rest ->
       get_all_components_info E br w
       = (Err (Exn UserWarning (TxtInvalidRepoEntry repo)), w).
Proof.
  intros all Hin Hv Hm.
  unfold get_all_components_info, get_all_components.
  rewrite !bind_gets. fold all. split.
  - destruct (@bulk_repos_malformed E repo v all bulk_init w Hv Hm Hin)
      as (e & w' & H).
    exists e, w'. erewrite bind_Err; [reflexivity|exact H].
  - intros comps rest ->. cbn [fold_M].
    erewrite bind_Err; [reflexivity|].
    erewrite bind_Err; [reflexivity|].
    apply (@bulk_repo_malformed E bulk_init repo comps w v Hv Hm).
Qed.

Lemma bulk_malformed_repo_entry_witness :
  let E := ex_env ex_bulk_catalog (fun _ _ => None) in
  let w := ex_bulk_world [(ex_url, VNone)] in
  get_all_components_info E None w
  = (Err (Exn UserWarning (TxtInvalidRepoEntry ex_url)), w).
Proof.
  intros E w.
  apply (proj2 (@bulk_malformed_repo_entry E None w ex_url VNone
                  (or_introl eq_refl) eq_refl eq_refl)
           [("nf-core", "fastqc")]
           [(ex_lab_url, [("nf-core", "trim")])]).
  reflexivity.
Defined.

(* ===================================================================== *)
(** * Installing an entry *)
(* ===================================================================== *)

Lemma fs_del_in_subtree t p r c :
  fs_get t p = Some c -> r <> [] ->
  fs_del t (p ++ r) =
  match fs_del c r with
  | Some c' => fs_put false t p c'
  | None => None
  end.
Proof.
  revert t c; induction p as [|x p IH]; intros t c H Hr.
  - simpl in H. injection H as <-. simpl. destruct (fs_del t r); auto.
  - destruct t as [s|es]; simpl in H; [discriminate|].
    destruct (dict_get x es) as [c0|] eqn:G; [|discriminate].
    simpl. rewrite G.
    assert (N : is_nil (p ++ r) = false)
      by (destruct p; [destruct r; [congruence|reflexivity]|reflexivity]).
    rewrite N, (IH c0 c H Hr).
    destruct (fs_del c r) as [c'|]; reflexivity.
Qed.

(** Unlinking below an existing node replaces that node and leaves the
    paths apart from it alone. *)
Lemma fs_del_below t base c r c' :
  fs_get t base = Some c -> r <> [] ->
  fs_del c r = Some c' ->
  exists t',
    fs_del t (base ++ r) = Some t'
    /\ fs_get t' base = Some c'
    /\ forall q, apart base q -> fs_get t' q = fs_get t q.
Proof.
  intros Hg Hr Hd. rewrite (fs_del_in_subtree t base Hg Hr), Hd.
  destruct (fs_put_replace false t base c' Hg) as [t' Ht']. exists t'.
  split; [assumption|]. split.
  - eapply fs_get_put_same; eassumption.
  - intros q Hq. eapply fs_get_put_apart; eassumption.
Qed.

Lemma dict_set_fresh {V} k (v : V) d :
  dict_get k d = None -> dict_set k v d = d ++ [(k, v)].
Proof.
  induction d as [|[k0 v0] d IH]; cbn; [reflexivity|].
  destruct (String.eqb k k0); [discriminate|].
  intros H. rewrite (IH H). reflexivity.
Qed.

Lemma dict_del_fresh {V} k (d : dict V) :
  ~ In k (dict_keys d) -> dict_del k d = d.
Proof.
  unfold dict_del. induction d as [|[k0 v0] d IH]; cbn; [reflexivity|].
  intros H. destruct (String.eqb_spec k k0) as [->|Hne].
  - destruct H. left; reflexivity.
  - cbn. rewrite IH; [reflexivity|]. intros Hin. apply H. right; exact Hin.
Qed.

Lemma dict_get_app_fresh {V} k (d : dict V) k0 v0 :
  dict_get k d = None -> k <> k0 -> dict_get k (d ++ [(k0, v0)]) = None.
Proof.
  intros Hd Hne. induction d as [|[k1 v1] d IH]; cbn in *.
  - destruct (String.eqb_spec k k0); [contradiction|reflexivity].
  - destruct (String.eqb k k1); [discriminate|]. auto.
Qed.

(** [shutil.move] of one entry of the directory [src] into the directory
    [dst], which has no entry of that name. *)
Lemma shutil_move_entry src dst f n rest done w :
  fs_get (fs w) src = Some (Dir ((f, n) :: rest)) ->
  ~ In f (dict_keys rest) ->
  fs_get (fs w) dst = Some (Dir done) ->
  dict_get f done = None ->
  apart src dst ->
  exists t',
    shutil_move (src ++ [f]) (dst ++ [f]) w = (Ok tt, set_fs t' w)
    /\ fs_get t' src = Some (Dir rest)
    /\ fs_get t' dst = Some (Dir (done ++ [(f, n)]))
    /\ forall q, apart src q -> apart dst q -> fs_get t' q = fs_get (fs w) q.
Proof.
  intros Hs Hf Hd Hn Hap.
  assert (Hsf : fs_get (fs w) (src ++ [f]) = Some n).
  { rewrite fs_get_app, Hs. cbn. rewrite String.eqb_refl. reflexivity. }
  assert (Hdf : fs_get (fs w) (dst ++ [f]) = None).
  { rewrite fs_get_app, Hd. cbn. rewrite Hn. reflexivity. }
  destruct (@fs_del_below (fs w) src (Dir ((f, n) :: rest)) [f] (Dir rest))
    as (t1 & D1 & G1 & F1); [exact Hs|discriminate| |].
  { cbn [fs_del dict_get is_nil]. rewrite String.eqb_refl.
    unfold dict_del at 1. cbn [filter fst]. rewrite String.eqb_refl.
    cbn [negb]. fold (dict_del f rest).
    rewrite (dict_del_fresh _ _ Hf). reflexivity. }
  assert (Hd1 : fs_get t1 dst = Some (Dir done))
    by (rewrite F1; [exact Hd|exact Hap]).
  destruct (@fs_put_below false t1 dst (Dir done) [f] n
              (Dir (done ++ [(f, n)])))
    as (t2 & P2 & G2 & F2); [exact Hd1| |].
  { cbn [fs_put]. rewrite Hn. cbn [is_nil orb].
    rewrite (dict_set_fresh _ _ _ Hn). reflexivity. }
  exists t2. split; [|split; [|split]].
  - unfold shutil_move. rewrite bind_gets, Hsf, bind_gets.
    unfold fs_is_dir. rewrite Hdf. unfold os_path_exists.
    rewrite bind_gets. unfold fs_exists. rewrite Hdf. cbn [andb].
    unfold fs_update. rewrite D1, P2. reflexivity.
  - rewrite F2; [exact G1|apply apart_sym; exact Hap].
  - exact G2.
  - intros q Hq1 Hq2. rewrite F2; [|exact Hq2]. apply F1. exact Hq1.
Qed.

(** Lines 649-652: the loop empties the staging directory into the new
    one, entry by entry and in order. *)
Lemma move_loop src dst :
  apart src dst ->
  forall rest done w,
    fs_get (fs w) src = Some (Dir rest) ->
    NoDup (dict_keys rest) ->
    fs_get (fs w) dst = Some (Dir done) ->
    (forall k, In k (dict_keys rest) -> dict_get k done = None) ->
    exists t',
      for_each (dict_keys rest) (fun file =>
        e <- os_path_exists (src ++ [file]) ;;
        when e (shutil_move (src ++ [file]) (dst ++ [file]))) w
      = (Ok tt, set_fs t' w)
      /\ fs_get t' src = Some (Dir [])
      /\ fs_get t' dst = Some (Dir (done ++ rest))
      /\ forall q, apart src q -> apart dst q ->
                   fs_get t' q = fs_get (fs w) q.
Proof.
  intros Hap. induction rest as [|[f n] rest IH]; intros done w Hs Hnd Hd Hfr.
  - exists (fs w). cbn [dict_keys map for_each]. rewrite set_fs_same.
    rewrite app_nil_r. auto.
  - cbn [dict_keys map fst] in Hnd, Hfr. inversion Hnd as [|? ? Hnf Hnd'].
    subst.
    destruct (@shutil_move_entry src dst f n rest done w Hs Hnf Hd
                (Hfr f (or_introl eq_refl)) Hap)
      as (t1 & Hm & G1 & G2 & F1).
    destruct (IH (done ++ [(f, n)]) (set_fs t1 w)) as (t' & Hl & G3 & G4 & F2).
    + exact G1.
    + exact Hnd'.
    + exact G2.
    + intros k Hk. apply dict_get_app_fresh.
      * apply Hfr. right; exact Hk.
      * intros ->. exact (Hnf Hk).
    + exists t'. split; [|split; [exact G3|split]].
      * cbn [dict_keys map fst for_each].
        assert (He : fs_exists (fs w) (src ++ [f]) = true).
        { unfold fs_exists. rewrite fs_get_app, Hs. cbn.
          rewrite String.eqb_refl. reflexivity. }
        erewrite bind_Ok;
          [|unfold os_path_exists; rewrite bind_gets, He; exact Hm].
        fold (dict_keys rest). rewrite Hl. reflexivity.
      * rewrite G4, <- app_assoc. reflexivity.
      * intros q Hq1 Hq2. rewrite F2 by assumption. apply F1; assumption.
Qed.

(** Lines 646-648: the old directory, if any, makes room for an empty one. *)
Lemma clear_and_make name pp w :
  pp <> [] ->
  (exists old, fs_get (fs w) pp = Some (Dir old))
  \/ (fs_get (fs w) pp = None
      /\ exists t, fs_put true (fs w) pp (Dir []) = Some t) ->
  exists t',
    (_ <- clear_component_dir name pp ;; os_makedirs pp) w
    = (Ok tt, set_fs t' w)
    /\ fs_get t' pp = Some (Dir [])
    /\ forall q, apart pp q -> fs_get t' q = fs_get (fs w) q.
Proof.
  intros Hne [[old Hold]|[Hnone [t Ht]]].
  - destruct (@fs_del_exists (fs w) pp (Dir old) Hold Hne) as [t1 D1].
    destruct (@fs_put_after_del true (fs w) pp t1 (Dir []) D1) as [t2 P2].
    exists t2. split; [|split].
    + assert (Hclear : clear_component_dir name pp w
                       = (Ok true, set_fs t1 w)).
      { unfold clear_component_dir. rewrite bind_gets.
        unfold fs_is_dir. rewrite Hold. unfold bind, fs_update.
        rewrite D1. reflexivity. }
      erewrite bind_Ok; [|exact Hclear].
      unfold os_makedirs, os_path_exists. rewrite bind_gets.
      unfold fs_exists. cbn [fs set_fs].
      rewrite (@fs_get_del_same _ _ _ D1).
      unfold fs_update. cbn [fs set_fs]. rewrite P2. reflexivity.
    + eapply fs_get_put_same; exact P2.
    + intros q Hq. rewrite (@fs_get_put_apart _ _ _ _ _ q P2 Hq).
      apply (@fs_get_del_apart _ _ _ q D1 Hq).
  - exists t. split; [|split].
    + assert (Hclear : clear_component_dir name pp w = (Ok false, w)).
      { unfold clear_component_dir. rewrite bind_gets.
        unfold fs_is_dir. rewrite Hnone. reflexivity. }
      erewrite bind_Ok; [|exact Hclear].
      unfold os_makedirs, os_path_exists. rewrite bind_gets.
      unfold fs_exists. rewrite Hnone. unfold fs_update. rewrite Ht.
      reflexivity.
    + eapply fs_get_put_same; exact Ht.
    + intros q Hq. apply (@fs_get_put_apart _ _ _ _ _ q Ht Hq).
Qed.

Lemma move_files_from_tmp_dir_ok name folder rp version w es :
  let temp := folder ++ Path name in
  let pp := component_dir_of w rp name in
  fs_get (fs w) temp = Some (Dir es) ->
  NoDup (dict_keys es) ->
  apart temp pp ->
  (exists old, fs_get (fs w) pp = Some (Dir old))
  \/ (fs_get (fs w) pp = None
      /\ exists t, fs_put true (fs w) pp (Dir []) = Some t) ->
  exists w',
    move_files_from_tmp_dir name folder rp version w = (Ok tt, w')
    /\ fs_get (fs w') pp = Some (Dir es)
    /\ fs_get (fs w') temp = Some (Dir [])
    /\ (forall q, apart temp q -> apart pp q ->
                  fs_get (fs w') q = fs_get (fs w) q)
    /\ fs_logs_only w w'
    /\ logs w'
       = logs w ++ [(DEBUG, TxtRemovingOld (component_type w) name);
                    (INFO, TxtUpdating rp name);
                    (DEBUG, TxtUpdatingToVersion (component_type w) name
                              version rp)].
Proof.
  intros temp pp Hs Hnd Hap Hpp.
  destruct (apart_nonempty Hap) as [_ Hne].
  set (w1 := set_logs (logs w ++ [(DEBUG, TxtRemovingOld (component_type w)
                                             name)]) w).
  destruct (@clear_and_make name pp w1 Hne Hpp) as (t2 & Hc & G2 & F2).
  assert (Hs2 : fs_get (fs (set_fs t2 w1)) temp = Some (Dir es)).
  { cbn [fs set_fs]. rewrite F2; [exact Hs|apply apart_sym; exact Hap]. }
  destruct (@move_loop temp pp Hap es [] (set_fs t2 w1) Hs2 Hnd G2
              (fun k _ => eq_refl))
    as (t3 & Hl & G3 & G4 & F3).
  eexists. split; [|split; [|split; [|split; [|split]]]].
  - unfold move_files_from_tmp_dir. fold temp.
    assert (Hls : os_listdir temp w = (Ok (dict_keys es), w)).
    { unfold os_listdir. rewrite bind_gets, Hs. reflexivity. }
    erewrite bind_Ok; [|exact Hls].
    rewrite !bind_gets. fold pp. rewrite bind_log. fold w1.
    apply bind_inv_Ok in Hc. destruct Hc as (c & wc & Hcc & Hmk).
    erewrite bind_Ok; [|exact Hcc]. erewrite bind_Ok; [|exact Hmk].
    erewrite bind_Ok; [|exact Hl].
    rewrite bind_log. reflexivity.
  - cbn [fs set_fs set_logs]. exact G4.
  - cbn [fs set_fs set_logs]. exact G3.
  - intros q Hq1 Hq2. cbn [fs set_fs set_logs].
    rewrite F3 by assumption. cbn [fs set_fs]. apply F2. exact Hq2.
  - unfold fs_logs_only. destruct w; reflexivity.
  - cbn [logs set_logs set_fs]. unfold w1. cbn [logs set_logs].
    rewrite <- !app_assoc. reflexivity.
Qed.

(** X10.  Lines 632-655.  [move_files_from_tmp_dir] replaces the directory
    of the component by the staged files: afterwards the directory holds
    exactly the entries that were staged and nothing of what it held
    before; the staging directory is left empty; every path apart from the
    two is as before; and besides the file system only the log changes, by
    the three records of the method. *)
Theorem move_files_replaces_directory name folder rp version w es :
  let temp := folder ++ Path name in
  let pp := component_dir_of w rp name in
  fs_get (fs w) temp = Some (Dir es) ->
  NoDup (dict_keys es) ->
  apart temp pp ->
  (exists old, fs_get (fs w) pp = Some (Dir old))
  \/ (fs_get (fs w) pp = None
      /\ exists t, fs_put true (fs w) pp (Dir []) = Some t) ->
  exists w',
    move_files_from_tmp_dir name folder rp version w = (Ok tt, w')
    /\ fs_get (fs w') pp = Some (Dir es)
    /\ fs_get (fs w') temp = Some (Dir [])
    /\ (forall q, apart temp q -> apart pp q ->
                  fs_get (fs w') q = fs_get (fs w) q)
    /\ fs_logs_only w w'
    /\ logs w'
       = logs w ++ [(DEBUG, TxtRemovingOld (component_type w) name);
                    (INFO, TxtUpdating rp name);
                    (DEBUG, TxtUpdatingToVersion (component_type w) name
                              version rp)].
Proof. exact (@move_files_from_tmp_dir_ok name folder rp version w es). Qed.

Lemma move_files_replaces_directory_witness :
  let E := ex_env ex_catalog (fun _ _ => None) in
  let w := ex_staged_world E in
  exists w',
    move_files_from_tmp_dir "fastqc" (tmp_root ++ [tmp_name 0]) "nf-core"
      "9f8e7d" w = (Ok tt, w')
    /\ fs_get (fs w') ex_component_dir
       = Some (Dir [("main.nf", File "process fastqc v2")])
    /\ fs_get (fs w') ex_install_dir = Some (Dir [])
    /\ (forall q, apart ex_install_dir q -> apart ex_component_dir q ->
                  fs_get (fs w') q = fs_get (fs w) q)
    /\ fs_logs_only w w'
    /\ logs w'
       = logs w ++ [(DEBUG, TxtRemovingOld "modules" "fastqc");
                    (INFO, TxtUpdating "nf-core" "fastqc");
                    (DEBUG, TxtUpdatingToVersion "modules" "fastqc"
                              "9f8e7d" "nf-core")].
Proof.
  intros E w.
  apply (@move_files_replaces_directory "fastqc" (tmp_root ++ [tmp_name 0])
           "nf-core" "9f8e7d" w [("main.nf", File "process fastqc v2")]).
  - reflexivity.
  - constructor; [intros []|constructor].
  - split; reflexivity.
  - left. eexists. reflexivity.
Defined.

Lemma staging_step_refl w : staging_step w w.
Proof. unfold staging_step. destruct w; reflexivity. Qed.

Lemma staging_step_trans a b c :
  staging_step a b -> staging_step b c -> staging_step a c.
Proof.
  unfold staging_step, set_logs, set_inputs, set_fs, set_tmp_counter.
  destruct a, b, c; cbn. intros H1 H2. world_eq. reflexivity.
Qed.

Lemma staging_step_fields w w' :
  staging_step w w' ->
  args w' = args w /\ component_type w' = component_type w
  /\ modules_repo w' = modules_repo w
  /\ mj w' = mj w /\ mj_disk w' = mj_disk w /\ calls w' = calls w
  /\ show_diff w' = show_diff w /\ save_diff_fn w' = save_diff_fn w.
Proof. unfold staging_step. intros ->. destruct w; cbn. repeat split. Qed.

Ltac staging_frame :=
  repeat first
    [ apply preserves_modify; intros ?; unfold staging_step;
      match goal with w : World |- _ => destruct w; reflexivity end
    | frame_step staging_step_refl staging_step_trans ].

Lemma staging_fs_update f c : preserves staging_step (fs_update f c).
Proof.
  intros w r w' H. unfold fs_update in H.
  destruct (f (fs w)); injection H as _ <-.
  - unfold staging_step. destruct w; reflexivity.
  - apply staging_step_refl.
Qed.

Lemma staging_ask_versions : preserves staging_step (ask versions set_versions).
Proof.
  intros w r w' H. unfold ask in H.
  destruct (versions (inputs w)); injection H as _ <-.
  - apply staging_step_refl.
  - unfold staging_step. destruct w; reflexivity.
Qed.

Lemma staging_tempfile_mkdtemp : preserves staging_step tempfile_mkdtemp.
Proof.
  unfold tempfile_mkdtemp, os_path_exists.
  repeat first [apply staging_fs_update | staging_frame].
Qed.

Lemma staging_resolve_version E repo name sha' cv :
  preserves staging_step (resolve_version E repo name sha' cv).
Proof.
  unfold resolve_version, prompt_component_version_sha.
  repeat first [apply staging_ask_versions | staging_frame].
Qed.

(** Lines 141-164: a turn of the loop up to the version it works on. *)
Lemma update_entry_resolved E su acc repo name sha' patch' w d w1 version w2 :
  tempfile_mkdtemp w = (Ok d, w1) ->
  resolve_version E repo name sha' (version_on_record w repo name) w1
    = (Ok version, w2) ->
  staging_step w w2
  /\ update_entry E su acc (repo, name, sha', patch') w
     = update_resolved E su acc (repo, name, sha', patch')
         (show_diff_truthy (show_diff w) || save_diff_truthy (save_diff_fn w))
         (version_on_record w repo name) d version w2.
Proof.
  intros Hd Hv. split.
  - exact (staging_step_trans (staging_tempfile_mkdtemp w Hd)
             (@staging_resolve_version E repo name sha' _ w1 _ w2 Hv)).
  - unfold update_entry. rewrite !bind_gets.
    unfold get_component_version. rewrite bind_gets.
    fold (version_on_record w repo name).
    erewrite bind_Ok; [|exact Hd]. erewrite bind_Ok; [|exact Hv].
    reflexivity.
Qed.

Lemma update_resolved_condition w w2 repo name version :
  staging_step w w2 ->
  is_some (version_on_record w repo name) && negb (force (args w2))
  && opt_str_eqb (version_on_record w repo name) (Some version)
  = up_to_date w repo name version.
Proof.
  intros H. destruct (staging_step_fields H) as (-> & _). reflexivity.
Qed.

(** X11.  Lines 141-172.  An entry that [modules.json] already records at
    the version the turn works on is skipped unless [--force] is given:
    the registry is not asked for its files, one [INFO] record is logged,
    and the point of the counters is [exit_value] and
    [all_patches_successful] unchanged.  What the turn leaves behind is the
    empty temporary directory it made and the answer it may have taken for
    the version; nothing else differs. *)
Theorem up_to_date_entry_is_skipped E su acc repo name sha' patch' w d w1
    version w2 :
  let full := [component_type w] ++ Path (repo_path repo) ++ Path name in
  let msg := if opt_truthy (sha (args w)) || prompt (args w)
             then TxtAlreadyInstalledAt full version
             else TxtAlreadyUpToDate full in
  tempfile_mkdtemp w = (Ok d, w1) ->
  resolve_version E repo name sha' (version_on_record w repo name) w1
    = (Ok version, w2) ->
  up_to_date w repo name version = true ->
  update_entry E su acc (repo, name, sha', patch') w
  = (Ok acc, set_logs (logs w2 ++ [(INFO, msg)]) w2)
  /\ staging_step w w2.
Proof.
  intros full msg Hd Hv Hup.
  destruct (@update_entry_resolved E su acc repo name sha' patch' w d w1
              version w2 Hd Hv) as [Hst ->].
  split; [|exact Hst].
  unfold update_resolved. destruct acc as [ev aps]. rewrite bind_gets.
  rewrite (@update_resolved_condition w w2 repo name version Hst), Hup.
  destruct (staging_step_fields Hst) as (Ha & Hc & _).
  rewrite Ha, Hc. fold full. unfold msg.
  destruct (opt_truthy (sha (args w)) || prompt (args w));
    rewrite bind_log; reflexivity.
Qed.

Lemma up_to_date_entry_is_skipped_witness :
  let E := ex_env ex_catalog (fun _ _ => None) in
  let w := ex_silent in
  let w1 := snd (tempfile_mkdtemp w) in
  update_entry E (update E 5) (true, true) (ex_repo, "fastqc", Some "1a2b3c", None) w
  = (Ok (true, true),
     set_logs (logs w1 ++ [(INFO, TxtAlreadyUpToDate
                                    ["modules"; "nf-core"; "fastqc"])]) w1)
  /\ staging_step w w1.
Proof.
  intros E w w1.
  apply (@up_to_date_entry_is_skipped E (update E 5) (true, true) ex_repo
           "fastqc" (Some "1a2b3c") None w (tmp_root ++ [tmp_name 0]) w1
           "1a2b3c" w1); reflexivity.
Defined.

Lemma update_loop_sticky E su plan :
  forall aps w acc' w',
    fold_M plan (update_entry E su) (false, aps) w = (Ok acc', w') ->
    fst acc' = false.
Proof.
  intros aps w acc' w' H. apply update_loop_exit in H.
  destruct H as [H|[H _]]; exact H.
Qed.

(** X12.  Lines 174-177 and 265.  When the files of an entry cannot be
    fetched, its turn ends there with [exit_value] set to [False]: nothing
    is staged, installed or recorded, the state is the one the choice of
    the version left.  The loop goes on with the next entry, and a run that
    comes to its end returns [False]. *)
Theorem fetch_failure_fails_the_run E su acc repo name sha' patch' w d w1
    version w2 :
  tempfile_mkdtemp w = (Ok d, w1) ->
  resolve_version E repo name sha' (version_on_record w repo name) w1
    = (Ok version, w2) ->
  up_to_date w repo name version = false ->
  registry_fetch E repo (component_type w) name version = None ->
  update_entry E su acc (repo, name, sha', patch') w
  = (Ok (false, snd acc), w2)
  /\ forall pre post old w0 ev w',
       fold_M pre (update_entry E su) (true, true) w0 = (Ok acc, w) ->
       update_entries E su (pre ++ (repo, name, sha', patch') :: post) old w0
       = (Ok ev, w') ->
       ev = false.
Proof.
  intros Hd Hv Hup Hf.
  destruct (@update_entry_resolved E su acc repo name sha' patch' w d w1
              version w2 Hd Hv) as [Hst He].
  assert (Hentry : update_entry E su acc (repo, name, sha', patch') w
                   = (Ok (false, snd acc), w2)).
  { rewrite He. unfold update_resolved. destruct acc as [ev aps].
    rewrite bind_gets.
    rewrite (@update_resolved_condition w w2 repo name version Hst), Hup.
    assert (Hi : install_component_files E name version repo d w2
                 = (Ok false, w2)).
    { unfold install_component_files. rewrite bind_gets.
      destruct (staging_step_fields Hst) as (_ & -> & _). rewrite Hf.
      reflexivity. }
    erewrite bind_Ok; [|exact Hi]. reflexivity. }
  split; [exact Hentry|].
  intros pre post old w0 ev w' Hpre Hrun.
  unfold update_entries in Hrun.
  apply bind_inv_Ok in Hrun. destruct Hrun as ([ev1 aps1] & w3 & Hloop & Hrun).
  rewrite fold_M_app in Hloop. erewrite bind_Ok in Hloop; [|exact Hpre].
  cbn [fold_M] in Hloop. erewrite bind_Ok in Hloop; [|exact Hentry].
  apply update_loop_sticky in Hloop. cbn [fst] in Hloop. subst ev1.
  rewrite bind_gets in Hrun.
  apply bind_inv_Ok in Hrun. destruct Hrun as (u & w4 & _ & Hrun).
  injection Hrun as <- _. reflexivity.
Qed.

Lemma fetch_failure_fails_the_run_witness :
  let E := ex_env_offline in
  let su := update E 5 in
  let e := (ex_repo, "fastqc", @None string, @None path) in
  let w1 := snd (tempfile_mkdtemp ex_silent) in
  update_entry E su (true, true) e ex_silent = (Ok (false, true), w1)
  /\ forall pre post old w0 ev w',
       fold_M pre (update_entry E su) (true, true) w0
       = (Ok (true, true), ex_silent) ->
       update_entries E su (pre ++ e :: post) old w0 = (Ok ev, w') ->
       ev = false.
Proof.
  intros E su e w1.
  apply (@fetch_failure_fails_the_run E su (true, true) ex_repo "fastqc"
           None None ex_silent (tmp_root ++ [tmp_name 0]) w1 "9f8e7d" w1);
    reflexivity.
Defined.

Lemma fs_logs_only_fields w w' :
  fs_logs_only w w' ->
  args w' = args w /\ component_type w' = component_type w
  /\ modules_repo w' = modules_repo w
  /\ mj w' = mj w /\ mj_disk w' = mj_disk w /\ calls w' = calls w
  /\ inputs w' = inputs w.
Proof. unfold fs_logs_only. intros ->. destruct w; cbn. repeat split. Qed.

(** The record [modules.json] holds once [version] is filed for a module. *)
Lemma modules_json_update_flushes ctype repo name version w :
  modules_json_update ctype repo name version ctype true w
  = (Ok tt,
     let m := mj_store (mj w) (remote_url repo) ctype (repo_path repo) name
                {| git_sha := Some version;
                   rec_branch := rec_branch (mj_record (mj w) (remote_url repo)
                                               ctype (repo_path repo) name);
                   patch := patch (mj_record (mj w) (remote_url repo) ctype
                                     (repo_path repo) name);
                   installed_by :=
                     installed_by (mj_record (mj w) (remote_url repo) ctype
                                     (repo_path repo) name) |} in
     set_mj_disk m (set_mj m w)).
Proof. reflexivity. Qed.

(** Lines 232-239 for a module that no subworkflow uses and that has no
    patch: the staged files are installed and the version is written to
    [modules.json]. *)
Lemma update_staged_installs E su acc repo name sha' cv D version w es old :
  let temp := D ++ Path name in
  let pp := component_dir_of w (repo_path repo) name in
  component_type w = "modules" ->
  remote_url repo = remote_url (modules_repo w) ->
  fs_get (fs w) temp = Some (Dir es) ->
  NoDup (dict_keys es) ->
  apart temp pp ->
  fs_get (fs w) pp = Some (Dir old) ->
  using_subworkflows w repo name = [] ->
  exists w',
    update_staged E su acc (repo, name, sha', None) false cv D version w
    = (Ok acc, w')
    /\ fs_get (fs w') pp = Some (Dir es)
    /\ fs_get (fs w') temp = Some (Dir [])
    /\ (forall q, apart temp q -> apart pp q ->
                  fs_get (fs w') q = fs_get (fs w) q)
    /\ version_on_record w' repo name = Some version
    /\ mj_disk w' = mj w'
    /\ calls w' = calls w
    /\ component_type w' = "modules"
    /\ inputs w' = inputs w.
Proof.
  intros temp pp Hct Hurl Hs Hnd Hap Hold Hsub.
  destruct (@move_files_from_tmp_dir_ok name D (repo_path repo) version w es
              Hs Hnd Hap (or_introl (ex_intro _ old Hold)))
    as (w4 & Hmove & G1 & G2 & F & Hfl & _).
  destruct (fs_logs_only_fields Hfl) as (A4 & C4 & R4 & M4 & _ & K4 & I4).
  set (rec' := {| git_sha := Some version;
                  rec_branch := rec_branch (mj_record (mj w4) (remote_url repo)
                                  "modules" (repo_path repo) name);
                  patch := patch (mj_record (mj w4) (remote_url repo)
                                    "modules" (repo_path repo) name);
                  installed_by :=
                    installed_by (mj_record (mj w4) (remote_url repo)
                                    "modules" (repo_path repo) name) |}).
  set (m := mj_store (mj w4) (remote_url repo) "modules" (repo_path repo)
              name rec').
  set (w5 := set_mj_disk m (set_mj m w4)).
  assert (Hlook : mj_lookup (mj w5) (remote_url (modules_repo w5)) "modules"
                    (repo_path repo) name = Some rec').
  { unfold w5. cbn [mj modules_repo set_mj set_mj_disk]. rewrite R4, <- Hurl.
    apply mj_lookup_store_same. }
  assert (Hlinked : update_linked_components su name (repo_path repo) w5
                    = (Ok tt, w5)).
  { unfold update_linked_components.
    erewrite bind_Ok;
      [|apply (@get_modules_subworkflows_of_module name (repo_path repo) w5
                 rec'); [unfold w5; cbn; rewrite C4; exact Hct|exact Hlook]].
    cbn [installed_by rec']. rewrite M4.
    fold (using_subworkflows w repo name). rewrite Hsub. reflexivity. }
  exists w5. split; [|split; [|split; [|split; [|split; [|split; [|split; [|split]]]]]]].
  - unfold update_staged. destruct acc as [ev aps]. rewrite !bind_gets.
    rewrite bind_ret_l, bind_ret_l. cbn [negb]. rewrite Hct. fold pp.
    erewrite bind_Ok; [|erewrite bind_Ok; [|exact Hmove];
                         erewrite bind_Ok;
                           [|apply modules_json_update_flushes];
                         exact Hlinked].
    reflexivity.
  - exact G1.
  - exact G2.
  - exact F.
  - unfold version_on_record, w5. cbn [mj component_type set_mj set_mj_disk].
    rewrite C4, Hct. unfold m. rewrite mj_lookup_store_same. reflexivity.
  - reflexivity.
  - exact K4.
  - unfold w5. cbn. rewrite C4. exact Hct.
  - exact I4.
Qed.

Lemma resolve_version_inputs_only E repo name sha' cv w r w' :
  resolve_version E repo name sha' cv w = (r, w') ->
  w' = set_inputs (inputs w') w.
Proof.
  unfold resolve_version. rewrite !bind_gets.
  destruct sha' as [s|].
  - intros H. injection H as _ <-. destruct w; reflexivity.
  - destruct (prompt (args w)).
    + unfold prompt_component_version_sha, ask.
      destruct (versions (inputs w)); intros H; injection H as _ <-;
        destruct w; reflexivity.
    + intros H. injection H as _ <-. destruct w; reflexivity.
Qed.

(** Staging the fetched files under a fresh temporary directory. *)
Lemma install_component_files_ok E name version repo D w es :
  fs_get (fs w) D = Some (Dir []) ->
  registry_fetch E repo (component_type w) name version = Some es ->
  exists t',
    install_component_files E name version repo D w = (Ok true, set_fs t' w)
    /\ fs_get t' (D ++ Path name) = Some (Dir es)
    /\ forall q, apart D q -> fs_get t' q = fs_get (fs w) q.
Proof.
  intros HD Hf.
  destruct (fs_put_into_empty (Path name) (Dir es)) as [c' Hc'].
  destruct (@fs_put_below true (fs w) D (Dir []) (Path name) (Dir es) c'
              HD Hc') as (t' & Hp & Hg & Hfr).
  exists t'. split; [|split].
  - unfold install_component_files. rewrite bind_gets, Hf.
    unfold bind, fs_update. rewrite Hp. reflexivity.
  - rewrite fs_get_app, Hg. eapply fs_get_put_same; exact Hc'.
  - exact Hfr.
Qed.

(** X13.  Lines 141-244.  A turn of the loop that updates in place a
    module of the repository the command works on (the url of the entry is
    that of [self.modules_repo]), with no patch on record and no
    subworkflow using it, when the registry has the files of the version:
    afterwards the directory of the
    module holds exactly those files, [modules.json] records the version in
    memory and on disk alike, every path outside the temporary area and
    that directory is as before, no linked update was started, and the two
    counters of the loop are unchanged. *)
Theorem silent_update_installs E su acc repo name sha' w ts es old version
    w2 :
  let pp := component_dir_of w (repo_path repo) name in
  component_type w = "modules" ->
  show_diff_truthy (show_diff w) || save_diff_truthy (save_diff_fn w) = false ->
  remote_url repo = remote_url (modules_repo w) ->
  fs_get (fs w) tmp_root = Some (Dir ts) ->
  dict_get (tmp_name (tmp_counter w)) ts = None ->
  apart tmp_root pp ->
  fs_get (fs w) pp = Some (Dir old) ->
  resolve_version E repo name sha' (version_on_record w repo name)
    (snd (tempfile_mkdtemp w)) = (Ok version, w2) ->
  up_to_date w repo name version = false ->
  registry_fetch E repo "modules" name version = Some es ->
  NoDup (dict_keys es) ->
  using_subworkflows w repo name = [] ->
  exists w',
    update_entry E su acc (repo, name, sha', None) w = (Ok acc, w')
    /\ fs_get (fs w') pp = Some (Dir es)
    /\ (forall q, apart tmp_root q -> apart pp q ->
                  fs_get (fs w') q = fs_get (fs w) q)
    /\ version_on_record w' repo name = Some version
    /\ mj_disk w' = mj w'
    /\ calls w' = calls w
    /\ inputs w' = inputs w2.
Proof.
  intros pp Hct Hsilent Hurl Hts Hfresh Hap Hold Hv Hup Hfetch Hnd Hsub.
  destruct (@tempfile_mkdtemp_ok ts w Hts Hfresh) as (t1 & Hmk & G1 & F1).
  set (D := tmp_root ++ [tmp_name (tmp_counter w)]) in *.
  rewrite Hmk in Hv. cbn [snd] in Hv.
  set (w1 := set_fs t1 (set_tmp_counter (S (tmp_counter w)) w)) in *.
  destruct (@update_entry_resolved E su acc repo name sha' None w D w1
              version w2 Hmk Hv) as [Hst He].
  destruct (staging_step_fields Hst) as (A2 & C2 & R2 & M2 & _ & K2 & _).
  assert (Hfs2 : fs w2 = t1).
  { rewrite (@resolve_version_inputs_only _ _ _ _ _ _ _ _ Hv). reflexivity. }
  assert (HapD : apart D pp) by (apply apart_app_l; exact Hap).
  destruct (@install_component_files_ok E name version repo D w2 es)
    as (t2 & Hi & G2 & F2).
  { rewrite Hfs2. exact G1. }
  { rewrite C2, Hct. exact Hfetch. }
  set (w3 := set_fs t2 w2).
  assert (Hpp3 : component_dir_of w3 (repo_path repo) name = pp).
  { unfold pp, component_dir_of, w3. cbn [args component_type set_fs].
    rewrite A2, C2. reflexivity. }
  destruct (@update_staged_installs E su acc repo name sha'
              (version_on_record w repo name) D version w3 es old)
    as (w' & Hs & H1 & H2 & H3 & H4 & H5 & H6 & H7 & H8).
  - unfold w3. cbn [component_type set_fs]. rewrite C2. exact Hct.
  - unfold w3. cbn [modules_repo set_fs]. rewrite R2. exact Hurl.
  - exact G2.
  - exact Hnd.
  - rewrite Hpp3. apply apart_app_l. exact HapD.
  - rewrite Hpp3. unfold w3. cbn [fs set_fs].
    rewrite F2 by exact HapD. rewrite Hfs2.
    rewrite F1 by exact HapD. exact Hold.
  - unfold using_subworkflows, w3. cbn [mj set_fs]. rewrite M2.
    exact Hsub.
  - rewrite Hpp3 in H1, H3.
    exists w'. split; [|split; [exact H1|split; [|split; [|split; [|split]]]]].
    + rewrite He, Hsilent. unfold update_resolved. destruct acc as [ev aps].
      rewrite bind_gets.
      rewrite (@update_resolved_condition w w2 repo name version Hst), Hup.
      erewrite bind_Ok; [|exact Hi]. cbn [negb]. exact Hs.
    + intros q Hq1 Hq2.
      assert (HqD : apart D q) by (apply apart_app_l; exact Hq1).
      rewrite H3; [|apply apart_app_l; exact HqD|exact Hq2].
      unfold w3. cbn [fs set_fs]. rewrite F2 by exact HqD.
      rewrite Hfs2. apply F1. exact HqD.
    + exact H4.
    + exact H5.
    + rewrite H6. unfold w3. cbn [calls set_fs]. exact K2.
    + rewrite H8. reflexivity.
Qed.

Lemma silent_update_installs_witness :
  let E := ex_env ex_catalog (fun _ _ => None) in
  let w := ex_alone_world in
  exists w',
    update_entry E (update E 5) (true, true) (ex_repo, "fastqc", None, None) w
    = (Ok (true, true), w')
    /\ fs_get (fs w') ex_component_dir
       = Some (Dir [("main.nf", File "process fastqc v2")])
    /\ (forall q, apart tmp_root q -> apart ex_component_dir q ->
                  fs_get (fs w') q = fs_get (fs w) q)
    /\ version_on_record w' ex_repo "fastqc" = Some "9f8e7d"
    /\ mj_disk w' = mj w'
    /\ calls w' = calls w
    /\ inputs w' = inputs (snd (tempfile_mkdtemp w)).
Proof.
  intros E w.
  apply (@silent_update_installs E (update E 5) (true, true) ex_repo "fastqc"
           None w [] [("main.nf", File "process fastqc v2")]
           [("main.nf", File "process FASTQC v1");
            ("fastqc.diff", File "local changes")]
           "9f8e7d" (snd (tempfile_mkdtemp w)));
    try reflexivity.
  - split; reflexivity.
  - constructor; [intros []|constructor].
Defined.

(* ===================================================================== *)
(** * Linked components and the end of a run *)
(* ===================================================================== *)

(** Lines 730-757 in one equation; line 735 is the lookup. *)
Lemma get_modules_subworkflows_eq name install_dir w :
  get_modules_subworkflows_to_update name install_dir w
  = match mj_lookup (mj w) (remote_url (modules_repo w)) (component_type w)
            install_dir name with
    | Some c =>
        (Ok (if String.eqb (component_type w) "modules"
             then ([], filter (fun s => negb (String.eqb s (component_type w)))
                         (installed_by c))
             else if String.eqb (component_type w) "subworkflows"
                  then dependents_of (mj w) name
                  else ([], [])), w)
    | None => (Err (Exn KeyError TxtBuiltin), w)
    end.
Proof.
  unfold get_modules_subworkflows_to_update, get_modules_json, mj_lookup,
    dict_index, bind, gets, ret, raise.
  destruct (dict_get (remote_url (modules_repo w)) (mj w)) as [r|];
    [|reflexivity].
  destruct (dict_get (component_type w) r) as [t|]; [|reflexivity].
  destruct (dict_get install_dir t) as [d|]; [|reflexivity].
  destruct (dict_get name d); [|reflexivity].
  destruct (String.eqb (component_type w) "modules"); [reflexivity|].
  destruct (String.eqb (component_type w) "subworkflows"); reflexivity.
Qed.

(** The records that list [name], with the type they are filed under. *)
Lemma dependents_listed m name ct c :
  In (ct, c)
    (flat_map (fun '(_, repo_content) =>
       flat_map (fun '(ctype', dir_content) =>
         flat_map (fun '(_, components) =>
           flat_map (fun '(comp, comp_content) =>
             if str_mem name (installed_by comp_content)
             then [(ctype', comp)] else [])
           components) dir_content) repo_content) m)
  <-> used_by m ct c name.
Proof.
  unfold used_by. split.
  - intros H.
    apply in_flat_map in H. destruct H as ([url rc] & H1 & H).
    apply in_flat_map in H. destruct H as ([ct' dc] & H2 & H).
    apply in_flat_map in H. destruct H as ([d comps] & H3 & H).
    apply in_flat_map in H. destruct H as ([comp rec] & H4 & H).
    destruct (str_mem name (installed_by rec)) eqn:Hm; [|destruct H].
    destruct H as [H|[]]. injection H as <- <-.
    apply str_mem_In in Hm. exists url, rc, dc, d, comps, rec. auto.
  - intros (url & rc & dc & d & comps & rec & H1 & H2 & H3 & H4 & H5).
    apply in_flat_map. exists (url, rc). split; [exact H1|].
    apply in_flat_map. exists (ct, dc). split; [exact H2|].
    apply in_flat_map. exists (d, comps). split; [exact H3|].
    apply in_flat_map. exists (c, rec). split; [exact H4|].
    apply str_mem_In in H5. rewrite H5. left; reflexivity.
Qed.

Lemma dependents_split (l : list (string * string)) :
  forall acc c,
    let r := fold_left
               (fun acc '(ctype', comp) =>
                  if String.eqb ctype' "modules"
                  then (fst acc ++ [comp], snd acc)
                  else if String.eqb ctype' "subworkflows"
                       then (fst acc, snd acc ++ [comp])
                       else acc) l acc in
    (In c (fst r) <-> In c (fst acc) \/ In ("modules", c) l)
    /\ (In c (snd r) <-> In c (snd acc) \/ In ("subworkflows", c) l).
Proof.
  induction l as [|[ct comp] l IH]; intros acc c; cbn [fold_left].
  - cbn. tauto.
  - cbv zeta in IH.
    destruct (String.eqb_spec ct "modules") as [->|Hm].
    + destruct (IH (fst acc ++ [comp], snd acc) c) as [I1 I2].
      cbn [fst snd] in I1, I2. split.
      * rewrite I1, in_app_iff. cbn. split.
        -- intros [[H|[H|[]]]|H]; auto. subst. auto.
        -- intros [H|[H|H]]; auto. injection H as <-. auto.
      * rewrite I2. cbn. split.
        -- intros [H|H]; auto.
        -- intros [H|[H|H]]; auto. discriminate.
    + destruct (String.eqb_spec ct "subworkflows") as [->|Hs].
      * destruct (IH (fst acc, snd acc ++ [comp]) c) as [I1 I2].
        cbn [fst snd] in I1, I2. split.
        -- rewrite I1. cbn. split.
           ++ intros [H|H]; auto.
           ++ intros [H|[H|H]]; auto. discriminate.
        -- rewrite I2, in_app_iff. cbn. split.
           ++ intros [[H|[H|[]]]|H]; auto. subst. auto.
           ++ intros [H|[H|H]]; auto. injection H as <-. auto.
      * destruct (IH acc c) as [I1 I2]. split.
        -- rewrite I1. cbn. split.
           ++ intros [H|H]; auto.
           ++ intros [H|[H|H]]; auto. injection H as -> _. destruct (Hm eq_refl).
        -- rewrite I2. cbn. split.
           ++ intros [H|H]; auto.
           ++ intros [H|[H|H]]; auto. injection H as -> _. destruct (Hs eq_refl).
Qed.

(** X14.  Lines 730-757.  For a subworkflow on record, the components to
    update with it are exactly those whose [installed_by] lists it: the
    modules among them, from every repository of [modules.json], and the
    subworkflows among them; the state is not changed.  Without a record
    of the component under the repository of the command, its active type
    and the directory, line 735 raises [KeyError], for any type. *)
Theorem subworkflow_dependents name install_dir w :
  let recorded := mj_lookup (mj w) (remote_url (modules_repo w))
                    (component_type w) install_dir name in
  (recorded = None ->
   get_modules_subworkflows_to_update name install_dir w
   = (Err (Exn KeyError TxtBuiltin), w))
  /\ (component_type w = "subworkflows" -> recorded <> None ->
      exists mods subs,
        get_modules_subworkflows_to_update name install_dir w
        = (Ok (mods, subs), w)
        /\ (forall c, In c mods <-> used_by (mj w) "modules" c name)
        /\ (forall c, In c subs <-> used_by (mj w) "subworkflows" c name)).
Proof.
  intros recorded. rewrite get_modules_subworkflows_eq. fold recorded.
  split.
  - intros ->. reflexivity.
  - intros Ht Hrec. destruct recorded as [c|]; [|destruct (Hrec eq_refl)].
    rewrite Ht. cbn [String.eqb Ascii.eqb Bool.eqb].
    exists (fst (dependents_of (mj w) name)),
           (snd (dependents_of (mj w) name)).
    split; [rewrite <- surjective_pairing; reflexivity|].
    unfold dependents_of. split; intros c0.
    + rewrite (proj1 (dependents_split _ ([], []) c0)).
      rewrite dependents_listed. cbn. tauto.
    + rewrite (proj2 (dependents_split _ ([], []) c0)).
      rewrite dependents_listed. cbn. tauto.
Qed.

Lemma subworkflow_dependents_witness :
  let w := ex_nested_world in
  fst (get_modules_subworkflows_to_update "align" "nf-core" w)
  = Ok (["fastqc"], ["prepare"])
  /\ exists mods subs,
       get_modules_subworkflows_to_update "align" "nf-core" w
       = (Ok (mods, subs), w)
       /\ (forall c, In c mods <-> used_by (mj w) "modules" c "align")
       /\ (forall c, In c subs <-> used_by (mj w) "subworkflows" c "align").
Proof.
  intros w. split; [reflexivity|].
  apply (proj2 (subworkflow_dependents "align" "nf-core" w));
    [reflexivity|discriminate].
Defined.

(** The loops of lines 764-771 when every nested call returns. *)
Lemma cascade_loop_restores self_update t names :
  forall w w',
    for_each names (fun n =>
      original_component_type <- _change_component_type t ;;
      _ <- call_update self_update n ;;
      _reset_component_type original_component_type) w = (Ok tt, w') ->
    component_type w' = component_type w
    /\ calls w' = calls w ++ map (fun s => (t, s)) names.
Proof.
  induction names as [|s names IH]; intros w w' H.
  - cbn in H. injection H as <-. rewrite app_nil_r. auto.
  - cbn [for_each] in H.
    apply bind_inv_Ok in H. destruct H as ([] & w1 & Hbody & H).
    apply IH in H. destruct H as [Ht Hc].
    assert (Hstep : component_type w1 = component_type w
                    /\ calls w1 = calls w ++ [(t, s)]).
    { revert Hbody.
      unfold _change_component_type, _reset_component_type, call_update.
      mrun.
      destruct (self_update (Some s) _) as [[b|e] w2]; cbn; [|discriminate].
      intros Hb. injection Hb as <-. cbn. auto. }
    destruct Hstep as [Ht1 Hc1]. split; [congruence|].
    rewrite Hc, Hc1, <- app_assoc. reflexivity.
Qed.

(** X15.  Lines 759-771.  After a subworkflow is updated, and when every
    nested call returns: one nested update is started for each subworkflow
    that lists it, with the active type [subworkflows], then one for each
    module that lists it, with the active type [modules], in the order of
    [modules.json]; the lists are those computed before the first call;
    and the active type is [subworkflows] again at the end. *)
Theorem subworkflow_cascade self_update name install_dir w rec w' :
  component_type w = "subworkflows" ->
  mj_lookup (mj w) (remote_url (modules_repo w)) "subworkflows" install_dir
    name = Some rec ->
  update_linked_components self_update name install_dir w = (Ok tt, w') ->
  component_type w' = "subworkflows"
  /\ calls w'
     = calls w
       ++ map (fun s => ("subworkflows", s)) (snd (dependents_of (mj w) name))
       ++ map (fun m => ("modules", m)) (fst (dependents_of (mj w) name)).
Proof.
  intros Ht Hrec H. unfold update_linked_components in H.
  assert (Hg : get_modules_subworkflows_to_update name install_dir w
               = (Ok (dependents_of (mj w) name), w)).
  { rewrite get_modules_subworkflows_eq, Ht, Hrec. reflexivity. }
  erewrite bind_Ok in H; [|exact Hg].
  destruct (dependents_of (mj w) name) as [mods subs]. cbn [fst snd].
  apply bind_inv_Ok in H. destruct H as ([] & w1 & H1 & H2).
  apply cascade_loop_restores in H1. destruct H1 as [T1 C1].
  apply cascade_loop_restores in H2. destruct H2 as [T2 C2].
  split; [congruence|]. rewrite C2, C1, <- app_assoc. reflexivity.
Qed.

Lemma subworkflow_cascade_witness :
  let w := ex_nested_world in
  let w' := snd (update_linked_components (fun _ => ret true) "align"
                   "nf-core" w) in
  component_type w' = "subworkflows"
  /\ calls w'
     = calls w
       ++ map (fun s => ("subworkflows", s))
            (snd (dependents_of (mj w) "align"))
       ++ map (fun m => ("modules", m)) (fst (dependents_of (mj w) "align")).
Proof.
  intros w w'.
  apply (@subworkflow_cascade (fun _ => ret true) "align" "nf-core" w
           ex_align w'); reflexivity.
Defined.

(** X16.  Lines 246-253.  A run that writes its diffs to a file, over
    entries without a patch on record, ends the file with the diff of
    [modules.json] between the state saved before the loop and the state in
    memory at the end. *)
Theorem diff_file_ends_with_state_diff E su plan old w f ev w' :
  dry_mode (Some f) w ->
  Forall (fun e => entry_patch e = None) plan ->
  update_entries E su plan old w = (Ok ev, w') ->
  exists before,
    fs_get (fs w') f
    = Some (File (before
                  ++ differ_json_diff E old (mj w')
                       (dir (args w) ++ ["modules.json"]))).
Proof.
  intros Hm Hplan H. unfold update_entries in H.
  apply bind_inv_Ok in H. destruct H as ([ev1 aps] & w1 & Hloop & H).
  destruct (@dry_update_loop (Some f) E su plan Hplan (true, true) w _ _ Hm
              Hloop) as [Hstep _].
  assert (Hm1 := @dry_mode_step (Some f) _ _ Hm Hstep).
  destruct Hstep as (Ha & _). cbn in Hm1.
  rewrite bind_gets, Hm1 in H. cbn [save_diff_truthy] in H.
  apply bind_inv_Ok in H. destruct H as (u & w2 & H & Hret).
  injection Hret as _ <-.
  assert (Hdp : diff_path w1 = (Ok f, w1)).
  { unfold diff_path. rewrite bind_gets, Hm1. reflexivity. }
  erewrite bind_Ok in H; [|exact Hdp]. unfold get_modules_json in H.
  rewrite !bind_gets in H. rewrite Ha in H.
  apply bind_inv_Ok in H. destruct H as (u1 & w3 & Happ & Hlog).
  assert (Hw2 : fs w2 = fs w3 /\ mj w2 = mj w3).
  { destruct ev1; cbn [when] in Hlog.
    - unfold log, modify in Hlog. injection Hlog as _ <-. split; reflexivity.
    - injection Hlog as _ <-. split; reflexivity. }
  destruct Hw2 as [-> ->].
  unfold append_modules_json_diff, open_append in Happ.
  rewrite bind_gets in Happ.
  destruct (fs_get (fs w1) f) as [[c|es]|]; [| discriminate |];
    unfold fs_update in Happ;
    match type of Happ with
    | match ?p with _ => _ end = _ => destruct p as [t|] eqn:Hp;
                                      [|discriminate]
    end;
    injection Happ as _ <-; cbn [fs mj set_fs].
  - exists c. eapply fs_get_put_same; exact Hp.
  - exists "". eapply fs_get_put_same; exact Hp.
Qed.

Lemma diff_file_ends_with_state_diff_witness :
  let E := ex_env ex_catalog (fun _ _ => None) in
  let w := ex_world None [] None None (SDPath ["update.diff"])
             (ex_inputs [] []) in
  let run := update_entries E (update E 5)
               [(ex_repo, "fastqc", @None string, @None path)]
               (ex_modules_json None) w in
  fst run = Ok true
  /\ fs_get (fs (snd run)) ["update.diff"]
     = Some (File "regeneratedmodules.json changes")
  /\ exists before,
       fs_get (fs (snd run)) ["update.diff"]
       = Some (File (before
                     ++ differ_json_diff E (ex_modules_json None)
                          (mj (snd run)) (dir (args w) ++ ["modules.json"]))).
Proof.
  intros E w run. split; [reflexivity|]. split; [reflexivity|].
  apply (@diff_file_ends_with_state_diff E (update E 5)
           [(ex_repo, "fastqc", None, None)] (ex_modules_json None) w
           ["update.diff"] true (snd run)).
  - reflexivity.
  - repeat constructor.
  - replace (Ok true) with (fst run) by (vm_compute; reflexivity).
    apply surjective_pairing.
Defined.

(* ===================================================================== *)
(** * A patch that does not apply *)
(* ===================================================================== *)

Lemma unary_inj a : forall b, unary a = unary b -> a = b.
Proof.
  induction a as [|a IH]; intros [|b] H; simpl in H; try discriminate.
  - reflexivity.
  - injection H as H. f_equal. apply IH. exact H.
Qed.

Lemma tmp_name_inj a b : tmp_name a = tmp_name b -> a = b.
Proof.
  unfold tmp_name. simpl. intros H. injection H as H. apply unary_inj, H.
Qed.

Lemma relative_to_sibling p a b r :
  a <> b -> relative_to (p ++ a :: r) (p ++ [b]) = None.
Proof.
  intros Hab. induction p as [|x p IH]; simpl.
  - destruct (String.eqb_spec a b); [contradiction|reflexivity].
  - rewrite String.eqb_refl. exact IH.
Qed.

(** Two entries of one directory with different names are apart. *)
Lemma apart_siblings p a b : a <> b -> apart (p ++ [a]) (p ++ [b]).
Proof.
  intros Hab. split; apply relative_to_sibling; congruence.
Qed.

Lemma fs_get_child t p x :
  fs_get t (p ++ [x])
  = match fs_get t p with
    | Some (Dir es) => dict_get x es
    | _ => None
    end.
Proof.
  rewrite fs_get_app. destruct (fs_get t p) as [[s|es]|]; simpl; auto.
  destruct (dict_get x es); reflexivity.
Qed.

(** Unlinking something below a directory leaves a directory there. *)
Lemma fs_del_keeps_dir t base r old t' :
  fs_get t base = Some (Dir old) -> r <> [] ->
  fs_del t (base ++ r) = Some t' ->
  exists old', fs_get t' base = Some (Dir old').
Proof.
  intros Hb Hr Hd. rewrite (fs_del_in_subtree _ _ Hb Hr) in Hd.
  destruct (fs_del (Dir old) r) as [c'|] eqn:Hc; [|discriminate].
  assert (Hdir : exists old', c' = Dir old').
  { destruct r as [|x r]; [congruence|]. simpl in Hc.
    destruct (dict_get x old); [|discriminate].
    destruct (is_nil r).
    - injection Hc as <-. eauto.
    - destruct (fs_del n r); [|discriminate]. injection Hc as <-. eauto. }
  destruct Hdir as [old' ->]. exists old'.
  eapply fs_get_put_same. exact Hd.
Qed.

(** [shutil.move] of a file out of a directory leaves the directory in
    place. *)
Lemma shutil_move_keeps_dir sb sr dst old w t' :
  fs_get (fs w) sb = Some (Dir old) -> sr <> [] ->
  apart dst sb ->
  shutil_move (sb ++ sr) dst w = (Ok tt, set_fs t' w) ->
  fs_is_dir (fs w) dst = false ->
  exists old', fs_get t' sb = Some (Dir old').
Proof.
  intros Hb Hr Hap H Hnd. unfold shutil_move in H.
  rewrite bind_gets in H.
  destruct (fs_get (fs w) (sb ++ sr)) as [n|]; [|discriminate].
  rewrite bind_gets, Hnd in H. unfold os_path_exists in H.
  rewrite bind_gets in H. cbn [andb] in H. unfold fs_update in H.
  destruct (fs_del (fs w) (sb ++ sr)) as [t1|] eqn:Hd; [|discriminate].
  destruct (fs_put false t1 dst n) as [t2|] eqn:Hp; [|discriminate].
  injection H as H. subst t2.
  destruct (fs_del_keeps_dir _ _ Hb Hr Hd) as [old' Ho].
  exists old'. rewrite (@fs_get_put_apart _ _ _ _ _ sb Hp Hap). exact Ho.
Qed.

Lemma staging_log l t : preserves staging_step (log l t).
Proof. unfold log. staging_frame. Qed.

Lemma staging_read_file p : preserves staging_step (read_file p).
Proof. unfold read_file. staging_frame. Qed.

Lemma staging_check_patch_paths E p name :
  preserves staging_step (check_patch_paths E p name).
Proof.
  unfold check_patch_paths.
  repeat first [apply staging_read_file | staging_frame].
Qed.

Lemma staging_shutil_copytree src dst :
  preserves staging_step (shutil_copytree src dst).
Proof.
  unfold shutil_copytree, os_path_exists.
  repeat first [apply staging_fs_update | staging_frame].
Qed.

Lemma staging_shutil_move src dst : preserves staging_step (shutil_move src dst).
Proof.
  unfold shutil_move, os_path_exists.
  repeat first [apply staging_fs_update | staging_frame].
Qed.

Lemma staging_relative_to_M p base :
  preserves staging_step (relative_to_M p base).
Proof. unfold relative_to_M. staging_frame. Qed.

Lemma staging_ModulesDiffer_try_apply_patch E p t :
  preserves staging_step (ModulesDiffer_try_apply_patch E p t).
Proof.
  unfold ModulesDiffer_try_apply_patch.
  repeat first [apply staging_read_file | staging_frame].
Qed.

(** Lines 697-728 return [True] if they return. *)
Lemma regenerate_patch_returns_True E nf name rp pr P cd C tcd w b w' :
  regenerate_patch E nf name rp pr P cd C tcd w = (Ok b, w') -> b = true.
Proof.
  unfold regenerate_patch. intros H.
  repeat (apply bind_inv_Ok in H; destruct H as (? & ? & _ & H)).
  injection H as <- _. reflexivity.
Qed.

(** A patch that fails leaves everything but the files, the counter of
    temporary names and the log as it was. *)
Lemma try_apply_patch_False_staging E name rp pr cd C w w' :
  try_apply_patch E name rp pr cd C w = (Ok false, w') -> staging_step w w'.
Proof.
  unfold try_apply_patch. intros H.
  apply bind_inv_Ok in H. destruct H as (ctype & w1 & H1 & H).
  injection H1 as _ <-.
  apply bind_inv_Ok in H. destruct H as (u2 & w2 & H2 & H).
  apply staging_log in H2.
  apply bind_inv_Ok in H. destruct H as (P & w3 & H3 & H).
  injection H3 as _ <-.
  apply bind_inv_Ok in H. destruct H as (u4 & w4 & H4 & H).
  apply staging_check_patch_paths in H4.
  apply bind_inv_Ok in H. destruct H as (td & w5 & H5 & H).
  apply staging_tempfile_mkdtemp in H5.
  apply bind_inv_Ok in H. destruct H as (u6 & w6 & H6 & H).
  apply staging_shutil_copytree in H6.
  unfold apply_patch_in in H.
  apply bind_inv_Ok in H. destruct H as (ctype' & w7 & H7 & H).
  injection H7 as _ <-.
  apply bind_inv_Ok in H. destruct H as (r & w8 & H8 & H).
  assert (S8 : staging_step w6 w8).
  { revert H8. apply preserves_try_except.
    - exact staging_step_trans.
    - repeat first [apply staging_ModulesDiffer_try_apply_patch
                   | staging_frame].
    - intros e.
      repeat first [apply staging_relative_to_M | apply staging_shutil_move
                   | apply staging_log | staging_frame]. }
  assert (S9 : w' = w8).
  { destruct r as [nf|].
    - apply regenerate_patch_returns_True in H. discriminate.
    - injection H as <-. reflexivity. }
  subst w'.
  repeat (eapply staging_step_trans; [eassumption|]).
  apply staging_step_refl.
Qed.

Lemma apply_patch_in_fails_dir E name rp pr P cd C tcd w ptxt tree es rel es'
    old :
  fs_get (fs w) P = Some (File ptxt) ->
  fs_get (fs w) tcd = Some tree ->
  differ_apply E ptxt tree = None ->
  relative_to P cd = Some rel ->
  fs_get (fs w) C = Some (Dir es) ->
  apart P C ->
  fs_is_dir (Dir es) rel = false ->
  fs_put false (Dir es) rel (File ptxt) = Some (Dir es') ->
  fs_get (fs w) cd = Some (Dir old) ->
  apart C cd ->
  exists w',
    apply_patch_in E name rp pr P cd C tcd w = (Ok false, w')
    /\ fs_get (fs w') C = Some (Dir es')
    /\ fs_get (fs w') P = None
    /\ (exists old', fs_get (fs w') cd = Some (Dir old'))
    /\ (forall q, apart P q -> apart C q ->
                  fs_get (fs w') q = fs_get (fs w) q).
Proof.
  intros HP Hscratch Happly Hrel Hstaged Hap Hnd Hput Hcd HCcd.
  assert (Hrne : rel <> []).
  { intros ->. apply relative_to_Some in Hrel. rewrite app_nil_r in Hrel.
    subst P. rewrite Hcd in HP. discriminate. }
  unfold apply_patch_in. rewrite bind_gets.
  unfold bind at 1, try_except, bind at 1.
  rewrite (@ModulesDiffer_try_apply_patch_eq E P tcd ptxt tree w HP
             Hscratch), Happly.
  cbn [exn_cls isinstance exn_class_eqb orb].
  unfold relative_to_M. rewrite Hrel, bind_ret_l.
  destruct (@shutil_move_below P C rel (File ptxt) (Dir es) (Dir es') w
              HP Hstaged Hap Hnd Hput) as (t' & Hm & Hg & Hn & Hf).
  assert (Hdir : exists old', fs_get t' cd = Some (Dir old')).
  { pose proof (relative_to_Some _ _ Hrel) as HPeq.
    rewrite HPeq in Hm.
    apply (@shutil_move_keeps_dir cd rel (C ++ rel) old w t' Hcd Hrne).
    - apply apart_app_l. exact HCcd.
    - exact Hm.
    - unfold fs_is_dir. rewrite fs_get_app, Hstaged. exact Hnd. }
  step Hm. rewrite bind_log. cbn [ret].
  eexists. split; [reflexivity|]. cbn.
  repeat split; auto.
Qed.

(** Lines 657-695 when the patch does not apply, with the directory of the
    component left in place. *)
Lemma try_apply_patch_fails_in_place E name rp pr cd C w ptxt ts es rel es'
    old :
  let P := dir (args w) ++ pr in
  let D := tmp_root ++ [tmp_name (tmp_counter w)] in
  fs_get (fs w) P = Some (File ptxt) ->
  patch_paths_ok E (component_type w) name ptxt = true ->
  fs_get (fs w) tmp_root = Some (Dir ts) ->
  dict_get (tmp_name (tmp_counter w)) ts = None ->
  fs_get (fs w) C = Some (Dir es) ->
  Path name <> [] ->
  apart D C -> apart D P -> apart P C ->
  relative_to P cd = Some rel ->
  differ_apply E ptxt (Dir es) = None ->
  fs_is_dir (Dir es) rel = false ->
  fs_put false (Dir es) rel (File ptxt) = Some (Dir es') ->
  fs_get (fs w) cd = Some (Dir old) ->
  apart D cd -> apart C cd ->
  exists w',
    try_apply_patch E name rp pr cd C w = (Ok false, w')
    /\ fs_get (fs w') C = Some (Dir es')
    /\ fs_get (fs w') P = None
    /\ (exists old', fs_get (fs w') cd = Some (Dir old'))
    /\ (forall q, apart D q -> apart P q -> apart C q ->
                  fs_get (fs w') q = fs_get (fs w) q)
    /\ staging_step w w'.
Proof.
  intros P D HP Hok Hroot Hfresh Hstaged Hname HDC HDP HPC Hrel Happly Hnd
    Hput Hcd HDcd HCcd.
  destruct (@try_apply_patch_prefix E name rp pr cd C w ptxt ts es HP Hok
              Hroot Hfresh Hstaged Hname HDC HDP)
    as (w2 & Heq & HP2 & Hs2 & HC2 & Hf2 & _).
  fold P D in Heq, HP2, Hs2, Hf2.
  assert (Hcd2 : fs_get (fs w2) cd = Some (Dir old)).
  { rewrite (Hf2 cd HDcd). exact Hcd. }
  destruct (@apply_patch_in_fails_dir E name rp pr P cd C (D ++ Path name) w2
              ptxt (Dir es) es rel es' old HP2 Hs2 Happly Hrel HC2 HPC Hnd
              Hput Hcd2 HCcd)
    as (w' & Hrun & HC' & HP' & Hdir & Hf').
  rewrite <- Heq in Hrun.
  exists w'. split; [exact Hrun|]. split; [exact HC'|].
  split; [exact HP'|]. split; [exact Hdir|]. split.
  - intros q H1 H2 H3. rewrite (Hf' q H2 H3). apply Hf2. exact H1.
  - eapply try_apply_patch_False_staging. exact Hrun.
Qed.

Lemma bind_run_eq {A B} (m m' : M A) (f : A -> M B) w w' :
  m w = m' w' -> bind m f w = bind m' f w'.
Proof. unfold bind. intros ->. reflexivity. Qed.

Lemma bind2_ret_patch_failed {A B} (m : M A) (f : A -> M B) ev aps w :
  bind m (fun a => bind (f a) (fun _ => ret (ev, false))) w
  = (patch_failed_result
       (fst (bind m (fun a => bind (f a) (fun _ => ret (ev, aps))) w)),
     snd (bind m (fun a => bind (f a) (fun _ => ret (ev, aps))) w)).
Proof.
  unfold bind. destruct (m w) as [[a|e] w1]; [|reflexivity].
  destruct (f a w1) as [[b|e] w2]; reflexivity.
Qed.

Lemma logs_after_log l x w :
  set_logs (logs (set_logs l w) ++ x) (set_logs l w) = set_logs (l ++ x) w.
Proof. destruct w; reflexivity. Qed.

Lemma present_diff_unpatched E repo name version cv cd cid l w :
  present_diff E repo name version cv (Some false) cd cid (set_logs l w)
  = present_diff E repo name version cv None cd cid
      (set_logs (l ++ [(WARNING, TxtComparedUnpatched)]) w).
Proof. unfold present_diff. destruct w. reflexivity. Qed.

(** Lines 179-244 once the patch of the entry has failed: the rest of the
    turn is the turn of an entry without a patch, on the staged files as
    they are. *)
Lemma update_staged_after_failed_patch E su ev aps repo name sha' pr dry cv D
    version w w1 :
  let full := [component_type w] ++ Path (repo_path repo) ++ Path name in
  try_apply_patch E name (repo_path repo) pr
    (component_dir_of w (repo_path repo) name) (D ++ Path name) w
  = (Ok false, w1) ->
  update_staged E su (ev, aps) (repo, name, sha', Some pr) dry cv D version w
  = let w2 :=
      set_logs (logs w1
                ++ (WARNING, TxtPatchFailedProceed (component_type w) full)
                   :: (if dry then [(WARNING, TxtComparedUnpatched)] else []))
        w1 in
    let run := update_staged E su (ev, aps) (repo, name, sha', None) dry cv D
                 version w2 in
    (patch_failed_result (fst run), snd run).
Proof.
  intros full Htry.
  pose proof (try_apply_patch_False_staging _ _ _ _ _ _ _ Htry) as Hst.
  destruct (staging_step_fields Hst) as (Ha & Hc & _).
  cbv zeta. unfold update_staged.
  rewrite !bind_gets. cbn [component_type args set_logs].
  assert (Hcd : forall l, component_dir_of (set_logs l w1) (repo_path repo) name
                = component_dir_of w (repo_path repo) name).
  { intros l. unfold component_dir_of. cbn [args component_type set_logs].
    rewrite Ha, Hc. reflexivity. }
  rewrite Hcd, Hc. fold full.
  assert (Hpatch :
            (ok <- try_apply_patch E name (repo_path repo) pr
                     (component_dir_of w (repo_path repo) name)
                     (D ++ Path name) ;;
             (if ok
              then log INFO (TxtPatchedOk (component_type w) full)
              else log WARNING (TxtPatchFailedProceed (component_type w) full)) ;;
             ret (Some ok)) w
            = (Ok (Some false),
               set_logs (logs w1 ++ [(WARNING, TxtPatchFailedProceed
                                                  (component_type w) full)])
                 w1)).
  { unfold bind at 1. rewrite Htry. rewrite bind_log. reflexivity. }
  rewrite (@bind_Ok _ _ _ _ _ _ _ Hpatch).
  rewrite !bind_ret_l. cbn [andb]. rewrite andb_false_r.
  destruct dry.
  - rewrite (@bind_run_eq _ _ _ _ _ _ _
               (@present_diff_unpatched E repo name version cv _ _ _ w1)).
    rewrite <- app_assoc. cbn [app]. apply bind2_ret_patch_failed.
  - cbn [app]. apply bind2_ret_patch_failed.
Qed.

Lemma fs_logs_only_options w w' :
  fs_logs_only w w' ->
  show_diff w' = show_diff w /\ save_diff_fn w' = save_diff_fn w
  /\ tmp_counter w' = tmp_counter w.
Proof. unfold fs_logs_only. intros ->. destruct w; cbn. repeat split. Qed.

(** Lines 232-239 for an entry without a patch, updated in place: the
    staged files are moved into the directory of the component, the version
    is written to [modules.json], and the linked components come next. *)
Lemma update_staged_silent E su repo name sha' cv D version w es :
  let temp := D ++ Path name in
  let pp := component_dir_of w (repo_path repo) name in
  fs_get (fs w) temp = Some (Dir es) ->
  NoDup (dict_keys es) ->
  apart temp pp ->
  (exists old, fs_get (fs w) pp = Some (Dir old)) ->
  exists w4,
    fs_get (fs w4) pp = Some (Dir es)
    /\ fs_get (fs w4) temp = Some (Dir [])
    /\ (forall q, apart temp q -> apart pp q ->
                  fs_get (fs w4) q = fs_get (fs w) q)
    /\ fs_logs_only w w4
    /\ forall acc,
         update_staged E su acc (repo, name, sha', None) false cv D version w
         = let m := mj_at_version (mj w) (component_type w) repo name version in
           let run := update_linked_components su name (repo_path repo)
                        (set_mj_disk m (set_mj m w4)) in
           (match fst run with Ok _ => Ok acc | Err e => Err e end, snd run).
Proof.
  intros temp pp Hs Hnd Hap Hold.
  destruct (@move_files_from_tmp_dir_ok name D (repo_path repo) version w es
              Hs Hnd Hap (or_introl Hold))
    as (w4 & Hmove & G1 & G2 & F & Hfl & _).
  destruct (fs_logs_only_fields Hfl) as (A4 & C4 & R4 & M4 & _).
  exists w4. split; [exact G1|]. split; [exact G2|]. split; [exact F|].
  split; [exact Hfl|]. intros acc.
  unfold update_staged. destruct acc as [ev aps]. rewrite !bind_gets.
  rewrite bind_ret_l, bind_ret_l. cbn [negb].
  cbv zeta. unfold bind at 1. unfold bind at 1. rewrite Hmove.
  unfold bind at 1. rewrite modules_json_update_flushes.
  cbv zeta. unfold mj_at_version. rewrite M4.
  destruct (update_linked_components su name (repo_path repo) _)
    as [[[]|e] w7]; reflexivity.
Qed.

Lemma fs_get_prefix_dir t p x r c :
  fs_get t (p ++ [x] ++ r) = Some c ->
  exists es, fs_get t p = Some (Dir es).
Proof.
  rewrite fs_get_app. destruct (fs_get t p) as [[s|es]|]; simpl;
    try discriminate. eauto.
Qed.

(** The temporary root once one directory has been made and filled: still
    a directory, in which the next temporary name is free. *)
Lemma tmp_root_next_free t t' n ts r c :
  fs_get t tmp_root = Some (Dir ts) ->
  dict_get (tmp_name (S n)) ts = None ->
  fs_get t' (tmp_root ++ [tmp_name n] ++ r) = Some c ->
  (forall q, apart (tmp_root ++ [tmp_name n]) q -> fs_get t' q = fs_get t q) ->
  exists ts', fs_get t' tmp_root = Some (Dir ts')
              /\ dict_get (tmp_name (S n)) ts' = None.
Proof.
  intros Hts Hfree Hc Hfr.
  destruct (fs_get_prefix_dir _ _ _ _ Hc) as [ts' Hts'].
  exists ts'. split; [exact Hts'|].
  assert (Hap : apart (tmp_root ++ [tmp_name n]) (tmp_root ++ [tmp_name (S n)])).
  { apply apart_siblings. intros H. apply tmp_name_inj in H.
    revert H. apply n_Sn. }
  specialize (Hfr _ Hap). rewrite !fs_get_child, Hts, Hts' in Hfr.
  congruence.
Qed.

(** Lines 141-244, updated in place, for a module of the repository of the
    command that no subworkflow uses and whose patch does not apply to the
    files of the new version. *)
Lemma failed_patch_turn_installs E su repo name sha' pr w ts es es' old
    ptxt rel version w2 :
  let pp := component_dir_of w (repo_path repo) name in
  let P := dir (args w) ++ pr in
  component_type w = "modules" ->
  show_diff_truthy (show_diff w) || save_diff_truthy (save_diff_fn w) = false ->
  remote_url repo = remote_url (modules_repo w) ->
  fs_get (fs w) tmp_root = Some (Dir ts) ->
  dict_get (tmp_name (tmp_counter w)) ts = None ->
  dict_get (tmp_name (S (tmp_counter w))) ts = None ->
  apart tmp_root pp ->
  fs_get (fs w) pp = Some (Dir old) ->
  relative_to P pp = Some rel ->
  fs_get (fs w) P = Some (File ptxt) ->
  patch_paths_ok E "modules" name ptxt = true ->
  Path name <> [] ->
  resolve_version E repo name sha' (version_on_record w repo name)
    (snd (tempfile_mkdtemp w)) = (Ok version, w2) ->
  up_to_date w repo name version = false ->
  registry_fetch E repo "modules" name version = Some es ->
  differ_apply E ptxt (Dir es) = None ->
  fs_is_dir (Dir es) rel = false ->
  fs_put false (Dir es) rel (File ptxt) = Some (Dir es') ->
  NoDup (dict_keys es') ->
  using_subworkflows w repo name = [] ->
  exists w',
    (forall ev aps,
        update_entry E su (ev, aps) (repo, name, sha', Some pr) w
        = (Ok (ev, false), w'))
    /\ fs_get (fs w') pp = Some (Dir es')
    /\ (forall q, apart tmp_root q -> apart pp q ->
                  fs_get (fs w') q = fs_get (fs w) q)
    /\ version_on_record w' repo name = Some version
    /\ mj_disk w' = mj w'
    /\ calls w' = calls w
    /\ save_diff_fn w' = save_diff_fn w.
Proof.
  intros pp P Hct Hsilent Hurl Hts Hfree1 Hfree2 Hap Hold Hrel HP Hok Hname
    Hv Hup Hfetch Happly Hnd Hput Hnodup Hsub.
  pose proof (relative_to_Some _ _ Hrel) as HPeq.
  destruct (@tempfile_mkdtemp_ok ts w Hts Hfree1) as (t1 & Hmk & G1 & F1).
  set (D := tmp_root ++ [tmp_name (tmp_counter w)]) in *.
  rewrite Hmk in Hv. cbn [snd] in Hv.
  set (w1 := set_fs t1 (set_tmp_counter (S (tmp_counter w)) w)) in *.
  destruct (@update_entry_resolved E su (true, true) repo name sha' (Some pr)
              w D w1 version w2 Hmk Hv) as [Hst _].
  destruct (staging_step_fields Hst)
    as (A2 & C2 & R2 & M2 & _ & K2 & _ & SV2).
  pose proof (@resolve_version_inputs_only _ _ _ _ _ _ _ _ Hv) as Hw2.
  assert (Hfs2 : fs w2 = t1) by (rewrite Hw2; reflexivity).
  assert (Htc2 : tmp_counter w2 = S (tmp_counter w))
    by (rewrite Hw2; reflexivity).
  assert (HapD : apart D pp) by (apply apart_app_l; exact Hap).
  assert (HapDP : apart D P)
    by (rewrite HPeq; apply apart_app_r; exact HapD).
  destruct (@install_component_files_ok E name version repo D w2 es)
    as (t2 & Hi & G2 & F2).
  { rewrite Hfs2. exact G1. }
  { rewrite C2, Hct. exact Hfetch. }
  set (w3 := set_fs t2 w2).
  set (C := D ++ Path name) in *.
  assert (Hpp3 : component_dir_of w3 (repo_path repo) name = pp).
  { unfold pp, component_dir_of, w3. cbn [args component_type set_fs].
    rewrite A2, C2. reflexivity. }
  assert (HP3 : dir (args w3) ++ pr = P).
  { unfold P, w3. cbn [args set_fs]. rewrite A2. reflexivity. }
  assert (Hfr3 : forall q, apart D q -> fs_get (fs w3) q = fs_get (fs w) q).
  { intros q Hq. unfold w3. cbn [fs set_fs]. rewrite (F2 q Hq), Hfs2.
    apply F1. exact Hq. }
  destruct (@tmp_root_next_free (fs w) t2 (tmp_counter w) ts (Path name)
              (Dir es) Hts Hfree2) as (ts3 & Hts3 & Hfree3).
  { unfold C, D in G2. rewrite <- app_assoc in G2. exact G2. }
  { intros q Hq. rewrite (F2 q Hq), Hfs2. apply F1. exact Hq. }
  set (D' := tmp_root ++ [tmp_name (S (tmp_counter w))]).
  assert (HapD'pp : apart D' pp) by (apply apart_app_l; exact Hap).
  assert (HDD' : apart D' D).
  { apply apart_siblings. intros H. apply tmp_name_inj in H.
    symmetry in H. revert H. apply n_Sn. }
  destruct (@try_apply_patch_fails_in_place E name (repo_path repo) pr pp C
              w3 ptxt ts3 es rel es' old)
    as (w4 & Htry & HC4 & HP4 & [old4 Hold4] & Hfr4 & Hst4).
  { rewrite HP3. rewrite (Hfr3 P HapDP). exact HP. }
  { unfold w3. cbn [component_type set_fs]. rewrite C2, Hct. exact Hok. }
  { exact Hts3. }
  { unfold w3. cbn [tmp_counter set_fs]. rewrite Htc2. exact Hfree3. }
  { exact G2. }
  { exact Hname. }
  { unfold w3. cbn [tmp_counter set_fs]. rewrite Htc2. fold D'.
    apply apart_app_r. exact HDD'. }
  { rewrite HP3, HPeq. unfold w3. cbn [tmp_counter set_fs]. rewrite Htc2.
    fold D'. apply apart_app_r. exact HapD'pp. }
  { rewrite HP3, HPeq. apply apart_app_l, apart_sym, apart_app_l. exact HapD. }
  { rewrite HP3. exact Hrel. }
  { exact Happly. }
  { exact Hnd. }
  { exact Hput. }
  { rewrite (Hfr3 pp HapD). exact Hold. }
  { unfold w3. cbn [tmp_counter set_fs]. rewrite Htc2. exact HapD'pp. }
  { apply apart_app_l. exact HapD. }
  destruct (staging_step_fields Hst4)
    as (A4 & C4 & R4 & M4 & MD4 & K4 & _ & SV4).
  rewrite <- Hpp3 in Htry.
  set (w5 := set_logs
               (logs w4
                ++ [(WARNING, TxtPatchFailedProceed (component_type w3)
                                ([component_type w3] ++ Path (repo_path repo)
                                 ++ Path name))]) w4).
  assert (C5 : component_type w5 = "modules").
  { unfold w5. cbn [component_type set_logs]. rewrite C4.
    unfold w3. cbn [component_type set_fs]. rewrite C2. exact Hct. }
  assert (A5 : args w5 = args w).
  { unfold w5. cbn [args set_logs]. rewrite A4.
    unfold w3. cbn [args set_fs]. exact A2. }
  assert (M5 : mj w5 = mj w).
  { unfold w5. cbn [mj set_logs]. rewrite M4.
    unfold w3. cbn [mj set_fs]. exact M2. }
  assert (Hpp5 : component_dir_of w5 (repo_path repo) name = pp).
  { unfold pp, component_dir_of. rewrite A5, C5, Hct. reflexivity. }
  destruct (@update_staged_silent E su repo name sha'
              (version_on_record w repo name) D version w5 es')
    as (w6 & G6 & _ & F6 & Hfl6 & Hrun6).
  { exact HC4. }
  { exact Hnodup. }
  { rewrite Hpp5. apply apart_app_l. exact HapD. }
  { rewrite Hpp5. exists old4. exact Hold4. }
  destruct (fs_logs_only_fields Hfl6) as (A6 & C6 & R6 & M6 & _ & K6 & _).
  destruct (fs_logs_only_options Hfl6) as (_ & SV6 & _).
  cbv zeta in Hrun6. rewrite M5, C5 in Hrun6.
  set (m := mj_at_version (mj w) "modules" repo name version) in *.
  set (w7 := set_mj_disk m (set_mj m w6)) in *.
  assert (Hlinked : update_linked_components su name (repo_path repo) w7
                    = (Ok tt, w7)).
  { unfold update_linked_components.
    erewrite bind_Ok;
      [|apply (@get_modules_subworkflows_of_module name (repo_path repo) w7
                 {| git_sha := Some version;
                    rec_branch := rec_branch (mj_record (mj w) (remote_url repo)
                                    "modules" (repo_path repo) name);
                    patch := patch (mj_record (mj w) (remote_url repo)
                                      "modules" (repo_path repo) name);
                    installed_by :=
                      installed_by (mj_record (mj w) (remote_url repo)
                                      "modules" (repo_path repo) name) |})].
    - cbn [installed_by]. fold (using_subworkflows w repo name).
      rewrite Hsub. reflexivity.
    - unfold w7. cbn [component_type set_mj set_mj_disk]. rewrite C6. exact C5.
    - unfold w7. cbn [mj modules_repo set_mj set_mj_disk]. rewrite R6.
      unfold w5. cbn [modules_repo set_logs]. rewrite R4.
      unfold w3. cbn [modules_repo set_fs]. rewrite R2, <- Hurl.
      unfold m, mj_at_version. apply mj_lookup_store_same. }
  rewrite Hlinked in Hrun6. cbn [fst snd] in Hrun6.
  exists w7. split; [|split; [|split; [|split; [|split; [|split]]]]].
  - intros ev aps.
    destruct (@update_entry_resolved E su (ev, aps) repo name sha' (Some pr)
                w D w1 version w2 Hmk Hv) as [_ He].
    assert (Hsim :
              update_staged E su (ev, aps) (repo, name, sha', Some pr) false
                (version_on_record w repo name) D version w3
              = (patch_failed_result
                   (fst (update_staged E su (ev, aps) (repo, name, sha', None)
                           false (version_on_record w repo name) D version
                           w5)),
                 snd (update_staged E su (ev, aps) (repo, name, sha', None)
                        false (version_on_record w repo name) D version w5)))
      by exact (@update_staged_after_failed_patch E su ev aps repo name sha'
                  pr false (version_on_record w repo name) D version w3 w4
                  Htry).
    rewrite (Hrun6 (ev, aps)) in Hsim.
    cbn [fst snd patch_failed_result] in Hsim.
    etransitivity; [exact He|].
    rewrite Hsilent. unfold update_resolved. rewrite bind_gets.
    rewrite (@update_resolved_condition w w2 repo name version Hst), Hup.
    erewrite bind_Ok; [|exact Hi]. cbn [negb]. exact Hsim.
  - unfold w7. cbn [fs set_mj set_mj_disk]. rewrite <- Hpp5. exact G6.
  - intros q Hq1 Hq2. unfold w7. cbn [fs set_mj set_mj_disk].
    assert (HqD : apart D q) by (apply apart_app_l; exact Hq1).
    assert (HqD' : apart D' q) by (apply apart_app_l; exact Hq1).
    rewrite F6; [|apply apart_app_l; exact HqD|rewrite Hpp5; exact Hq2].
    unfold w5. cbn [fs set_logs].
    rewrite Hfr4.
    + apply Hfr3. exact HqD.
    + unfold w3. cbn [tmp_counter set_fs]. rewrite Htc2. exact HqD'.
    + rewrite HP3, HPeq. apply apart_app_l. exact Hq2.
    + apply apart_app_l. exact HqD.
  - unfold version_on_record, w7.
    cbn [mj component_type set_mj set_mj_disk]. rewrite C6, C5.
    unfold m, mj_at_version. rewrite mj_lookup_store_same. reflexivity.
  - reflexivity.
  - unfold w7. cbn [calls set_mj set_mj_disk]. rewrite K6.
    unfold w5. cbn [calls set_logs]. rewrite K4.
    unfold w3. cbn [calls set_fs]. exact K2.
  - unfold w7. cbn [save_diff_fn set_mj set_mj_disk]. rewrite SV6.
    unfold w5. cbn [save_diff_fn set_logs]. rewrite SV4.
    unfold w3. cbn [save_diff_fn set_fs]. exact SV2.
Qed.

(** Lines 141-177: a turn that returns has worked on the version
    [target_version] names, and has changed [exit_value] only by setting it
    to [False] after the registry failed to deliver the files of an entry
    that was not up to date. *)
Lemma update_entry_exit_value E su acc e w a w2 :
  update_entry E su acc e w = (Ok a, w2) ->
  exists version,
    target_version E w e = Some version
    /\ (fst a = fst acc
        \/ (a = (false, snd acc)
            /\ up_to_date w (entry_repo e) (entry_name e) version = false
            /\ registry_fetch E (entry_repo e) (component_type w)
                 (entry_name e) version = None))
    /\ (up_to_date w (entry_repo e) (entry_name e) version = false ->
        registry_fetch E (entry_repo e) (component_type w) (entry_name e)
          version = None ->
        fst a = false).
Proof.
  destruct e as [[[repo name] sha'] p]. cbn [entry_repo entry_name].
  unfold update_entry. intros H. rewrite !bind_gets in H.
  erewrite bind_Ok in H; [|apply get_component_version_eq].
  fold (version_on_record w repo name) in H.
  apply bind_inv_Ok in H. destruct H as (d & w1 & Hd & H).
  destruct (@tempfile_mkdtemp_keeps _ _ _ Hd) as (A1 & I1 & C1 & _).
  apply bind_inv_Ok in H. destruct H as (version & w3 & Hv & H).
  destruct (@resolve_version_target E repo name sha' p _ w1 version w3 Hv)
    as (Ht & A2 & C2 & _).
  rewrite (@target_version_ext E w w1 _ A1 I1 C1) in Ht.
  exists version. split; [exact Ht|].
  unfold update_resolved in H. destruct acc as [ev aps].
  rewrite bind_gets in H.
  assert (Hup : is_some (version_on_record w repo name)
                && negb (force (args w3))
                && opt_str_eqb (version_on_record w repo name) (Some version)
                = up_to_date w repo name version).
  { unfold up_to_date. rewrite A2, A1. reflexivity. }
  rewrite Hup in H.
  destruct (up_to_date w repo name version) eqn:Eu.
  - apply bind_inv_Ok in H. destruct H as (u & w4 & _ & H).
    injection H as <- _. split; [left; reflexivity|discriminate].
  - apply bind_inv_Ok in H. destruct H as (staged & w4 & Hs & H).
    destruct staged; cbn [negb] in H.
    + split.
      * left. eapply update_staged_exit. exact H.
      * intros _ Hf. unfold install_component_files in Hs.
        rewrite bind_gets in Hs. rewrite C2, C1, Hf in Hs. discriminate.
    + injection H as <- _. split; [|reflexivity].
      right. split; [reflexivity|]. split; [reflexivity|].
      apply install_component_files_false in Hs. congruence.
Qed.

(** Lines 139-244: the loop returns with [exit_value] as it was, or false
    after one of its turns failed to fetch the files of its entry. *)
Lemma update_loop_exit_value E su plan :
  forall acc w acc' w',
    fold_M plan (update_entry E su) acc w = (Ok acc', w') ->
    fst acc' = fst acc
    \/ (fst acc' = false
        /\ exists pre e post acc1 w1 version,
             plan = pre ++ e :: post
             /\ fold_M pre (update_entry E su) acc w = (Ok acc1, w1)
             /\ target_version E w1 e = Some version
             /\ up_to_date w1 (entry_repo e) (entry_name e) version = false
             /\ registry_fetch E (entry_repo e) (component_type w1)
                  (entry_name e) version = None).
Proof.
  induction plan as [|entry plan IH]; intros acc w acc' w' H.
  - cbn in H. injection H as <- _. left; reflexivity.
  - cbn [fold_M] in H.
    apply bind_inv_Ok in H. destruct H as (acc1 & w1 & H1 & H).
    destruct (update_entry_exit_value _ _ _ _ _ H1)
      as (version & Ht & Hcase & _).
    apply IH in H.
    destruct H as [H|(H & pre & e & post & acc2 & w2 & v2 & Hp & Hpre & Hrest)].
    + destruct Hcase as [Hc|(Ha & Hup & Hf)].
      * left. congruence.
      * right. split; [rewrite H, Ha; reflexivity|].
        exists [], entry, plan, acc, w, version.
        repeat split; assumption.
    + right. split; [exact H|].
      exists (entry :: pre), e, post, acc2, w2, v2.
      split; [rewrite Hp; reflexivity|]. split; [|exact Hrest].
      cbn [fold_M]. erewrite bind_Ok; [|exact H1]. exact Hpre.
Qed.

(** Lines 139-265: a run that returns, returns [False] exactly when one
    of its turns failed to fetch the files of its entry. *)
Lemma update_entries_exit_value E su plan old w ev w' :
  update_entries E su plan old w = (Ok ev, w') ->
  ev = false
  <-> exists pre e post acc1 w1 version,
        plan = pre ++ e :: post
        /\ fold_M pre (update_entry E su) (true, true) w = (Ok acc1, w1)
        /\ target_version E w1 e = Some version
        /\ up_to_date w1 (entry_repo e) (entry_name e) version = false
        /\ registry_fetch E (entry_repo e) (component_type w1)
             (entry_name e) version = None.
Proof.
  intros H. unfold update_entries in H.
  apply bind_inv_Ok in H. destruct H as ([ev1 aps1] & w1 & Hloop & H).
  apply bind_inv_Ok in H. destruct H as (save & w2 & _ & H).
  apply bind_inv_Ok in H. destruct H as (u & w3 & _ & H).
  injection H as <- _. split.
  - intros ->. apply update_loop_exit_value in Hloop.
    destruct Hloop as [Hl|[_ Hl]]; [discriminate|exact Hl].
  - intros (pre & e & post & acc1 & wa & version & -> & Hpre & Ht & Hup & Hf).
    rewrite fold_M_app in Hloop. erewrite bind_Ok in Hloop; [|exact Hpre].
    cbn [fold_M] in Hloop.
    apply bind_inv_Ok in Hloop. destruct Hloop as ([ea pa] & wb & He & Hloop).
    destruct (update_entry_exit_value _ _ _ _ _ He) as (v' & Ht' & _ & Hfail).
    rewrite Ht in Ht'. injection Ht' as <-.
    specialize (Hfail Hup Hf). cbn [fst] in Hfail. subst ea.
    apply update_loop_sticky in Hloop. exact Hloop.
Qed.

(** C3.  When the recorded patch of an entry fails to apply to the staged
    files, in any mode: [try_apply_patch] returns [False], the patch file
    has left the pipeline and stands, with its text unchanged, in the
    staging directory, whose other files are the ones staged, and nothing
    is written to [modules.json]; the turn then goes on as the turn of an
    entry without a patch does on those staged files, with
    [all_patches_successful] cleared and [exit_value] as that turn leaves
    it.  Updated in place (a module of the repository of the command, used
    by no subworkflow), the turn returns with [exit_value] unchanged: the
    directory of the module holds the unpatched files of the new version
    and the patch file, the version is recorded in memory and on disk, and
    the run of that one entry returns [True].  And whatever happens to the
    patches of a run, a run that returns returns [False] exactly when one
    of its turns found its entry not up to date and could not fetch its
    files. *)
Theorem patch_failure_is_not_fatal :
  (forall E su ev aps repo name sha' pr dry cv D version w ptxt ts es rel es',
      let C := D ++ Path name in
      let cd := component_dir_of w (repo_path repo) name in
      let P := dir (args w) ++ pr in
      let scratch := tmp_root ++ [tmp_name (tmp_counter w)] in
      let full := [component_type w] ++ Path (repo_path repo) ++ Path name in
      fs_get (fs w) P = Some (File ptxt) ->
      patch_paths_ok E (component_type w) name ptxt = true ->
      fs_get (fs w) tmp_root = Some (Dir ts) ->
      dict_get (tmp_name (tmp_counter w)) ts = None ->
      fs_get (fs w) C = Some (Dir es) ->
      Path name <> [] ->
      apart scratch C -> apart scratch P -> apart P C ->
      relative_to P cd = Some rel ->
      differ_apply E ptxt (Dir es) = None ->
      fs_is_dir (Dir es) rel = false ->
      fs_put false (Dir es) rel (File ptxt) = Some (Dir es') ->
      exists w1,
        try_apply_patch E name (repo_path repo) pr cd C w = (Ok false, w1)
        /\ fs_get (fs w1) (C ++ rel) = Some (File ptxt)
        /\ fs_get (fs w1) P = None
        /\ (forall q, apart rel q ->
                      fs_get (fs w1) (C ++ q) = fs_get (Dir es) q)
        /\ mj w1 = mj w /\ mj_disk w1 = mj_disk w
        /\ update_staged E su (ev, aps) (repo, name, sha', Some pr) dry cv D
             version w
           = let w2 :=
               set_logs
                 (logs w1
                  ++ (WARNING, TxtPatchFailedProceed (component_type w) full)
                     :: (if dry then [(WARNING, TxtComparedUnpatched)]
                         else [])) w1 in
             let rest := update_staged E su (ev, aps) (repo, name, sha', None)
                           dry cv D version w2 in
             (patch_failed_result (fst rest), snd rest))
  /\ (forall E su repo name sha' pr w ts es es' old ptxt rel version w2
             old_modules_json,
         let pp := component_dir_of w (repo_path repo) name in
         let P := dir (args w) ++ pr in
         component_type w = "modules" ->
         show_diff_truthy (show_diff w) || save_diff_truthy (save_diff_fn w)
         = false ->
         remote_url repo = remote_url (modules_repo w) ->
         fs_get (fs w) tmp_root = Some (Dir ts) ->
         dict_get (tmp_name (tmp_counter w)) ts = None ->
         dict_get (tmp_name (S (tmp_counter w))) ts = None ->
         apart tmp_root pp ->
         fs_get (fs w) pp = Some (Dir old) ->
         relative_to P pp = Some rel ->
         fs_get (fs w) P = Some (File ptxt) ->
         patch_paths_ok E "modules" name ptxt = true ->
         Path name <> [] ->
         resolve_version E repo name sha' (version_on_record w repo name)
           (snd (tempfile_mkdtemp w)) = (Ok version, w2) ->
         up_to_date w repo name version = false ->
         registry_fetch E repo "modules" name version = Some es ->
         differ_apply E ptxt (Dir es) = None ->
         fs_is_dir (Dir es) rel = false ->
         fs_put false (Dir es) rel (File ptxt) = Some (Dir es') ->
         NoDup (dict_keys es') ->
         using_subworkflows w repo name = [] ->
         exists w',
           (forall ev aps,
               update_entry E su (ev, aps) (repo, name, sha', Some pr) w
               = (Ok (ev, false), w'))
           /\ update_entries E su [(repo, name, sha', Some pr)]
                old_modules_json w
              = (Ok true,
                 set_logs (logs w' ++ [(INFO, TxtCompleteApplyManually)]) w')
           /\ fs_get (fs w') P = Some (File ptxt)
           /\ (forall q, apart rel q ->
                         fs_get (fs w') (pp ++ q) = fs_get (Dir es) q)
           /\ (forall q, apart tmp_root q -> apart pp q ->
                         fs_get (fs w') q = fs_get (fs w) q)
           /\ version_on_record w' repo name = Some version
           /\ mj_disk w' = mj w')
  /\ (forall E su plan old_modules_json w exit_value w',
         update_entries E su plan old_modules_json w = (Ok exit_value, w') ->
         exit_value = false
         <-> exists pre e post acc w1 version,
               plan = pre ++ e :: post
               /\ fold_M pre (update_entry E su) (true, true) w = (Ok acc, w1)
               /\ target_version E w1 e = Some version
               /\ up_to_date w1 (entry_repo e) (entry_name e) version = false
               /\ registry_fetch E (entry_repo e) (component_type w1)
                    (entry_name e) version = None).
Proof.
  split; [|split].
  - intros E su ev aps repo name sha' pr dry cv D version w ptxt ts es rel es'
      C cd P scratch full HP Hok Hroot Hfresh Hstaged Hname HDC HDP HPC Hrel
      Happly Hnd Hput.
    destruct (@try_apply_patch_failure E name (repo_path repo) pr cd C w ptxt
                ts es rel es' HP Hok Hroot Hfresh Hstaged Hname HDC HDP HPC
                Hrel Happly Hnd Hput)
      as (w1 & Htry & H1 & H2 & H3 & H4 & H5).
    exists w1. repeat (split; [assumption|]).
    exact (@update_staged_after_failed_patch E su ev aps repo name sha' pr dry
             cv D version w w1 Htry).
  - intros E su repo name sha' pr w ts es es' old ptxt rel version w2 old_json
      pp P Hct Hsilent Hurl Hts Hfree1 Hfree2 Hap Hold Hrel HP Hok Hname Hv
      Hup Hfetch Happly Hnd Hput Hnodup Hsub.
    destruct (@failed_patch_turn_installs E su repo name sha' pr w ts es es'
                old ptxt rel version w2 Hct Hsilent Hurl Hts Hfree1 Hfree2 Hap
                Hold Hrel HP Hok Hname Hv Hup Hfetch Happly Hnd Hput Hnodup
                Hsub)
      as (w' & Hturn & Hpp & Hframe & Hver & Hdisk & _ & Hsave).
    fold pp in Hpp, Hframe.
    pose proof (relative_to_Some _ _ Hrel) as HPeq. fold pp in HPeq.
    exists w'. split; [exact Hturn|]. split; [|split; [|split]].
    + unfold update_entries. cbn [fold_M].
      unfold bind at 1. unfold bind at 1. rewrite (Hturn true true).
      cbn [ret]. rewrite bind_gets, Hsave.
      apply orb_false_elim in Hsilent. destruct Hsilent as [_ ->].
      cbn [negb]. rewrite bind_log. reflexivity.
    + rewrite HPeq, fs_get_app, Hpp. eapply fs_get_put_same. exact Hput.
    + intros q Hq. rewrite fs_get_app, Hpp.
      eapply fs_get_put_apart; eassumption.
    + repeat split; assumption.
  - intros E su plan old w ev w'. apply update_entries_exit_value.
Qed.

Lemma patch_failure_is_not_fatal_witness :
  let E := ex_env ex_catalog (fun _ _ => None) in
  let w := ex_alone_patched_world in
  let e := (ex_repo, "fastqc", @None string, Some ex_patch) in
  exists w',
    (forall ev aps,
        update_entry E (update E 5) (ev, aps) e w = (Ok (ev, false), w'))
    /\ update_entries E (update E 5) [e] (mj w) w
       = (Ok true,
          set_logs (logs w' ++ [(INFO, TxtCompleteApplyManually)]) w')
    /\ fs_get (fs w') (["pipeline"] ++ ex_patch) = Some (File "local changes")
    /\ (forall q, apart ["fastqc.diff"] q ->
          fs_get (fs w') (ex_component_dir ++ q)
          = fs_get (Dir [("main.nf", File "process fastqc v2")]) q)
    /\ (forall q, apart tmp_root q -> apart ex_component_dir q ->
          fs_get (fs w') q = fs_get (fs w) q)
    /\ version_on_record w' ex_repo "fastqc" = Some "9f8e7d"
    /\ mj_disk w' = mj w'.
Proof.
  intros E w e.
  apply (proj1 (proj2 patch_failure_is_not_fatal) E (update E 5) ex_repo
           "fastqc" None ex_patch w []
           [("main.nf", File "process fastqc v2")]
           [("main.nf", File "process fastqc v2");
            ("fastqc.diff", File "local changes")]
           [("main.nf", File "process FASTQC v1");
            ("fastqc.diff", File "local changes")]
           "local changes" ["fastqc.diff"] "9f8e7d"
           (snd (tempfile_mkdtemp w)) (mj w));
    try reflexivity.
  - split; reflexivity.
  - discriminate.
  - repeat constructor; simpl; intuition discriminate.
Defined.

(* ===================================================================== *)
(** * A module of another repository *)
(* ===================================================================== *)




(* ===================================================================== *)
(** * The diff and patch engine *)
(* ===================================================================== *)

Lemma str_app_assoc (a b c : string) : ((a ++ b) ++ c = a ++ b ++ c)%string.
Proof. induction a as [|x a IH]; simpl; [reflexivity|]. now rewrite IH. Qed.

Lemma dec_enc_nat n r : dec_nat (enc_nat n ++ r) = Some (n, r).
Proof.
  unfold enc_nat. induction n as [|n IH]; simpl; [reflexivity|].
  simpl in IH. rewrite IH. reflexivity.
Qed.

Lemma take_str_app s r : take_str (String.length s) (s ++ r) = Some (s, r).
Proof. induction s as [|c s IH]; simpl; [reflexivity|]. now rewrite IH. Qed.

Lemma dec_enc_str s r : dec_str (enc_str s ++ r) = Some (s, r).
Proof.
  unfold dec_str, enc_str. rewrite str_app_assoc, dec_enc_nat.
  apply take_str_app.
Qed.

Lemma dec_enc_all {A} (enc : A -> string) dec l :
  (forall x r, In x l -> dec (enc x ++ r)%string = Some (x, r)) ->
  forall r, dec_all dec (length l) (enc_all enc l ++ r) = Some (l, r).
Proof.
  induction l as [|x l IH]; intros H r; simpl; [reflexivity|].
  rewrite str_app_assoc, H by (left; reflexivity).
  rewrite IH by (intros; apply H; right; assumption). reflexivity.
Qed.

Lemma dec_enc_list {A} (enc : A -> string) dec l r :
  (forall x r, In x l -> dec (enc x ++ r)%string = Some (x, r)) ->
  dec_list dec (enc_list enc l ++ r) = Some (l, r).
Proof.
  intros H. unfold dec_list, enc_list.
  rewrite str_app_assoc, dec_enc_nat. apply dec_enc_all. exact H.
Qed.

Lemma dec_enc_old o r : dec_old (enc_old o ++ r) = Some (o, r).
Proof.
  destruct o as [s|]; simpl; [|reflexivity].
  change (String "+" (enc_str s ++ r)) with (String "+" (enc_str s ++ r)).
  rewrite dec_enc_str. reflexivity.
Qed.

Lemma dec_enc_hunk h r : dec_hunk (enc_hunk h ++ r) = Some (h, r).
Proof.
  destruct h as [[p old] new]. unfold dec_hunk, enc_hunk.
  rewrite !str_app_assoc.
  rewrite dec_enc_list by (intros; apply dec_enc_str).
  rewrite dec_enc_old, dec_enc_str. reflexivity.
Qed.

Lemma str_app_nil (s : string) : (s ++ "")%string = s.
Proof. induction s as [|c s IH]; simpl; [reflexivity|]. now rewrite IH. Qed.

(** A patch written as text is read back as it was. *)
Lemma dec_enc_patch hs : dec_patch (enc_patch hs) = Some hs.
Proof.
  unfold dec_patch, enc_patch.
  rewrite <- (str_app_nil (enc_list enc_hunk hs)).
  rewrite dec_enc_list by (intros; apply dec_enc_hunk). reflexivity.
Qed.

Lemma grown_refl : forall t, grown t t.
Proof.
  apply node_induction; [exact (fun _ => I)|].
  intros es H. cbn. induction H as [|[k c] es Hc _ IH]; cbn.
  - constructor.
  - auto.
Qed.
Lemma grown_entries_files es et :
  Forall (fun kc : string * node => exists c, snd kc = File c) es ->
  grown_entries grown es et ->
  Forall (fun kc : string * node => exists c, snd kc = File c) et.
Proof.
  intros H. revert et. induction H as [|[k s] es [c Hc] _ IH]; intros et.
  - cbn. auto.
  - destruct et as [|[k' t] et]; cbn; [contradiction|].
    intros (-> & Hst & Hg). cbn in Hc. subst s.
    constructor; [|apply IH; exact Hg].
    destruct t; [eexists; reflexivity|contradiction].
Qed.

Lemma grown_trans : forall s u t, grown s u -> grown u t -> grown s t.
Proof.
  intros s. pattern s. apply node_induction; clear s.
  - intros c [|] [|]; cbn; auto.
  - intros es H [c|eu] [c'|et]; cbn; auto; try contradiction.
    revert eu et. induction H as [|[k s] es Hs _ IH]; intros eu et.
    + cbn. apply grown_entries_files.
    + destruct eu as [|[k1 u] eu]; cbn; [contradiction|].
      destruct et as [|[k2 t] et]; cbn; [intros _ []|].
      intros (-> & Hsu & Hg) (-> & Hut & Hg').
      split; [reflexivity|]. split; [eapply Hs; eassumption|].
      eapply IH; eassumption.
Qed.

Lemma wf_tree_Dir es :
  wf_tree (Dir es)
  <-> NoDup (dict_keys es) /\ Forall (fun kc => wf_tree (snd kc)) es.
Proof.
  cbn. split; intros [Hn H]; (split; [exact Hn|]); clear Hn.
  - induction es as [|[k c] es IH]; [constructor|].
    destruct H as [Hc H]. constructor; [exact Hc|auto].
  - induction H as [|[k c] es Hc _ IH]; [exact I|]. split; assumption.
Qed.

Lemma grown_entries_set_present k c c' es :
  dict_get k es = Some c -> grown c c' ->
  grown_entries grown es (dict_set k c' es).
Proof.
  induction es as [|[k0 s] es IH]; cbn; [discriminate|].
  destruct (String.eqb_spec k k0) as [->|Hne].
  - intros [= ->] Hg. cbn. split; [reflexivity|]. split; [exact Hg|].
    apply (grown_refl (Dir es)).
  - intros Hget Hg. cbn. split; [reflexivity|].
    split; [apply grown_refl|auto].
Qed.

Lemma grown_entries_app_file es k c :
  grown_entries grown es (es ++ [(k, File c)]).
Proof.
  induction es as [|[k0 s] es IH]; cbn.
  - constructor; [eexists; reflexivity|constructor].
  - split; [reflexivity|]. split; [apply grown_refl|exact IH].
Qed.

Lemma dict_set_keys_present {V} k (v c : V) d :
  dict_get k d = Some c -> dict_keys (dict_set k v d) = dict_keys d.
Proof.
  induction d as [|[k0 v0] d IH]; cbn; [discriminate|].
  destruct (String.eqb_spec k k0) as [->|Hne]; [reflexivity|].
  intros H. cbn. f_equal. exact (IH H).
Qed.

Lemma Forall_dict_set {V} (P : string * V -> Prop) k v d :
  Forall P d -> (forall k', P (k', v)) -> Forall P (dict_set k v d).
Proof.
  intros H Hv. induction H as [|[k0 v0] d H0 Hd IH]; cbn.
  - constructor; [apply Hv|constructor].
  - destruct (String.eqb k k0); constructor; auto.
Qed.

(** One [open(f, "w")] in a tree: the result has grown from the tree and
    has no name twice when the tree had none. *)
Lemma tree_write_grown : forall f c s c',
  tree_write c f s = Some c' ->
  grown c c' /\ (wf_tree c -> wf_tree c').
Proof.
  unfold tree_write, fs_is_dir.
  induction f as [|x f IH]; intros c s c'.
  - cbn. destruct c as [a|es]; [|discriminate].
    intros H. injection H as H. subst c'. split; [exact I|auto].
  - destruct c as [a|es]; [cbn; discriminate|].
    cbn [fs_get fs_put].
    destruct (dict_get x es) as [ch|] eqn:Hget.
    + destruct (fs_get ch f) as [[b|eb]|] eqn:Hch; try discriminate.
      * destruct (fs_put false ch f (File s)) as [ch'|] eqn:Hput;
          [|discriminate].
        intros H. injection H as H. subst c'.
        destruct (IH ch s ch') as [Hg Hwf]; [rewrite Hch; exact Hput|].
        split; [cbn; eapply grown_entries_set_present; eassumption|].
        rewrite !wf_tree_Dir. intros [Hn Hall].
        split; [erewrite dict_set_keys_present; eassumption|].
        apply Forall_dict_set; [exact Hall|].
        intros k0. cbn [snd]. apply Hwf.
        rewrite Forall_forall in Hall.
        exact (Hall _ (dict_get_In _ _ Hget)).
      * destruct (fs_put false ch f (File s)) as [ch'|] eqn:Hput;
          [|discriminate].
        intros H. injection H as H. subst c'.
        destruct (IH ch s ch') as [Hg Hwf]; [rewrite Hch; exact Hput|].
        split; [cbn; eapply grown_entries_set_present; eassumption|].
        rewrite !wf_tree_Dir. intros [Hn Hall].
        split; [erewrite dict_set_keys_present; eassumption|].
        apply Forall_dict_set; [exact Hall|].
        intros k0. cbn [snd]. apply Hwf.
        rewrite Forall_forall in Hall.
        exact (Hall _ (dict_get_In _ _ Hget)).
    + destruct f as [|y f]; [|cbn; discriminate].
      cbn [fs_get fs_put is_nil orb].
      intros H. injection H as H. subst c'.
      rewrite (@dict_set_fresh _ _ _ _ Hget).
      split; [cbn; apply grown_entries_app_file|].
      rewrite !wf_tree_Dir. intros [Hn Hall]. split.
      * unfold dict_keys. rewrite map_app. cbn [map fst].
        apply NoDup_app; [exact Hn|constructor; [intros []|constructor]|].
        intros a Ha [<-|[]]. revert Ha. apply dict_get_None_keys. exact Hget.
      * apply Forall_app. split; [exact Hall|].
        constructor; [exact I|constructor].
Qed.

Lemma tree_write_all_grown : forall nf c c',
  tree_write_all nf c = Some c' -> wf_tree c -> grown c c' /\ wf_tree c'.
Proof.
  induction nf as [|fc nf IH]; cbn; intros c c'.
  - intros [= <-] H. split; [apply grown_refl|exact H].
  - destruct (tree_write c (fst fc) _) as [c1|] eqn:Hw; [|discriminate].
    intros Hall Hwf. destruct (tree_write_grown _ _ _ Hw) as [Hg Hwf1].
    destruct (IH _ _ Hall (Hwf1 Hwf)) as [Hg' Hwf'].
    split; [eapply grown_trans; eassumption|exact Hwf'].
Qed.

Lemma hunk_writes_engine s t :
  map hunk_file (engine_hunks s t) = hunk_writes s t.
Proof. unfold engine_hunks, hunk_writes. rewrite map_map. reflexivity. Qed.

Lemma files_of_cons k c es :
  files_of (Dir ((k, c) :: es))
  = map (fun pc => (k :: fst pc, snd pc)) (files_of c) ++ files_of (Dir es).
Proof. reflexivity. Qed.

Lemma file_at_cons es k p :
  file_at (Dir es) (k :: p)
  = match dict_get k es with Some c => file_at c p | None => None end.
Proof. unfold file_at. cbn. destruct (dict_get k es); reflexivity. Qed.

Lemma tree_write_all_app a b c :
  tree_write_all (a ++ b) c
  = match tree_write_all a c with
    | Some c' => tree_write_all b c'
    | None => None
    end.
Proof.
  revert c. induction a as [|x a IH]; intros c; cbn; [reflexivity|].
  destruct (tree_write c (fst x) _); [apply IH|reflexivity].
Qed.

Lemma tree_write_under k es c p s c' :
  dict_get k es = Some c -> tree_write c p s = Some c' ->
  tree_write (Dir es) (k :: p) s = Some (Dir (dict_set k c' es)).
Proof.
  unfold tree_write, fs_is_dir. intros Hget. cbn [fs_get fs_put].
  rewrite Hget. destruct (fs_get c p) as [[a|ea]|]; try discriminate;
    intros ->; reflexivity.
Qed.

Lemma dict_set_same_get {V} k (v : V) d :
  dict_get k d = Some v -> dict_set k v d = d.
Proof.
  induction d as [|[k0 v0] d IH]; cbn; [discriminate|].
  destruct (String.eqb_spec k k0) as [->|Hne].
  - intros [= ->]. reflexivity.
  - intros H. rewrite (IH H). reflexivity.
Qed.

Lemma dict_set_set {V} k (v v' : V) d :
  dict_set k v' (dict_set k v d) = dict_set k v' d.
Proof.
  induction d as [|[k0 v0] d IH]; cbn.
  - rewrite String.eqb_refl. reflexivity.
  - destruct (String.eqb_spec k k0) as [->|Hne]; cbn.
    + rewrite String.eqb_refl. reflexivity.
    + destruct (String.eqb_spec k k0); [contradiction|]. now rewrite IH.
Qed.

Lemma tree_write_all_under k : forall nf es c c',
  dict_get k es = Some c -> tree_write_all nf c = Some c' ->
  tree_write_all (map (fun fc => (k :: fst fc, snd fc)) nf) (Dir es)
  = Some (Dir (dict_set k c' es)).
Proof.
  induction nf as [|fc nf IH]; intros es c c' Hget;
    cbn [tree_write_all map fst snd].
  - intros [= <-]. rewrite (@dict_set_same_get _ _ _ _ Hget). reflexivity.
  - destruct (tree_write c (fst fc) _) as [c1|] eqn:Hw; [|discriminate].
    intros Hall.
    match goal with
    | |- match ?X with Some _ => _ | None => _ end = _ =>
        replace X with (Some (Dir (dict_set k c1 es)))
          by (symmetry; exact (@tree_write_under _ _ _ _ _ _ Hget Hw))
    end.
    rewrite (IH _ c1 c' (@dict_get_set_same _ _ _ _) Hall).
    rewrite dict_set_set. reflexivity.
Qed.

Lemma dict_get_app_l {V} k (pre d : dict V) :
  ~ In k (dict_keys pre) -> dict_get k (pre ++ d) = dict_get k d.
Proof.
  induction pre as [|[k0 v0] pre IH]; cbn; [reflexivity|].
  intros H. destruct (String.eqb_spec k k0) as [->|Hne].
  - destruct H. left; reflexivity.
  - apply IH. intros Hin. apply H. right; exact Hin.
Qed.

Lemma dict_set_app_mid {V} k (v v' : V) pre d :
  ~ In k (dict_keys pre) ->
  dict_set k v' (pre ++ (k, v) :: d) = pre ++ (k, v') :: d.
Proof.
  induction pre as [|[k0 v0] pre IH]; cbn.
  - rewrite String.eqb_refl. reflexivity.
  - intros H. destruct (String.eqb_spec k k0) as [->|Hne].
    + destruct H. left; reflexivity.
    + rewrite IH; [reflexivity|]. intros Hin. apply H. right; exact Hin.
Qed.

Lemma NoDup_app_mid_notin {A} (pre : list A) x post :
  NoDup (pre ++ x :: post) -> ~ In x pre /\ ~ In x post.
Proof.
  intros H. apply NoDup_remove_2 in H. split; intros Hin; apply H;
    apply in_or_app; auto.
Qed.

Lemma filter_map_swap {A B} (f : B -> bool) (g : A -> B) l :
  filter f (map g l) = map g (filter (fun x => f (g x)) l).
Proof.
  induction l as [|x l IH]; cbn; [reflexivity|].
  destruct (f (g x)); cbn; now rewrite IH.
Qed.

(** Files that the baseline does not have, written one after the other
    into a directory: they come last, in the order they are written. *)
Lemma tree_write_all_new s0 : forall new pre,
  Forall (fun kc : string * node => exists c, snd kc = File c) new ->
  (forall k, In k (dict_keys new) -> file_at s0 [k] = None) ->
  NoDup (dict_keys (pre ++ new)) ->
  tree_write_all (hunk_writes s0 (Dir new)) (Dir pre) = Some (Dir (pre ++ new)).
Proof.
  unfold hunk_writes.
  induction new as [|[k n] new IH]; intros pre Hf Hs0 Hn.
  - cbn. rewrite app_nil_r. reflexivity.
  - inversion Hf as [|? ? [c Hc] Hf']; subst. cbn in Hc. subst n.
    change (files_of (Dir ((k, File c) :: new)))
      with (([k], c) :: files_of (Dir new)).
    cbn [filter]. unfold changed at 1. cbn [fst snd].
    rewrite (Hs0 k) by (left; reflexivity). cbn [opt_str_eqb negb map].
    cbn [tree_write_all fst snd String.concat].
    unfold dict_keys in Hn. rewrite map_app in Hn. cbn [map fst] in Hn.
    destruct (@NoDup_app_mid_notin _ _ _ _ Hn) as [Hpre _].
    assert (Hget : dict_get k pre = None)
      by (apply dict_get_None_keys; exact Hpre).
    assert (Hw : tree_write (Dir pre) [k] c
                 = Some (Dir (pre ++ [(k, File c)]))).
    { unfold tree_write, fs_is_dir. cbn [fs_get fs_put]. rewrite Hget.
      cbn. rewrite (@dict_set_fresh _ _ _ _ Hget). reflexivity. }
    rewrite Hw.
    rewrite (IH (pre ++ [(k, File c)])); [|exact Hf'| |].
    + rewrite <- app_assoc. reflexivity.
    + intros k' Hk'. apply Hs0. right; exact Hk'.
    + unfold dict_keys. rewrite <- app_assoc, map_app. exact Hn.
Qed.

Lemma hunk_writes_under s0 k s t rest :
  (forall p, file_at s0 (k :: p) = file_at s p) ->
  hunk_writes s0 (Dir ((k, t) :: rest))
  = map (fun fc => (k :: fst fc, snd fc)) (hunk_writes s t)
    ++ hunk_writes s0 (Dir rest).
Proof.
  intros Hat. unfold hunk_writes. rewrite files_of_cons, filter_app, map_app.
  f_equal. rewrite filter_map_swap, !map_map. cbn [fst snd].
  f_equal. apply filter_ext. intros [p c]. unfold changed. cbn [fst snd].
  rewrite Hat. reflexivity.
Qed.

(** The entries of a directory, one after the other: the hunks of the
    diff, written in their order, turn each entry of the baseline into
    that of the target and then add what is new. *)
Lemma regrow_entries s0 : forall es,
  Forall (fun kc : string * node =>
            forall t, grown (snd kc) t -> wf_tree t ->
                      tree_write_all (hunk_writes (snd kc) t) (snd kc)
                      = Some t) es ->
  forall et pre,
    grown_entries grown es et ->
    (forall k p, ~ In k (dict_keys pre) ->
                 file_at s0 (k :: p) = file_at (Dir es) (k :: p)) ->
    NoDup (dict_keys (pre ++ et)) ->
    Forall (fun kc => wf_tree (snd kc)) et ->
    tree_write_all (hunk_writes s0 (Dir et)) (Dir (pre ++ es))
    = Some (Dir (pre ++ et)).
Proof.
  intros es H. induction H as [|[k s] es Hs _ IH]; intros et pre Hg Hat Hn Hwf.
  - rewrite app_nil_r. apply tree_write_all_new; [exact Hg| |exact Hn].
    intros k Hk. rewrite Hat; [reflexivity|].
    unfold dict_keys in Hn. rewrite map_app in Hn.
    intros Hin. revert Hk. clear -Hn Hin.
    induction pre as [|x pre IHp]; [destruct Hin|].
    cbn in Hn. inversion Hn as [|? ? Hx Hn']; subst.
    destruct Hin as [<-|Hin].
    + intros Hk. apply Hx. apply in_or_app. right; exact Hk.
    + apply IHp; assumption.
  - destruct et as [|[k' t] et]; [destruct Hg|].
    destruct Hg as (<- & Hst & Hg). cbn [snd] in Hs.
    inversion Hwf as [|? ? Ht Hwf']; subst. cbn [snd] in Ht.
    unfold dict_keys in Hn. rewrite map_app in Hn. cbn [map fst] in Hn.
    destruct (@NoDup_app_mid_notin _ _ _ _ Hn) as [Hpre _].
    rewrite (@hunk_writes_under s0 k s t et).
    2:{ intros p. rewrite (Hat k p Hpre), file_at_cons. cbn [dict_get].
        rewrite String.eqb_refl. reflexivity. }
    rewrite tree_write_all_app.
    rewrite (@tree_write_all_under k _ (pre ++ (k, s) :: es) s t).
    2:{ rewrite dict_get_app_l by exact Hpre. cbn [dict_get].
        rewrite String.eqb_refl. reflexivity. }
    2:{ apply Hs; assumption. }
    rewrite dict_set_app_mid by exact Hpre.
    replace (pre ++ (k, t) :: es) with ((pre ++ [(k, t)]) ++ es)
      by (rewrite <- app_assoc; reflexivity).
    replace (pre ++ (k, t) :: et) with ((pre ++ [(k, t)]) ++ et)
      by (rewrite <- app_assoc; reflexivity).
    apply IH; [exact Hg| | |exact Hwf'].
    + intros k' p Hk'.
      assert (Hne : k' <> k).
      { intros ->. apply Hk'. unfold dict_keys. rewrite map_app.
        apply in_or_app. right. left. reflexivity. }
      rewrite Hat.
      * rewrite !file_at_cons. cbn [dict_get].
        destruct (String.eqb_spec k' k); [contradiction|reflexivity].
      * intros Hin. apply Hk'. unfold dict_keys. rewrite map_app.
        apply in_or_app. left. exact Hin.
    + unfold dict_keys. rewrite <- app_assoc, map_app. exact Hn.
Qed.

(** The hunks of the diff of a baseline and a tree grown from it, written
    into the baseline in their order, give the tree. *)
Lemma regrow : forall s t,
  grown s t -> wf_tree t -> tree_write_all (hunk_writes s t) s = Some t.
Proof.
  intros s. pattern s. apply node_induction; clear s.
  - intros a [b|et]; [|intros []]. intros _ _.
    unfold hunk_writes, changed, file_at. cbn.
    destruct (String.eqb_spec a b) as [->|Hne]; reflexivity.
  - intros es H [b|et]; [intros []|]. intros Hg Hwf.
    apply wf_tree_Dir in Hwf. destruct Hwf as [Hn Hwf].
    apply (@regrow_entries (Dir es) es H et []); auto.
Qed.

(** The round trip: what the engine gives as the diff of a baseline and a
    tree grown from it applies to the baseline and gives the tree. *)
Lemma engine_round_trip h s t :
  grown s t -> wf_tree t ->
  exists new_files,
    engine_apply (engine_diff h (Some s) (Some t)) s = Some new_files
    /\ tree_write_all new_files s = Some t.
Proof.
  intros Hg Hwf. exists (hunk_writes s t). split; [|apply regrow; assumption].
  unfold engine_apply, engine_diff. cbn [or_empty_dir].
  rewrite dec_enc_patch, hunk_writes_engine.
  replace (forallb (hunk_applies s) (engine_hunks s t)) with true;
    [reflexivity|].
  symmetry. apply forallb_forall. intros [[p old] new] Hin.
  unfold engine_hunks in Hin. apply in_map_iff in Hin.
  destruct Hin as ([p' c] & Heq & _). cbn [fst snd] in Heq.
  injection Heq as <- <- <-. cbn.
  destruct (file_at s p'); cbn; [apply String.eqb_refl|reflexivity].
Qed.

(* ===================================================================== *)
(** * A patch that applies *)
(* ===================================================================== *)

(** C6.  When the recorded patch applies to the staged files [S] and the
    patched files give the tree [T]: [try_apply_patch] returns [True]; the
    staging directory then holds [T] together with a patch file whose text
    is the diff from [S] (the pristine staged content) to [T] (the patched
    scratch copy); the patch path is recorded in [modules.json], in memory
    and on disk.  Consequently, with the diff and patch engine of section 6
    and staged files that have no name twice in a directory, applying the
    patch file now in the staging directory to [S] succeeds and gives [T]
    again, file for file and text for text. *)
Theorem patch_success_regenerates E name rp pr cd C w ptxt ts es nf T rel es' :
  let P := dir (args w) ++ pr in
  let D := tmp_root ++ [tmp_name (tmp_counter w)] in
  let h := patch_diff_header (component_type w) name rp in
  let regenerated := differ_diff E h (Some (Dir es)) (Some T) in
  let url := remote_url (modules_repo w) in
  fs_get (fs w) P = Some (File ptxt) ->
  patch_paths_ok E (component_type w) name ptxt = true ->
  fs_get (fs w) tmp_root = Some (Dir ts) ->
  dict_get (tmp_name (tmp_counter w)) ts = None ->
  fs_get (fs w) C = Some (Dir es) ->
  Path name <> [] ->
  apart D C -> apart D P ->
  relative_to P cd = Some rel ->
  differ_apply E ptxt (Dir es) = Some nf ->
  tree_write_all nf (Dir es) = Some T ->
  tree_write T rel regenerated = Some (Dir es') ->
  exists w',
    try_apply_patch E name rp pr cd C w = (Ok true, w')
    /\ fs_get (fs w') (C ++ rel) = Some (File regenerated)
    /\ (forall q, apart rel q -> fs_get (fs w') (C ++ q) = fs_get T q)
    /\ (exists r, mj_lookup (mj w') url patch_component_type rp name = Some r
                  /\ patch r = Some pr)
    /\ mj_disk w' = mj w'
    /\ (spec_engine E -> wf_tree (Dir es) ->
        exists patch_text new_files,
          fs_get (fs w') (C ++ rel) = Some (File patch_text)
          /\ differ_apply E patch_text (Dir es) = Some new_files
          /\ tree_write_all new_files (Dir es) = Some T).
Proof.
  intros P D h regenerated url HP Hok Hroot Hfresh Hstaged Hname HDC HDP Hrel
    Happly Hwrite Hpatch.
  destruct (@try_apply_patch_prefix E name rp pr cd C w ptxt ts es HP Hok
              Hroot Hfresh Hstaged Hname HDC HDP)
    as (w2 & Heq & HP2 & Hs2 & HC2 & _ & Hmj2 & _ & Hct2 & Hrepo2).
  fold P D in Heq, HP2, Hs2. rewrite Heq.
  destruct (@apply_patch_in_ok E name rp pr P cd C (D ++ Path name) w2 ptxt
              es nf T rel es' HP2 Hs2 HC2 (apart_app_l (Path name) HDC)
              Happly Hwrite Hrel)
    as (w' & Hrun & HC' & _ & Hmj' & Hdisk' & _).
  { rewrite Hct2. exact Hpatch. }
  destruct (tree_write_get _ _ _ Hpatch) as [Hfile Hframe].
  exists w'. split; [exact Hrun|].
  assert (Hfile' : fs_get (fs w') (C ++ rel) = Some (File regenerated))
    by (rewrite fs_get_app, HC'; exact Hfile).
  split; [exact Hfile'|].
  split; [intros q Hq; rewrite fs_get_app, HC'; apply Hframe; exact Hq|].
  split.
  { eexists. rewrite Hmj', Hrepo2. fold url.
    split; [apply mj_lookup_store_same|reflexivity]. }
  split; [exact Hdisk'|].
  intros [Hdiff Hap] Hwf.
  destruct (tree_write_all_grown _ _ Hwrite Hwf) as [Hg HwfT].
  destruct (@engine_round_trip h (Dir es) T Hg HwfT) as (nf' & Ha & Hw).
  exists regenerated, nf'. split; [exact Hfile'|].
  split; [|exact Hw].
  unfold regenerated. rewrite Hdiff, Hap. exact Ha.
Qed.

Lemma patch_success_regenerates_witness :
  let E := ex_engine_env in
  let S := Dir [("main.nf", File "process fastqc v2")] in
  let T := Dir [("main.nf", File "process fastqc v2 with local changes")] in
  let h := patch_diff_header "modules" "fastqc" "nf-core" in
  engine_apply ex_local_patch S
  = Some [(["main.nf"], ["process fastqc v2 with local changes"])]
  /\ exists w',
    try_apply_patch E "fastqc" "nf-core" ex_patch ex_component_dir
      ex_install_dir ex_engine_world = (Ok true, w')
    /\ fs_get (fs w') (ex_install_dir ++ ["fastqc.diff"])
       = Some (File (engine_diff h (Some S) (Some T)))
    /\ (forall q, apart ["fastqc.diff"] q ->
          fs_get (fs w') (ex_install_dir ++ q) = fs_get T q)
    /\ (exists r, mj_lookup (mj w') ex_url patch_component_type "nf-core"
                    "fastqc" = Some r
                  /\ patch r = Some ex_patch)
    /\ mj_disk w' = mj w'
    /\ exists patch_text new_files,
          fs_get (fs w') (ex_install_dir ++ ["fastqc.diff"])
          = Some (File patch_text)
          /\ engine_apply patch_text S = Some new_files
          /\ tree_write_all new_files S = Some T.
Proof.
  intros E S T h. split; [reflexivity|].
  destruct (@patch_success_regenerates E "fastqc" "nf-core" ex_patch
              ex_component_dir ex_install_dir ex_engine_world
              ex_local_patch
              [("tmp", Dir [("fastqc",
                             Dir [("main.nf", File "process fastqc v2")])])]
              [("main.nf", File "process fastqc v2")]
              [(["main.nf"], ["process fastqc v2 with local changes"])]
              T ["fastqc.diff"]
              [("main.nf", File "process fastqc v2 with local changes");
               ("fastqc.diff", File (engine_diff h (Some S) (Some T)))])
    as (w' & H1 & H2 & H3 & H4 & H5 & H6);
    try reflexivity; try discriminate; try (split; reflexivity).
  exists w'. split; [exact H1|]. split; [exact H2|]. split; [exact H3|].
  split; [exact H4|]. split; [exact H5|].
  apply H6.
  - split; reflexivity.
  - cbn. repeat constructor. intros [].
Defined.
